(* ===== verification/_CoqProject ===== *)
-Q . S2P
Prelude.v
Hex.v
Text.v
Keccak.v
Core.v
Net.v
Codec.v
CoreJson.v
PostExec.v
Storage.v
Mempool.v
Exec.v
Chain.v
Rpc.v
ExeForCnsss.v
Consensus.v
Rbft.v
RbftVotes.v
RbftCluster.v
RbftFaulty.v
RbftView.v
Raft.v
RaftCluster.v
RaftElection.v
RaftReplication.v
ListenToOne.v
Evmc.v
Words.v
Intx.v
IntxDiv.v
IntxUdivrem.v
IntxOps.v
IntxText.v
IntxBytes.v
EvmTraits.v
EvmAnalysis.v
EvmEof.v
EvmEofCode.v
EvmEofContainer.v
EvmState.v
EvmInstructions.v
EvmBaseline.v
EvmLogic.v
EvmJumps.v
EvmSpec.v
EvmSafety.v
EvmLoop.v
EvmSteady.v
EvmEofRun.v
EvmHost.v
EvmAsks.v
EvmTx.v
Div2.v
Replicas.v
System.v
