(* ===== verification/Prelude.v ===== *)
(** * The weak chain, verified

    src/weak is a small permissioned block chain in C++.  Clients post
    transactions to an RPC server; the consensus nodes agree on commands, which
    carry transactions for the pool or a block to execute; executed blocks are
    committed to a key-value store that the RPC reads.  This library models the
    program's own logic and proves what makes it work.  (File and function
    names below are under src/weak/include unless a path is given.)

    ** The parts and their models

    - [Prelude.v] - bytes, strings, machine integers with their wrap-around
      ([u8], [u64], [i32], [i64]), and C++ computations: [outcome] is a value, an
      exception, or undefined behaviour ([UB], which includes [std::terminate]
      and relocking a mutex).  Shared lemmas, hint databases, tactics.
    - [Hex.v], [Text.v], [Keccak.v] - evmc's hex coding (hex.hpp), decimal text
      and splitting, and keccak256 (pkgs/ethash-1.0.1/lib/keccak/keccak.c).
    - [Core.v] - core0.hpp/.cpp: [Tx], [Acn], [Blk], their hash, order,
      addresses and protobuf conversions.  [Codec.v], [CoreJson.v] - what is used
      of boost::json and protobuf, the JSON conversions and the parsing of
      client requests.
    - [Net.v] - net/pure-netAsstn.hpp: the three-string envelope and the message
      managers [NaiveMsgMgr] and [SslMsgMgr] behind the interface
      [IMsgManageable]; [delivers] is what consensus needs of them.
    - [PostExec.v] - forPostExec.hpp: executed blocks, receipts, journals.
    - [Storage.v] - storageManager.hpp: the in-memory and the RocksDB storage
      behind the interface [IWorld] with its laws [IWorldLaws].
    - [Mempool.v] - cnsss/mempool.hpp and cnsss/sealer.hpp behind [IPool] and
      [IPoolLaws]; consensus blocks (cnsss/forCnsss.hpp).
    - [Exec.v] - txVerifier.hpp and execManager.hpp: verification, execution and
      commit of a block.  [Chain.v] - the abstract chain and [represents], the
      relation between it and the chain database.  [Rpc.v] - rpc.hpp and
      init/init.hpp: queries, requests, restart.
    - [ExeForCnsss.v] - cnsss/exeForCnsss.hpp: what a command does to a node,
      for the normal and the light executor; [node_inv] and [reachable].
    - [Consensus.v] - cnsss/pure-forCnsss.hpp: [IForConsensusExecutable], the
      monad [stM] of message handlers (an exception keeps the changes made
      before it), [std::set<string>] as an increasing list.
    - [Rbft.v] - cnsss/pure-rbft.hpp: the record [Rbft] of a node and every
      operation.  [RbftVotes.v] - the command path refines the counting
      specification [Abs].  [RbftCluster.v] - a cluster as a step relation
      [step]: any delivery order, losses, timers, faulty senders.
      [RbftFaulty.v], [RbftView.v] - faulty nodes, view changes.
    - [Raft.v] - cnsss/pure-raft.hpp: the record [Raft] of a node, a step per
      handler, turn of the timer and turn of the thread of the primary.
      [RaftCluster.v] - the cluster as a step relation and its executable
      schedules.  [RaftElection.v], [RaftReplication.v] - elections, commands.
    - [ListenToOne.v] - cnsss/pure-listenToOne.hpp: one fixed primary, over a
      network whose calls return answers, so that nodes are called while they
      wait: the group is one state.
    - [Evmc.v] - evmc.h: messages, results, and a machine as a tree of requests to
      its host ([VmProg]), with contracts for both sides ([prog_ok]).  The
      interpreter (pkgs/evmweak): [Words.v] - 256-bit numbers (pkgs/intx-0.10.0);
      [EvmTraits.v] - tables of instructions; [EvmAnalysis.v] - analysis of code;
      [EvmState.v] - the machine and its monad; [EvmInstructions.v] - every
      instruction; [EvmBaseline.v] - the loop.  Its theory: [EvmLogic.v] - a rule
      per primitive; [EvmJumps.v], [EvmSpec.v] - references for the analysis and
      the arithmetic; [EvmSafety.v], [EvmLoop.v] - every instruction, and then
      the loop, keeps the machine well formed and ends; [EvmAsks.v] - what any
      code at all asks the host.
    - [EvmEof.v] - pkgs/evmweak/eof.cpp: the validation of EOF containers, which
      the program has but does not call.  What valid means: [EvmEofCode.v] for a
      code section, [EvmEofContainer.v] for the whole container.  [EvmSteady.v],
      [EvmEofRun.v] - how the interpreter runs what was validated.
    - pkgs/intx-0.10.0/include/intx/intx.hpp on lists of 64-bit words: [Intx.v] -
      carries, shifts, products; [IntxDiv.v], [IntxUdivrem.v] - division;
      [IntxOps.v] - the interface [Uint256] of the interpreter, for numbers and
      for words; [IntxText.v], [IntxBytes.v] - text and byte order.
    - [EvmHost.v] - evmExecutor.hpp: the host [WeakEvmHost] over a world, the
      recursive executor of messages, journals.  [Div2.v] - div2Executor.hpp:
      the choice of executor and the contracts in python.  [EvmTx.v] - host and
      interpreter together, with examples of deployed contracts.
    - [Replicas.v] - the executors keep the contract that the consensus asks of
      them ([IForConsensusExecutableContract]); replicas under Raft.
      [System.v] - cnsss/cnsssBlkChainAsstn.hpp and the loop of the sealer; a
      group of whole nodes under listen-to-one.
    ** What is shown

    - Blocks and state: as long as blocks carry consecutive numbers, no
      transaction is executed twice and the chain database is the abstract chain
      ([node_safety], [commit_refines]); queries and restart read it back
      ([rpc_answers], [restart_restores]); what a sealer with the next number
      makes commits ([seal_and_convert], [sealed_block_commits]); replicas of the
      light executor agree ([light_replicas_agree]), until one takes over
      ([light_takeover_reuses_number]).
    - Input: requests, signatures and messages ([rpc_request_sound],
      [TxVerifier_sound], [SslMsgMgr_authentic]); every command is answered
      ([execute_answers]).
    - Round trips of every stored or transmitted form; the order and identity
      of transactions.
    - RBFT: in any schedule without time-outs, losses and faulty nodes, commands
      that are pairwise different are executed exactly once by every node, within
      a bounded number of messages ([rbft_exactly_once], [rbft_terminates]); in
      any run at all, faulty nodes cannot make the honest nodes of the
      configuration execute invented commands ([rbft_no_forgery]); time-outs
      elect a primary that the others follow ([rbft_view_change]).  What the
      protocol does not guarantee is proved too: [rbft_order_not_agreed],
      [rbft_executes_twice], [repeated_command], [newcomer_believes], and the
      examples at the end of [RbftView.v].
    - The whole system: a group of nodes keeps one chain, in which every given
      transaction appears at most once and is not lost
      ([group_keeps_one_chain]); replicas follow ([executors_keep_contract],
      [raft_replicas_agree]).
    - Raft: one primary per term in clusters of odd size without early
      complaints ([raft_election_safety]), elections succeed ([raft_elects]),
      and followers execute what the primary does, in its order
      ([raft_replicates]); both conditions are needed:
      [even_cluster_two_primaries], [early_complaint_two_primaries].
    - Listen-to-one: members follow the primary ([listenToOne_replicates]), with
      [rejoined_executes_twice], [member_down_undefined] for what breaks it.
    - The EVM: legacy code without EOF instructions, with a host that answers as
      it should, runs defined, within its bounds, and ends ([evmweak_safe],
      [iterate_well_formed]); so do transactions without calls on the program's
      own host ([evmweak_executes]), which does not answer as it should
      ([call_of_nobody_overflows]).  Jump destinations and arithmetic
      are what they should be ([analyze_jumpdests_reference],
      [word_instructions_reference]), and so are valid EOF containers
      ([validate_eof_reference]), which then run safely
      ([validated_container_runs]); the words of intx, with reciprocals and
      Knuth's division, compute those numbers ([intx_refines_words],
      [udivrem_correct], [reciprocals_exact], [from_string_to_string]).
    - Executors: whatever the code, nesting is bounded, and if a transaction
      returns then its journal writes what the host holds ([evm_executes]);
      arguments of python contracts
      ([checkAndPrepareArgs_spec]).
    ** Parameters, bounds and fuel

    Third-party code is a parameter with named laws: OpenSSL ([OpenSSLLaws]),
    protobuf and JSON text ([PbCodec], [JsonCodec]), RocksDB (in [Storage.v]);
    each has a concrete instance (the modules named Toy...) on which the
    witnesses are evaluated.  The virtual machine of
    the host is an argument in EvmHost, a function to a finite tree of requests
    ([VmProg]), and in EvmTx the interpreter.  Its loop has fuel, [enough_fuel],
    at least 2^63 turns, proved enough under the conditions of [evmweak_safe]; with
    a host that gives back more gas than it got, a longer run counts as
    undefined.  The
    python interpreter is a function on the files of the working directory.
    [execMsg] takes fuel for nested calls: 1025 is enough, since the
    interpreter nests at most 1024 calls, whatever the code ([evm_executes]).  Sizes that the code keeps in
    [int] or [size_t] are bounded in the theorems that need it ([fits]: a
    cluster has fewer than 2^31 nodes; [view_bounds]: the epoch fits an [int]).
    Loops are structural recursion on the data they walk over; no definition
    uses fuel except where its file says how much is enough.  The handler of a
    message runs as one step: the sets of votes are updated under one lock.

    ** Not modelled

    Socket servers and clients, command-line options, logging text, threads
    other than as interleaved steps, the advanced interpreter of the EVM with
    its tracing, vendored libraries beyond hex.hpp, keccak.c, intx and the interpreter, and the unused
    first draft pure-0bft.hpp.  Of intx: signed 128-bit division, literals,
    little-endian loads; the instructions are defined on numbers, which the
    words of intx compute ([intx_refines_words]). *)
From Stdlib Require Import ZArith Strings.Byte Strings.String Strings.Ascii Lia.
From stdpp Require Import base tactics decidable countable list strings gmap option numbers.

#[export] Set Warnings "-clear-no-such-hyp".

Create HintDb wch.
Create Rewrite HintDb wch_simpl.

(** ** Bytes

    [uint8_t] and [char] are the 256-element type [Byte.byte]; a number is
    read from a byte with [byte_to_Z] and written to one, modulo 256, with
    [byte_of_Z] (the C++ conversion to [uint8_t]). *)
Abbreviation byte := Byte.byte.

Definition byte_to_Z (b : byte) : Z := Z.of_N (Byte.to_N b).
Definition byte_of_Z (z : Z) : byte :=
  match Byte.of_N (Z.to_N (z mod 256)) with Some b => b | None => x00 end.

#[global] Instance byte_eq_dec : EqDecision byte := Byte.byte_eq_dec.
#[global] Program Instance byte_countable : Countable byte :=
  inj_countable Byte.to_N Byte.of_N _.
Next Obligation. intros x. apply Byte.of_to_N. Qed.

Lemma byte_to_Z_range b : (0 <= byte_to_Z b < 256)%Z.
Proof. unfold byte_to_Z. pose proof (Byte.to_N_bounded b). lia. Qed.

Lemma byte_to_of_Z z : byte_to_Z (byte_of_Z z) = (z mod 256)%Z.
Proof.
  unfold byte_to_Z, byte_of_Z.
  pose proof (Z.mod_pos_bound z 256 ltac:(lia)) as Hz.
  destruct (Byte.of_N (Z.to_N (z mod 256))) as [b|] eqn:E.
  - apply Byte.to_of_N in E. rewrite E. lia.
  - apply Byte.of_N_None_iff in E. lia.
Qed.

Lemma byte_to_Z_inj b1 b2 : byte_to_Z b1 = byte_to_Z b2 → b1 = b2.
Proof.
  unfold byte_to_Z. intros H%N2Z.inj.
  apply (f_equal Byte.of_N) in H. rewrite !Byte.of_to_N in H. congruence.
Qed.

Lemma byte_of_to_Z b : byte_of_Z (byte_to_Z b) = b.
Proof.
  apply byte_to_Z_inj. rewrite byte_to_of_Z. pose proof (byte_to_Z_range b).
  by apply Z.mod_small.
Qed.

Lemma byte_of_Z_mod z : byte_of_Z (z mod 256) = byte_of_Z z.
Proof. apply byte_to_Z_inj. by rewrite !byte_to_of_Z, Zmod_mod. Qed.

#[export] Hint Rewrite byte_to_of_Z byte_of_to_Z : wch_simpl.

(** ** Byte strings

    [std::string] and [std::string_view] are sequences of 8-bit characters:
    [String.string].  [evmc::bytes] and the fixed-size arrays ([evmc::address],
    [evmc::bytes32], [ethash::hash256]) are lists of bytes.  The casts
    [weak::toString] and [weak::bytesFromString] reinterpret one as the other. *)
Abbreviation bytes := (list byte).

Definition str (b : bytes) : string := string_of_list_byte b.
Definition unstr (s : string) : bytes := list_byte_of_string s.

Arguments str : simpl never.
Arguments unstr : simpl never.

Lemma unstr_str b : unstr (str b) = b.
Proof. apply list_byte_of_string_of_list_byte. Qed.
Lemma str_unstr s : str (unstr s) = s.
Proof. apply string_of_list_byte_of_string. Qed.
#[global] Instance str_inj : Inj (=) (=) str.
Proof. intros a b H%(f_equal unstr). by rewrite !unstr_str in H. Qed.
#[global] Instance unstr_inj : Inj (=) (=) unstr.
Proof. intros a b H%(f_equal str). by rewrite !str_unstr in H. Qed.
#[export] Hint Rewrite unstr_str str_unstr : wch_simpl.

Lemma str_app a b : str (a ++ b) = str a +:+ str b.
Proof.
  induction a as [|x a IH]; [done|].
  change (str ((x :: a) ++ b)) with (String (Ascii.ascii_of_byte x) (str (a ++ b))).
  by rewrite IH.
Qed.
Lemma unstr_app s t : unstr (s +:+ t) = unstr s ++ unstr t.
Proof. apply (inj str). by rewrite str_app, !str_unstr. Qed.
Lemma length_str b : String.length (str b) = length b.
Proof.
  induction b as [|x b IH]; [done|].
  change (str (x :: b)) with (String (Ascii.ascii_of_byte x) (str b)).
  simpl. by rewrite IH.
Qed.
Lemma length_unstr s : length (unstr s) = String.length s.
Proof. by rewrite <-length_str, str_unstr. Qed.
#[export] Hint Rewrite str_app unstr_app length_str length_unstr : wch_simpl.

Lemma string_app_cons c s t : String c s +:+ t = String c (s +:+ t).
Proof. done. Qed.
Lemma string_app_nil t : "" +:+ t = t.
Proof. done. Qed.
#[export] Hint Rewrite string_app_cons string_app_nil : wch_simpl.
Lemma string_app_inj_l s t1 t2 : s +:+ t1 = s +:+ t2 → t1 = t2.
Proof. intros H%(f_equal unstr). rewrite !unstr_app in H. simplify_list_eq. by apply (inj unstr). Qed.

(** ** Machine integers

    A [w]-bit unsigned integer is a [Z] in [[0, 2^w)], a signed one a [Z] in
    [[-2^(w-1), 2^(w-1))]; every conversion that the code makes is written out. *)
Definition wrapu (w : Z) (z : Z) : Z := (z mod 2 ^ w)%Z.
Definition wraps (w : Z) (z : Z) : Z := ((z + 2 ^ (w - 1)) mod 2 ^ w - 2 ^ (w - 1))%Z.
Definition u8 : Z → Z := wrapu 8.
Definition u64 : Z → Z := wrapu 64.
Definition i32 : Z → Z := wraps 32.
Definition i64 : Z → Z := wraps 64.
Arguments u8 : simpl never.
Arguments u64 : simpl never.
Arguments i32 : simpl never.
Arguments i64 : simpl never.
Definition is_u64 (z : Z) : Prop := (0 <= z < 2 ^ 64)%Z.
Definition is_i32 (z : Z) : Prop := (- 2 ^ 31 <= z < 2 ^ 31)%Z.
Definition is_i64 (z : Z) : Prop := (- 2 ^ 63 <= z < 2 ^ 63)%Z.

Lemma u64_range z : is_u64 (u64 z).
Proof. apply Z.mod_pos_bound. lia. Qed.
Lemma u64_small z : is_u64 z → u64 z = z.
Proof. apply Z.mod_small. Qed.
Lemma i32_range z : is_i32 (i32 z).
Proof.
  unfold is_i32, i32, wraps. change (32 - 1)%Z with 31%Z.
  pose proof (Z.mod_pos_bound (z + 2 ^ 31) (2 ^ 32) ltac:(lia)). lia.
Qed.
Lemma i32_small z : is_i32 z → i32 z = z.
Proof.
  unfold is_i32, i32, wraps. intros. change (32 - 1)%Z with 31%Z.
  rewrite Z.mod_small; lia.
Qed.
Lemma i64_range z : is_i64 (i64 z).
Proof.
  unfold is_i64, i64, wraps. change (64 - 1)%Z with 63%Z.
  pose proof (Z.mod_pos_bound (z + 2 ^ 63) (2 ^ 64) ltac:(lia)). lia.
Qed.
Lemma i64_u64 z : is_i64 z → i64 (u64 z) = z.
Proof.
  intros H. unfold i64, wraps, u64, wrapu. rewrite Zplus_mod_idemp_l.
  unfold is_i64 in H. change (64 - 1)%Z with 63%Z. rewrite Z.mod_small; lia.
Qed.
Lemma i64_small z : is_i64 z → i64 z = z.
Proof.
  unfold is_i64, i64, wraps. intros. change (64 - 1)%Z with 63%Z.
  rewrite Z.mod_small; lia.
Qed.
Lemma u64_i64 z : u64 (i64 z) = u64 z.
Proof.
  unfold u64, i64, wrapu, wraps. change (64 - 1)%Z with 63%Z.
  rewrite Zminus_mod, Zmod_mod, <-Zminus_mod. f_equal. lia.
Qed.
#[export] Hint Resolve u64_range i32_range i64_range : wch.

(** ** C++ computations

    A call returns a value, throws an exception, or has no defined
    continuation: undefined behaviour (an out-of-range iterator, a
    [std::mutex] locked twice by its owner), or [std::terminate] when an
    exception reaches the end of a [noexcept] function. *)
Inductive exn :=
  | runtime_error (what : string)
  | my_assertion_error (what : string)
  | length_error (what : string)
  | invalid_argument (what : string)
  | out_of_range (what : string)
  | bad_optional_access
  | bad_lexical_cast
  | json_error (what : string).

Inductive outcome (A : Type) :=
  | Ret (a : A)
  | Throw (e : exn)
  | UB (why : string).
Arguments Ret {A} a.
Arguments Throw {A} e.
Arguments UB {A} why.

#[global] Instance outcome_ret : MRet outcome := λ A a, Ret a.
#[global] Instance outcome_bind : MBind outcome := λ A B k m,
  match m with Ret a => k a | Throw e => Throw e | UB w => UB w end.
#[global] Instance outcome_fmap : FMap outcome := λ A B f m,
  match m with Ret a => Ret (f a) | Throw e => Throw e | UB w => UB w end.

(** [o.value()] of an [std::optional]. *)
Definition value {A} (o : option A) : outcome A :=
  match o with Some a => Ret a | None => Throw bad_optional_access end.

(** [try { m } catch (std::exception &) { h }]: all of [exn] derives from it. *)
Definition catch_all {A} (m : outcome A) (h : exn → outcome A) : outcome A :=
  match m with Throw e => h e | _ => m end.

(** The end of a [noexcept] function. *)
Definition noexcept {A} (m : outcome A) : outcome A :=
  match m with Throw _ => UB "std::terminate" | _ => m end.

Definition is_ret {A} (m : outcome A) : bool :=
  match m with Ret _ => true | _ => false end.

(** Run a throwing function over a vector, left to right. *)
Fixpoint mapO {A B} (f : A → outcome B) (l : list A) : outcome (list B) :=
  match l with
  | [] => Ret []
  | x :: l => y ← f x; ys ← mapO f l; Ret (y :: ys)
  end.

Lemma mapO_ret {A B} (f : A → outcome B) (g : A → B) l :
  (∀ x, x ∈ l → f x = Ret (g x)) → mapO f l = Ret (g <$> l).
Proof.
  induction l as [|x l IH]; intros H; simpl; [done|].
  rewrite H by left. simpl. rewrite IH; [done|]. intros y Hy. apply H. by right.
Qed.

Lemma mapO_Ret_length {A B} (f : A → outcome B) l l' :
  mapO f l = Ret l' → length l' = length l.
Proof.
  revert l'. induction l as [|x l IH]; intros l'; simpl; [by intros [= <-]|].
  destruct (f x); simpl; [|done..].
  destruct (mapO f l) eqn:E; simpl; [|done..]. intros [= <-]. simpl. by rewrite (IH _ eq_refl).
Qed.
#[export] Hint Resolve mapO_Ret_length : wch.

Lemma Forall_in {A} (P : A → Prop) l x : Forall P l → x ∈ l → P x.
Proof. intros H Hx. rewrite List.Forall_forall in H. by apply H, list_elem_of_In. Qed.
#[export] Hint Extern 1 => (eapply Forall_in; eassumption) : wch.

Lemma Forall_sublist {A} (P : A → Prop) (l k : list A) : l `sublist_of` k → Forall P k → Forall P l.
Proof. induction 1; inversion 1; subst; auto. Qed.

Lemma sublist_full {A} (l k : list A) : l `sublist_of` k → (length k <= length l)%nat → l = k.
Proof.
  induction 1 as [|x l k Hs IH|x l k Hs IH]; cbn; intros Hl; [done|f_equal; apply IH; lia|].
  apply sublist_length in Hs. lia.
Qed.

Lemma sublist_fmap {A B} (f : A → B) (l k : list A) : l `sublist_of` k → f <$> l `sublist_of` f <$> k.
Proof. induction 1; cbn; constructor; auto. Qed.

(** Computations without undefined behaviour. *)
Definition no_ub {A} (m : outcome A) : Prop := match m with UB _ => False | _ => True end.
Lemma no_ub_bind {A B} (m : outcome A) (k : A → outcome B) :
  no_ub m → (∀ a, no_ub (k a)) → no_ub (m ≫= k).
Proof. destruct m; cbn; auto. Qed.
Lemma no_ub_mapO {A B} (f : A → outcome B) l : (∀ x, no_ub (f x)) → no_ub (mapO f l).
Proof.
  intros Hf. induction l as [|x l IH]; cbn; [done|].
  apply no_ub_bind; [done|]. intros y. apply no_ub_bind; done.
Qed.
Lemma no_ub_catch {A} (m : outcome A) h : no_ub m → (∀ e, ∃ r, h e = Ret r) → ∃ r, catch_all m h = Ret r.
Proof. destruct m; cbn; eauto; done. Qed.
#[export] Hint Resolve no_ub_bind no_ub_mapO : wch.

(** Case analysis on the scrutinee of the first [match] or [if] in the goal. *)
Ltac case_goal :=
  match goal with
  | |- context [match ?x with _ => _ end] => destruct x eqn:?
  end.

(** ** Big-endian numbers

    [intx::be::store] of a [n]-byte integer, and [intx::be::load]. *)
Fixpoint be_store (n : nat) (z : Z) : bytes :=
  match n with
  | O => []
  | S n => byte_of_Z (Z.shiftr z (8 * Z.of_nat n)) :: be_store n z
  end.
Definition be_load (b : bytes) : Z :=
  foldl (λ acc x, acc * 256 + byte_to_Z x)%Z 0%Z b.

Lemma length_be_store n z : length (be_store n z) = n.
Proof. induction n; simpl; [done|]. by f_equal. Qed.

Lemma foldl_be_load a b :
  foldl (λ acc x, acc * 256 + byte_to_Z x)%Z a b
  = (a * 256 ^ Z.of_nat (length b) + be_load b)%Z.
Proof.
  unfold be_load. revert a. induction b as [|x b IH]; intros a; [simpl; lia|].
  cbn [foldl length]. rewrite IH, (IH (0 * 256 + byte_to_Z x)%Z).
  rewrite Nat2Z.inj_succ, Z.pow_succ_r by lia. lia.
Qed.

Lemma be_load_cons x b :
  be_load (x :: b) = (byte_to_Z x * 256 ^ Z.of_nat (length b) + be_load b)%Z.
Proof. unfold be_load at 1. cbn [foldl]. by rewrite foldl_be_load. Qed.

Lemma be_load_range b : (0 <= be_load b < 256 ^ Z.of_nat (length b))%Z.
Proof.
  induction b as [|x b IH]; [done|]. rewrite be_load_cons. cbn [length].
  rewrite Nat2Z.inj_succ, Z.pow_succ_r by lia.
  pose proof (byte_to_Z_range x). nia.
Qed.

Lemma be_load_store n z : be_load (be_store n z) = (z mod 256 ^ Z.of_nat n)%Z.
Proof.
  induction n as [|n IH]; [by rewrite Z.mod_1_r|].
  cbn [be_store]. rewrite be_load_cons, IH, length_be_store, byte_to_of_Z.
  rewrite Z.shiftr_div_pow2 by lia. rewrite Z.pow_mul_r by lia.
  change (2 ^ 8)%Z with 256%Z. rewrite Nat2Z.inj_succ, Z.pow_succ_r by lia.
  rewrite (Z.mul_comm 256), Z.rem_mul_r by lia. lia.
Qed.

Lemma be_load_inj a b : length a = length b → be_load a = be_load b → a = b.
Proof.
  revert b. induction a as [|x a IH]; intros [|y b]; try done.
  intros [= Hl]. rewrite !be_load_cons, Hl. intros H.
  pose proof (be_load_range a) as Ha. pose proof (be_load_range b) as Hb. rewrite Hl in Ha.
  assert (byte_to_Z x = byte_to_Z y) as E by nia.
  apply byte_to_Z_inj in E as ->. f_equal. apply IH; [done|lia].
Qed.

Lemma be_store_load b : be_store (length b) (be_load b) = b.
Proof.
  apply be_load_inj; [apply length_be_store|]. rewrite be_load_store.
  apply Z.mod_small, be_load_range.
Qed.

Lemma be_store_inj n a b :
  (0 <= a < 256 ^ Z.of_nat n)%Z → (0 <= b < 256 ^ Z.of_nat n)%Z →
  be_store n a = be_store n b → a = b.
Proof.
  intros Ha Hb H%(f_equal be_load). rewrite !be_load_store in H.
  by rewrite !Z.mod_small in H.
Qed.
#[export] Hint Rewrite length_be_store be_load_store : wch_simpl.

(** [std::basic_string_view<uint8_t>::compare] on operands of one length,
    the order of the unsigned bytes, left to right. *)
Fixpoint bytes_compare (a b : bytes) : comparison :=
  match a, b with
  | [], [] => Eq
  | [], _ :: _ => Lt
  | _ :: _, [] => Gt
  | x :: a, y :: b =>
      match (byte_to_Z x ?= byte_to_Z y)%Z with Eq => bytes_compare a b | c => c end
  end.

Lemma bytes_compare_be a b :
  length a = length b → bytes_compare a b = (be_load a ?= be_load b)%Z.
Proof.
  revert b. induction a as [|x a IH]; intros [|y b]; try done.
  intros [= Hl]. cbn [bytes_compare]. rewrite !be_load_cons, Hl.
  pose proof (be_load_range a) as Ha. pose proof (be_load_range b) as Hb. rewrite Hl in Ha.
  destruct (Z.compare_spec (byte_to_Z x) (byte_to_Z y)) as [E|E|E].
  - rewrite IH, E by done. symmetry. rewrite Z.add_compare_mono_l. done.
  - symmetry. apply Z.compare_lt_iff. nia.
  - symmetry. apply Z.compare_gt_iff. nia.
Qed.

Lemma bytes_compare_eq a b : bytes_compare a b = Eq ↔ a = b.
Proof.
  split; [|intros ->; induction b; simpl; [done|]; by rewrite Z.compare_refl].
  revert b. induction a as [|x a IH]; intros [|y b]; simpl; try done.
  destruct (Z.compare_spec (byte_to_Z x) (byte_to_Z y)) as [E|E|E]; try done.
  intros H. apply byte_to_Z_inj in E as ->. f_equal. by apply IH.
Qed.
