(* ===== verification/Hex.v ===== *)
(** * Hexadecimal text and the fixed-size byte arrays of evmc

    [evmc::hex] and [evmc::from_hex] (pkgs/evmweak/evmc-10.1.0/include/evmc/hex.hpp)
    and the [uint64_t] constructor of [evmc::address] (evmc.hpp).  Every key of
    the two databases and every JSON field of a hash or an address is written
    with [hex] and read with [from_hex_T]. *)
From Stdlib Require Import ZArith Strings.Byte Strings.String Strings.Ascii Lia.
From stdpp Require Import base tactics list strings option numbers.
From S2P Require Import Prelude.

Definition hex_digits : string := "0123456789abcdef".

Definition hex_digit (n : Z) : ascii :=
  default "0"%char (String.get (Z.to_nat n) hex_digits).

(** [std::string hex(uint8_t b)]. *)
Definition hex_byte (b : byte) : string :=
  String (hex_digit (Z.shiftr (byte_to_Z b) 4))
    (String (hex_digit (Z.land (byte_to_Z b) 15)) "").

(** [std::string hex(bytes_view bs)]. *)
Fixpoint hex (bs : bytes) : string :=
  match bs with
  | [] => ""
  | b :: bs => hex_byte b +:+ hex bs
  end.

(** [int from_hex_digit(char h)]: the nibble, or -1. *)
Definition from_hex_digit (h : ascii) : Z :=
  let c := Z.of_N (N_of_ascii h) in
  if ((48 <=? c) && (c <=? 57))%Z then (c - 48)%Z
  else if ((97 <=? c) && (c <=? 102))%Z then (c - 97 + 10)%Z
  else if ((65 <=? c) && (c <=? 70))%Z then (c - 65 + 10)%Z
  else (-1)%Z.

(** The loop of [from_hex(begin, end, out)] from index [i] with the pending
    high nibble [hi]: the bytes written to [out], or [None] for [false]. *)
Fixpoint from_hex_loop (s : string) (i : nat) (hi : Z) : option bytes :=
  match s with
  | EmptyString => if Nat.even i then Some [] else None
  | String h s =>
      let v := from_hex_digit h in
      if (v <? 0)%Z then
        if (i =? 1)%nat && (hi =? 0)%Z && Ascii.eqb h "x"%char
        then from_hex_loop s (S i) hi
        else None
      else if Nat.even i then from_hex_loop s (S i) (Z.shiftl v 4)
      else cons (byte_of_Z (Z.lor hi v)) <$> from_hex_loop s (S i) hi
  end.

(** [std::optional<bytes> from_hex(std::string_view)]. *)
Definition from_hex (s : string) : option bytes := from_hex_loop s 0 (-1).

(** [from_hex<T>] where [T::bytes] has [n] bytes: an optional [0x] prefix,
    at most [n] bytes, right aligned and padded with zeros on the left. *)
Definition from_hex_T (n : nat) (s : string) : option bytes :=
  let s := match s with String "0" (String "x" r) => r | _ => s end in
  let num_in_bytes := (String.length s / 2)%nat in
  if (n <? num_in_bytes)%nat then None
  else
    out ← from_hex_loop s 0 (-1);
    Some (replicate (n - num_in_bytes) x00 ++ out
            ++ replicate (num_in_bytes - length out) x00).

(** [evmc::address(uint64_t v)]: the value in bytes 12 to 19. *)
Definition address_of_u64 (v : Z) : bytes := replicate 12 x00 ++ be_store 8 v.

(** ** Round trips *)

Lemma from_hex_byte b :
  let h := hex_digit (Z.shiftr (byte_to_Z b) 4) in
  let l := hex_digit (Z.land (byte_to_Z b) 15) in
  from_hex_digit h = Z.shiftr (byte_to_Z b) 4
  ∧ from_hex_digit l = Z.land (byte_to_Z b) 15
  ∧ byte_of_Z (Z.lor (Z.shiftl (Z.shiftr (byte_to_Z b) 4) 4)
                     (Z.land (byte_to_Z b) 15)) = b
  ∧ (Z.shiftr (byte_to_Z b) 4 <? 0)%Z = false
  ∧ (Z.land (byte_to_Z b) 15 <? 0)%Z = false
  ∧ Ascii.eqb l "x" = false.
Proof. destruct b; vm_compute; repeat split. Qed.

(** Reading the digits of a byte at an even position yields that byte. *)
Lemma from_hex_loop_byte b s i hi :
  Nat.even i = true →
  ∃ hi', from_hex_loop (hex_byte b +:+ s) i hi
         = cons b <$> from_hex_loop s (S (S i)) hi'.
Proof.
  intros Hi. destruct (from_hex_byte b) as (Hh & Hl & Hb & H1 & H2 & _).
  unfold hex_byte. rewrite !string_app_cons, string_app_nil. cbn [from_hex_loop]. rewrite Hh, Hl, Hi, H1, H2.
  replace (Nat.even (S i)) with false
    by (rewrite Nat.even_succ, <-Nat.negb_even, Hi; done).
  rewrite Hb. eauto.
Qed.

Lemma from_hex_loop_hex bs i hi :
  Nat.even i = true → from_hex_loop (hex bs) i hi = Some bs.
Proof.
  revert i hi. induction bs as [|b bs IH]; intros i hi Hi; cbn [hex]; [cbn; by rewrite Hi|].
  destruct (from_hex_loop_byte b (hex bs) i hi Hi) as [hi' ->].
  by rewrite IH.
Qed.

Lemma from_hex_hex bs : from_hex (hex bs) = Some bs.
Proof. by apply from_hex_loop_hex. Qed.

#[global] Instance hex_inj : Inj (=) (=) hex.
Proof. intros a b H%(f_equal from_hex). rewrite !from_hex_hex in H. congruence. Qed.

Lemma length_hex bs : String.length (hex bs) = (2 * length bs)%nat.
Proof.
  induction bs as [|b bs IH]; [done|]. cbn [hex]. unfold hex_byte.
  rewrite !string_app_cons, string_app_nil. cbn [String.length length]. lia.
Qed.

(** [hex] never starts with the prefix that [from_hex_T] removes. *)
Lemma hex_no_prefix bs r : hex bs ≠ String "0" (String "x" r).
Proof.
  destruct bs as [|b bs]; [done|]. pose proof (from_hex_byte b) as H.
  cbn [hex]. unfold hex_byte in *. rewrite !string_app_cons. intros [= _ E _].
  rewrite E in H. destruct H as (_ & _ & _ & _ & _ & H). done.
Qed.

Lemma from_hex_T_hex n bs :
  (length bs <= n)%nat → from_hex_T n (hex bs) = Some (replicate (n - length bs) x00 ++ bs).
Proof.
  intros Hn. unfold from_hex_T.
  assert (∀ A (f : string → A) (d : A),
    match hex bs with String "0" (String "x" r) => f r | _ => d end = d) as Hp.
  { intros A f d. pose proof (hex_no_prefix bs) as H.
    repeat case_goal; try done. naive_solver. }
  rewrite (Hp _ (λ r, r)). rewrite length_hex, Nat.mul_comm, Nat.div_mul by lia.
  rewrite (proj2 (Nat.ltb_ge _ _) Hn), from_hex_loop_hex by done. simpl.
  by rewrite Nat.sub_diag, app_nil_r.
Qed.

Lemma length_from_hex_loop s i hi out :
  from_hex_loop s i hi = Some out →
  (2 * length out <= String.length s + (if Nat.even i then 0 else 1))%nat
  ∧ Nat.even (String.length s + i) = true.
Proof.
  revert i hi out. induction s as [|h s IH]; intros i hi out; cbn [from_hex_loop].
  { destruct (Nat.even i) eqn:E; [|done]. intros [= <-]. split; [simpl; lia|done]. }
  assert (Nat.even (S i) = negb (Nat.even i)) as Hm
    by (by rewrite Nat.even_succ, <-Nat.negb_even).
  cbn [String.length]. rewrite (Nat.add_succ_comm _ i).
  destruct (from_hex_digit h <? 0)%Z.
  { destruct (_ && _)%bool eqn:E; [|done]. intros [H ?]%IH. split; [|done].
    apply andb_prop in E as [E _]. apply andb_prop in E as [E%Nat.eqb_eq _]. subst.
    simpl in *. lia. }
  destruct (Nat.even i) eqn:E.
  - intros [H ?]%IH. split; [|done]. rewrite Hm in H. simpl in H. lia.
  - destruct (from_hex_loop s (S i) hi) eqn:F; simpl; [|done].
    intros [= <-]. apply IH in F as [F ?]. split; [|done]. rewrite Hm in F. simpl in *. lia.
Qed.

(** [from_hex<T>] only ever produces an array of the size of [T]. *)
Lemma length_from_hex_T n s b : from_hex_T n s = Some b → length b = n.
Proof.
  unfold from_hex_T. generalize (match s with String "0" (String "x" r) => r | _ => s end).
  clear s. intros s. remember (String.length s / 2)%nat as q eqn:Hq.
  destruct (n <? _)%nat eqn:E; [done|]. apply Nat.ltb_ge in E.
  destruct (from_hex_loop s 0 (-1)) as [out|] eqn:F; cbn [mbind option_bind]; [|done].
  intros [= <-]. apply length_from_hex_loop in F as [F Hev]. cbn [Nat.even] in F.
  rewrite Nat.add_0_r in *. apply Nat.even_spec in Hev as [k Hk].
  rewrite Hk, Nat.mul_comm, Nat.div_mul in Hq by lia.
  rewrite !length_app, !length_replicate. lia.
Qed.

Lemma length_address_of_u64 v : length (address_of_u64 v) = 20%nat.
Proof. unfold address_of_u64. by rewrite length_app, length_replicate, length_be_store. Qed.

Lemma address_of_u64_inj a b :
  is_u64 a → is_u64 b → address_of_u64 a = address_of_u64 b → a = b.
Proof. intros Ha Hb H%app_inv_head. by apply (be_store_inj 8). Qed.

#[export] Hint Rewrite from_hex_hex length_hex length_address_of_u64 : wch_simpl.
#[export] Hint Resolve length_from_hex_T : wch.

Arguments hex : simpl never.
Arguments from_hex : simpl never.
Arguments from_hex_T : simpl never.
