(* ===== verification/Text.v ===== *)
(** * Decimal text

    What the code uses of [std::to_string], [boost::lexical_cast] between
    integers and strings, [boost::algorithm::split] and [std::stoi]; and C
    strings. *)
From Stdlib Require Import ZArith Strings.String Strings.Ascii Lia.
From stdpp Require Import base tactics list strings option numbers pretty.
From S2P Require Import Prelude.

Local Open Scope Z_scope.

(** [c_str], or a [char *] argument: the string up to its first NUL. *)
Fixpoint c_str (s : string) : string :=
  match s with
  | EmptyString => EmptyString
  | String c s => if Ascii.eqb c "000" then EmptyString else String c (c_str s)
  end.

(** [std::to_string] / [lexical_cast<string>] of an unsigned number, and of a
    signed one. *)
Definition to_string (n : Z) : string := pretty (Z.to_N n).
Definition to_string_int (n : Z) : string :=
  if (n <? 0)%Z then String "-" (to_string (- n)) else to_string n.

Definition digit (c : ascii) : option Z :=
  let n := Z.of_N (N_of_ascii c) in
  if (48 <=? n) && (n <=? 57) then Some (n - 48) else None.

(** The value of a string of digits, continuing from [acc]. *)
Fixpoint digits (acc : Z) (s : string) : option Z :=
  match s with
  | EmptyString => Some acc
  | String c s => d ← digit c; digits (acc * 10 + d) s
  end.

Definition decimal (s : string) : option Z :=
  match s with EmptyString => None | _ => digits 0 s end.

(** [lexical_cast<unsigned>]: an optional sign, then digits, within the width;
    a minus sign negates modulo [2^w]. *)
Definition lexical_cast_uint (w : Z) (s : string) : outcome Z :=
  let '(neg, r) := match s with
                   | String "-" r => (true, r) | String "+" r => (false, r) | _ => (false, s)
                   end in
  match decimal r with
  | Some n => if n <? 2 ^ w then Ret (if (neg : bool) then wrapu w (- n) else n)
              else Throw bad_lexical_cast
  | None => Throw bad_lexical_cast
  end.

(** [lexical_cast<int>]: an optional sign, then digits, within the range. *)
Definition lexical_cast_int (s : string) : outcome Z :=
  let '(neg, r) := match s with
                   | String "-" r => (true, r) | String "+" r => (false, r) | _ => (false, s)
                   end in
  match decimal r with
  | Some n => if n <? (if (neg : bool) then 2 ^ 31 + 1 else 2 ^ 31)
              then Ret (if neg then - n else n)
              else Throw bad_lexical_cast
  | None => Throw bad_lexical_cast
  end.

(** [std::stoi]: white space, an optional sign, then as many digits as there
    are; what follows them is ignored. *)
Definition isspace (c : ascii) : bool :=
  let n := Z.of_N (N_of_ascii c) in (n =? 32) || ((9 <=? n) && (n <=? 13)).
Fixpoint skip_spaces (s : string) : string :=
  match s with
  | String c s' => if isspace c then skip_spaces s' else s
  | EmptyString => s
  end.
Fixpoint digits_prefix (acc : Z) (s : string) : Z :=
  match s with
  | EmptyString => acc
  | String c s => match digit c with Some d => digits_prefix (acc * 10 + d) s | None => acc end
  end.
Definition split_sign (s : string) : bool * string :=
  match s with String "-" r => (true, r) | String "+" r => (false, r) | _ => (false, s) end.
Definition stoi (s : string) : outcome Z :=
  let '(neg, r) := split_sign (skip_spaces s) in
  match r with
  | EmptyString => Throw (invalid_argument "stoi")
  | String c _ =>
      match digit c with
      | None => Throw (invalid_argument "stoi")
      | Some _ =>
          let z := if (neg : bool) then - digits_prefix 0 r else digits_prefix 0 r in
          if (- 2 ^ 31 <=? z) && (z <? 2 ^ 31) then Ret z else Throw (out_of_range "stoi")
      end
  end.

(** [split(r, s, is_any_of(sep))] for one separator. *)
Fixpoint split_on (sep : ascii) (s : string) : list string :=
  match s with
  | EmptyString => [""%string]
  | String c s =>
      let r := split_on sep s in
      if Ascii.eqb c sep then ""%string :: r
      else match r with p :: r => String c p :: r | [] => [] end
  end.

(** ** Lemmas *)

Lemma digits_pretty_go n acc s :
  (0 <= acc)%Z → acc = 0 → digits acc (pretty_N_go n s) = digits (Z.of_N n) s.
Proof.
  intros _ ->. revert s. induction (N.lt_wf_0 n) as [n _ IH]; intros s.
  destruct (decide (n = 0)%N) as [->|Hn]; [done|].
  rewrite pretty_N_go_step by lia. rewrite IH by (apply N.div_lt; lia).
  cbn [digits]. pose proof (N.mod_lt n 10 ltac:(done)) as Hm.
  assert (digit (pretty_N_char (n `mod` 10)) = Some (Z.of_N (n `mod` 10))) as ->.
  { destruct (n `mod` 10)%N as [|p] eqn:E; [done|].
    do 4 (destruct p as [p|p|]; try done; try lia). }
  cbn. f_equal. pose proof (N.div_mod n 10 ltac:(done)). lia.
Qed.

Lemma pretty_N_go_nonempty n s : (0 < n)%N ∨ s ≠ ""%string → pretty_N_go n s ≠ ""%string.
Proof.
  revert s. induction (N.lt_wf_0 n) as [n _ IH]; intros s H.
  destruct (decide (n = 0)%N) as [->|Hn]; [by destruct H|].
  rewrite pretty_N_go_step by lia. apply IH; [apply N.div_lt; lia|by right].
Qed.

(** Decimal text reads back as the number printed. *)
Lemma decimal_to_string n : 0 <= n → decimal (to_string n) = Some n.
Proof.
  intros Hn. unfold to_string, pretty, pretty_N. case_decide as E.
  { assert (n = 0) as -> by lia. done. }
  unfold decimal. pose proof (pretty_N_go_nonempty (Z.to_N n) "" ltac:(left; lia)).
  pose proof (digits_pretty_go (Z.to_N n) 0 "" ltac:(lia) eq_refl) as D.
  destruct (pretty_N_go _ _); [done|]. rewrite D. cbn [digits]. f_equal. lia.
Qed.

(** Decimal text starts with a digit: neither a sign nor a separator. *)
Lemma digits_head acc c s n : digits acc (String c s) = Some n → is_Some (digit c).
Proof. cbn. destruct (digit c); [eauto|done]. Qed.

Lemma no_sign {A} s n (f g : string → A) (d : A) :
  decimal s = Some n →
  match s with String "-" r => f r | String "+" r => g r | _ => d end = d.
Proof.
  destruct s as [|c s]; [done|]. cbn [decimal]. intros H%digits_head.
  destruct H as [k H].
  destruct (decide (c = "-"%char)) as [->|H1]; [done|].
  destruct (decide (c = "+"%char)) as [->|H2]; [done|].
  clear H. repeat case_goal; congruence.
Qed.

Lemma lexical_cast_int_to_string n : 0 <= n < 2 ^ 31 → lexical_cast_int (to_string n) = Ret n.
Proof.
  intros Hn. unfold lexical_cast_int. pose proof (decimal_to_string n ltac:(lia)) as D.
  rewrite (no_sign _ n (λ r, (true, r)) (λ r, (false, r))) by done. cbn. rewrite D.
  by rewrite (proj2 (Z.ltb_lt _ _)) by lia.
Qed.

Lemma lexical_cast_uint_to_string w n :
  0 <= n < 2 ^ w → lexical_cast_uint w (to_string n) = Ret n.
Proof.
  intros Hn. unfold lexical_cast_uint. pose proof (decimal_to_string n ltac:(lia)) as D.
  rewrite (no_sign _ n (λ r, (true, r)) (λ r, (false, r))) by done. cbn. rewrite D.
  by rewrite (proj2 (Z.ltb_lt _ _)) by lia.
Qed.

Lemma to_string_inj a b : 0 <= a → 0 <= b → to_string a = to_string b → a = b.
Proof. intros Ha Hb H%(f_equal decimal). rewrite !decimal_to_string in H by done. congruence. Qed.

(** The digits of a number contain no other character. *)
Fixpoint string_forall (P : ascii → bool) (s : string) : bool :=
  match s with EmptyString => true | String c s => P c && string_forall P s end.
Definition is_digit (c : ascii) : bool := bool_decide (is_Some (digit c)).

Lemma digits_forall acc s n : digits acc s = Some n → string_forall is_digit s = true.
Proof.
  revert acc. induction s as [|c s IH]; intros acc; [done|]. cbn [digits].
  unfold string_forall; fold string_forall. unfold is_digit at 1.
  destruct (digit c); cbn; [|done]. intros H%IH. done.
Qed.

Lemma to_string_digits n : 0 <= n → string_forall is_digit (to_string n) = true.
Proof.
  intros Hn. pose proof (decimal_to_string n Hn) as H. unfold decimal in H.
  destruct (to_string n); [done|]. by eapply digits_forall.
Qed.

Lemma split_on_app sep a b :
  string_forall (λ c, negb (Ascii.eqb c sep)) a = true →
  string_forall (λ c, negb (Ascii.eqb c sep)) b = true →
  split_on sep (a +:+ String sep b) = [a; b].
Proof.
  intros Ha Hb.
  assert (split_on sep b = [b]) as Eb.
  { clear Ha. induction b as [|c b IH]; [done|]. cbn in *.
    apply andb_true_iff in Hb as [Hc Hb]. destruct (Ascii.eqb c sep); [done|].
    by rewrite IH. }
  induction a as [|c a IH].
  - rewrite string_app_nil. cbn [split_on]. rewrite Ascii.eqb_refl, Eb. done.
  - rewrite string_app_cons. cbn [split_on string_forall] in *.
    apply andb_true_iff in Ha as [Hc Ha]. rewrite IH by done.
    by destruct (Ascii.eqb c sep).
Qed.

(** [stoi] reads back what [std::to_string] printed. *)
Lemma digits_prefix_digits acc s n : digits acc s = Some n → digits_prefix acc s = n.
Proof.
  revert acc. induction s as [|c s IH]; intros acc; cbn; [congruence|].
  destruct (digit c); cbn; [apply IH|done].
Qed.
Lemma digit_not_space c d : digit c = Some d → isspace c = false.
Proof.
  unfold digit, isspace. destruct ((48 <=? _) && _) eqn:E; [|done]. intros _.
  apply andb_true_iff in E as [E1%Z.leb_le E2%Z.leb_le].
  apply orb_false_iff. split; [apply Z.eqb_neq; lia|]. apply andb_false_iff. right. apply Z.leb_gt. lia.
Qed.
Lemma split_sign_decimal s n : decimal s = Some n → split_sign s = (false, s).
Proof. intros D. exact (no_sign s n (λ r, (true, r)) (λ r, (false, r)) (false, s) D). Qed.
Lemma stoi_to_string n : 0 <= n < 2 ^ 31 → stoi (to_string_int n) = Ret n.
Proof.
  intros Hn. unfold to_string_int. rewrite (proj2 (Z.ltb_ge _ _)) by lia.
  pose proof (decimal_to_string n ltac:(lia)) as D. unfold stoi.
  destruct (to_string n) as [|c s] eqn:Es; [done|]. pose proof D as D0. cbn [decimal] in D.
  destruct (digits_head _ _ _ _ D) as [d Hd]. cbn [skip_spaces]. rewrite (digit_not_space _ _ Hd).
  rewrite (split_sign_decimal _ _ D0), Hd.
  rewrite (digits_prefix_digits _ _ _ D).
  rewrite (proj2 (Z.leb_le _ _)), (proj2 (Z.ltb_lt _ _)) by lia. done.
Qed.
