(* ===== verification/Keccak.v ===== *)
(** * Keccak-256

    [ethash::keccak256] as pkgs/ethash-1.0.1/lib/keccak/keccak.c computes it:
    the sponge of rate 136 bytes over the Keccak-f[1600] permutation, with
    the original Keccak padding [0x01 .. 0x80].  The permutation state is the
    C array of 25 words, named as in the source.  Transaction hashes, block
    hashes and addresses derived from public keys are computed with it, so
    that concrete instances of them evaluate. *)
From Stdlib Require Import ZArith Strings.Byte Strings.String Lia.
From stdpp Require Import base tactics list strings numbers.
From S2P Require Import Prelude Hex.

Local Open Scope Z_scope.

(** [load_le]: a 64-bit little-endian word. *)
Fixpoint load_le (b : bytes) : Z :=
  match b with
  | [] => 0
  | x :: b => byte_to_Z x + 256 * load_le b
  end.

(** A word written back in little-endian order ([to_le64] into the output). *)
Fixpoint store_le (n : nat) (w : Z) : bytes :=
  match n with
  | O => []
  | S n => byte_of_Z w :: store_le n (Z.shiftr w 8)
  end.

Definition rol (x s : Z) : Z := Z.lor (u64 (Z.shiftl x s)) (Z.shiftr x (64 - s)).

Definition round_constants : list Z :=
  [0x0000000000000001; 0x0000000000008082; 0x800000000000808a; 0x8000000080008000;
   0x000000000000808b; 0x0000000080000001; 0x8000000080008081; 0x8000000000008009;
   0x000000000000008a; 0x0000000000000088; 0x0000000080008009; 0x000000008000000a;
   0x000000008000808b; 0x800000000000008b; 0x8000000000008089; 0x8000000000008003;
   0x8000000000008002; 0x8000000000000080; 0x000000000000800a; 0x800000008000000a;
   0x8000000080008081; 0x8000000000008080; 0x0000000080000001; 0x8000000080008008].

(** The row step: [Ba ^ (~Be & Bi)] and its four rotations. *)
Definition chi (Ba Be Bi Bo Bu : Z) : list Z :=
  [ Z.lxor Ba (Z.land (Z.lnot Be) Bi); Z.lxor Be (Z.land (Z.lnot Bi) Bo);
    Z.lxor Bi (Z.land (Z.lnot Bo) Bu); Z.lxor Bo (Z.land (Z.lnot Bu) Ba);
    Z.lxor Bu (Z.land (Z.lnot Ba) Be) ].

Definition xor5 (a b c d e : Z) : Z := Z.lxor (Z.lxor (Z.lxor (Z.lxor a b) c) d) e.

(** One round, [Axx -> Exx] (and, with the letters exchanged, [Exx -> Axx]). *)
Definition keccak_round (st : list Z) (rc : Z) : list Z :=
  match st with
  | [Aba; Abe; Abi; Abo; Abu; Aga; Age; Agi; Ago; Agu; Aka; Ake; Aki; Ako; Aku;
     Ama; Ame; Ami; Amo; Amu; Asa; Ase; Asi; Aso; Asu] =>
      let Ba := xor5 Aba Aga Aka Ama Asa in
      let Be := xor5 Abe Age Ake Ame Ase in
      let Bi := xor5 Abi Agi Aki Ami Asi in
      let Bo := xor5 Abo Ago Ako Amo Aso in
      let Bu := xor5 Abu Agu Aku Amu Asu in
      let Da := Z.lxor Bu (rol Be 1) in
      let De := Z.lxor Ba (rol Bi 1) in
      let Di := Z.lxor Be (rol Bo 1) in
      let Do := Z.lxor Bi (rol Bu 1) in
      let Du := Z.lxor Bo (rol Ba 1) in
      let Eb := chi (Z.lxor Aba Da) (rol (Z.lxor Age De) 44) (rol (Z.lxor Aki Di) 43)
                    (rol (Z.lxor Amo Do) 21) (rol (Z.lxor Asu Du) 14) in
      let Eg := chi (rol (Z.lxor Abo Do) 28) (rol (Z.lxor Agu Du) 20) (rol (Z.lxor Aka Da) 3)
                    (rol (Z.lxor Ame De) 45) (rol (Z.lxor Asi Di) 61) in
      let Ek := chi (rol (Z.lxor Abe De) 1) (rol (Z.lxor Agi Di) 6) (rol (Z.lxor Ako Do) 25)
                    (rol (Z.lxor Amu Du) 8) (rol (Z.lxor Asa Da) 18) in
      let Em := chi (rol (Z.lxor Abu Du) 27) (rol (Z.lxor Aga Da) 36) (rol (Z.lxor Ake De) 10)
                    (rol (Z.lxor Ami Di) 15) (rol (Z.lxor Aso Do) 56) in
      let Es := chi (rol (Z.lxor Abi Di) 62) (rol (Z.lxor Ago Do) 55) (rol (Z.lxor Aku Du) 39)
                    (rol (Z.lxor Ama Da) 41) (rol (Z.lxor Ase De) 2) in
      match Eb with
      | Eba :: Eb' => (Z.lxor Eba rc :: Eb') ++ Eg ++ Ek ++ Em ++ Es
      | [] => st
      end
  | _ => st
  end.

(** [keccakf1600_implementation]: the 24 rounds. *)
Definition keccakf1600 (st : list Z) : list Z := foldl keccak_round st round_constants.

Definition block_size : nat := 136.
Definition word_size : nat := 8.

(** [state[i] ^= load_le(data)] for [n] consecutive words from the front. *)
Fixpoint xor_words (n : nat) (st : list Z) (data : bytes) : list Z :=
  match n, st with
  | S n, w :: st => Z.lxor w (load_le (take word_size data)) :: xor_words n st (drop word_size data)
  | _, _ => st
  end.

(** [while (size >= block_size)]: the absorbed state and the unread rest. *)
Fixpoint absorb (fuel : nat) (st : list Z) (data : bytes) : list Z * bytes :=
  match fuel with
  | O => (st, data)
  | S fuel =>
      if (block_size <=? length data)%nat
      then absorb fuel (keccakf1600 (xor_words (block_size / word_size) st data))
                  (drop block_size data)
      else (st, data)
  end.

(** [keccak(out, 256, data, size)], the four words of the result as bytes. *)
Definition keccak256 (data : bytes) : bytes :=
  let '(st, rest) := absorb (length data) (replicate 25 0) data in
  let k := (length rest / word_size)%nat in
  let st := xor_words k st rest in
  let last_word := load_le (drop (k * word_size) rest ++ [x01]) in
  let st := alter (λ w, Z.lxor w last_word) k st in
  let st := alter (λ w, Z.lxor w 0x8000000000000000) (block_size / word_size - 1)%nat st in
  let st := keccakf1600 st in
  concat (store_le 8 <$> take 4 st).

(** ** The result is always a 32-byte array *)

Lemma length_keccak_round st rc : length (keccak_round st rc) = length st.
Proof.
  unfold keccak_round. do 26 (destruct st as [|? st]; [done|]). done.
Qed.

Lemma length_keccakf1600 st : length (keccakf1600 st) = length st.
Proof.
  unfold keccakf1600. generalize round_constants as l. intros l. revert st.
  induction l as [|rc l IH]; intros st; simpl; [done|]. by rewrite IH, length_keccak_round.
Qed.

Lemma length_xor_words n st d : length (xor_words n st d) = length st.
Proof. revert st d. induction n; intros [|w st] d; simpl; auto. Qed.

Lemma length_absorb n st d : length (absorb n st d).1 = length st.
Proof.
  revert st d. induction n as [|n IH]; intros st d; [done|]. cbn [absorb].
  destruct (_ <=? _)%nat; [|done].
  by rewrite IH, length_keccakf1600, length_xor_words.
Qed.

(** The fuel [length data] is enough: less than a block is left unread. *)
Lemma absorb_rest n st d :
  (length d <= n)%nat → (length (absorb n st d).2 < block_size)%nat.
Proof.
  revert st d. induction n as [|n IH]; intros st d Hn; cbn [absorb].
  { simpl. unfold block_size. lia. }
  destruct (block_size <=? length d)%nat eqn:E; [|by apply Nat.leb_gt in E].
  apply IH. apply Nat.leb_le in E. rewrite length_drop. unfold block_size in *. lia.
Qed.

Lemma length_store_le n w : length (store_le n w) = n.
Proof. revert w. induction n; intros w; simpl; auto. Qed.

Lemma length_keccak256 d : length (keccak256 d) = 32%nat.
Proof.
  unfold keccak256. destruct (absorb _ _ _) as [st rest] eqn:E.
  set (st' := keccakf1600 _).
  assert (length st' = 25%nat) as H.
  { unfold st'. rewrite length_keccakf1600, !length_alter, length_xor_words.
    apply (f_equal (length ∘ fst)) in E. simpl in E. by rewrite <-E, length_absorb. }
  do 4 (destruct st' as [|? st']; [done|]).
  cbn [take fmap list_fmap concat]. rewrite !length_app, !length_store_le. done.
Qed.
#[export] Hint Rewrite length_keccak256 : wch_simpl.

(** The digest of the empty string. *)
Example keccak256_empty :
  hex (keccak256 [])
  = "c5d2460186f7233c927e7db2dcc703c0e500b653ca82273b7bfad8045d85a470"%string.
Proof. vm_compute. reflexivity. Qed.

Arguments keccak256 : simpl never.

(** The hash is only evaluated by [vm_compute]. *)
#[global] Opaque keccak256.
