(* ===== verification/Core.v ===== *)
(** * The data model: transactions, accounts, blocks

    include/core0.hpp, include/core0.cpp and the interfaces of include/core.hpp:
    [Tx] with its identity ([Index]), order, hash, deployment address and
    signature payload; [Acn]; [BlkHeader]/[Blk] and the serial block hash; the
    conversions to and from the protobuf messages of include/hi.proto. *)
From Stdlib Require Import ZArith Strings.Byte Strings.String Strings.Ascii Lia.
From stdpp Require Import base tactics list strings gmap option numbers pretty.
From S2P Require Import Prelude Text Hex Keccak.

(** ** Addresses and hashes as byte strings *)

(** [hashToString] and [addressToString]. *)
Definition hashToString (h : bytes) : string := hex h.
Definition addressToString (a : bytes) : string := hex a.

(** [toByteString<hash256>]: the raw bytes. *)
Definition toByteString (t : bytes) : string := str t.

(** [toByteString<address>]: leading zero bytes are skipped. *)
Fixpoint skip_zeros (b : bytes) : bytes :=
  match b with
  | x00 :: b => skip_zeros b
  | _ => b
  end.
Definition toByteString_address (t : bytes) : string := str (skip_zeros t).

(** [fromByteString<T>] for a [T] of [n] bytes: the size must match. *)
Definition fromByteString (n : nat) (s : string) : outcome bytes :=
  if (String.length s =? n)%nat then Ret (unstr s)
  else Throw (runtime_error "Invalid size").

(** [fromByteString<address>]: at most 20 bytes, zeros added in front. *)
Definition fromByteString_address (s : string) : outcome bytes :=
  if (20 <? String.length s)%nat
  then Throw (runtime_error "Invalid size for address, should be at most 20")
  else Ret (replicate (20 - String.length s) x00 ++ unstr s).

(** [bytes32FromString]: at least 32 bytes, the first 32 are taken. *)
Definition bytes32FromString (s : string) : outcome bytes :=
  if (String.length s <? 32)%nat
  then Throw (runtime_error "Invalid size for bytes32, should be at least 32")
  else Ret (take 32 (unstr s)).

(** [makeAddress(int x)]: the [int] is sign-extended to [uint64_t]. *)
Definition makeAddress (x : Z) : bytes := address_of_u64 (u64 (i32 x)).

(** [evmc::is_zero(address)]. *)
Definition is_zero_address (a : bytes) : bool := forallb (λ b, bool_decide (b = x00)) a.

(** ** Transactions *)

Inductive TxType := Type_evm | Type_data | Type_python.
#[global] Instance TxType_eq_dec : EqDecision TxType.
Proof. solve_decision. Defined.

Record Tx := mkTx {
  tx_pk_pem : string;
  tx_signature : bytes;
  tx_pk_crt : bytes;
  tx_type : TxType;
  tx_from : bytes;
  tx_to : bytes;
  tx_data : bytes;
  tx_nonce : Z;        (* uint64_t *)
  tx_timestamp : Z     (* std::time_t *)
}.
#[global] Instance Tx_eq_dec : EqDecision Tx.
Proof. solve_decision. Defined.

(** A value-initialised [Tx{}]. *)
Definition Tx_default : Tx :=
  mkTx "" [] [] Type_evm (replicate 20 x00) (replicate 20 x00) [] 0 0.

(** The constructor [Tx(f, t, d, n, type)] at time [now].  The parameter
    [type] is not copied to the member, which keeps its default [Type_evm]. *)
Definition Tx_ctor (f t d : bytes) (n : Z) (type : TxType) (now : Z) : Tx :=
  mkTx "" [] [] Type_evm f t d n now.

(** The types of the fields: what every [Tx] object satisfies. *)
Definition Tx_wf (t : Tx) : Prop :=
  length (tx_from t) = 20%nat ∧ length (tx_to t) = 20%nat
  ∧ is_u64 (tx_nonce t) ∧ is_i64 (tx_timestamp t).

Definition set_timestamp (t : Tx) (now : Z) : Tx :=
  mkTx (tx_pk_pem t) (tx_signature t) (tx_pk_crt t) (tx_type t) (tx_from t)
       (tx_to t) (tx_data t) (tx_nonce t) now.

(** What the signature covers. *)
Definition getToSignPayload0 (nonce : Z) (data : string) : string :=
  to_string nonce +:+ data.
Definition getToSignPayload (t : Tx) : string :=
  getToSignPayload0 (tx_nonce t) (str (tx_data t)).

Definition typeToString (t : TxType) : string :=
  match t with Type_evm => "evm" | Type_data => "data" | Type_python => "python" end.

Definition typeFromString (s : string) : outcome TxType :=
  if bool_decide (s = "") || bool_decide (s = "evm") then Ret Type_evm
  else if bool_decide (s = "data") then Ret Type_data
  else if bool_decide (s = "python") then Ret Type_python
  else Throw (runtime_error ("Invalid Tx type: " +:+ s)).

(** [Tx::hash]: Keccak-256 of the sender followed by the 8-byte nonce. *)
Definition Tx_hash_preimage (t : Tx) : bytes := tx_from t ++ be_store 8 (tx_nonce t).
Definition Tx_hash (t : Tx) : bytes := keccak256 (Tx_hash_preimage t).

(** [getFromFromPkPem]: the last 20 bytes of the digest of the PEM text. *)
Definition getFromFromPkPem (pk_pem : string) : bytes :=
  take 20 (drop 12 (keccak256 (unstr pk_pem))).

Arguments getFromFromPkPem : simpl never.
Arguments Tx_hash : simpl never.

(** [Tx::Index::operator<]. *)
Definition Index_lt (a : bytes * Z) (s : bytes * Z) : bool :=
  if bool_decide (a.1 = s.1) && (a.2 <? s.2)%Z then true
  else match bytes_compare a.1 s.1 with Lt => true | _ => false end.
Definition Index (t : Tx) : bytes * Z := (tx_from t, tx_nonce t).

(** [Tx::operator<]. *)
Definition Tx_lt (l r : Tx) : bool :=
  if (tx_timestamp l =? tx_timestamp r)%Z && Index_lt (Index l) (Index r) then true
  else (tx_timestamp l <? tx_timestamp r)%Z.

(** [Tx::getContractDeployAddress]: [makeAddress(t.nonce ^ (~t.timestamp))],
    the 64-bit exclusive or converted to [int]. *)
Definition getContractDeployAddress (t : Tx) : bytes :=
  makeAddress (Z.lxor (tx_nonce t) (u64 (Z.lnot (tx_timestamp t)))).

(** ** Accounts *)

Record Acn := mkAcn {
  acn_nonce : Z;
  acn_code : bytes;
  acn_storage : gmap bytes bytes;
  acn_disk_storage : list string
}.
Definition Acn_default : Acn := mkAcn 0 [] ∅ [].
Definition codehash (a : Acn) : bytes := keccak256 (acn_code a).

Definition Acn_wf (a : Acn) : Prop :=
  is_u64 (acn_nonce a)
  ∧ map_Forall (λ k v, length k = 32%nat ∧ length v = 32%nat) (acn_storage a).

(** ** Blocks *)

Record BlkHeader := mkBlkHeader { hd_number : Z; hd_parentHash : bytes }.
Record Blk := mkBlk { blk_header : BlkHeader; blk_txs : list Tx }.
Definition blk_number (b : Blk) : Z := hd_number (blk_header b).
Definition blk_parentHash (b : Blk) : bytes := hd_parentHash (blk_header b).
Definition Blk_default : Blk := mkBlk (mkBlkHeader 0 (replicate 32 x00)) [].

Definition Blk_wf (b : Blk) : Prop :=
  is_u64 (blk_number b) ∧ length (blk_parentHash b) = 32%nat ∧ Forall Tx_wf (blk_txs b).

(** The loop of [Blk::hash]: [h = keccak256(tx.hash ++ h)], from the parent hash. *)
Definition serial_hash (parent : bytes) (hs : list bytes) : bytes :=
  foldl (λ h h1, keccak256 (take 32 h1 ++ take 32 h)) parent hs.
Definition Blk_hash (b : Blk) : bytes :=
  serial_hash (blk_parentHash b) (Tx_hash <$> blk_txs b).

(** ** Protobuf messages (hi.proto) *)

(** proto3 enums are open: a parsed message may hold any number. *)
Inductive PbTxType := EVM | DATA | PYTHON | TxType_other (n : Z).
Definition typeToPb (t : TxType) : PbTxType :=
  match t with Type_data => DATA | Type_python => PYTHON | Type_evm => EVM end.
Definition typeFromPb (t : PbTxType) : TxType :=
  match t with DATA => Type_data | PYTHON => Type_python | _ => Type_evm end.

Record PbTx := mkPbTx {
  pb_type : PbTxType; pb_from_addr : string; pb_to_addr : string; pb_data : string;
  pb_timestamp : Z; pb_nonce : Z; pb_pk_pem : string; pb_signature : string;
  pb_pk_crt : string }.
Record PbAcn := mkPbAcn {
  pb_acn_nonce : Z; pb_code : string; pb_storage_ks : list string;
  pb_storage_vs : list string; pb_disk_storage : list string }.
Record PbBlk := mkPbBlk {
  pb_number : Z; pb_parentHash : string; pb_txs : list PbTx }.

Definition Tx_toPb (t : Tx) : PbTx :=
  mkPbTx (typeToPb (tx_type t)) (toByteString_address (tx_from t))
         (toByteString_address (tx_to t)) (str (tx_data t))
         (u64 (tx_timestamp t)) (tx_nonce t)
         (tx_pk_pem t) (str (tx_signature t)) (str (tx_pk_crt t)).

(** [Tx::fromPb] on the object [self]. *)
Definition Tx_fromPb (self : Tx) (pb : PbTx) : outcome Tx :=
  '(pem, from) ← (if bool_decide (pb_pk_pem pb = "")
                  then a ← fromByteString_address (pb_from_addr pb); Ret (tx_pk_pem self, a)
                  else Ret (pb_pk_pem pb, getFromFromPkPem (pb_pk_pem pb)));
  let sig := if bool_decide (pb_signature pb = "") then tx_signature self
             else unstr (pb_signature pb) in
  let crt := if bool_decide (pb_pk_crt pb = "") then tx_pk_crt self
             else unstr (pb_pk_crt pb) in
  to ← fromByteString_address (pb_to_addr pb);
  Ret (mkTx pem sig crt (typeFromPb (pb_type pb)) from to (unstr (pb_data pb))
            (pb_nonce pb) (i64 (pb_timestamp pb))).

(** [Acn::toPb]: the storage is written in the order of iteration. *)
Definition Acn_toPb (a : Acn) : PbAcn :=
  let kvs := map_to_list (acn_storage a) in
  mkPbAcn (acn_nonce a) (str (acn_code a)) (str ∘ fst <$> kvs) (str ∘ snd <$> kvs)
          (acn_disk_storage a).

(** The storage loop of [Acn::fromPb], over the indices of [storage_ks];
    reading [storage_vs(i)] past its end is undefined. *)
Fixpoint Acn_fromPb_storage (m : gmap bytes bytes) (ks vs : list string)
  : outcome (gmap bytes bytes) :=
  match ks with
  | [] => Ret m
  | k :: ks =>
      k ← bytes32FromString k;
      match vs with
      | [] => UB "storage_vs(i) out of range"
      | v :: vs => v ← bytes32FromString v; Acn_fromPb_storage (<[k := v]> m) ks vs
      end
  end.
Definition Acn_fromPb (self : Acn) (pb : PbAcn) : outcome Acn :=
  m ← Acn_fromPb_storage (acn_storage self) (pb_storage_ks pb) (pb_storage_vs pb);
  Ret (mkAcn (pb_acn_nonce pb) (unstr (pb_code pb)) m
             (acn_disk_storage self ++ pb_disk_storage pb)).

Definition Blk_toPb (b : Blk) : PbBlk :=
  mkPbBlk (blk_number b) (toByteString (blk_parentHash b)) (Tx_toPb <$> blk_txs b).
Definition Blk_fromPb (self : Blk) (pb : PbBlk) : outcome Blk :=
  ph ← fromByteString 32 (pb_parentHash pb);
  txs ← mapO (Tx_fromPb Tx_default) (pb_txs pb);
  Ret (mkBlk (mkBlkHeader (pb_number pb) ph) (blk_txs self ++ txs)).

(** * Theorems *)

(** ** Byte strings *)

Lemma skip_zeros_pad b :
  replicate (length b - length (skip_zeros b)) x00 ++ skip_zeros b = b
  ∧ (length (skip_zeros b) <= length b)%nat.
Proof.
  induction b as [|x b [IH Hl]]; [done|].
  destruct (decide (x = x00)) as [->|Hx].
  - cbn [skip_zeros length]. rewrite Nat.sub_succ_l by done. cbn [replicate app].
    rewrite IH. split; [done|lia].
  - assert (skip_zeros (x :: b) = x :: b) as -> by (by destruct x).
    by rewrite Nat.sub_diag.
Qed.

Lemma fromByteString_address_toByteString a :
  length a = 20%nat → fromByteString_address (toByteString_address a) = Ret a.
Proof.
  intros Ha. unfold fromByteString_address, toByteString_address.
  destruct (skip_zeros_pad a) as [H Hl].
  rewrite length_str, unstr_str, (proj2 (Nat.ltb_ge _ _)) by lia.
  by rewrite <-Ha, H.
Qed.

Lemma fromByteString_toByteString b : fromByteString (length b) (toByteString b) = Ret b.
Proof.
  unfold fromByteString, toByteString. by rewrite length_str, Nat.eqb_refl, unstr_str.
Qed.

Lemma length_fromByteString_address s a : fromByteString_address s = Ret a → length a = 20%nat.
Proof.
  unfold fromByteString_address. destruct (_ <? _)%nat eqn:E; [done|]. intros [= <-].
  apply Nat.ltb_ge in E. rewrite length_app, length_replicate, length_unstr. lia.
Qed.

Lemma bytes32FromString_str b : length b = 32%nat → bytes32FromString (str b) = Ret b.
Proof.
  intros H. unfold bytes32FromString. rewrite length_str, H, unstr_str. simpl.
  by rewrite take_ge by lia.
Qed.

Lemma length_getFromFromPkPem s : length (getFromFromPkPem s) = 20%nat.
Proof.
  unfold getFromFromPkPem. by rewrite length_take, length_drop, length_keccak256.
Qed.

Lemma length_Tx_hash t : length (Tx_hash t) = 32%nat.
Proof. apply length_keccak256. Qed.

Lemma length_serial_hash p hs : length p = 32%nat → length (serial_hash p hs) = 32%nat.
Proof.
  revert p. induction hs as [|h hs IH]; intros p Hp; simpl; [done|].
  apply IH, length_keccak256.
Qed.
#[export] Hint Resolve length_fromByteString_address length_serial_hash : wch.
#[export] Hint Rewrite length_getFromFromPkPem length_Tx_hash : wch_simpl.

(** ** Protobuf round trips *)

Lemma typeFromPb_typeToPb t : typeFromPb (typeToPb t) = t.
Proof. by destruct t. Qed.

Lemma str_eq_empty b : str b = "" ↔ b = [].
Proof. split; [|by intros ->]. intros H%(f_equal unstr). by rewrite unstr_str in H. Qed.

(** The sender of a transaction that carries a public key is derived from it;
    what [fromPb] and [fromJson0] establish. *)
Definition from_derived (t : Tx) : Prop :=
  tx_pk_pem t = "" ∨ tx_from t = getFromFromPkPem (tx_pk_pem t).

Lemma Tx_fromPb_toPb t :
  Tx_wf t → from_derived t → Tx_fromPb Tx_default (Tx_toPb t) = Ret t.
Proof.
  intros (Hf & Ht & Hn & Hts) Hd. unfold Tx_fromPb, Tx_toPb. cbn -[getFromFromPkPem].
  rewrite !fromByteString_address_toByteString by done.
  rewrite !unstr_str, typeFromPb_typeToPb, i64_u64 by done.
  assert (∀ b, (if bool_decide (str b = "") then [] else b) = b) as Hif.
  { intros b. case_bool_decide as E; [|done]. by apply str_eq_empty in E as ->. }
  rewrite !Hif. destruct t as [pem ? ? ? from ? ? ? ?]. cbn in *.
  case_bool_decide as E; cbn; [by rewrite E|].
  destruct Hd as [|Hd]; [done|]. cbn in Hd. by rewrite Hd.
Qed.

Lemma Tx_fromPb_wf pb t :
  is_u64 (pb_nonce pb) → Tx_fromPb Tx_default pb = Ret t → Tx_wf t ∧ from_derived t.
Proof.
  intros Hn. unfold Tx_fromPb, Tx_wf, from_derived.
  destruct (bool_decide (pb_pk_pem pb = "")); cbn;
    [destruct (fromByteString_address (pb_from_addr pb)) eqn:F; cbn; try done|];
    destruct (fromByteString_address (pb_to_addr pb)) eqn:G; cbn; try done;
    intros [= <-]; cbn; rewrite ?length_getFromFromPkPem; eauto 10 with wch.
Qed.

Lemma Tx_fromPb_no_ub self pb : no_ub (Tx_fromPb self pb).
Proof.
  unfold Tx_fromPb, fromByteString_address.
  destruct (bool_decide (pb_pk_pem pb = "")); cbn; repeat (case_goal; cbn); done.
Qed.

Lemma Acn_fromPb_storage_list m (kvs : list (bytes * bytes)) :
  Forall (λ kv, length kv.1 = 32%nat ∧ length kv.2 = 32%nat) kvs →
  Acn_fromPb_storage m (str ∘ fst <$> kvs) (str ∘ snd <$> kvs)
  = Ret (foldl (λ m kv, <[kv.1 := kv.2]> m) m kvs).
Proof.
  intros H. revert m. induction H as [|[k v] kvs [Hk Hv] _ IH]; intros m; [done|].
  cbn [fmap list_fmap Acn_fromPb_storage]. unfold compose at 1 3. cbn in *.
  rewrite !bytes32FromString_str by done. cbn. apply IH.
Qed.

Lemma foldl_insert_map_to_list (m : gmap bytes bytes) :
  foldl (λ m kv, <[kv.1 := kv.2]> m) ∅ (map_to_list m) = m.
Proof.
  rewrite <-(list_to_map_to_list m) at 2.
  assert (∀ (l : list (bytes * bytes)) (m0 : gmap bytes bytes), NoDup l.*1 →
    (∀ k, k ∈ l.*1 → m0 !! k = None) →
    foldl (λ m kv, <[kv.1 := kv.2]> m) m0 l
    = (list_to_map l : gmap bytes bytes) ∪ m0) as H.
  { induction l as [|[k v] l IH]; intros m0 Hnd Hm; simpl.
    - by rewrite (left_id_L ∅ (∪)).
    - apply NoDup_cons in Hnd as [Hk Hnd]. rewrite IH; [|done|].
      + rewrite <-insert_union_l, insert_union_r; [done|].
        by apply not_elem_of_list_to_map_1.
      + intros k' Hk'. rewrite lookup_insert_ne; [apply Hm; by right|]. by intros ->. }
  rewrite H; [by rewrite (right_id_L ∅ (∪))| |done]. apply NoDup_fst_map_to_list.
Qed.

Lemma Acn_fromPb_toPb a : Acn_wf a → Acn_fromPb Acn_default (Acn_toPb a) = Ret a.
Proof.
  intros [_ Hs]. unfold Acn_fromPb, Acn_toPb. cbn -[fmap].
  rewrite Acn_fromPb_storage_list.
  - cbn. rewrite foldl_insert_map_to_list, unstr_str. by destruct a.
  - apply Forall_forall. intros [k v] H%elem_of_map_to_list. by apply Hs.
Qed.

Lemma Blk_fromPb_toPb b :
  Blk_wf b → Forall from_derived (blk_txs b) →
  Blk_fromPb Blk_default (Blk_toPb b) = Ret b.
Proof.
  intros (Hn & Hp & Ht) Hd. unfold Blk_fromPb, Blk_toPb. cbn -[fmap].
  rewrite <-Hp, fromByteString_toByteString. cbn.
  assert (mapO (Tx_fromPb Tx_default) (Tx_toPb <$> blk_txs b) = Ret (blk_txs b)) as ->.
  { clear Hn Hp. induction (blk_txs b) as [|t l IH]; cbn; [done|].
    inv Ht. inv Hd. rewrite Tx_fromPb_toPb by done. cbn. by rewrite IH. }
  destruct b as [[? ?] ?]. done.
Qed.

(** ** Order and identity *)

(** The key that [Tx::operator<] compares: timestamp, sender, nonce. *)
Definition Tx_key (t : Tx) : Z * (bytes * Z) := (tx_timestamp t, Index t).

Lemma Index_lt_spec a s :
  Index_lt a s = true ↔
    bytes_compare a.1 s.1 = Lt ∨ (a.1 = s.1 ∧ (a.2 < s.2)%Z).
Proof.
  unfold Index_lt. destruct (bool_decide_reflect (a.1 = s.1)) as [E|E]; cbn.
  - rewrite E. rewrite (proj2 (bytes_compare_eq _ _) eq_refl).
    destruct (Z.ltb_spec a.2 s.2); intuition (done || lia).
  - destruct (bytes_compare a.1 s.1); intuition done.
Qed.

Lemma Tx_lt_spec l r :
  Tx_lt l r = true ↔
    (tx_timestamp l < tx_timestamp r)%Z
    ∨ (tx_timestamp l = tx_timestamp r ∧ Index_lt (Index l) (Index r) = true).
Proof.
  unfold Tx_lt. destruct (Z.eqb_spec (tx_timestamp l) (tx_timestamp r)) as [E|E]; cbn.
  - destruct (Index_lt _ _); rewrite ?Z.ltb_lt; intuition (done || lia).
  - rewrite Z.ltb_lt. intuition done.
Qed.

(** Byte-wise comparison of addresses is the comparison of their values. *)
Lemma Index_lt_be l r :
  length (tx_from l) = 20%nat → length (tx_from r) = 20%nat →
  Index_lt (Index l) (Index r) = true ↔
    (be_load (tx_from l) < be_load (tx_from r))%Z
    ∨ (be_load (tx_from l) = be_load (tx_from r) ∧ (tx_nonce l < tx_nonce r)%Z).
Proof.
  intros Hl Hr. rewrite Index_lt_spec. cbn. rewrite bytes_compare_be by congruence.
  rewrite Z.compare_lt_iff. split; (intros [?|[E ?]]; [by left|right]); split; auto.
  - by rewrite E.
  - apply be_load_inj; congruence.
Qed.

Lemma Tx_lt_irrefl t : Tx_lt t t = false.
Proof.
  apply not_true_iff_false. rewrite Tx_lt_spec, Index_lt_spec. cbn.
  rewrite (proj2 (bytes_compare_eq _ _) eq_refl). intuition (try lia; done).
Qed.

Lemma Tx_lt_key a b : Tx_key a = Tx_key b → Tx_lt a b = false.
Proof.
  intros [= E1 E2 E3]. rewrite <-(Tx_lt_irrefl b). unfold Tx_lt, Index. by rewrite E1, E2, E3.
Qed.

Lemma Tx_lt_trans a b c :
  Tx_wf a → Tx_wf b → Tx_wf c →
  Tx_lt a b = true → Tx_lt b c = true → Tx_lt a c = true.
Proof.
  intros [Ha _] [Hb _] [Hc _]. rewrite !Tx_lt_spec, !Index_lt_be by done. lia.
Qed.

(** Two transactions are incomparable exactly when their keys agree. *)
Lemma Tx_lt_total a b :
  Tx_wf a → Tx_wf b →
  Tx_lt a b = true ∨ Tx_lt b a = true ∨ Tx_key a = Tx_key b.
Proof.
  intros [Ha _] [Hb _]. rewrite !Tx_lt_spec, !Index_lt_be by done.
  unfold Tx_key, Index.
  destruct (Z.lt_total (tx_timestamp a) (tx_timestamp b)) as [?|[Et|?]];
    [intuition lia| |intuition lia].
  destruct (Z.lt_total (be_load (tx_from a)) (be_load (tx_from b))) as [?|[Ef|?]];
    [intuition lia| |intuition lia].
  destruct (Z.lt_total (tx_nonce a) (tx_nonce b)) as [?|[En|?]];
    [intuition lia| |intuition lia].
  right. right. rewrite Et, En. by rewrite (be_load_inj (tx_from a) (tx_from b)) by congruence.
Qed.

(** ** Hashes *)

Lemma Tx_hash_Index a b : Index a = Index b → Tx_hash a = Tx_hash b.
Proof. intros [= E1 E2]. unfold Tx_hash, Tx_hash_preimage. by rewrite E1, E2. Qed.

Lemma Tx_hash_preimage_inj a b :
  Tx_wf a → Tx_wf b → Tx_hash_preimage a = Tx_hash_preimage b → Index a = Index b.
Proof.
  intros (Ha & _ & Hna & _) (Hb & _ & Hnb & _). unfold Tx_hash_preimage, Index.
  intros [E1 E2]%app_inj_1; [|congruence]. apply (be_store_inj 8) in E2; [|done..]. congruence.
Qed.

(** ** Deployment addresses *)

Lemma i32_eq_mod x y : i32 x = i32 y ↔ (x mod 2 ^ 32 = y mod 2 ^ 32)%Z.
Proof.
  unfold i32, wraps. change (32 - 1)%Z with 31%Z. split.
  - intros H. assert ((x + 2 ^ 31) mod 2 ^ 32 = (y + 2 ^ 31) mod 2 ^ 32)%Z as H' by lia.
    replace x with ((x + 2 ^ 31) - 2 ^ 31)%Z by lia.
    replace y with ((y + 2 ^ 31) - 2 ^ 31)%Z by lia.
    rewrite Zminus_mod, H', <-Zminus_mod. done.
  - intros H. rewrite Zplus_mod, H, <-Zplus_mod. done.
Qed.

Lemma makeAddress_eq x y : makeAddress x = makeAddress y ↔ (x mod 2 ^ 32 = y mod 2 ^ 32)%Z.
Proof.
  rewrite <-i32_eq_mod. unfold makeAddress. split; [|by intros ->].
  intros H%address_of_u64_inj; [|apply u64_range..].
  pose proof (i32_range x). pose proof (i32_range y). unfold is_i32 in *.
  apply (f_equal i64) in H. rewrite !i64_u64 in H by (unfold is_i64; lia). done.
Qed.

Lemma lxor_lnot_mod n t :
  (Z.lxor n (u64 (Z.lnot t)) mod 2 ^ 32 = Z.lnot (Z.lxor n t) mod 2 ^ 32)%Z.
Proof.
  unfold u64, wrapu. rewrite <-!Z.land_ones by lia. apply Z.bits_inj'. intros i Hi.
  rewrite !Z.land_spec, Z.lxor_spec, Z.lnot_spec, Z.lxor_spec, Z.land_spec, Z.lnot_spec by done.
  rewrite !Z.testbit_ones_nonneg by lia.
  destruct (Z.ltb_spec i 32).
  - rewrite (proj2 (Z.ltb_lt i 64)) by lia.
    by destruct (Z.testbit n i), (Z.testbit t i).
  - by rewrite !andb_false_r.
Qed.

Lemma lnot_mod_eq a b :
  (Z.lnot a mod 2 ^ 32 = Z.lnot b mod 2 ^ 32 ↔ a mod 2 ^ 32 = b mod 2 ^ 32)%Z.
Proof.
  assert (∀ a b, a mod 2 ^ 32 = b mod 2 ^ 32 →
                 Z.lnot a mod 2 ^ 32 = Z.lnot b mod 2 ^ 32)%Z as H.
  { clear. intros a b E. unfold Z.lnot, Z.pred.
    replace (- a + -1)%Z with (-1 - a)%Z by lia. replace (- b + -1)%Z with (-1 - b)%Z by lia.
    rewrite Zminus_mod, E, <-Zminus_mod. done. }
  split; [|apply H]. intros E%H. by rewrite !Z.lnot_involutive in E.
Qed.

Lemma deploy_address_eq a b :
  getContractDeployAddress a = getContractDeployAddress b ↔
    (Z.lxor (tx_nonce a) (tx_timestamp a) mod 2 ^ 32
     = Z.lxor (tx_nonce b) (tx_timestamp b) mod 2 ^ 32)%Z.
Proof.
  unfold getContractDeployAddress.
  by rewrite makeAddress_eq, !lxor_lnot_mod, lnot_mod_eq.
Qed.

(** ** Well-formedness of the constructors *)

Lemma length_makeAddress x : length (makeAddress x) = 20%nat.
Proof. apply length_address_of_u64. Qed.
#[export] Hint Rewrite length_makeAddress : wch_simpl.

(** * Properties *)

(** The hash that the README shows for sender 0x01 and nonce 123. *)
Example README_hash :
  hashToString (Tx_hash (Tx_ctor (makeAddress 1) (makeAddress 0) [] 123 Type_data 0))
  = "b06b89b665df6f7ff1be967faf9a0601f71c0a3cdb8250c48fe7fcc663b18d1b".
Proof. vm_compute. reflexivity. Qed.

Definition tx_example : Tx :=
  mkTx "" [] [] Type_python (makeAddress 1) (makeAddress 0) [x68; x69] 123 1717141105.
Definition tx_example' : Tx :=
  mkTx "" [] [] Type_evm (makeAddress 2) (makeAddress 1) [] 7 1717141105.

Lemma tx_example_wf : Tx_wf tx_example.
Proof. repeat split; unfold is_u64, is_i64; simpl; lia. Qed.
Lemma tx_example'_wf : Tx_wf tx_example'.
Proof. repeat split; unfold is_u64, is_i64; simpl; lia. Qed.

(** [Tx::operator<] is a strict weak order on transactions (irreflexive,
    transitive), and neither of two transactions is smaller than the other
    exactly when timestamp, sender and nonce all agree: the mempool's ordered
    index confuses two transactions only in that case. *)
Theorem Tx_order_strict_weak a b c :
  Tx_wf a → Tx_wf b → Tx_wf c →
  Tx_lt a a = false
  ∧ (Tx_lt a b = true → Tx_lt b a = false)
  ∧ (Tx_lt a b = true → Tx_lt b c = true → Tx_lt a c = true)
  ∧ (Tx_lt a b = false ∧ Tx_lt b a = false ↔ Tx_key a = Tx_key b).
Proof.
  intros Ha Hb Hc. split_and!.
  - apply Tx_lt_irrefl.
  - intros H. apply not_true_iff_false. intros H'.
    pose proof (Tx_lt_trans a b a Ha Hb Ha H H'). pose proof (Tx_lt_irrefl a). congruence.
  - by apply Tx_lt_trans.
  - split.
    + intros [H1 H2]. destruct (Tx_lt_total a b) as [|[|]]; congruence.
    + intros E. split; by apply Tx_lt_key.
Qed.

Lemma Tx_order_strict_weak_witness :
  Tx_wf tx_example ∧ Tx_wf tx_example' ∧ Tx_lt tx_example tx_example = false
  ∧ Tx_lt tx_example tx_example' = true.
Proof.
  split; [apply tx_example_wf|]. split; [apply tx_example'_wf|].
  split; [|reflexivity].
  exact (proj1 (Tx_order_strict_weak tx_example tx_example' tx_example
                  tx_example_wf tx_example'_wf tx_example_wf)).
Defined.

(** a transaction written to a protobuf message and read back into a fresh
    object is the same transaction, for every transaction whose sender is the
    one derived from its public key when it carries one; addresses travel
    without their leading zeros and timestamps through [uint64_t]. *)
Theorem Tx_pb_roundtrip t :
  Tx_wf t → from_derived t → Tx_fromPb Tx_default (Tx_toPb t) = Ret t.
Proof. apply Tx_fromPb_toPb. Qed.

Lemma Tx_pb_roundtrip_witness :
  pb_from_addr (Tx_toPb tx_example) = String "001" EmptyString
  ∧ Tx_fromPb Tx_default (Tx_toPb tx_example) = Ret tx_example.
Proof.
  split; [reflexivity|]. apply (Tx_pb_roundtrip tx_example); [|left; reflexivity].
  apply tx_example_wf.
Defined.

(** an account written to a protobuf message and read back into a fresh
    object is the same account: nonce, code, every storage entry (whatever
    the order in which the map was iterated) and the disk storage. *)
Theorem Acn_pb_roundtrip a : Acn_wf a → Acn_fromPb Acn_default (Acn_toPb a) = Ret a.
Proof. apply Acn_fromPb_toPb. Qed.

Definition acn_example : Acn :=
  mkAcn 3 [x60; x00] {[be_store 32 1 := be_store 32 258; be_store 32 0 := be_store 32 7]}
        ["{}"].
Lemma acn_example_wf : Acn_wf acn_example.
Proof.
  split; [unfold is_u64; simpl; lia|].
  apply (bool_decide_unpack _). vm_compute. exact I.
Qed.
Lemma Acn_pb_roundtrip_witness :
  Acn_wf acn_example ∧ Acn_fromPb Acn_default (Acn_toPb acn_example) = Ret acn_example.
Proof. split; [exact acn_example_wf|]. apply (Acn_pb_roundtrip acn_example acn_example_wf). Defined.

(** the contract address that a CREATE transaction deploys to is the same
    for two transactions exactly when the low 32 bits of nonce xor timestamp
    agree: complementing the timestamp does not separate the pairs (2,2) and
    (3,3) that the comment in the code wants separated, and the conversion to
    [int] drops the high halves. *)
Theorem deploy_address_collision a b :
  getContractDeployAddress a = getContractDeployAddress b ↔
    (Z.lxor (tx_nonce a) (tx_timestamp a) mod 2 ^ 32
     = Z.lxor (tx_nonce b) (tx_timestamp b) mod 2 ^ 32)%Z.
Proof. apply deploy_address_eq. Qed.

Example deploy_address_2_2_3_3 :
  getContractDeployAddress (Tx_ctor (makeAddress 1) (makeAddress 0) [] 2 Type_evm 2)
  = getContractDeployAddress (Tx_ctor (makeAddress 1) (makeAddress 0) [] 3 Type_evm 3).
Proof. reflexivity. Qed.

(** the hash of a transaction is a function of its identity alone: two
    well-formed transactions have one hash preimage exactly when sender and
    nonce agree, and then one hash. *)
Theorem Tx_hash_identity a b :
  Tx_wf a → Tx_wf b →
  (Tx_hash_preimage a = Tx_hash_preimage b ↔ Index a = Index b)
  ∧ (Index a = Index b → Tx_hash a = Tx_hash b).
Proof.
  intros Ha Hb. split; [|apply Tx_hash_Index]. split; [by apply Tx_hash_preimage_inj|].
  intros [= E1 E2]. unfold Tx_hash_preimage. by rewrite E1, E2.
Qed.

Lemma Tx_hash_identity_witness :
  Tx_hash (set_timestamp tx_example 5) = Tx_hash tx_example.
Proof.
  refine (proj2 (Tx_hash_identity (set_timestamp tx_example 5) tx_example _ _) _).
  - repeat split; unfold is_u64, is_i64; simpl; lia.
  - apply tx_example_wf.
  - reflexivity.
Defined.
