(* ===== verification/Net.v ===== *)
(** * Message envelopes and endpoints

    include/net/pure-netAsstn.hpp: the three-string encoding of [SignedData],
    the message managers [NaiveMsgMgr] and [SslMsgMgr] behind the interface
    [IMsgManageable], and the address helpers of [NetAsstn];
    include/cnsss/pure-forCnsss.hpp: [make_endpoint_human_readable].

    OpenSSL is a parameter, the class [OpenSSL]; what the code relies on is the
    class [OpenSSLLaws]. *)
From Stdlib Require Import ZArith Strings.Byte Strings.String Strings.Ascii Lia.
From stdpp Require Import base tactics list strings option numbers.
From S2P Require Import Prelude Text Keccak.

(** ** [SignedData] *)

(** [for (i = 0; i < n; i++) out += *(it++)]: reading at or past the end of the
    view is undefined. *)
Fixpoint read_n (n : nat) (it : bytes) : outcome (bytes * bytes) :=
  match n, it with
  | O, _ => Ret ([], it)
  | S n, c :: it => '(s, it) ← read_n n it; Ret (c :: s, it)
  | S _, [] => UB "read past the end of a string_view"
  end.

Definition parse_3_strs (s : string) : outcome (option (string * string * string)) :=
  if (String.length s <? 2)%nat then Ret None
  else match unstr s with
  | [] => UB "read past the end of a string_view"
  | c :: it =>
      let l1 := u8 (byte_to_Z c + 1) in
      '(s1, it) ← read_n (Z.to_nat l1) it;
      match it with
      | [] => Ret (Some (str s1, "", ""))
      | c :: it =>
          let l2 := byte_to_Z c in
          '(s2, it) ← read_n (Z.to_nat l2) it;
          Ret (Some (str s1, str s2, str it))
      end
  end.

Definition serialize_3_strs (s1 s2 s3 : string) : string :=
  let s := str [byte_of_Z (Z.of_nat (String.length s1) - 1)] +:+ s1 in
  if String.eqb s2 "" && String.eqb s3 "" then s
  else s +:+ str [byte_of_Z (Z.of_nat (String.length s2))] +:+ s2 +:+ s3.

Record SignedData := mkSignedData { sd_from : string; sd_sig : string; sd_data : string }.

(** The constructor refuses an empty sender. *)
Definition SignedData_ctor (f s d : string) : outcome SignedData :=
  if String.eqb f "" then Throw (runtime_error "SignedData.from cannot be empty.")
  else Ret (mkSignedData f s d).
Definition SignedData_toString (d : SignedData) : string :=
  serialize_3_strs (sd_from d) (sd_sig d) (sd_data d).
(** [fromString] on a fresh object: [None] stands for [false]. *)
Definition SignedData_fromString (s : string) : outcome (option SignedData) :=
  parse_3_strs s ≫= λ r,
  Ret (fmap (M:=option) (λ '(f, g, d), mkSignedData f g d) r).

(** ** The interface [IMsgManageable] *)
Class IMsgManageable (M : Type) := {
  prepare_msg : M → string → outcome string;
  tear_msg_open : M → string → outcome (option (string * string));
  my_endpoint : M → string
}.

(** What a consensus node needs of the managers: the receiver [r] of a message
    that [m] prepared sees [m]'s endpoint and the data, unchanged. *)
Definition delivers {M} `{IMsgManageable M} (m r : M) : Prop :=
  ∀ d, ∃ msg, prepare_msg m d = Ret msg ∧ tear_msg_open r msg = Ret (Some (my_endpoint m, d)).

Record NaiveMsgMgr := mkNaive { ep : string }.
Definition Naive_prepare_msg (m : NaiveMsgMgr) (data : string) : outcome string :=
  noexcept (fmap (M:=outcome) SignedData_toString (SignedData_ctor (ep m) "" data)).
Definition Naive_tear_msg_open (m : NaiveMsgMgr) (msg : string) : outcome (option (string * string)) :=
  SignedData_fromString msg ≫= λ r,
  Ret (fmap (M:=option) (λ d, (sd_from d, sd_data d)) r).
#[global] Instance Naive_IMsgManageable : IMsgManageable NaiveMsgMgr := {
  prepare_msg := Naive_prepare_msg;
  tear_msg_open := Naive_tear_msg_open;
  my_endpoint := ep
}.

(** ** OpenSSL

    The calls that the manager makes.  A [EVP_PKEY] holds a key pair or a
    public key. *)
Class OpenSSL := {
  EVP_PKEY : Type;
  PEM_read_bio_PrivateKey : string → option EVP_PKEY;
  PEM_read_bio_PUBKEY : string → option EVP_PKEY;
  PEM_write_bio_PrivateKey : EVP_PKEY → string;
  PEM_write_bio_PUBKEY : EVP_PKEY → string;
  EVP_DigestSign : EVP_PKEY → string → string;
  EVP_DigestVerify : EVP_PKEY → string → string → bool
}.

Definition no_nul (s : string) : bool := string_forall (λ c, negb (Ascii.eqb c "000")) s.

(** What the documentation of ED25519 keys in OpenSSL states: PEM is text of
    113 characters that reads back as a key which verifies the signatures of
    the private key; a signature has 64 bytes. *)
Class OpenSSLLaws `{OpenSSL} := {
  pem_text : ∀ k, no_nul (PEM_write_bio_PUBKEY k) = true;
  pem_length : ∀ k, String.length (PEM_write_bio_PUBKEY k) = 113%nat;
  sig_length : ∀ k m, String.length (EVP_DigestSign k m) = 64%nat;
  pem_verifies : ∀ k, ∃ pk, PEM_read_bio_PUBKEY (PEM_write_bio_PUBKEY k) = Some pk ∧
    ∀ m, EVP_DigestVerify pk m (EVP_DigestSign k m) = true
}.

Module SslMsgMgr.
Section ssl.
Context `{OpenSSL}.

Record SslMsgMgr := mkSsl {
  ca_public_key : option EVP_PKEY;      (* nullptr: no check *)
  my_secret_key : EVP_PKEY;
  my_addr_port : string;
  my_cert : string
}.

Definition load_key_from_pem (s : string) (is_secret : bool) : option EVP_PKEY :=
  if is_secret then PEM_read_bio_PrivateKey (c_str s) else PEM_read_bio_PUBKEY (c_str s).
Definition dump_key_to_pem (key : EVP_PKEY) (is_secret : bool) : string :=
  if is_secret then PEM_write_bio_PrivateKey key else PEM_write_bio_PUBKEY key.
Definition do_sign (key : EVP_PKEY) (msg : string) : string := EVP_DigestSign key msg.
Definition do_verify (key : EVP_PKEY) (msg sig : string) : bool := EVP_DigestVerify key msg sig.
(** The overload that takes the key in PEM. *)
Definition do_verify_pem (key_pem msg sig : string) : bool :=
  match load_key_from_pem key_pem false with
  | None => false
  | Some k => do_verify k msg sig
  end.

Definition we_check_cert (m : SslMsgMgr) : bool := bool_decide (is_Some (ca_public_key m)).
Definition test_trusted_peer (m : SslMsgMgr) (pk_pem cert : string) : bool :=
  match ca_public_key m with
  | Some ca => do_verify ca pk_pem cert
  | None => true
  end.

(** The constructor: the CA key is read when given, then the secret key, then
    the node's own certificate is checked. *)
Definition SslMsgMgr_ctor (my_sk_pem my_addr_port_str mmy_cert ca_pk_pem : string)
  : outcome SslMsgMgr :=
  ca ← (if String.eqb ca_pk_pem "" then Ret None
        else match load_key_from_pem ca_pk_pem false with
             | None => Throw (runtime_error ("Error reading CA public key:" +:+ ca_pk_pem))
             | Some k => Ret (Some k)
             end);
  match load_key_from_pem my_sk_pem true with
  | None => Throw (runtime_error ("Error reading my secret key:" +:+ my_sk_pem))
  | Some sk =>
      let m := mkSsl ca sk my_addr_port_str mmy_cert in
      match ca with
      | None => Ret m
      | Some cak =>
          if do_verify cak (dump_key_to_pem sk false) mmy_cert then Ret m
          else Throw (runtime_error "My cert is not valid to my CA")
      end
  end.

Definition Ssl_my_endpoint (m : SslMsgMgr) : string :=
  serialize_3_strs (dump_key_to_pem (my_secret_key m) false) (my_addr_port m) (my_cert m).

Definition Ssl_prepare_msg (m : SslMsgMgr) (data : string) : outcome string :=
  let sig := do_sign (my_secret_key m) data in
  noexcept (fmap (M:=outcome) SignedData_toString (SignedData_ctor (Ssl_my_endpoint m) sig data)).

Definition Ssl_tear_msg_open (m : SslMsgMgr) (msg : string) : outcome (option (string * string)) :=
  d ← SignedData_fromString msg;
  match d with
  | None => Ret None
  | Some d =>
      r ← parse_3_strs (sd_from d);
      match r with
      | None => Ret None
      | Some (from_pk_pem, from_addr_port, from_cert) =>
          if negb (test_trusted_peer m from_pk_pem from_cert) then Ret None
          else if negb (do_verify_pem from_pk_pem (sd_data d) (sd_sig d)) then Ret None
          else Ret (Some (sd_from d, sd_data d))
      end
  end.

#[global] Instance Ssl_IMsgManageable : IMsgManageable SslMsgMgr := {
  prepare_msg := Ssl_prepare_msg;
  tear_msg_open := Ssl_tear_msg_open;
  my_endpoint := Ssl_my_endpoint
}.
End ssl.
End SslMsgMgr.
Import SslMsgMgr.

(** ** [NetAsstn]: addresses *)

Definition split_addr_port (s : string) : outcome (string * Z) :=
  match split_on ":" s with
  | [a; p] => port ← lexical_cast_uint 16 p; Ret (a, port)
  | _ => Throw (runtime_error "Error splitting <addr>:<port>")
  end.
Definition combine_addr_port (addr : string) (port : Z) : string :=
  addr +:+ String ":" (to_string port).
Definition extract_addr_and_port_from_endpoint (endpoint : string) : outcome (option string) :=
  parse_3_strs endpoint ≫= λ r,
  Ret (fmap (M:=option) (λ '(_, a, _), a) r).

(** [std::find(first, last, '\n')] as the number of elements before it. *)
Fixpoint find_nl (b : bytes) : nat :=
  match b with
  | [] => 0
  | c :: b => if Byte.eqb c x0a then 0 else S (find_nl b)
  end.

(** [make_endpoint_human_readable]: positions stand for iterators. *)
Definition make_endpoint_human_readable (e : string) : outcome string :=
  let b := unstr e in
  let n := length b in
  if (n <? 4)%nat then Ret e
  else
    let it := (1 + find_nl (drop 1 b))%nat in
    if (it =? n)%nat then UB "end() + 1"
    else
      let it2 := (it + 1 + find_nl (drop (it + 1) b))%nat in
      if (it2 <? 4)%nat then UB "before begin()"
      else Ret (str (take 4 (drop (it2 - 4) b))).

(** ** Lemmas *)

Lemma read_n_app a it : read_n (length a) (a ++ it) = Ret (a, it).
Proof. induction a as [|c a IH]; [done|]. cbn. by rewrite IH. Qed.

Lemma read_n_Ret n it s r : read_n n it = Ret (s, r) → it = s ++ r ∧ length s = n.
Proof.
  revert it s. induction n as [|n IH]; intros [|c it] s; simpl; try by intros [= <- <-].
  destruct (read_n n it) as [[s' r']| |] eqn:E; simpl; [|done..].
  intros [= <- <-]. apply IH in E as [-> <-]. done.
Qed.

Lemma u8_small z : (0 <= z < 256)%Z → u8 z = z.
Proof. apply Z.mod_small. Qed.

Lemma unstr_single b s : unstr (str [b] +:+ s) = b :: unstr s.
Proof. by rewrite unstr_app, unstr_str. Qed.

Lemma length_str_app s t : String.length (s +:+ t) = (String.length s + String.length t)%nat.
Proof. by rewrite <-!length_unstr, unstr_app, length_app. Qed.

Lemma eqb_empty s : String.eqb s "" = true ↔ s = "".
Proof. apply String.eqb_eq. Qed.

(** The first byte of the serialisation is read back as the length of the
    sender, the wrapped length of the empty one included. *)
Lemma first_length s1 :
  (String.length s1 <= 255)%nat →
  Z.to_nat (u8 (byte_to_Z (byte_of_Z (Z.of_nat (String.length s1) - 1)) + 1)) = length (unstr s1).
Proof.
  intros H. rewrite byte_to_of_Z, length_unstr. unfold u8, wrapu.
  change (2 ^ 8)%Z with 256%Z. rewrite Zplus_mod_idemp_l, Z.mod_small by lia. lia.
Qed.

Lemma serialize_length s1 s2 s3 :
  (1 <= String.length (serialize_3_strs s1 s2 s3))%nat
  ∧ ((s1 ≠ "" ∨ s2 ≠ "" ∨ s3 ≠ "") → (2 <= String.length (serialize_3_strs s1 s2 s3))%nat).
Proof.
  unfold serialize_3_strs. destruct (_ && _) eqn:Heqb; rewrite !length_str_app, !length_str; cbn [length].
  - apply andb_true_iff in Heqb as [->%eqb_empty ->%eqb_empty].
    split; [lia|]. intros [H|[H|H]]; [|done..]. destruct s1; [done|]. cbn. lia.
  - split; [lia|]. intros _. lia.
Qed.

Lemma parse_serialize s1 s2 s3 :
  (String.length s1 <= 255)%nat → (String.length s2 <= 255)%nat →
  s1 ≠ "" ∨ s2 ≠ "" ∨ s3 ≠ "" →
  parse_3_strs (serialize_3_strs s1 s2 s3) = Ret (Some (s1, s2, s3)).
Proof.
  intros H1 H2 Hne. unfold parse_3_strs.
  pose proof (proj2 (serialize_length s1 s2 s3) Hne) as HL.
  rewrite (proj2 (Nat.ltb_ge _ _)) by lia. clear HL Hne.
  unfold serialize_3_strs. destruct (_ && _) eqn:Heqb.
  - apply andb_true_iff in Heqb as [->%eqb_empty ->%eqb_empty].
    rewrite unstr_single, first_length by done.
    rewrite <-(app_nil_r (unstr s1)) at 2. rewrite read_n_app. simpl. by rewrite str_unstr.
  - rewrite !unstr_app, unstr_str. cbn [app]. rewrite first_length by done.
    rewrite read_n_app, unstr_str. cbn. rewrite byte_to_of_Z, Z.mod_small by lia.
    rewrite Nat2Z.id, <-length_unstr, read_n_app. cbn. by rewrite !str_unstr.
Qed.

Lemma parse_lengths s s1 s2 s3 :
  parse_3_strs s = Ret (Some (s1, s2, s3)) →
  (String.length s1 <= 255)%nat ∧ (String.length s2 <= 255)%nat.
Proof.
  unfold parse_3_strs. case_goal; [done|]. destruct (unstr s) as [|c it]; [done|].
  assert (∀ z, Z.to_nat (u8 z) <= 255)%nat as Hu.
  { intros z. unfold u8, wrapu. pose proof (Z.mod_pos_bound z (2 ^ 8)). lia. }
  destruct (read_n _ it) as [[a r]| |] eqn:E; cbn; [|done..].
  apply read_n_Ret in E as [_ Ha]. specialize (Hu (byte_to_Z c + 1)%Z).
  destruct r as [|c2 r]; [intros [= <- <- _]|].
  { rewrite length_str. cbn. lia. }
  destruct (read_n _ r) as [[b q]| |] eqn:E2; cbn; [|done..].
  apply read_n_Ret in E2 as [_ Hb]. pose proof (byte_to_Z_range c2).
  intros [= <- <- _]. rewrite !length_str. lia.
Qed.

Lemma c_str_no_nul s : no_nul s = true → c_str s = s.
Proof.
  unfold no_nul. induction s as [|c s IH]; [done|].
  cbn. intros [Hc Hs]%andb_true_iff. destruct (Ascii.eqb c "000"); [done|]. by rewrite IH.
Qed.

Lemma digits_no_colon s :
  string_forall is_digit s = true → string_forall (λ c, negb (Ascii.eqb c ":")) s = true.
Proof.
  induction s as [|c s IH]; [done|]. cbn. intros [Hc Hs]%andb_true_iff.
  rewrite IH, andb_true_r by done. destruct (Ascii.eqb_spec c ":"); [by subst|done].
Qed.

(** ** Theorems *)

(** The envelope of three strings reads back exactly when the sender and
    the signature have at most 255 bytes and one of the three strings is not
    empty; for a longer sender or signature the parser never returns the
    original (the length byte wraps). *)
Theorem envelope_roundtrip s1 s2 s3 :
  parse_3_strs (serialize_3_strs s1 s2 s3) = Ret (Some (s1, s2, s3))
  ↔ (String.length s1 <= 255)%nat ∧ (String.length s2 <= 255)%nat
    ∧ (s1 ≠ "" ∨ s2 ≠ "" ∨ s3 ≠ "").
Proof.
  split.
  - intros H. destruct (parse_lengths _ _ _ _ H) as [H1 H2]. repeat split; [done..|].
    destruct (decide (s1 = "")) as [->|]; [|by left].
    destruct (decide (s2 = "")) as [->|]; [|by right; left].
    destruct (decide (s3 = "")) as [->|]; [|by right; right]. done.
  - intros (H1 & H2 & H3). by apply parse_serialize.
Qed.

Lemma Naive_delivers_lem m r :
  (1 <= String.length (ep m) <= 255)%nat → delivers m r.
Proof.
  intros [H1 H2] d. assert (ep m ≠ "") as Hne by (destruct (ep m); [cbn in *; lia|done]).
  eexists. unfold prepare_msg, tear_msg_open, my_endpoint; cbn.
  unfold Naive_prepare_msg, Naive_tear_msg_open, SignedData_ctor.
  rewrite (proj2 (String.eqb_neq _ _) Hne). split; [done|].
  unfold SignedData_fromString, SignedData_toString. cbn.
  rewrite parse_serialize; [done|lia|cbn; lia|by left].
Qed.

(** A node without SSL whose endpoint has 1 to 255 bytes can talk to every
    other: what it prepares is torn open to its endpoint and its data. *)
Lemma NaiveMsgMgr_delivers (m r : NaiveMsgMgr) :
  (1 <= String.length (ep m) <= 255)%nat → delivers m r.
Proof. apply Naive_delivers_lem. Qed.

Lemma NaiveMsgMgr_delivers_witness : delivers (mkNaive "10.0.0.1:80") (mkNaive "b").
Proof. apply NaiveMsgMgr_delivers. cbn. lia. Defined.

Section ssl_lemmas.
Context `{OpenSSLLaws}.

Lemma length_Ssl_my_endpoint m :
  (String.length (Ssl_my_endpoint m) <= 115 + String.length (my_addr_port m) + String.length (my_cert m))%nat.
Proof.
  unfold Ssl_my_endpoint, serialize_3_strs, dump_key_to_pem. pose proof (pem_length (my_secret_key m)).
  destruct (_ && _); rewrite !length_str_app, ?length_str; cbn; lia.
Qed.

Lemma Ssl_my_endpoint_nonempty m : Ssl_my_endpoint m ≠ "".
Proof.
  unfold Ssl_my_endpoint. intros E.
  pose proof (proj1 (serialize_length (dump_key_to_pem (my_secret_key m) false) (my_addr_port m) (my_cert m))) as HL.
  rewrite E in HL. cbn in HL. lia.
Qed.

Lemma parse_Ssl_my_endpoint m :
  (String.length (my_addr_port m) <= 255)%nat →
  parse_3_strs (Ssl_my_endpoint m)
  = Ret (Some (PEM_write_bio_PUBKEY (my_secret_key m), my_addr_port m, my_cert m)).
Proof.
  intros HL. pose proof (pem_length (my_secret_key m)) as HP. unfold dump_key_to_pem.
  apply parse_serialize; [lia|lia|]. left. intros E. by rewrite E in HP.
Qed.

Lemma do_verify_own k d : do_verify_pem (PEM_write_bio_PUBKEY k) d (do_sign k d) = true.
Proof.
  unfold do_verify_pem, load_key_from_pem. rewrite c_str_no_nul by apply pem_text.
  destruct (pem_verifies k) as (pk & -> & Hv). apply Hv.
Qed.

Lemma SslMsgMgr_delivers_lem (m r : SslMsgMgr) :
  (115 + String.length (my_addr_port m) + String.length (my_cert m) <= 255)%nat →
  test_trusted_peer r (PEM_write_bio_PUBKEY (my_secret_key m)) (my_cert m) = true →
  delivers m r.
Proof.
  intros HL Ht d. pose proof (length_Ssl_my_endpoint m) as HE.
  pose proof (sig_length (my_secret_key m) d) as Hs.
  eexists. unfold prepare_msg, tear_msg_open, my_endpoint; cbn.
  unfold Ssl_prepare_msg, SignedData_ctor.
  rewrite (proj2 (String.eqb_neq _ _) (Ssl_my_endpoint_nonempty m)). split; [done|].
  unfold Ssl_tear_msg_open, SignedData_fromString, SignedData_toString. cbn [sd_from sd_sig sd_data].
  rewrite parse_serialize; [|lia|unfold do_sign; lia|left; apply Ssl_my_endpoint_nonempty]. cbn.
  rewrite parse_Ssl_my_endpoint by lia. cbn. by rewrite Ht, do_verify_own.
Qed.

(** C38: With SSL, a node whose address and certificate leave its endpoint
    within 255 bytes is heard by every node that trusts its key: its endpoint
    and data arrive unchanged. *)
Theorem SslMsgMgr_delivers (m r : SslMsgMgr) :
  (115 + String.length (my_addr_port m) + String.length (my_cert m) <= 255)%nat →
  test_trusted_peer r (PEM_write_bio_PUBKEY (my_secret_key m)) (my_cert m) = true →
  delivers m r.
Proof. apply SslMsgMgr_delivers_lem. Qed.

(** C37: A message that a node with SSL accepts was signed: the envelope holds
    a key that, when there is a CA, the CA certified, and the signature over the
    delivered data verifies under that key. *)
Theorem SslMsgMgr_authentic (r : SslMsgMgr) msg from data :
  tear_msg_open r msg = Ret (Some (from, data)) →
  ∃ sig pk_pem addr cert pk,
    parse_3_strs msg = Ret (Some (from, sig, data))
    ∧ parse_3_strs from = Ret (Some (pk_pem, addr, cert))
    ∧ load_key_from_pem pk_pem false = Some pk
    ∧ EVP_DigestVerify pk data sig = true
    ∧ (∀ ca, ca_public_key r = Some ca → EVP_DigestVerify ca pk_pem cert = true).
Proof.
  unfold tear_msg_open; cbn. unfold Ssl_tear_msg_open, SignedData_fromString.
  destruct (parse_3_strs msg) as [[[[f g] d]|]| |]; cbn; try done.
  destruct (parse_3_strs f) as [[[[pk_pem a] cert]|]| |] eqn:E; cbn; try done.
  destruct (test_trusted_peer r pk_pem cert) eqn:Ht; cbn; [|done].
  unfold do_verify_pem. destruct (load_key_from_pem pk_pem false) as [pk|] eqn:Ek; cbn; [|done].
  destruct (do_verify pk d g) eqn:Ev; cbn; [|done]. intros [= <- <-].
  exists g, pk_pem, a, cert, pk. repeat split; try done.
  intros ca Hca. unfold test_trusted_peer in Ht. by rewrite Hca in Ht.
Qed.
End ssl_lemmas.

(** A concrete [OpenSSL]: two keys, signatures that are hashes of key and
    message. *)
Module ToySSL.
Definition pem (k : bool) : string := String (if k then "A" else "B") (str (replicate 112 x78)).
Definition sign (k : bool) (m : string) : string :=
  let h := keccak256 ((if k then x01 else x00) :: unstr m) in str (h ++ h).
Definition read (s : string) : option bool :=
  if String.eqb s (pem true) then Some true
  else if String.eqb s (pem false) then Some false else None.
#[global] Instance ssl : OpenSSL := {
  EVP_PKEY := bool;
  PEM_read_bio_PrivateKey := read;
  PEM_read_bio_PUBKEY := read;
  PEM_write_bio_PrivateKey := pem;
  PEM_write_bio_PUBKEY := pem;
  EVP_DigestSign := sign;
  EVP_DigestVerify := λ k m s, String.eqb s (sign k m)
}.
#[global] Instance laws : OpenSSLLaws.
Proof.
  split.
  - by intros [].
  - by intros [].
  - intros k m. cbn. unfold sign. by rewrite length_str, length_app, length_keccak256.
  - intros k. exists k. split; [by destruct k|]. intros m. apply String.eqb_refl.
Qed.
Definition node : SslMsgMgr := mkSsl (Some false) true "a:1" (sign false (pem true)).
Definition node2 : SslMsgMgr := mkSsl (Some false) false "b:1" "".
End ToySSL.

Lemma SslMsgMgr_delivers_witness : delivers ToySSL.node ToySSL.node2.
Proof. apply (SslMsgMgr_delivers ToySSL.node ToySSL.node2); [by vm_compute; lia|by vm_compute]. Defined.

Definition ssl_msg_example : string :=
  match prepare_msg ToySSL.node "hello" with Ret m => m | _ => "" end.

Lemma SslMsgMgr_authentic_witness :
  ∃ sig pk_pem addr cert pk,
    parse_3_strs ssl_msg_example = Ret (Some (my_endpoint ToySSL.node, sig, "hello"))
    ∧ parse_3_strs (my_endpoint ToySSL.node) = Ret (Some (pk_pem, addr, cert))
    ∧ load_key_from_pem pk_pem false = Some pk
    ∧ EVP_DigestVerify pk "hello" sig = true
    ∧ (∀ ca, ca_public_key ToySSL.node2 = Some ca → EVP_DigestVerify ca pk_pem cert = true).
Proof. apply (SslMsgMgr_authentic ToySSL.node2). by vm_compute. Defined.

(** An address without a colon and a 16-bit port read back from
    [addr:port]. *)
Lemma addr_port_roundtrip addr port :
  string_forall (λ c, negb (Ascii.eqb c ":")) addr = true → (0 <= port < 2 ^ 16)%Z →
  split_addr_port (combine_addr_port addr port) = Ret (addr, port).
Proof.
  intros Ha Hp. unfold split_addr_port, combine_addr_port.
  rewrite split_on_app; [|done|by apply digits_no_colon, to_string_digits; lia].
  by rewrite lexical_cast_uint_to_string.
Qed.
Lemma addr_port_roundtrip_witness : split_addr_port "localhost:7777" = Ret ("localhost", 7777%Z).
Proof. apply (addr_port_roundtrip "localhost" 7777); [reflexivity|lia]. Defined.
