(* ===== verification/Codec.v ===== *)
(** * JSON values and serialised messages

    What the code uses of [boost::json] (values, objects, [value_to]) and of
    protobuf.  The text of a JSON value and the wire format of a protobuf
    message are third-party code: the classes [JsonCodec] and [PbCodec] hold
    the serialiser and the parser with the round trip that their
    documentation states.  [toPbString]/[fromPbString] and
    [toJsonString]/[fromJsonString] (include/pure-common.hpp) are built on them. *)
From Stdlib Require Import ZArith Strings.Byte Strings.String Strings.Ascii Lia.
From stdpp Require Import base tactics countable list strings gmap option numbers.
From S2P Require Import Prelude.

#[local] Set Warnings "-register-all".

Local Open Scope Z_scope.

(** ** UTF-8

    A protobuf [string] field and a JSON string hold valid UTF-8. *)
Definition in_range (lo hi : Z) (b : byte) : bool := (lo <=? byte_to_Z b) && (byte_to_Z b <=? hi).

Fixpoint utf8_bytes (b : bytes) : bool :=
  match b with
  | [] => true
  | x :: r =>
      if in_range 0 127 x then utf8_bytes r
      else if in_range 194 223 x then
        match r with y :: r => in_range 128 191 y && utf8_bytes r | _ => false end
      else if in_range 224 239 x then
        match r with
        | y :: z :: r =>
            let lo := if byte_to_Z x =? 224 then 160 else 128 in
            let hi := if byte_to_Z x =? 237 then 159 else 191 in
            in_range lo hi y && in_range 128 191 z && utf8_bytes r
        | _ => false
        end
      else if in_range 240 244 x then
        match r with
        | y :: z :: w :: r =>
            let lo := if byte_to_Z x =? 240 then 144 else 128 in
            let hi := if byte_to_Z x =? 244 then 143 else 191 in
            in_range lo hi y && in_range 128 191 z && in_range 128 191 w && utf8_bytes r
        | _ => false
        end
      else false
  end.
Definition utf8 (s : string) : bool := utf8_bytes (unstr s).

(** ** JSON values *)

(** [boost::json::value]: a number is held as [int64_t], [uint64_t] or a
    double (here [m * 2^e]); an object keeps its keys in order, each once. *)
Inductive json :=
  | JNull
  | JBool (b : bool)
  | JInt (z : Z)
  | JUint (z : Z)
  | JDouble (m e : Z)
  | JString (s : string)
  | JArray (l : list json)
  | JObject (o : list (string * json)).

Abbreviation jobject := (list (string * json)).

Fixpoint obj_find (k : string) (o : jobject) : option json :=
  match o with
  | [] => None
  | (k', v) :: o => if String.eqb k' k then Some v else obj_find k o
  end.
(** [o.contains(k)], [o.at(k)], [o[k] = v], [o.emplace(k, v)]. *)
Definition obj_contains (o : jobject) (k : string) : bool := bool_decide (is_Some (obj_find k o)).
Definition obj_at (o : jobject) (k : string) : outcome json :=
  match obj_find k o with Some v => Ret v | None => Throw (json_error "out of range") end.
Fixpoint obj_set (o : jobject) (k : string) (v : json) : jobject :=
  match o with
  | [] => [(k, v)]
  | (k', v') :: o => if String.eqb k' k then (k', v) :: o else (k', v') :: obj_set o k v
  end.
Definition obj_emplace (o : jobject) (k : string) (v : json) : jobject :=
  if obj_contains o k then o else o ++ [(k, v)].

Definition as_object (v : json) : outcome jobject :=
  match v with JObject o => Ret o | _ => Throw (json_error "not an object") end.
Definition as_array (v : json) : outcome (list json) :=
  match v with JArray l => Ret l | _ => Throw (json_error "not an array") end.
Definition as_string (v : json) : outcome string :=
  match v with JString s => Ret s | _ => Throw (json_error "not a string") end.
Definition as_bool (v : json) : outcome bool :=
  match v with JBool b => Ret b | _ => Throw (json_error "not a bool") end.
(** [v.at(k)] of a value. *)
Definition json_at (v : json) (k : string) : outcome json :=
  as_object v ≫= λ o, obj_at o k.

(** [value_to<uint64_t>]: any number that is one exactly. *)
Definition double_to_Z (m e : Z) : option Z :=
  if 0 <=? e then Some (m * 2 ^ e)
  else if m mod 2 ^ (- e) =? 0 then Some (m / 2 ^ (- e)) else None.
Definition value_to_u64 (v : json) : outcome Z :=
  let check z := if (0 <=? z) && (z <? 2 ^ 64) then Ret z else Throw (json_error "not exact") in
  match v with
  | JInt z | JUint z => check z
  | JDouble m e => match double_to_Z m e with
                   | Some z => check z | None => Throw (json_error "not exact")
                   end
  | _ => Throw (json_error "not a number")
  end.

(** [json::serialize] prints a number without its kind; the parser reads a
    number that fits [int64_t] as one. *)
Fixpoint json_norm (v : json) : json :=
  match v with
  | JUint z => if z <? 2 ^ 63 then JInt z else JUint z
  | JArray l => JArray (List.map json_norm l)
  | JObject o => JObject (List.map (λ '(k, v), (k, json_norm v)) o)
  | _ => v
  end.

(** The values that a JSON text can carry unchanged: UTF-8 strings, distinct
    keys, numbers of their width, no doubles. *)
Fixpoint json_valid (v : json) : bool :=
  match v with
  | JNull | JBool _ => true
  | JInt z => bool_decide (- 2 ^ 63 <= z < 2 ^ 63)
  | JUint z => bool_decide (0 <= z < 2 ^ 64)
  | JDouble _ _ => false
  | JString s => utf8 s
  | JArray l => forallb json_valid l
  | JObject o => forallb (λ '(k, v), utf8 k && json_valid v) o
                 && bool_decide (NoDup (List.map fst o))
  end.

Class JsonCodec := {
  json_serialize : json → string;
  json_parse : string → option json;
  json_parse_serialize : ∀ v, json_valid v = true → json_parse (json_serialize v) = Some (json_norm v)
}.

(** ** Protobuf messages

    [pb_valid] says which values a message type can carry: numbers of their
    width, UTF-8 in the fields of type [string]. *)
Class PbMessage (A : Type) := pb_valid : A → Prop.
Class PbCodec (A : Type) `{PbMessage A} := {
  SerializeAsString : A → string;
  ParseFromString : string → option A;
  pb_parse_serialize : ∀ a, pb_valid a → ParseFromString (SerializeAsString a) = Some a;
  pb_parse_valid : ∀ s a, ParseFromString s = Some a → pb_valid a
}.

(** [ISerializableInPb<T>::toPbString] and [fromPbString] on a fresh object;
    [None] is the result [false]. *)
Section serializable.
Context {X A : Type} `{PbMessage A} {codec : PbCodec A}.
Definition toPbString (toPb : X → A) (x : X) : string := SerializeAsString (toPb x).
Definition fromPbString (fromPb : A → outcome X) (s : string) : outcome (option X) :=
  match ParseFromString s with
  | None => Ret None
  | Some pb => catch_all (Some <$> fromPb pb) (λ _, Ret None)
  end.

Lemma fromPbString_toPbString (toPb : X → A) fromPb x :
  pb_valid (toPb x) → fromPb (toPb x) = Ret x → fromPbString fromPb (toPbString toPb x) = Ret (Some x).
Proof. intros Hv E. unfold fromPbString, toPbString. by rewrite pb_parse_serialize, E. Qed.
End serializable.

(** ** Lemmas *)

Definition norm_obj (o : jobject) : jobject := List.map (λ '(k, v), (k, json_norm v)) o.

Lemma obj_find_norm k o : obj_find k (norm_obj o) = fmap (M:=option) json_norm (obj_find k o).
Proof. induction o as [|[k' v] o IH]; [done|]. cbn. by destruct (String.eqb k' k). Qed.
Lemma obj_contains_norm k o : obj_contains (norm_obj o) k = obj_contains o k.
Proof.
  unfold obj_contains. rewrite obj_find_norm.
  apply bool_decide_ext. by rewrite fmap_is_Some.
Qed.
Lemma obj_at_norm k o : obj_at (norm_obj o) k = fmap (M:=outcome) json_norm (obj_at o k).
Proof. unfold obj_at. rewrite obj_find_norm. by destruct (obj_find k o). Qed.
Lemma as_string_norm v : as_string (json_norm v) = as_string v.
Proof. destruct v; try done. cbn. by case_goal. Qed.
Lemma value_to_u64_norm v : value_to_u64 (json_norm v) = value_to_u64 v.
Proof. destruct v; try done. cbn. by destruct (z <? 2 ^ 63). Qed.
#[export] Hint Rewrite obj_contains_norm obj_at_norm as_string_norm value_to_u64_norm : wch_simpl.

Lemma value_to_u64_uint z : is_u64 z → value_to_u64 (JUint z) = Ret z.
Proof.
  intros [H1 H2]. cbn. rewrite (proj2 (Z.leb_le _ _)), (proj2 (Z.ltb_lt _ _)) by lia. done.
Qed.

Arguments value_to_u64 : simpl never.

(** UTF-8 of ASCII text. *)
Lemma utf8_ascii b : forallb (in_range 0 127) b = true → utf8_bytes b = true.
Proof. induction b as [|x b IH]; [done|]. cbn. intros [-> Hb]%andb_true_iff. by apply IH. Qed.

(** ** A concrete codec

    Any countable type has one: the code number, in binary text. *)
Module ToyCodec.
Fixpoint bits (p : positive) : string :=
  match p with
  | xH => ""
  | xO p => String "0" (bits p)
  | xI p => String "1" (bits p)
  end.
Fixpoint unbits (s : string) : positive :=
  match s with
  | EmptyString => xH
  | String c s => if Ascii.eqb c "0" then xO (unbits s) else xI (unbits s)
  end.
Lemma unbits_bits p : unbits (bits p) = p.
Proof. induction p; cbn; congruence. Qed.

Section toy.
Context {A : Type} `{Countable A}.
Definition toy_serialize (a : A) : string := bits (encode a).
Definition toy_parse (s : string) : option A := decode (unbits s).
Lemma toy_roundtrip a : toy_parse (toy_serialize a) = Some a.
Proof. unfold toy_parse, toy_serialize. by rewrite unbits_bits, decode_encode. Qed.
Context `{PbMessage A} {dec : ∀ a : A, Decision (pb_valid a)}.
Definition toy_pb_parse (s : string) : option A :=
  match toy_parse s with Some a => if decide (pb_valid a) then Some a else None | None => None end.
Lemma toy_pb_roundtrip a : pb_valid a → toy_pb_parse (toy_serialize a) = Some a.
Proof. intros Ha. unfold toy_pb_parse. rewrite toy_roundtrip. by rewrite decide_True. Qed.
Lemma toy_pb_valid s a : toy_pb_parse s = Some a → pb_valid a.
Proof. unfold toy_pb_parse. destruct (toy_parse s); [|done]. case_decide; [|done]. by intros [= <-]. Qed.
Definition toy_pb : PbCodec A := {|
  SerializeAsString := toy_serialize;
  ParseFromString := toy_pb_parse;
  pb_parse_serialize := toy_pb_roundtrip;
  pb_parse_valid := toy_pb_valid
|}.
End toy.

(** JSON values as trees of numbers and strings. *)
Definition leaf : Type := bool + (Z + Z) + (Z * Z) + string.
Fixpoint to_tree (v : json) : gen_tree leaf :=
  match v with
  | JNull => GenNode 0 []
  | JBool b => GenLeaf (inl (inl (inl b)))
  | JInt z => GenLeaf (inl (inl (inr (inl z))))
  | JUint z => GenLeaf (inl (inl (inr (inr z))))
  | JDouble m e => GenLeaf (inl (inr (m, e)))
  | JString s => GenLeaf (inr s)
  | JArray l => GenNode 1 (List.map to_tree l)
  | JObject o => GenNode 2 (List.map (λ '(k, v), GenNode 3 [GenLeaf (inr k); to_tree v]) o)
  end.
Fixpoint of_tree (t : gen_tree leaf) : json :=
  match t with
  | GenLeaf (inl (inl (inl b))) => JBool b
  | GenLeaf (inl (inl (inr (inl z)))) => JInt z
  | GenLeaf (inl (inl (inr (inr z)))) => JUint z
  | GenLeaf (inl (inr (m, e))) => JDouble m e
  | GenLeaf (inr s) => JString s
  | GenNode 1 l => JArray (List.map of_tree l)
  | GenNode 2 l =>
      JObject (List.map (λ p, match p with
        | GenNode 3 [GenLeaf (inr k); v] => (k, of_tree v)
        | _ => ("", JNull)
        end) l)
  | GenNode _ _ => JNull
  end.
Lemma of_to_tree : ∀ v, of_tree (to_tree v) = v.
Proof.
  fix IH 1. intros [| | | | | |l|o]; cbn; try done; f_equal.
  - induction l as [|v l IHl]; cbn; [done|]. by rewrite IH, IHl.
  - induction o as [|[k v] o IHo]; cbn; [done|]. by rewrite IH, IHo.
Qed.
Definition toy_json : JsonCodec := {|
  json_serialize v := toy_serialize (to_tree (json_norm v));
  json_parse s := of_tree <$> toy_parse s;
  json_parse_serialize := λ v _, eq_trans (f_equal (fmap (M:=option) of_tree) (toy_roundtrip _))
                                          (f_equal Some (of_to_tree _))
|}.
End ToyCodec.
