(* ===== verification/CoreJson.v ===== *)
(** * JSON forms of the data model, and the requests of clients

    include/core0.cpp: [toJson]/[fromJson] of [Tx], [Acn], [BlkHeader] and
    [Blk]; include/cnsss/forCnsss.hpp: [BlkForConsensus]; include/core0.hpp:
    [parse_txs_json_for_rpc] and [parse_txs_pb_for_rpc], which turn what a
    client sends into transactions. *)
From Stdlib Require Import ZArith Strings.Byte Strings.String Strings.Ascii Lia.
From stdpp Require Import base tactics strings gmap fin_maps option numbers list.
From S2P Require Import Prelude Text Hex Keccak Core Codec.

Local Open Scope Z_scope.

(** The result of a [fromJson] on a fresh object: [None] is [false]. *)
Definition tryO {A} (m : outcome A) : outcome (option A) :=
  catch_all (fmap (M:=outcome) Some m) (λ _, Ret None).
(** [ADD_FROM_JSON_TAG_INVOKE]: [value_to<T>] yields [T{}] when [fromJson] fails. *)
Definition tag_invoke_to {A} (d : A) (from : json → outcome (option A)) (v : json) : outcome A :=
  fmap (M:=outcome) (default d) (from v).
(** [value_to<vector<T>>]. *)
Definition value_to_vector {A} (f : json → outcome A) (v : json) : outcome (list A) :=
  as_array v ≫= mapO f.
(** [std::optional<T>::value] with the code's own error. *)
Definition or_throw {A} (o : option A) (e : exn) : outcome A :=
  match o with Some a => Ret a | None => Throw e end.

(** ** [Tx] *)

Definition Tx_toJson (c : Tx) : json :=
  let jv := [("from", JString (addressToString (tx_from c)));
             ("to", JString (addressToString (tx_to c)));
             ("nonce", JUint (tx_nonce c));
             ("timestamp", JUint (u64 (tx_timestamp c)));
             ("hash", JString (hashToString (Tx_hash c)))] in
  let jv := if bool_decide (tx_type c = Type_evm)
            then obj_set jv "data" (JString (hex (tx_data c)))
            else obj_set (obj_set jv "type" (JString (typeToString (tx_type c))))
                         "data" (JString (str (tx_data c))) in
  let jv := if String.eqb (tx_pk_pem c) "" then jv
            else obj_set jv "pk_pem" (JString (tx_pk_pem c)) in
  let jv := if bool_decide (tx_signature c = []) then jv
            else obj_set jv "signature" (JString (hex (tx_signature c))) in
  let jv := if bool_decide (tx_pk_crt c = []) then jv
            else obj_set jv "pk_crt" (JString (hex (tx_pk_crt c))) in
  JObject jv.

Definition get_string (o : jobject) (k : string) : outcome string := obj_at o k ≫= as_string.
Definition get_u64 (o : jobject) (k : string) : outcome Z := obj_at o k ≫= value_to_u64.
(** An optional hex field. *)
Definition opt_hex (o : jobject) (k : string) : outcome bytes :=
  if obj_contains o k then
    s ← get_string o k;
    or_throw (from_hex s) (runtime_error ("Invalid `" +:+ k +:+ "` format"))
  else Ret [].

Definition Tx_fromJson0 (o : jobject) : outcome Tx :=
  '(pk_pem, from) ←
    (if obj_contains o "pk_pem" then
       p ← get_string o "pk_pem"; Ret (p, getFromFromPkPem p)
     else
       s ← get_string o "from";
       a ← or_throw (from_hex_T 20 s) (runtime_error ("Invalid from = " +:+ s));
       Ret ("", a));
  signature ← opt_hex o "signature";
  pk_crt ← opt_hex o "pk_crt";
  nonce ← get_u64 o "nonce";
  timestamp ← get_u64 o "timestamp";
  type ← (if obj_contains o "type" then s ← get_string o "type"; typeFromString s
          else Ret Type_evm);
  s ← get_string o "data";
  data ← (if bool_decide (type = Type_evm)
          then or_throw (from_hex s) (runtime_error ("Invalid data = " +:+ s))
          else Ret (unstr s));
  s ← get_string o "to";
  to ← or_throw (from_hex_T 20 s) (runtime_error ("Invalid to = " +:+ s));
  Ret (mkTx pk_pem signature pk_crt type from to data nonce (i64 timestamp)).

Definition Tx_fromJson (v : json) : outcome (option Tx) := tryO (as_object v ≫= Tx_fromJson0).

(** ** [Acn] *)

(** Leading zero bytes are cut off, unless there are only zeros. *)
Definition trim_zeros (b : bytes) : bytes :=
  match skip_zeros b with [] => b | r => r end.

Definition storage_toJson (m : gmap bytes bytes) : jobject :=
  foldl (λ s '(k, v), obj_set s (str (trim_zeros k)) (JString (str (trim_zeros v)))) [] (map_to_list m).

Definition Acn_toJson (a : Acn) : json :=
  let v := [("nonce", JUint (acn_nonce a));
            ("code", JString (hex (acn_code a)));
            ("codehash", JString (hashToString (codehash a)))] in
  let v := obj_set v "storage" (JObject (storage_toJson (acn_storage a))) in
  let v := if bool_decide (acn_disk_storage a = []) then v
           else obj_set v "disk_storage" (JArray (JString <$> acn_disk_storage a)) in
  JObject v.

(** [copy_backward] into a zeroed [bytes32]. *)
Definition pad32 (s : string) : bytes := replicate (32 - String.length s) x00 ++ unstr s.

(** The loop over the members of "storage": [None] is [return false]. *)
Fixpoint Acn_fromJson_storage (m : gmap bytes bytes) (kvs : jobject) : outcome (option (gmap bytes bytes)) :=
  match kvs with
  | [] => Ret (Some m)
  | (s_key, v) :: kvs =>
      s_val ← as_string v;
      if (32 <? String.length s_key)%nat then Ret None
      else if (32 <? String.length s_val)%nat then Ret None
      else Acn_fromJson_storage (<[pad32 s_key := pad32 s_val]> m) kvs
  end.

Definition Acn_fromJson (v : json) : outcome (option Acn) :=
  catch_all (
    o ← as_object v;
    nonce ← get_u64 o "nonce";
    c ← get_string o "code";
    code ← value (from_hex c);
    st ← obj_at o "storage";
    kvs ← as_object st;
    r ← Acn_fromJson_storage ∅ kvs;
    match r with
    | None => Ret None
    | Some m =>
        ds ← (if obj_contains o "disk_storage"
              then d ← obj_at o "disk_storage"; l ← as_array d; mapO as_string l
              else Ret []);
        Ret (Some (mkAcn nonce code m ds))
    end) (λ _, Ret None).

(** ** Blocks *)

(** The members that [BlkHeader] contributes; [h] is the virtual [hash()]. *)
Definition BlkHeader_toJson (b : BlkHeader) (h : bytes) : jobject :=
  [("number", JUint (hd_number b));
   ("hash", JString (hashToString h));
   ("parentHash", JString (hashToString (hd_parentHash b)))].

Definition BlkHeader_fromJson (v : json) : outcome (option BlkHeader) :=
  tryO (n ← json_at v "number"; number ← value_to_u64 n;
        p ← json_at v "parentHash"; p ← as_string p;
        h ← or_throw (from_hex_T 32 p) (runtime_error "Invalid hash = ");
        Ret (mkBlkHeader number h)).

Definition Blk_toJson (b : Blk) : json :=
  JObject (obj_set (BlkHeader_toJson (blk_header b) (Blk_hash b)) "txs" (JArray (Tx_toJson <$> blk_txs b))).

Definition Blk_fromJson (v : json) : outcome (option Blk) :=
  hd ← BlkHeader_fromJson v;
  match hd with
  | None => Ret None
  | Some hd =>
      tryO (a ← json_at v "txs";
            txs ← value_to_vector (tag_invoke_to Tx_default Tx_fromJson) a;
            Ret (mkBlk hd txs))
  end.

(** [BlkForConsensus]: a block that carries the hashes of its transactions. *)
Record BlkForConsensus := mkBlkForConsensus { bfc_header : BlkHeader; bfc_txhs : list bytes }.
Definition BlkForConsensus_hash (b : BlkForConsensus) : bytes :=
  serial_hash (hd_parentHash (bfc_header b)) (bfc_txhs b).
Definition BlkForConsensus_toJson (b : BlkForConsensus) : json :=
  JObject (obj_set (BlkHeader_toJson (bfc_header b) (BlkForConsensus_hash b)) "txhs"
             (JArray ((λ h, JString (hashToString h)) <$> bfc_txhs b))).
Definition BlkForConsensus_fromJson (v : json) : outcome (option BlkForConsensus) :=
  hd ← BlkHeader_fromJson v;
  match hd with
  | None => Ret None
  | Some hd =>
      tryO (a ← json_at v "txhs";
            l ← value_to_vector as_string a;
            hs ← mapO (λ s, value (from_hex_T 32 s)) l;
            Ret (mkBlkForConsensus hd hs))
  end.

(** [IJsonizable::toJsonString] and [fromJsonString]. *)
Section json_string.
Context `{JsonCodec}.
Definition toJsonString {X} (toJson : X → json) (x : X) : string := json_serialize (toJson x).
Definition fromJsonString {X} (fromJson : json → outcome (option X)) (s : string) : outcome (option X) :=
  match json_parse s with None => Ret None | Some v => fromJson v end.
Definition BlkForConsensus_toString : BlkForConsensus → string := toJsonString BlkForConsensus_toJson.
Definition BlkForConsensus_fromString : string → outcome (option BlkForConsensus) :=
  fromJsonString BlkForConsensus_fromJson.
End json_string.

(** ** Lemmas *)

Lemma get_string_norm o k : get_string (norm_obj o) k = get_string o k.
Proof.
  unfold get_string. rewrite obj_at_norm.
  destruct (obj_at o k); cbn; [apply as_string_norm|done..].
Qed.
Lemma get_u64_norm o k : get_u64 (norm_obj o) k = get_u64 o k.
Proof.
  unfold get_u64. rewrite obj_at_norm.
  destruct (obj_at o k); cbn; [apply value_to_u64_norm|done..].
Qed.
Lemma opt_hex_norm o k : opt_hex (norm_obj o) k = opt_hex o k.
Proof. unfold opt_hex. by rewrite obj_contains_norm, get_string_norm. Qed.
#[export] Hint Rewrite get_string_norm get_u64_norm opt_hex_norm : wch_simpl.

Lemma Tx_fromJson0_norm o : Tx_fromJson0 (norm_obj o) = Tx_fromJson0 o.
Proof. unfold Tx_fromJson0. by autorewrite with wch_simpl. Qed.
Lemma as_object_norm v : as_object (json_norm v) = fmap (M:=outcome) norm_obj (as_object v).
Proof. destruct v; try done. unfold json_norm. by destruct (z <? 2 ^ 63). Qed.
Lemma Tx_fromJson_norm v : Tx_fromJson (json_norm v) = Tx_fromJson v.
Proof.
  unfold Tx_fromJson. rewrite as_object_norm. destruct (as_object v); cbn; [|done..].
  by rewrite Tx_fromJson0_norm.
Qed.

Lemma typeFromString_typeToString t : typeFromString (typeToString t) = Ret t.
Proof. by destruct t. Qed.
Lemma unstr_empty s : unstr s = [] → s = "".
Proof. by destruct s. Qed.

Lemma Tx_fromJson0_toJson t :
  Tx_wf t → from_derived t → (as_object (Tx_toJson t) ≫= Tx_fromJson0) = Ret t.
Proof.
  intros (Hf & Ht & Hn & Hts) Hd.
  destruct t as [pem sig crt type from to data nonce ts]; cbn in Hf, Ht, Hn, Hts.
  pose proof (from_hex_T_hex 20 from ltac:(lia)) as Ef.
  pose proof (from_hex_T_hex 20 to ltac:(lia)) as Eto.
  rewrite Hf in Ef; rewrite Ht in Eto; cbn in Ef, Eto.
  unfold addressToString, hashToString.
  unfold Tx_toJson, addressToString, hashToString.
  cbn [tx_pk_pem tx_signature tx_pk_crt tx_type tx_from tx_to tx_data tx_nonce tx_timestamp].
  generalize (hex (Tx_hash (mkTx pem sig crt type from to data nonce ts))) as h; intros h.
  destruct (String.eqb_spec pem ""); destruct type; repeat case_bool_decide; subst; try done; cbn;
    rewrite ?Ef; cbn; rewrite ?from_hex_hex; cbn; rewrite ?from_hex_hex; cbn;
    rewrite !value_to_u64_uint by auto with wch; cbn;
    rewrite ?from_hex_hex; cbn; rewrite Eto, ?unstr_str; cbn; rewrite i64_u64 by done;
    destruct Hd as [Hd|Hd]; cbn in Hd; subst; done.
Qed.

(** *** The JSON of one value reads the same after [json_norm] *)

Lemma mapO_norm {A} (f : json → outcome A) l :
  (∀ v, f (json_norm v) = f v) → mapO f (List.map json_norm l) = mapO f l.
Proof. intros Hf. induction l as [|v l IH]; [done|]. cbn. by rewrite Hf, IH. Qed.
Lemma value_to_vector_norm {A} (f : json → outcome A) v :
  (∀ v, f (json_norm v) = f v) → value_to_vector f (json_norm v) = value_to_vector f v.
Proof.
  intros Hf. destruct v; try done.
  - unfold value_to_vector, json_norm. by destruct (z <? 2 ^ 63).
  - by apply mapO_norm.
Qed.
Lemma json_at_norm v k : json_at (json_norm v) k = fmap (M:=outcome) json_norm (json_at v k).
Proof.
  unfold json_at. rewrite as_object_norm. destruct (as_object v); cbn; [|done..].
  apply obj_at_norm.
Qed.
Lemma BlkHeader_fromJson_norm v : BlkHeader_fromJson (json_norm v) = BlkHeader_fromJson v.
Proof.
  unfold BlkHeader_fromJson. rewrite !json_at_norm.
  destruct (json_at v "number"); cbn; [|done..]. rewrite value_to_u64_norm.
  destruct (value_to_u64 a); cbn; [|done..].
  destruct (json_at v "parentHash"); cbn; [|done..]. by rewrite as_string_norm.
Qed.
Lemma Blk_fromJson_norm v : Blk_fromJson (json_norm v) = Blk_fromJson v.
Proof.
  unfold Blk_fromJson. rewrite BlkHeader_fromJson_norm, json_at_norm.
  destruct (BlkHeader_fromJson v) as [[hd|]| |]; cbn; try done.
  destruct (json_at v "txs"); cbn; [|done..]. rewrite value_to_vector_norm; [done|].
  intros w. unfold tag_invoke_to. by rewrite Tx_fromJson_norm.
Qed.
Lemma BlkForConsensus_fromJson_norm v :
  BlkForConsensus_fromJson (json_norm v) = BlkForConsensus_fromJson v.
Proof.
  unfold BlkForConsensus_fromJson. rewrite BlkHeader_fromJson_norm, json_at_norm.
  destruct (BlkHeader_fromJson v) as [[hd|]| |]; cbn; try done.
  destruct (json_at v "txhs"); cbn; [|done..]. by rewrite value_to_vector_norm by apply as_string_norm.
Qed.

(** *** Round trips *)

Lemma Tx_fromJson_toJson t : Tx_wf t → from_derived t → Tx_fromJson (Tx_toJson t) = Ret (Some t).
Proof. intros Hw Hd. unfold Tx_fromJson. by rewrite Tx_fromJson0_toJson. Qed.

Definition BlkHeader_wf (b : BlkHeader) : Prop :=
  is_u64 (hd_number b) ∧ length (hd_parentHash b) = 32%nat.

Lemma from_hex_T_exact n b : length b = n → from_hex_T n (hex b) = Some b.
Proof. intros <-. rewrite from_hex_T_hex by done. by rewrite Nat.sub_diag. Qed.

Lemma BlkHeader_fromJson_toJson b h k v :
  BlkHeader_wf b → String.eqb "number" k = false → String.eqb "parentHash" k = false →
  BlkHeader_fromJson (JObject (obj_set (BlkHeader_toJson b h) k v)) = Ret (Some b).
Proof.
  intros [Hn Hp] E1 E2.
  unfold BlkHeader_fromJson, json_at, obj_at, BlkHeader_toJson. cbn -[String.eqb]. rewrite E1, E2.
  cbn -[String.eqb]. destruct (String.eqb "hash" k); cbn; rewrite value_to_u64_uint by done; cbn;
    unfold hashToString; rewrite from_hex_T_exact by done; by destruct b.
Qed.

Lemma Blk_fromJson_toJson b :
  BlkHeader_wf (blk_header b) → Forall Tx_wf (blk_txs b) → Forall from_derived (blk_txs b) →
  Blk_fromJson (Blk_toJson b) = Ret (Some b).
Proof.
  intros Hh Hw Hd. unfold Blk_fromJson, Blk_toJson.
  rewrite (BlkHeader_fromJson_toJson (blk_header b)) by done.
  unfold json_at, obj_at. cbn.
  rewrite (mapO_ret _ (λ j, default Tx_default (match Tx_fromJson j with Ret r => r | _ => None end))).
  - cbn. destruct b as [hd txs]; cbn in *. repeat f_equal. rewrite <-list_fmap_compose.
    rewrite <-(list_fmap_id txs) at 2. apply list_fmap_ext. intros i t Ht%list_elem_of_lookup_2.
    unfold compose; cbn beta.
    by rewrite Tx_fromJson_toJson by eauto with wch.
  - intros v (t & -> & Ht)%list_elem_of_fmap. 
    unfold tag_invoke_to. by rewrite Tx_fromJson_toJson by eauto with wch.
Qed.

Definition BlkForConsensus_wf (b : BlkForConsensus) : Prop :=
  BlkHeader_wf (bfc_header b) ∧ Forall (λ h, length h = 32%nat) (bfc_txhs b).

Lemma BlkForConsensus_fromJson_toJson b :
  BlkForConsensus_wf b → BlkForConsensus_fromJson (BlkForConsensus_toJson b) = Ret (Some b).
Proof.
  intros [Hh Hl]. unfold BlkForConsensus_fromJson, BlkForConsensus_toJson.
  rewrite (BlkHeader_fromJson_toJson (bfc_header b)) by done.
  unfold json_at, obj_at. cbn.
  rewrite (mapO_ret _ (λ j, match j with JString s => s | _ => ""%string end)).
  2:{ by intros v (h & -> & Hi)%list_elem_of_fmap. }
  cbn. rewrite <-list_fmap_compose.
  rewrite (mapO_ret _ (λ s, default [] (from_hex_T 32 s))).
  2:{ intros s (h & -> & Hi)%list_elem_of_fmap. cbn. unfold hashToString.
      rewrite from_hex_T_exact; [done|]. by eapply Forall_in in Hl. }
  cbn. destruct b as [hd hs]; cbn in *. repeat f_equal. rewrite <-list_fmap_compose.
  rewrite <-(list_fmap_id hs) at 2. apply list_fmap_ext. intros i h Hi%list_elem_of_lookup_2.
  unfold compose, hashToString; cbn beta. rewrite from_hex_T_exact; [done|]. by eapply Forall_in in Hl.
Qed.

(** *** Accounts *)

Lemma pad32_trim b : length b = 32%nat → pad32 (str (trim_zeros b)) = b.
Proof.
  intros Hb. unfold pad32, trim_zeros. rewrite length_str, unstr_str.
  destruct (skip_zeros_pad b) as [H Hl]. rewrite <-Hb.
  destruct (skip_zeros b); [by rewrite Nat.sub_diag|done].
Qed.
Lemma length_trim b : (length (trim_zeros b) <= length b)%nat.
Proof. unfold trim_zeros. destruct (skip_zeros_pad b) as [_ Hl]. by destruct (skip_zeros b). Qed.

Lemma obj_set_new o k v : k ∉ List.map fst o → obj_set o k v = o ++ [(k, v)].
Proof.
  induction o as [|[k' v'] o IH]; intros Hk; [done|]. cbn in *.
  destruct (String.eqb_spec k' k) as [->|]; [set_solver|].
  rewrite IH; [done|]. intros H. apply Hk. by right.
Qed.

Lemma storage_toJson_list (kvs : list (bytes * bytes)) acc :
  Forall (λ kv, length kv.1 = 32%nat) kvs → NoDup kvs.*1 →
  (∀ kv, kv ∈ kvs → str (trim_zeros kv.1) ∉ List.map fst acc) →
  foldl (λ s '(k, v), obj_set s (str (trim_zeros k)) (JString (str (trim_zeros v)))) acc kvs
  = acc ++ List.map (λ kv, (str (trim_zeros kv.1), JString (str (trim_zeros kv.2)))) kvs.
Proof.
  intros HL. revert acc. induction HL as [|[k v] kvs Hk HL IH]; intros acc Hnd Hacc; cbn.
  { by rewrite app_nil_r. }
  apply NoDup_cons in Hnd as [Hn Hnd]. rewrite obj_set_new.
  2:{ apply (Hacc (k, v)). by left. }
  rewrite IH; [by rewrite <-app_assoc|done|].
  intros [k' v'] Hin. rewrite List.map_app. cbn. rewrite elem_of_app, list_elem_of_singleton.
  intros [H|H]; [by eapply (Hacc (k', v')); [right|]|].
  apply (f_equal pad32) in H. cbn in Hk.
  rewrite !pad32_trim in H; [|done|by apply (Forall_in _ _ _ HL Hin)].
  subst. apply Hn. apply list_elem_of_fmap. by exists (k, v').
Qed.

Lemma Acn_fromJson_storage_list m (kvs : list (bytes * bytes)) :
  Forall (λ kv, length kv.1 = 32%nat ∧ length kv.2 = 32%nat) kvs →
  Acn_fromJson_storage m
    (List.map (λ kv, (str (trim_zeros kv.1), JString (str (trim_zeros kv.2)))) kvs)
  = Ret (Some (foldl (λ m kv, <[kv.1 := kv.2]> m) m kvs)).
Proof.
  intros H. revert m. induction H as [|[k v] kvs [Hk Hv] _ IH]; intros m; [done|].
  cbn in Hk, Hv, IH |- . cbn -[Nat.ltb]. pose proof (length_trim k). pose proof (length_trim v).
  rewrite !length_str, !(proj2 (Nat.ltb_ge _ _)) by lia. rewrite !pad32_trim by done. apply IH.
Qed.

Lemma map_storage_wf a : Acn_wf a →
  Forall (λ kv, length kv.1 = 32%nat ∧ length kv.2 = 32%nat) (map_to_list (acn_storage a)).
Proof. intros [_ Hs]. apply Forall_forall. intros [k v] H%elem_of_map_to_list. by apply Hs. Qed.

Lemma storage_roundtrip a : Acn_wf a →
  Acn_fromJson_storage ∅ (storage_toJson (acn_storage a)) = Ret (Some (acn_storage a)).
Proof.
  intros Ha%map_storage_wf. unfold storage_toJson. rewrite storage_toJson_list.
  - cbn [app]. rewrite Acn_fromJson_storage_list by done. by rewrite foldl_insert_map_to_list.
  - eapply Forall_impl; [exact Ha|]. by intros ? [].
  - apply NoDup_fst_map_to_list.
  - intros kv _. cbn. set_solver.
Qed.

Lemma mapO_as_string l : mapO as_string (JString <$> l) = Ret l.
Proof. induction l as [|s l IH]; [done|]. cbn. by rewrite IH. Qed.

Lemma Acn_fromJson_toJson a : Acn_wf a → Acn_fromJson (Acn_toJson a) = Ret (Some a).
Proof.
  intros Ha. pose proof (storage_roundtrip a Ha) as Hst. destruct Ha as [Hn _].
  destruct a as [n code st ds]. unfold Acn_fromJson, Acn_toJson, hashToString. cbn in Hn, Hst.
  cbn [acn_nonce acn_code acn_storage acn_disk_storage].
  generalize (hex (codehash (mkAcn n code st ds))) as h; intros h.
  generalize dependent (storage_toJson st); intros kvs Hst.
  case_bool_decide; subst; cbn; rewrite value_to_u64_uint by done; cbn; rewrite from_hex_hex; cbn;
    rewrite Hst; cbn; by rewrite ?mapO_as_string.
Qed.

(** What is read from JSON is well formed. *)
Lemma value_to_u64_range v z : value_to_u64 v = Ret z → is_u64 z.
Proof.
  unfold value_to_u64, is_u64.
  assert (∀ x, (if (0 <=? x) && (x <? 2 ^ 64) then Ret x else Throw (json_error "not exact")) = Ret z
    → 0 <= z < 2 ^ 64) as H.
  { intros x. destruct (0 <=? x) eqn:E1; destruct (x <? 2 ^ 64) eqn:E2; cbn; try done.
    intros [= <-]. lia. }
  destruct v; try done; try apply H. destruct (double_to_Z m e); [apply H|done].
Qed.

Lemma BlkHeader_fromJson_wf v hd : BlkHeader_fromJson v = Ret (Some hd) → BlkHeader_wf hd.
Proof.
  unfold BlkHeader_fromJson, tryO. destruct (json_at v "number"); cbn; try done.
  destruct (value_to_u64 a) eqn:En; cbn; try done.
  destruct (json_at v "parentHash"); cbn; try done. destruct (as_string a1); cbn; try done.
  destruct (from_hex_T 32 a2) eqn:Eh; cbn; try done. intros [= <-].
  split; [by eapply value_to_u64_range|by eapply length_from_hex_T].
Qed.

Lemma mapO_from_hex_T l hs :
  mapO (λ s, value (from_hex_T 32 s)) l = Ret hs → Forall (λ h, length h = 32%nat) hs.
Proof.
  revert hs. induction l as [|s l IH]; intros hs; cbn; [by intros [= <-]|].
  destruct (from_hex_T 32 s) eqn:E; cbn; [|done].
  destruct (mapO _ l) as [r| |]; cbn; [|done..]. intros [= <-].
  constructor; [by eapply length_from_hex_T|by apply IH].
Qed.

Lemma BlkForConsensus_fromJson_wf v b :
  BlkForConsensus_fromJson v = Ret (Some b) → BlkForConsensus_wf b.
Proof.
  unfold BlkForConsensus_fromJson, tryO.
  destruct (BlkHeader_fromJson v) as [[hd|]| |] eqn:Eh; cbn; try done.
  destruct (json_at v "txhs") as [a| |]; cbn; try done.
  destruct (value_to_vector as_string a) as [l| |]; cbn; try done.
  destruct (mapO _ l) as [hs| |] eqn:El; cbn; try done. intros [= <-].
  split; [by eapply BlkHeader_fromJson_wf|by eapply mapO_from_hex_T].
Qed.
Lemma BlkForConsensus_fromString_wf `{JsonCodec} s b :
  BlkForConsensus_fromString s = Ret (Some b) → BlkForConsensus_wf b.
Proof.
  unfold BlkForConsensus_fromString, fromJsonString. destruct (json_parse s); [|done].
  apply BlkForConsensus_fromJson_wf.
Qed.

(** Reading never runs into undefined behaviour. *)
Lemma no_ub_obj_at o k : no_ub (obj_at o k).
Proof. unfold obj_at. by destruct (obj_find k o). Qed.
Lemma no_ub_as_object v : no_ub (as_object v).
Proof. by destruct v. Qed.
Lemma no_ub_as_string v : no_ub (as_string v).
Proof. by destruct v. Qed.
Lemma no_ub_as_array v : no_ub (as_array v).
Proof. by destruct v. Qed.
Lemma no_ub_value_to_u64 v : no_ub (value_to_u64 v).
Proof. destruct v; cbn; try done; unfold value_to_u64; repeat case_goal; done. Qed.
Lemma no_ub_or_throw {A} (o : option A) e : no_ub (or_throw o e).
Proof. by destruct o. Qed.
Lemma no_ub_value {A} (o : option A) : no_ub (value o).
Proof. by destruct o. Qed.
Lemma no_ub_json_at v k : no_ub (json_at v k).
Proof. apply no_ub_bind; [apply no_ub_as_object|]. intros o. apply no_ub_obj_at. Qed.
#[export] Hint Resolve no_ub_obj_at no_ub_as_object no_ub_as_string no_ub_as_array no_ub_value_to_u64
  no_ub_or_throw no_ub_value no_ub_json_at : wch.
Lemma tryO_total {A} (m : outcome A) : no_ub m → ∃ r, tryO m = Ret r.
Proof. destruct m; cbn; eauto; done. Qed.
Lemma BlkHeader_fromJson_total v : ∃ r, BlkHeader_fromJson v = Ret r.
Proof.
  apply tryO_total. repeat (apply no_ub_bind; [auto with wch|intros ?]). done.
Qed.
Lemma BlkForConsensus_fromJson_total v : ∃ r, BlkForConsensus_fromJson v = Ret r.
Proof.
  unfold BlkForConsensus_fromJson. destruct (BlkHeader_fromJson_total v) as [[hd|] ->]; cbn; [|eauto].
  apply tryO_total. apply no_ub_bind; [auto with wch|]. intros a.
  apply no_ub_bind; [apply no_ub_bind; auto with wch|]. intros l. apply no_ub_bind; [auto with wch|]. done.
Qed.
Lemma BlkForConsensus_fromString_total `{JsonCodec} s : ∃ r, BlkForConsensus_fromString s = Ret r.
Proof.
  unfold BlkForConsensus_fromString, fromJsonString. destruct (json_parse s); [|eauto].
  apply BlkForConsensus_fromJson_total.
Qed.

(** *** The consensus block as text *)

Lemma hex_digit_ascii (b : byte) : forallb (in_range 0 127) (unstr (hex_byte b)) = true.
Proof. by destruct b. Qed.
Lemma utf8_hex b : utf8 (hex b) = true.
Proof.
  apply utf8_ascii. induction b as [|x b IH]; [done|].
  change (hex (x :: b)) with (hex_byte x +:+ hex b).
  rewrite unstr_app, forallb_app, hex_digit_ascii. done.
Qed.

Lemma BlkForConsensus_json_valid b :
  BlkForConsensus_wf b → json_valid (BlkForConsensus_toJson b) = true.
Proof.
  intros [[Hn Hp] Hl]. unfold is_u64 in Hn. destruct b as [[n p] hs]; cbn in Hn |- *.
  unfold hashToString. rewrite !utf8_hex, bool_decide_eq_true_2 by lia. cbn [andb].
  assert (forallb json_valid ((λ h, JString (hex h)) <$> hs) = true) as ->.
  { clear. induction hs as [|h hs IH]; [done|]. cbn. by rewrite utf8_hex. }
  done.
Qed.

Lemma BlkForConsensus_string_roundtrip `{JsonCodec} b :
  BlkForConsensus_wf b →
  BlkForConsensus_fromString (BlkForConsensus_toString b) = Ret (Some b).
Proof.
  intros Hb. unfold BlkForConsensus_fromString, fromJsonString, BlkForConsensus_toString, toJsonString.
  rewrite json_parse_serialize by by apply BlkForConsensus_json_valid.
  rewrite BlkForConsensus_fromJson_norm. by apply BlkForConsensus_fromJson_toJson.
Qed.

(** ** Requests of clients *)

(** [hiPb::AddTxReply]: the reply for one accepted transaction. *)
Record AddTxReply := mkAddTxReply { reply_hash : bytes; reply_deployed : option bytes }.

(** A CREATE transaction: not of type [data], and to the zero address. *)
Definition is_create (t : Tx) : bool :=
  negb (bool_decide (tx_type t = Type_data)) && is_zero_address (tx_to t).
Definition reply_of (t : Tx) : AddTxReply :=
  mkAddTxReply (Tx_hash t) (if is_create t then Some (getContractDeployAddress t) else None).
(** The reply as JSON. *)
Definition reply_toJson (r : AddTxReply) : json :=
  JObject (("hash", JString (hashToString (reply_hash r)))
           :: match reply_deployed r with
              | Some a => [("deployed_address", JString (addressToString a))]
              | None => []
              end).

Section requests.
(** [std::time] at the [i]-th element, the files of the host, and the optional
    verifier [txf]. *)
Context (clock : nat → Z) (files : string → option string) (txf : option (Tx → bool)).

Definition verified (t : Tx) : bool := match txf with Some v => v t | None => true end.

(** The loop of [parse_txs_pb_for_rpc]. *)
Fixpoint parse_pb_loop (i : nat) (pb : list PbTx) : outcome (list AddTxReply * list Tx) :=
  match pb with
  | [] => Ret ([], [])
  | tx :: pb =>
      t ← Tx_fromPb Tx_default tx;
      let t := set_timestamp t (clock i) in
      '(rs, ts) ← parse_pb_loop (S i) pb;
      Ret (if verified t then (reply_of t :: rs, t :: ts) else (rs, ts))
  end.
Definition parse_txs_pb_for_rpc (pb : list PbTx) : outcome (option (list AddTxReply * list Tx)) :=
  tryO (parse_pb_loop 0 pb).

(** A member "data" that starts with [@] names a file; [None]: not found. *)
Definition load_data (o : jobject) : option jobject :=
  match obj_find "data" o with
  | Some (JString (String "@" p)) =>
      match files p with Some c => Some (obj_set o "data" (JString c)) | None => None end
  | _ => Some o
  end.

(** The loop of [parse_txs_json_for_rpc]: [None] is [return {}]. *)
Fixpoint parse_json_loop (i : nat) (a : list json) : outcome (option (list AddTxReply * list Tx)) :=
  match a with
  | [] => Ret (Some ([], []))
  | v :: a =>
      o ← as_object v;
      let o := obj_emplace o "timestamp" (JInt (clock i)) in
      match load_data o with
      | None => Ret None
      | Some o =>
          t ← Tx_fromJson0 o;
          r ← parse_json_loop (S i) a;
          Ret (fmap (M:=option) (λ '(rs, ts),
            if verified t then (reply_of t :: rs, t :: ts) else (rs, ts)) r)
      end
  end.
(** [parse_txs_jsonString_for_rpc] after [json::parse]. *)
Definition parse_txs_json_for_rpc (v : json) : outcome (option (list AddTxReply * list Tx)) :=
  catch_all (as_array v ≫= parse_json_loop 0) (λ _, Ret None).

(** *** What is accepted *)
Definition accepted (t : Tx) : Prop := Tx_wf t ∧ from_derived t ∧ verified t = true.

Lemma accepted_cons rs ts t :
  accepted t → rs = reply_of <$> ts ∧ Forall accepted ts →
  reply_of t :: rs = reply_of <$> t :: ts ∧ Forall accepted (t :: ts).
Proof. intros Ht [-> HF]. split; [done|by constructor]. Qed.

Lemma parse_pb_loop_sound i pb rs ts :
  (∀ i, is_i64 (clock i)) → Forall (λ p, is_u64 (pb_nonce p)) pb →
  parse_pb_loop i pb = Ret (rs, ts) → rs = reply_of <$> ts ∧ Forall accepted ts.
Proof.
  intros Hc Hn. revert i rs ts. induction Hn as [|tx pb Hn _ IH]; intros i rs ts; cbn.
  { by intros [= <- <-]. }
  destruct (Tx_fromPb Tx_default tx) as [t| |] eqn:Et; cbn; [|done..].
  destruct (parse_pb_loop (S i) pb) as [[rs' ts']| |] eqn:E; cbn; [|done..].
  apply IH in E. destruct (verified _) eqn:Ev; intros [= <- <-]; [|done].
  apply accepted_cons; [|done].
  apply Tx_fromPb_wf in Et as [(Hf & Ht & Hno & _) Hd]; [|done].
  unfold accepted, Tx_wf, from_derived in *. cbn. auto 10.
Qed.

Lemma get_u64_range o k z : get_u64 o k = Ret z → is_u64 z.
Proof. unfold get_u64. destruct (obj_at o k); cbn; [apply value_to_u64_range|done..]. Qed.

(** Peel one bind off the goal [m = Ret t -> P]. *)
Ltac bind_case := match goal with
  | |- context [mbind _ ?m] => let E := fresh "E" in destruct m eqn:E; cbn; [|done..]
  end.

Lemma Tx_fromJson0_wf o t : Tx_fromJson0 o = Ret t → Tx_wf t ∧ from_derived t.
Proof.
  unfold Tx_fromJson0, Tx_wf, from_derived.
  set (sender := if obj_contains o "pk_pem" then _ else _).
  assert (∀ p f, sender = Ret (p, f) → length f = 20%nat ∧ (p = "" ∨ f = getFromFromPkPem p)) as Hs.
  { intros p f. unfold sender. destruct (obj_contains o "pk_pem").
    - destruct (get_string o "pk_pem") as [q| |]; cbn; try done. intros [= <- <-].
      split; [apply length_getFromFromPkPem|by right].
    - destruct (get_string o "from") as [q| |]; cbn; try done.
      destruct (from_hex_T 20 q) eqn:E; cbn; try done. intros [= <- <-].
      split; [by eapply length_from_hex_T|by left]. }
  destruct sender as [[p f]| |]; cbn; [|done..]. destruct (Hs _ _ eq_refl) as [Hl Hd].
  destruct (opt_hex o "signature"); cbn; [|done..].
  destruct (opt_hex o "pk_crt"); cbn; [|done..].
  destruct (get_u64 o "nonce") eqn:En; cbn; [|done..].
  destruct (get_u64 o "timestamp"); cbn; [|done..].
  bind_case. bind_case. bind_case. bind_case.
  match goal with |- context [from_hex_T 20 ?s] => destruct (from_hex_T 20 s) eqn:Eto; cbn; [|done] end.
  intros [= <-]; cbn. split; [|done]. repeat split; auto with wch.
  - by eapply length_from_hex_T.
  - by apply get_u64_range in En as [].
  - by apply get_u64_range in En as [].
  - by apply i64_range.
  - by apply i64_range.
Qed.

Lemma parse_json_loop_sound i a rs ts :
  parse_json_loop i a = Ret (Some (rs, ts)) → rs = reply_of <$> ts ∧ Forall accepted ts.
Proof.
  revert i rs ts. induction a as [|v a IH]; intros i rs ts; cbn.
  { by intros [= <- <-]. }
  destruct (as_object v) as [o| |]; cbn; [|done..].
  destruct (load_data _) as [o'|]; [|done].
  destruct (Tx_fromJson0 o') as [t| |] eqn:Et; cbn; [|done..].
  destruct (parse_json_loop (S i) a) as [[[rs' ts']|]| |] eqn:E; cbn; try done.
  apply IH in E. destruct (verified t) eqn:Ev; intros [= <- <-]; [|done].
  apply accepted_cons; [|done]. apply Tx_fromJson0_wf in Et as [Hw Hd].
  unfold accepted. auto.
Qed.
End requests.

(** ** Theorems *)

(** C36: What the RPC accepts from a client is a list of well-formed
    transactions, each passed by the verifier when there is one, each sent from
    the address of its public key when it carries one; the reply names the hash
    of each, and the address it will deploy to exactly for CREATE transactions.
    This holds for requests in protobuf and in JSON. *)
Theorem rpc_request_sound clock files txf pb v rs ts :
  (∀ i, is_i64 (clock i)) → Forall (λ p, is_u64 (pb_nonce p)) pb →
  parse_txs_pb_for_rpc clock txf pb = Ret (Some (rs, ts))
  ∨ parse_txs_json_for_rpc clock files txf v = Ret (Some (rs, ts)) →
  rs = reply_of <$> ts
  ∧ Forall (λ t, Tx_wf t ∧ from_derived t
                 ∧ ∀ f, txf = Some f → f t = true) ts.
Proof.
  intros Hc Hn H. cut (rs = reply_of <$> ts ∧ Forall (accepted txf) ts).
  { intros [-> HF]. split; [done|]. eapply Forall_impl; [exact HF|].
    intros t (Hw & Hd & Hv). repeat split; [apply Hw..|done|]. intros f ->. done. }
  destruct H as [H|H].
  - unfold parse_txs_pb_for_rpc, tryO in H.
    destruct (parse_pb_loop clock txf 0 pb) as [[rs' ts']| |] eqn:E; cbn in H; try done.
    injection H as <- <-. by apply parse_pb_loop_sound in E.
  - unfold parse_txs_json_for_rpc in H. destruct (as_array v) as [a| |]; cbn in H; try done.
    destruct (parse_json_loop clock files txf 0 a) eqn:E; cbn in H; try done. subst.
    injection H as ->. by apply parse_json_loop_sound in E.
Qed.

Definition request_example : json :=
  JArray [JObject [("from", JString "0x01"); ("to", JString ""); ("nonce", JInt 1);
                   ("data", JString "@main.py"); ("type", JString "python")]].
Definition rpc_request_sound_witness_files (p : string) : option string :=
  if String.eqb p "main.py" then Some "def init(): pass" else None.

Lemma rpc_request_sound_witness :
  ∃ rs ts, length ts = 1%nat
  ∧ parse_txs_json_for_rpc (λ _, 7) rpc_request_sound_witness_files None request_example = Ret (Some (rs, ts))
  ∧ rs = reply_of <$> ts
  ∧ Forall (λ t, Tx_wf t ∧ from_derived t ∧ ∀ f : Tx → bool, None = Some f → f t = true) ts.
Proof.
  eexists _, _. split; [|split; [vm_compute; reflexivity|]]; [reflexivity|].
  apply (rpc_request_sound (λ _, 7) rpc_request_sound_witness_files None [] request_example).
  - intros _. unfold is_i64. lia.
  - constructor.
  - right. vm_compute. reflexivity.
Defined.

(** C39: A transaction, an account and a block come back from their JSON form,
    whatever integer kinds the JSON parser chooses. *)
Theorem json_roundtrip t a b :
  Tx_wf t → from_derived t → Acn_wf a →
  BlkHeader_wf (blk_header b) → Forall Tx_wf (blk_txs b) → Forall from_derived (blk_txs b) →
  Tx_fromJson (json_norm (Tx_toJson t)) = Ret (Some t)
  ∧ Acn_fromJson (Acn_toJson a) = Ret (Some a)
  ∧ Blk_fromJson (json_norm (Blk_toJson b)) = Ret (Some b).
Proof.
  intros. rewrite Tx_fromJson_norm, Blk_fromJson_norm.
  auto using Tx_fromJson_toJson, Acn_fromJson_toJson, Blk_fromJson_toJson.
Qed.

Lemma json_roundtrip_witness :
  let b := mkBlk (mkBlkHeader 3 (replicate 32 x01)) [tx_example] in
  Tx_fromJson (json_norm (Tx_toJson tx_example)) = Ret (Some tx_example)
  ∧ Acn_fromJson (Acn_toJson acn_example) = Ret (Some acn_example)
  ∧ Blk_fromJson (json_norm (Blk_toJson b)) = Ret (Some b).
Proof.
  intros b. assert (from_derived tx_example) as Hd by (by left).
  apply (json_roundtrip tx_example acn_example b).
  - apply tx_example_wf.
  - done.
  - apply acn_example_wf.
  - split; [unfold is_u64; cbn; lia|done].
  - constructor; [apply tx_example_wf|constructor].
  - by constructor.
Defined.
