(* ===== verification/PostExec.v ===== *)
(** * Executed blocks

    include/forPostExec.hpp and [StateChange] of include/core.hpp: what the
    execution of a block leaves behind, and how it is stored.  The stored form
    is protobuf (include/pure-common.hpp chooses it when [WITH_PROTOBUF] is
    defined, which the generated configuration header always does). *)
From Stdlib Require Import ZArith Strings.Byte Strings.String Strings.Ascii Lia.
From stdpp Require Import base tactics strings gmap option numbers countable list.
From S2P Require Import Prelude Text Hex Keccak Core Codec CoreJson.

Local Open Scope Z_scope.

Record StateChange := mkStateChange { sc_del : bool; sc_k : string; sc_v : string }.
Record TxReceipt := mkTxReceipt { rc_ok : bool; rc_result : bytes; rc_type : TxType }.
Record TxOnBlkInfo := mkTxOnBlkInfo { blkNumber : Z; onBlkId : Z }.
#[global] Instance StateChange_eq_dec : EqDecision StateChange.
Proof. solve_decision. Defined.
#[global] Instance TxReceipt_eq_dec : EqDecision TxReceipt.
Proof. solve_decision. Defined.

(** [TxReceipt(bool o, type)]: only for a failed transaction. *)
Definition TxReceipt_failed (o : bool) (tp : TxType) : outcome TxReceipt :=
  if o then Throw (invalid_argument "This constructor is used for Tx that failed to be executed.")
  else Ret (mkTxReceipt o [] tp).
(** [TxReceipt(bytes r, type)]. *)
Definition TxReceipt_result (r : bytes) (tp : TxType) : TxReceipt := mkTxReceipt true r tp.

(** An executed block: the block, the journal and the receipt of each
    transaction. *)
Record ExecBlk := mkExecBlk {
  eb_blk : Blk;
  stateChanges : list (list StateChange);
  txReceipts : list TxReceipt
}.
Definition ExecBlk_ctor (b : Blk) (j : list (list StateChange)) (r : list TxReceipt) : outcome ExecBlk :=
  if negb (length (blk_txs b) =? length j)%nat then Throw (length_error "txs size != journal size")
  else if negb (length j =? length r)%nat then Throw (length_error "receipt size != journal size")
  else Ret (mkExecBlk b j r).

Definition eb_txs (b : ExecBlk) : list Tx := blk_txs (eb_blk b).
Definition eb_number (b : ExecBlk) : Z := blk_number (eb_blk b).
(** The class invariant that the constructor establishes. *)
Definition ExecBlk_wf (b : ExecBlk) : Prop :=
  Blk_wf (eb_blk b) ∧ Forall from_derived (eb_txs b)
  ∧ length (stateChanges b) = length (eb_txs b) ∧ length (txReceipts b) = length (eb_txs b).

(** ** Protobuf *)
Record PbTxReceipt := mkPbTxReceipt { pbr_ok : bool; pbr_result : string; pbr_type : PbTxType }.
Record PbTxOnBlkInfo := mkPbTxOnBlkInfo { pbi_blknumber : Z; pbi_onblkid : Z }.
Record PbStateChange := mkPbStateChange { pbs_del : bool; pbs_k : string; pbs_v : string }.
Record PbExecBlk := mkPbExecBlk {
  pbe_blk : PbBlk;
  pbe_txreceipts : list PbTxReceipt;
  pbe_statechanges : list (list PbStateChange)
}.

Definition TxReceipt_toPb (r : TxReceipt) : PbTxReceipt :=
  mkPbTxReceipt (rc_ok r) (str (rc_result r)) (typeToPb (rc_type r)).
Definition TxReceipt_fromPb (pb : PbTxReceipt) : TxReceipt :=
  mkTxReceipt (pbr_ok pb) (unstr (pbr_result pb)) (typeFromPb (pbr_type pb)).
Definition TxOnBlkInfo_toPb (i : TxOnBlkInfo) : PbTxOnBlkInfo := mkPbTxOnBlkInfo (blkNumber i) (onBlkId i).
Definition TxOnBlkInfo_fromPb (pb : PbTxOnBlkInfo) : outcome TxOnBlkInfo :=
  Ret (mkTxOnBlkInfo (pbi_blknumber pb) (pbi_onblkid pb)).
Definition StateChange_toPb (c : StateChange) : PbStateChange :=
  mkPbStateChange (sc_del c) (sc_k c) (sc_v c).
Definition StateChange_fromPb (c : PbStateChange) : StateChange :=
  mkStateChange (pbs_del c) (pbs_k c) (pbs_v c).
Definition ExecBlk_toPb0 (b : ExecBlk) : PbExecBlk :=
  mkPbExecBlk (Blk_toPb (eb_blk b)) (TxReceipt_toPb <$> txReceipts b)
    (fmap (M:=list) StateChange_toPb <$> stateChanges b).
Definition ExecBlk_fromPb0 (pb : PbExecBlk) : outcome ExecBlk :=
  b ← Blk_fromPb Blk_default (pbe_blk pb);
  Ret (mkExecBlk b
         (fmap (M:=list) StateChange_fromPb <$> pbe_statechanges pb)
         (TxReceipt_fromPb <$> pbe_txreceipts pb)).

(** What the messages can carry: numbers of 64 bits, UTF-8 where the field is
    a [string]. *)
#[global] Instance PbTx_msg : PbMessage PbTx := λ t,
  is_u64 (pb_nonce t) ∧ is_u64 (pb_timestamp t) ∧ utf8 (pb_pk_pem t) = true.
#[global] Instance PbTxs_msg : PbMessage (list PbTx) := Forall pb_valid.
#[global] Instance PbBlk_msg : PbMessage PbBlk := λ b,
  is_u64 (pb_number b) ∧ Forall (pb_valid (A:=PbTx)) (pb_txs b).
#[global] Instance PbAcn_msg : PbMessage PbAcn := λ a,
  is_u64 (pb_acn_nonce a) ∧ Forall (λ s, utf8 s = true) (pb_disk_storage a).
#[global] Instance PbTxOnBlkInfo_msg : PbMessage PbTxOnBlkInfo := λ i,
  is_u64 (pbi_blknumber i) ∧ is_u64 (pbi_onblkid i).
#[global] Instance PbExecBlk_msg : PbMessage PbExecBlk := λ b, pb_valid (pbe_blk b).

(** All the wire formats that the chain stores or sends. *)
Class WireFormats := {
  wire_Txs : PbCodec (list PbTx);
  wire_Blk : PbCodec PbBlk;
  wire_Acn : PbCodec PbAcn;
  wire_TxOnBlkInfo : PbCodec PbTxOnBlkInfo;
  wire_ExecBlk : PbCodec PbExecBlk;
  wire_json : JsonCodec
}.
#[global] Existing Instance wire_Txs.
#[global] Existing Instance wire_Blk.
#[global] Existing Instance wire_Acn.
#[global] Existing Instance wire_TxOnBlkInfo.
#[global] Existing Instance wire_ExecBlk.
#[global] Existing Instance wire_json.

Section strings.
Context `{WireFormats}.
(** [toString]/[fromString] of each class ([ADD_TO_FROM_STR_WITH_JSON_OR_PB]). *)
Definition Acn_toString : Acn → string := toPbString Acn_toPb.
Definition Acn_fromString : string → outcome (option Acn) := fromPbString (Acn_fromPb Acn_default).
Definition Blk_toString : Blk → string := toPbString Blk_toPb.
Definition Blk_fromString : string → outcome (option Blk) := fromPbString (Blk_fromPb Blk_default).
Definition TxOnBlkInfo_toString : TxOnBlkInfo → string := toPbString TxOnBlkInfo_toPb.
Definition TxOnBlkInfo_fromString : string → outcome (option TxOnBlkInfo) := fromPbString TxOnBlkInfo_fromPb.
Definition ExecBlk_toString : ExecBlk → string := toPbString ExecBlk_toPb0.
Definition ExecBlk_fromString : string → outcome (option ExecBlk) := fromPbString ExecBlk_fromPb0.

(** [Tx::serialize_from_array] and [Tx::parse_to_array]: what
    [ParseFromString] returns is not looked at, and a failed parse leaves the
    message empty. *)
Definition serialize_from_array (txs : list Tx) : string := SerializeAsString (Tx_toPb <$> txs).
Definition parse_to_array (arg : string) : outcome (list Tx) :=
  mapO (Tx_fromPb Tx_default) (default [] (ParseFromString arg)).
End strings.
Arguments serialize_from_array : simpl never.
Arguments parse_to_array : simpl never.
Arguments Blk_toString : simpl never.
Arguments ExecBlk_toString : simpl never.

(** ** JSON forms, as the RPC shows them *)
Section json_forms.
Context `{JsonCodec}.
Definition StateChange_toJson (a : StateChange) : json :=
  JObject [("del", JBool (sc_del a)); ("k", JString (sc_k a)); ("v", JString (hex (unstr (sc_v a))))].

(** [json::parse] that throws. *)
Definition json_parse_throw (s : string) : outcome json :=
  or_throw (json_parse s) (json_error "syntax error").

(** A receipt of a python transaction holds JSON text with the members
    "result" and "log"; every other result is shown in hex. *)
Definition TxReceipt_toJson (c : TxReceipt) : outcome json :=
  noexcept (
    o ← (if bool_decide (rc_type c = Type_python) && negb (bool_decide (rc_result c = []))
         then
           v ← json_parse_throw (str (rc_result c));
           o ← as_object v;
           if negb (obj_contains o "result") then Throw (my_assertion_error "o.contains(result)")
           else if negb (obj_contains o "log") then Throw (my_assertion_error "o.contains(log)")
           else Ret (Some o)
         else Ret None);
    result ← match o with Some o => obj_at o "result" | None => Ret (JString (hex (rc_result c))) end;
    let jv := [("ok", JBool (rc_ok c)); ("result", result); ("type", JString (typeToString (rc_type c)))] in
    match o with
    | Some o => l ← obj_at o "log"; Ret (JObject (obj_set jv "log" l))
    | None => Ret (JObject jv)
    end).

(** The members of the block, then "stateChanges" and "txReceipts" (which
    [emplace] adds: the block has no such members). *)
Definition ExecBlk_toJson (c : ExecBlk) : outcome json :=
  noexcept (
    o ← as_object (Blk_toJson (eb_blk c));
    rs ← mapO TxReceipt_toJson (txReceipts c);
    let o := obj_emplace o "stateChanges" (JArray ((λ j, JArray (List.map StateChange_toJson j)) <$> stateChanges c)) in
    Ret (JObject (obj_emplace o "txReceipts" (JArray rs)))).
End json_forms.

(** ** Lemmas *)

(** The blocks that storage can hold: well formed, with public keys in text. *)
Definition storable (b : ExecBlk) : Prop :=
  ExecBlk_wf b ∧ Forall (λ t, utf8 (tx_pk_pem t) = true) (eb_txs b).

Lemma Tx_toPb_valid t : Tx_wf t → utf8 (tx_pk_pem t) = true → pb_valid (Tx_toPb t).
Proof. intros (_ & _ & Hn & _) Hu. split; [done|]. split; [apply u64_range|done]. Qed.

Lemma Blk_toPb_valid b :
  Blk_wf b → Forall (λ t, utf8 (tx_pk_pem t) = true) (blk_txs b) → pb_valid (Blk_toPb b).
Proof.
  intros (Hn & _ & Hw) Hu. split; [done|]. cbn.
  apply Forall_forall. intros p (t & -> & Ht)%list_elem_of_fmap.
  apply Tx_toPb_valid; [exact (Forall_in _ _ _ Hw Ht)|exact (Forall_in _ _ _ Hu Ht)].
Qed.

Lemma StateChange_fromPb_toPb j : fmap (M:=list) StateChange_fromPb (StateChange_toPb <$> j) = j.
Proof. induction j as [|[] j IH]; [done|]. cbn. by rewrite IH. Qed.
Lemma TxReceipt_fromPb_toPb r : TxReceipt_fromPb (TxReceipt_toPb r) = r.
Proof.
  destruct r. unfold TxReceipt_fromPb, TxReceipt_toPb. cbn.
  by rewrite unstr_str, typeFromPb_typeToPb.
Qed.
Lemma fmap_inverse {A B} (f : A → B) (g : B → A) (l : list A) :
  (∀ x, g (f x) = x) → g <$> (f <$> l) = l.
Proof. intros H. induction l as [|x l IH]; [done|]. cbn. by rewrite H, IH. Qed.

Lemma ExecBlk_fromPb0_toPb0 b : ExecBlk_wf b → ExecBlk_fromPb0 (ExecBlk_toPb0 b) = Ret b.
Proof.
  intros (Hw & Hd & _). unfold ExecBlk_fromPb0, ExecBlk_toPb0. cbn [pbe_blk pbe_statechanges pbe_txreceipts].
  rewrite Blk_fromPb_toPb by done. cbn. destruct b. cbn.
  by rewrite !fmap_inverse by (apply StateChange_fromPb_toPb || apply TxReceipt_fromPb_toPb).
Qed.

Section string_lemmas.
Context `{WireFormats}.

Lemma ExecBlk_fromString_toString b : storable b → ExecBlk_fromString (ExecBlk_toString b) = Ret (Some b).
Proof.
  intros [Hw Hu]. apply fromPbString_toPbString; [|by apply ExecBlk_fromPb0_toPb0].
  destruct Hw as (Hw & _). by apply Blk_toPb_valid.
Qed.

Lemma TxOnBlkInfo_fromString_toString i :
  is_u64 (blkNumber i) → is_u64 (onBlkId i) →
  TxOnBlkInfo_fromString (TxOnBlkInfo_toString i) = Ret (Some i).
Proof. intros H1 H2. apply fromPbString_toPbString; [done|]. by destruct i. Qed.

Lemma Blk_fromString_total s : ∃ b, Blk_fromString s = Ret b.
Proof.
  unfold Blk_fromString, fromPbString. destruct (ParseFromString s) as [pb|]; [|eauto].
  apply no_ub_catch; [|eauto]. assert (no_ub (Blk_fromPb Blk_default pb)) as Hu.
  { unfold Blk_fromPb. apply no_ub_bind; [unfold fromByteString; by destruct (_ =? _)%nat|]. intros ph.
    apply no_ub_bind; [|done]. apply no_ub_mapO. intros x. apply Tx_fromPb_no_ub. }
  by destruct (Blk_fromPb Blk_default pb).
Qed.

Lemma Blk_fromString_toString b :
  Blk_wf b → Forall from_derived (blk_txs b) → Forall (λ t, utf8 (tx_pk_pem t) = true) (blk_txs b) →
  Blk_fromString (Blk_toString b) = Ret (Some b).
Proof.
  intros Hw Hd Hu. apply fromPbString_toPbString; [by apply Blk_toPb_valid|by apply Blk_fromPb_toPb].
Qed.

Lemma parse_serialize_array txs :
  Forall Tx_wf txs → Forall from_derived txs → Forall (λ t, utf8 (tx_pk_pem t) = true) txs →
  parse_to_array (serialize_from_array txs) = Ret txs.
Proof.
  intros Hw Hd Hu. unfold parse_to_array, serialize_from_array. rewrite pb_parse_serialize.
  - cbn. clear Hu. induction txs as [|t txs IH]; [done|].
    apply Forall_cons in Hw as [Hw Hws], Hd as [Hd Hds]. cbn.
    rewrite Tx_fromPb_toPb by done. cbn. by rewrite IH.
  - apply Forall_forall. intros p (t & -> & Ht)%list_elem_of_fmap.
    apply Tx_toPb_valid; [exact (Forall_in _ _ _ Hw Ht)|exact (Forall_in _ _ _ Hu Ht)].
Qed.

Lemma Acn_fromString_toString a :
  Acn_wf a → Forall (λ s, utf8 s = true) (acn_disk_storage a) →
  Acn_fromString (Acn_toString a) = Ret (Some a).
Proof.
  intros Hw Hu. apply fromPbString_toPbString; [|by apply Acn_fromPb_toPb].
  split; [apply Hw|done].
Qed.
End string_lemmas.

(** ** Concrete wire formats *)
Module ToyWire.
Import ToyCodec.
#[global] Instance PbTxType_eq_dec : EqDecision PbTxType.
Proof. solve_decision. Defined.
#[global] Instance PbTx_eq_dec : EqDecision PbTx.
Proof. solve_decision. Defined.
#[global] Instance PbBlk_eq_dec : EqDecision PbBlk.
Proof. solve_decision. Defined.
#[global] Instance PbAcn_eq_dec : EqDecision PbAcn.
Proof. solve_decision. Defined.
#[global] Instance PbTxOnBlkInfo_eq_dec : EqDecision PbTxOnBlkInfo.
Proof. solve_decision. Defined.
#[global] Instance PbTxReceipt_eq_dec : EqDecision PbTxReceipt.
Proof. solve_decision. Defined.
#[global] Instance PbStateChange_eq_dec : EqDecision PbStateChange.
Proof. solve_decision. Defined.
#[global] Instance PbExecBlk_eq_dec : EqDecision PbExecBlk.
Proof. solve_decision. Defined.
#[global] Instance PbTxType_countable : Countable PbTxType.
Proof. refine (inj_countable' (λ t, match t with EVM => inl 0 | DATA => inl 1 | PYTHON => inl 2
                       | TxType_other n => inr n end)
    (λ x, match x with inl 0 => EVM | inl 1 => DATA | inl _ => PYTHON | inr n => TxType_other n end) _). by intros []. Defined.
#[global] Instance PbTx_countable : Countable PbTx.
Proof. refine (inj_countable' (λ t, (pb_type t, pb_from_addr t, pb_to_addr t, pb_data t, pb_timestamp t, pb_nonce t,
                        pb_pk_pem t, pb_signature t, pb_pk_crt t))
    (λ '(a, b, c, d, e, f, g, h, i), mkPbTx a b c d e f g h i) _). by intros []. Defined.
#[global] Instance PbBlk_countable : Countable PbBlk.
Proof. refine (inj_countable' (λ t, (pb_number t, pb_parentHash t, pb_txs t)) (λ '(a, b, c), mkPbBlk a b c) _). by intros []. Defined.
#[global] Instance PbAcn_countable : Countable PbAcn.
Proof. refine (inj_countable' (λ t, (pb_acn_nonce t, pb_code t, pb_storage_ks t, pb_storage_vs t, pb_disk_storage t))
    (λ '(a, b, c, d, e), mkPbAcn a b c d e) _). by intros []. Defined.
#[global] Instance PbTxOnBlkInfo_countable : Countable PbTxOnBlkInfo.
Proof. refine (inj_countable' (λ t, (pbi_blknumber t, pbi_onblkid t)) (λ '(a, b), mkPbTxOnBlkInfo a b) _). by intros []. Defined.
#[global] Instance PbTxReceipt_countable : Countable PbTxReceipt.
Proof. refine (inj_countable' (λ t, (pbr_ok t, pbr_result t, pbr_type t)) (λ '(a, b, c), mkPbTxReceipt a b c) _). by intros []. Defined.
#[global] Instance PbStateChange_countable : Countable PbStateChange.
Proof. refine (inj_countable' (λ t, (pbs_del t, pbs_k t, pbs_v t)) (λ '(a, b, c), mkPbStateChange a b c) _). by intros []. Defined.
#[global] Instance PbExecBlk_countable : Countable PbExecBlk.
Proof. refine (inj_countable' (λ t, (pbe_blk t, pbe_txreceipts t, pbe_statechanges t)) (λ '(a, b, c), mkPbExecBlk a b c) _). by intros []. Defined.
#[global] Instance u64_dec z : Decision (is_u64 z).
Proof. unfold is_u64. apply _. Defined.
#[global] Instance PbTx_valid_dec (t : PbTx) : Decision (pb_valid t).
Proof. unfold pb_valid, PbTx_msg. apply _. Defined.
#[global] Instance PbTxs_valid_dec (t : list PbTx) : Decision (pb_valid t).
Proof. unfold pb_valid at 1, PbTxs_msg. apply _. Defined.
#[global] Instance PbBlk_valid_dec (b : PbBlk) : Decision (pb_valid b).
Proof. unfold pb_valid at 1, PbBlk_msg. apply _. Defined.
#[global] Instance PbAcn_valid_dec (b : PbAcn) : Decision (pb_valid b).
Proof. unfold pb_valid at 1, PbAcn_msg. apply _. Defined.
#[global] Instance PbTxOnBlkInfo_valid_dec (b : PbTxOnBlkInfo) : Decision (pb_valid b).
Proof. unfold pb_valid at 1, PbTxOnBlkInfo_msg. apply _. Defined.
#[global] Instance PbExecBlk_valid_dec (b : PbExecBlk) : Decision (pb_valid b).
Proof. unfold pb_valid at 1, PbExecBlk_msg. apply _. Defined.
Definition toy_wire : WireFormats := {|
  wire_Txs := toy_pb; wire_Blk := toy_pb; wire_Acn := toy_pb;
  wire_TxOnBlkInfo := toy_pb; wire_ExecBlk := toy_pb; wire_json := toy_json
|}.
End ToyWire.
