(* ===== verification/Storage.v ===== *)
(** * Storage

    include/storageManager.hpp behind the interfaces of include/core.hpp
    ([IWorldChainStateSettable], [IAcnGettable], [IChainDBGettable2]): the
    chain database and the state database, in memory ([InRamWorldStorage]) or
    in two RocksDB instances ([WorldStorage]).  RocksDB is a parameter.

    The class [IWorld] is the interface, [IWorldLaws] what its clients (block
    executor, RPC, initialisation) rely on, stated over an abstract view: two
    finite maps.  Both implementations satisfy it. *)
From Stdlib Require Import ZArith Strings.Byte Strings.String Strings.Ascii Lia.
From stdpp Require Import base tactics strings gmap option numbers list sorting.
From S2P Require Import Prelude Text Hex Keccak Core Codec CoreJson PostExec.

Class IWorld (W : Type) := {
  setInChainDB : string → string → W → outcome (bool * W);
  getFromChainDB : string → W → option string;
  applyJournalStateDB : list StateChange → W → outcome (bool * W);
  getKeysStartWith : string → W → list string;
  getFromStateDB : string → W → option string
}.

(** The effect of a journal on the state: its changes, in order. *)
Definition apply_change (m : gmap string string) (c : StateChange) : gmap string string :=
  if sc_del c then delete (sc_k c) m else <[sc_k c := sc_v c]> m.
Definition apply_journal (m : gmap string string) (j : list StateChange) : gmap string string :=
  foldl apply_change m j.

Class IWorldLaws (W : Type) `{IWorld W} := {
  chain_view : W → gmap string string;
  state_view : W → gmap string string;
  get_chain k w : getFromChainDB k w = chain_view w !! k;
  get_state k w : getFromStateDB k w = state_view w !! k;
  set_chain k v w : ∃ w', setInChainDB k v w = Ret (true, w')
    ∧ chain_view w' = <[k := v]> (chain_view w) ∧ state_view w' = state_view w;
  apply_state j w : ∃ w', applyJournalStateDB j w = Ret (true, w')
    ∧ chain_view w' = chain_view w ∧ state_view w' = apply_journal (state_view w) j;
  keys_spec p w k : k ∈ getKeysStartWith p w ↔ is_Some (chain_view w !! k) ∧ String.prefix p k = true
}.

(** [getAcn], the same text in both implementations: an account that is not
    there, or whose stored form does not parse, is no account. *)
Definition getAcn `{WireFormats} {W} `{IWorld W} (w : W) (addr : bytes) : outcome (option Acn) :=
  match getFromStateDB (addressToString addr) w with
  | None => Ret None
  | Some v => noexcept (Acn_fromString v)
  end.

(** ** In memory *)
Module InRam.
Record InRamWorldStorage := mkInRam {
  stateDB : gmap string string;
  chainDB : gmap string string
}.
Definition empty_storage : InRamWorldStorage := mkInRam ∅ ∅.

Definition InRam_setInChainDB (k v : string) (w : InRamWorldStorage) : outcome (bool * InRamWorldStorage) :=
  Ret (true, mkInRam (stateDB w) (<[k := v]> (chainDB w))).
Definition InRam_getFromChainDB (k : string) (w : InRamWorldStorage) : option string := chainDB w !! k.
(** The loop over the journal. *)
Fixpoint InRam_apply_loop (j : list StateChange) (m : gmap string string) : gmap string string :=
  match j with
  | [] => m
  | c :: j => InRam_apply_loop j (if sc_del c then delete (sc_k c) m else <[sc_k c := sc_v c]> m)
  end.
Definition InRam_applyJournalStateDB (j : list StateChange) (w : InRamWorldStorage)
  : outcome (bool * InRamWorldStorage) :=
  Ret (true, mkInRam (InRam_apply_loop j (stateDB w)) (chainDB w)).
(** [std::map] is iterated in the order of its keys. *)
Definition string_le (a b : string) : Prop := String.leb a b = true.
#[global] Instance string_le_dec a b : Decision (string_le a b).
Proof. unfold string_le. apply _. Defined.
Definition InRam_getKeysStartWith (p : string) (w : InRamWorldStorage) : list string :=
  filter (λ k, String.prefix p k = true) (merge_sort string_le ((map_to_list (chainDB w)).*1)).

#[global] Instance InRam_IWorld : IWorld InRamWorldStorage := {
  setInChainDB := InRam_setInChainDB;
  getFromChainDB := InRam_getFromChainDB;
  applyJournalStateDB := InRam_applyJournalStateDB;
  getKeysStartWith := InRam_getKeysStartWith;
  getFromStateDB k w := stateDB w !! k
}.

Lemma InRam_apply_loop_journal j m : InRam_apply_loop j m = apply_journal m j.
Proof. revert m. induction j as [|c j IH]; intros m; [done|]. apply IH. Qed.

#[global] Program Instance InRam_laws : IWorldLaws InRamWorldStorage := {
  chain_view := chainDB; state_view := stateDB
}.
Next Obligation. done. Qed.
Next Obligation. done. Qed.
Next Obligation. intros k v w. by eexists. Qed.
Next Obligation. intros j w. eexists. split; [done|]. split; [done|]. apply InRam_apply_loop_journal. Qed.
Next Obligation.
  intros p w k. cbn. unfold InRam_getKeysStartWith.
  rewrite list_elem_of_filter, merge_sort_Permutation, list_elem_of_fmap.
  split.
  - intros [Hp ([k' v] & -> & H%elem_of_map_to_list)]. split; [|done]. cbn. by rewrite H.
  - intros [[v Hv] Hp]. split; [done|]. exists (k, v). split; [done|]. by apply elem_of_map_to_list.
Qed.
End InRam.

(** ** RocksDB *)
Module Rocks.
Inductive Status := Ok | NotFound | IOError.

(** The calls that the code makes; [NewIterator] with [Seek] and [Next] is the
    ordered list of the keys from the first one not below the prefix. *)
Class RocksDB := {
  DB : Type;
  Get : DB → string → Status * string;
  Put : DB → string → string → Status * DB;
  Write : DB → list StateChange → Status * DB;
  Seek : DB → string → list string
}.

(** A healthy database, as documented: a map with sorted keys, on which every
    call succeeds. *)
Class RocksHealthy `{RocksDB} := {
  db_view : DB → gmap string string;
  Get_ok d k : Get d k = match db_view d !! k with Some v => (Ok, v) | None => (NotFound, "") end;
  Put_ok d k v : ∃ d', Put d k v = (Ok, d') ∧ db_view d' = <[k := v]> (db_view d);
  Write_ok d j : ∃ d', Write d j = (Ok, d') ∧ db_view d' = apply_journal (db_view d) j;
  Seek_ok d p : ∃ pre rest, Seek d p = pre ++ rest
    ∧ (∀ k, head rest = Some k → String.prefix p k = false)
    ∧ ∀ k, k ∈ pre ↔ is_Some (db_view d !! k) ∧ String.prefix p k = true
}.

Section rocks.
Context `{RocksDB}.
Record WorldStorage := mkWorldStorage { rk_chainDB : DB; rk_stateDB : DB }.

Definition checkStatus (s : Status) (msg : string) (required : bool) : outcome bool :=
  match s with
  | Ok => Ret true
  | _ => if required then Throw (runtime_error msg) else Ret false
  end.
Definition tryGetKvString (d : DB) (k : string) : option string :=
  match Get d k with
  | (Ok, v) => Some v
  | _ => None
  end.
(** [for (iter->Seek(p); Valid() && key().starts_with(p); Next())]. *)
Fixpoint take_prefix (p : string) (ks : list string) : list string :=
  match ks with
  | k :: ks => if String.prefix p k then k :: take_prefix p ks else []
  | [] => []
  end.
Definition find_keys_with_prefix (d : DB) (p : string) : list string := take_prefix p (Seek d p).
Definition Rocks_setInChainDB (k v : string) (w : WorldStorage) : outcome (bool * WorldStorage) :=
  let '(s, d) := Put (rk_chainDB w) k v in
  b ← checkStatus s "" false;
  Ret (b, mkWorldStorage d (rk_stateDB w)).
Definition Rocks_applyJournalStateDB (j : list StateChange) (w : WorldStorage)
  : outcome (bool * WorldStorage) :=
  let '(s, d) := Write (rk_stateDB w) j in
  b ← checkStatus s "Failed to apply journal batch to StateDB" true;
  Ret (b, mkWorldStorage (rk_chainDB w) d).

#[global] Instance Rocks_IWorld : IWorld WorldStorage := {
  setInChainDB := Rocks_setInChainDB;
  getFromChainDB k w := tryGetKvString (rk_chainDB w) k;
  applyJournalStateDB := Rocks_applyJournalStateDB;
  getKeysStartWith p w := find_keys_with_prefix (rk_chainDB w) p;
  getFromStateDB k w := tryGetKvString (rk_stateDB w) k
}.

Lemma take_prefix_app p pre rest :
  (∀ k, k ∈ pre → String.prefix p k = true) →
  (∀ k, head rest = Some k → String.prefix p k = false) →
  take_prefix p (pre ++ rest) = pre.
Proof.
  intros Hp Hr. induction pre as [|k l IH].
  - destruct rest as [|k rest]; [done|]. cbn. by rewrite (Hr k).
  - cbn. rewrite (Hp k) by left. rewrite IH; [done|]. intros k' Hk'. apply Hp. by right.
Qed.

Context {healthy : RocksHealthy}.
Lemma tryGetKvString_view d k : tryGetKvString d k = db_view d !! k.
Proof. unfold tryGetKvString. rewrite Get_ok. by destruct (db_view d !! k). Qed.

#[global] Program Instance Rocks_laws : IWorldLaws WorldStorage := {
  chain_view w := db_view (rk_chainDB w); state_view w := db_view (rk_stateDB w)
}.
Next Obligation. intros k w. apply tryGetKvString_view. Qed.
Next Obligation. intros k w. apply tryGetKvString_view. Qed.
Next Obligation.
  intros k v w. cbn. unfold Rocks_setInChainDB.
  destruct (Put_ok (rk_chainDB w) k v) as (d & -> & E). eexists. by rewrite <-E.
Qed.
Next Obligation.
  intros j w. cbn. unfold Rocks_applyJournalStateDB.
  destruct (Write_ok (rk_stateDB w) j) as (d & -> & E). eexists. by rewrite <-E.
Qed.
Next Obligation.
  intros p w k. cbn. unfold find_keys_with_prefix.
  destruct (Seek_ok (rk_chainDB w) p) as (pre & rest & -> & Hr & Hk).
  rewrite take_prefix_app; [apply Hk| |done]. by intros k' [_ ?]%Hk.
Qed.
End rocks.
End Rocks.
