(* ===== verification/Mempool.v ===== *)
(** * The mempool, the sealer and consensus blocks

    include/cnsss/mempool.hpp ([Mempool] behind the pool interfaces of
    include/core.hpp), include/cnsss/sealer.hpp ([Sealer]) and the conversion
    of a [BlkForConsensus] to a [Blk] (include/cnsss/forCnsss.hpp).

    The class [IPool] is the interface, [IPoolLaws] its contract over an
    abstract view: the pending transactions and the hashes ever seen. *)
From Stdlib Require Import ZArith Strings.Byte Strings.String Strings.Ascii Lia Sorting.Sorted.
From stdpp Require Import base tactics strings gmap option numbers list sorting.
From S2P Require Import Prelude Text Hex Keccak Core Codec CoreJson.

(** [IPoolSettable], [IForSealerTxHashesGettable] and [IForLightExeTxWashable]. *)
Class IPool (P : Type) := {
  getTxByHash : bytes → P → option Tx * P;
  verifyTx : Tx → P → bool;
  addTx : Tx → P → bool * P;
  getTxHashesForSeal : P → list bytes;
  washTxs : list Tx → P → list Tx * P
}.

Class IPoolLaws (P : Type) `{IPool P} := {
  pool_inv : P → Prop;
  pending : P → list Tx;
  known : P → gset bytes;
  pool_wf p : pool_inv p →
    NoDup (Tx_hash <$> pending p) ∧ Forall Tx_wf (pending p)
    ∧ Forall (λ t, Tx_hash t ∈ known p) (pending p);
  addTx_spec p t : pool_inv p → Tx_wf t →
    let '(ok, p') := addTx t p in
    pool_inv p' ∧ (known p' = {[Tx_hash t]} ∪ known p)
    ∧ (if ok then (Tx_hash t ∉ known p) ∧ (pending p' ≡ₚ t :: pending p)
       else Tx_hash t ∈ known p ∧ pending p' = pending p);
  getTxByHash_spec p h : pool_inv p → length h = 32%nat →
    let '(r, p') := getTxByHash h p in
    pool_inv p' ∧ known p' = known p
    ∧ match r with
      | Some t => Tx_hash t = h ∧ pending p ≡ₚ t :: pending p'
      | None => pending p' = pending p ∧ h ∉ Tx_hash <$> pending p
      end;
  washTxs_spec p ts : pool_inv p →
    let '(ts', p') := washTxs ts p in
    pool_inv p' ∧ pending p' = pending p
    ∧ known p' = known p ∪ list_to_set (Tx_hash <$> ts')
    ∧ NoDup (Tx_hash <$> ts') ∧ ts' `sublist_of` ts
    ∧ (∀ t, t ∈ ts' → Tx_hash t ∉ known p);
  getTxHashesForSeal_spec p : pool_inv p →
    ∃ ts rest, pending p = ts ++ rest ∧ getTxHashesForSeal p = Tx_hash <$> ts
}.

(** ** [Mempool] *)
Record Mempool := mkMempool {
  pool_txs : list Tx;           (* Tx_set, in the order of its first index *)
  hs : gset bytes;
  max_txs_per_batch : Z         (* int *)
}.
Definition Mempool_ctor (hhs : gset bytes) (m : Z) : Mempool := mkMempool [] hhs m.

(** [std::less<hash256>]: hashes compare as 256-bit numbers. *)
Definition less_hash256 (l r : bytes) : bool := (be_load l <? be_load r)%Z.
(** Equivalence in an ordered index: neither is less. *)
Definition equiv_by {A} (lt : A → A → bool) (a b : A) : bool := negb (lt a b) && negb (lt b a).

(** Insertion into both unique indices: refused when an element is equivalent
    in either; placed by the first. *)
Fixpoint insert_sorted (t : Tx) (l : list Tx) : list Tx :=
  match l with
  | [] => [t]
  | x :: l => if Tx_lt t x then t :: x :: l else x :: insert_sorted t l
  end.
Definition Tx_set_insert (t : Tx) (l : list Tx) : bool * list Tx :=
  if existsb (λ x, equiv_by Tx_lt x t || equiv_by less_hash256 (Tx_hash x) (Tx_hash t)) l
  then (false, l) else (true, insert_sorted t l).

(** [txhs.find(h)] and [txhs.erase(it)]. *)
Fixpoint pop_hash (h : bytes) (l : list Tx) : option (Tx * list Tx) :=
  match l with
  | [] => None
  | x :: l =>
      if equiv_by less_hash256 (Tx_hash x) h then Some (x, l)
      else match pop_hash h l with Some (t, l) => Some (t, x :: l) | None => None end
  end.

Definition Mempool_getTxByHash (h : bytes) (p : Mempool) : option Tx * Mempool :=
  match pop_hash h (pool_txs p) with
  | None => (None, p)
  | Some (t, l) => (Some t, mkMempool l (hs p) (max_txs_per_batch p))
  end.

(** [hs->insert(h).second]. *)
Definition hs_insert (h : bytes) (s : gset bytes) : bool * gset bytes :=
  if bool_decide (h ∈ s) then (false, s) else (true, {[h]} ∪ s).

(** [std::erase_if] with the inserting predicate, left to right. *)
Fixpoint wash_loop (ts : list Tx) (s : gset bytes) : list Tx * gset bytes :=
  match ts with
  | [] => ([], s)
  | t :: ts =>
      let '(fresh, s) := hs_insert (Tx_hash t) s in
      let '(ts', s) := wash_loop ts s in
      (if fresh then t :: ts' else ts', s)
  end.
Definition Mempool_washTxs (ts : list Tx) (p : Mempool) : list Tx * Mempool :=
  let '(ts', s) := wash_loop ts (hs p) in
  (ts', mkMempool (pool_txs p) s (max_txs_per_batch p)).

(** [for (it = begin; it != end and max > 0; max--)]. *)
Fixpoint seal_loop (l : list Tx) (max : Z) : list bytes :=
  match l with
  | t :: l => if (0 <? max)%Z then Tx_hash t :: seal_loop l (max - 1) else []
  | [] => []
  end.
Definition Mempool_getTxHashesForSeal (p : Mempool) : list bytes :=
  seal_loop (pool_txs p) (max_txs_per_batch p).

Definition Mempool_verifyTx (t : Tx) (p : Mempool) : bool := negb (bool_decide (Tx_hash t ∈ hs p)).

Definition Mempool_addTx (t : Tx) (p : Mempool) : bool * Mempool :=
  let '(fresh, s) := hs_insert (Tx_hash t) (hs p) in
  if negb fresh then (false, mkMempool (pool_txs p) s (max_txs_per_batch p))
  else
    let '(ok, l) := Tx_set_insert t (pool_txs p) in
    (ok, mkMempool l s (max_txs_per_batch p)).

(** [info()]: the members of the JSON object. *)
Definition Mempool_info (p : Mempool) : json :=
  JObject [("max_txs_per_batch", JInt (max_txs_per_batch p));
           ("hash_history", JArray ((λ h, JString (hashToString h)) <$> elements (hs p)));
           ("txs_in_pool", JArray (Tx_toJson <$> pool_txs p));
           ("txs_in_pool_count", JUint (Z.of_nat (length (pool_txs p))))].

#[global] Instance Mempool_IPool : IPool Mempool := {
  getTxByHash := Mempool_getTxByHash;
  verifyTx := Mempool_verifyTx;
  addTx := Mempool_addTx;
  getTxHashesForSeal := Mempool_getTxHashesForSeal;
  washTxs := Mempool_washTxs
}.

(** The class invariant: the set is sorted, hashes in it are distinct, and all
    of them are remembered. *)
Definition Tx_ltP (a b : Tx) : Prop := Tx_lt a b = true.
Definition Mempool_inv (p : Mempool) : Prop :=
  StronglySorted Tx_ltP (pool_txs p) ∧ NoDup (Tx_hash <$> pool_txs p)
  ∧ Forall Tx_wf (pool_txs p) ∧ Forall (λ t, Tx_hash t ∈ hs p) (pool_txs p).

(** ** Blocks in consensus *)
Section conversion.
Context {P} `{IPool P}.
(** [BlkForConsensus::toBlk]: each transaction is taken out of the pool; a
    missing one ends the conversion, without putting the others back. *)
Fixpoint toBlk_loop (hs : list bytes) (p : P) : option (list Tx) * P :=
  match hs with
  | [] => (Some [], p)
  | h :: hs =>
      match getTxByHash h p with
      | (None, p) => (None, p)
      | (Some t, p) =>
          let '(r, p) := toBlk_loop hs p in
          (fmap (M:=option) (cons t) r, p)
      end
  end.
Definition toBlk (b : BlkForConsensus) (p : P) : option Blk * P :=
  let '(r, p) := toBlk_loop (bfc_txhs b) p in
  (fmap (M:=option) (mkBlk (bfc_header b)) r, p).

(** [Sealer::check_and_seal_maybe] up to [postBlk]: the block it posts, if any,
    and its new state. *)
Record Sealer := mkSealer { next_blk_number : Z; previous_hash : bytes }.
Definition check_and_seal_maybe (s : Sealer) (p : P) : option BlkForConsensus * Sealer :=
  match getTxHashesForSeal p with
  | [] => (None, s)
  | txhs =>
      let b := mkBlkForConsensus (mkBlkHeader (next_blk_number s) (previous_hash s)) txhs in
      (Some b, mkSealer (u64 (next_blk_number s + 1)) (BlkForConsensus_hash b))
  end.
End conversion.

(** ** Lemmas *)

Lemma equiv_hash a b :
  length a = 32%nat → length b = 32%nat → equiv_by less_hash256 a b = true ↔ a = b.
Proof.
  intros Ha Hb. unfold equiv_by, less_hash256.
  rewrite andb_true_iff, !negb_true_iff, !Z.ltb_ge. split; [|intros ->; lia].
  intros [H1 H2]. apply be_load_inj; [congruence|lia].
Qed.

Lemma equiv_Tx a b : Tx_wf a → Tx_wf b → equiv_by Tx_lt a b = true → Tx_hash a = Tx_hash b.
Proof.
  intros Ha Hb. unfold equiv_by. rewrite andb_true_iff, !negb_true_iff. intros [H1 H2].
  destruct (Tx_lt_total a b Ha Hb) as [|[|E]]; [congruence..|].
  by apply Tx_hash_Index, (f_equal snd E).
Qed.

Lemma insert_sorted_perm t l : insert_sorted t l ≡ₚ t :: l.
Proof.
  induction l as [|x l IH]; [done|]. cbn. destruct (Tx_lt t x); [done|].
  rewrite IH. apply Permutation_swap.
Qed.

Lemma insert_sorted_sorted t l :
  Tx_wf t → Forall Tx_wf l → StronglySorted Tx_ltP l → Tx_hash t ∉ Tx_hash <$> l →
  StronglySorted Tx_ltP (insert_sorted t l).
Proof.
  intros Ht Hl Hs. induction Hs as [|x l Hs IH Hx]; intros Hh; cbn.
  { repeat constructor. }
  apply Forall_cons in Hl as [Hwx Hl]. destruct (Tx_lt t x) eqn:E.
  - constructor; [by constructor|]. constructor; [done|].
    apply Forall_forall. intros y Hy. apply (Tx_lt_trans t x y); [done..| |done|].
    + exact (Forall_in _ _ _ Hl Hy).
    + exact (Forall_in _ _ _ Hx Hy).
  - cbn in Hh. apply not_elem_of_cons in Hh as [Hne Hh]. constructor; [by apply IH|].
    rewrite insert_sorted_perm. constructor; [|done].
    destruct (Tx_lt_total t x Ht Hwx) as [|[|Ek]]; [congruence|done|].
    destruct Hne. by apply Tx_hash_Index, (f_equal snd Ek).
Qed.

Lemma Tx_set_insert_fresh t l :
  Tx_wf t → Forall Tx_wf l → Tx_hash t ∉ Tx_hash <$> l →
  Tx_set_insert t l = (true, insert_sorted t l).
Proof.
  intros Ht Hl Hh. unfold Tx_set_insert. destruct (existsb _ l) eqn:E; [|done].
  apply existsb_exists in E as (x & Hx%list_elem_of_In & E). destruct Hh.
  apply list_elem_of_fmap. exists x. split; [|done].
  apply orb_true_iff in E as [E|E].
  - symmetry. apply equiv_Tx; [exact (Forall_in _ _ _ Hl Hx)|done..].
  - symmetry. by apply equiv_hash in E; [|apply length_Tx_hash..].
Qed.

Lemma pop_hash_spec h l :
  length h = 32%nat →
  match pop_hash h l with
  | Some (t, l') => Tx_hash t = h ∧ l ≡ₚ t :: l' ∧ l' `sublist_of` l
  | None => h ∉ Tx_hash <$> l
  end.
Proof.
  intros Hh. induction l as [|x l IH]; [apply not_elem_of_nil|]. cbn.
  destruct (equiv_by _ _ _) eqn:E.
  - apply equiv_hash in E; [|apply length_Tx_hash|done]. split; [done|].
    split; [done|]. by apply sublist_cons.
  - assert (Tx_hash x ≠ h) as Hne.
    { intros Ex. rewrite (proj2 (equiv_hash _ _ (length_Tx_hash x) Hh) Ex) in E. done. }
    destruct (pop_hash h l) as [[t l']|].
    + destruct IH as (Ht & Hp & Hs). split; [done|]. split; [|by apply sublist_skip].
      rewrite Hp. apply Permutation_swap.
    + rewrite not_elem_of_cons. done.
Qed.

Lemma StronglySorted_sublist {A} (R : A → A → Prop) (l k : list A) :
  l `sublist_of` k → StronglySorted R k → StronglySorted R l.
Proof.
  induction 1 as [|x l k Hs IH|x l k Hs IH]; intros HS; [done| |]; inv HS.
  - constructor; [auto|]. by eapply Forall_sublist.
  - auto.
Qed.

Lemma hs_insert_spec h s :
  hs_insert h s = (negb (bool_decide (h ∈ s)), {[h]} ∪ s).
Proof. unfold hs_insert. case_bool_decide; [|done]. f_equal. set_solver. Qed.

Lemma wash_loop_spec ts s :
  let '(ts', s') := wash_loop ts s in
  s' = s ∪ list_to_set (Tx_hash <$> ts') ∧ NoDup (Tx_hash <$> ts') ∧ ts' `sublist_of` ts
  ∧ (∀ t, t ∈ ts' → Tx_hash t ∉ s).
Proof.
  revert s. induction ts as [|t ts IH]; intros s; cbn.
  { split; [set_solver|]. split; [constructor|]. split; [constructor|]. set_solver. }
  rewrite hs_insert_spec. specialize (IH ({[Tx_hash t]} ∪ s)).
  destruct (wash_loop ts _) as [ts' s']. destruct IH as (-> & Hn & Hs & Hf).
  case_bool_decide as Ht; cbn.
  - assert ({[Tx_hash t]} ∪ s = s) as E by set_solver. rewrite E in *.
    split; [done|]. split; [done|]. split; [by apply sublist_cons|]. done.
  - split; [set_solver|]. split; [|split; [by apply sublist_skip|]].
    + constructor; [|done]. intros (t' & Et & Hi)%list_elem_of_fmap.
      apply (Hf t' Hi). rewrite <-Et. set_solver.
    + intros t' [->|Hi]%elem_of_cons; [done|]. pose proof (Hf t' Hi). set_solver.
Qed.

Lemma seal_loop_spec l max : ∃ ts rest, l = ts ++ rest ∧ seal_loop l max = Tx_hash <$> ts
  ∧ (length ts <= Z.to_nat max)%nat.
Proof.
  revert max. induction l as [|t l IH]; intros max; cbn.
  - exists [], []. split; [done|]. split; [done|]. cbn. lia.
  - destruct (0 <? max)%Z eqn:E.
    + destruct (IH (max - 1)%Z) as (ts & rest & -> & -> & Hl). exists (t :: ts), rest.
      split; [done|]. split; [done|]. cbn. lia.
    + exists [], (t :: l). split; [done|]. split; [done|]. cbn. lia.
Qed.

#[global] Program Instance Mempool_laws : IPoolLaws Mempool := {
  pool_inv := Mempool_inv; pending := pool_txs; known := hs
}.
Next Obligation. by intros p (_ & Hn & Hw & Hk). Qed.
Next Obligation.
  intros p t (Hs & Hn & Hw & Hk) Ht. cbn. unfold Mempool_addTx. rewrite hs_insert_spec.
  case_bool_decide as Hh; cbn.
  - split; [|done]. split; [done|]. split; [done|]. split; [done|].
    eapply Forall_impl; [exact Hk|]. cbn. set_solver.
  - assert (Tx_hash t ∉ Tx_hash <$> pool_txs p) as Hnew.
    { intros (x & E & Hx)%list_elem_of_fmap. apply Hh. rewrite E. exact (Forall_in _ _ _ Hk Hx). }
    rewrite Tx_set_insert_fresh by done.
    split; [|split; [done|split; [done|apply insert_sorted_perm]]].
    split; [by apply insert_sorted_sorted|]. cbn. rewrite insert_sorted_perm.
    split; [by constructor|]. split; [by constructor|].
    constructor; [set_solver|]. eapply Forall_impl; [exact Hk|]. cbn. set_solver.
Qed.
Next Obligation.
  intros p h (Hs & Hn & Hw & Hk) Hh. cbn. unfold Mempool_getTxByHash.
  pose proof (pop_hash_spec h (pool_txs p) Hh) as HP.
  destruct (pop_hash h (pool_txs p)) as [[t l]|]; [|done].
  destruct HP as (Ht & Hp & Hsub). split; [|done].
  rewrite Hp in Hn. cbn in Hn. apply NoDup_cons in Hn as [_ Hn].
  split; [by eapply StronglySorted_sublist|]. split; [done|].
  split; by eapply Forall_sublist.
Qed.
Next Obligation.
  intros p ts (Hs & Hn & Hw & Hk). cbn. unfold Mempool_washTxs.
  pose proof (wash_loop_spec ts (hs p)) as HW. destruct (wash_loop ts (hs p)) as [ts' s].
  destruct HW as (-> & HN & HS & HF). split; [|done].
  split; [done|]. split; [done|]. split; [done|].
  eapply Forall_impl; [exact Hk|]. cbn. set_solver.
Qed.
Next Obligation.
  intros p _. cbn. unfold Mempool_getTxHashesForSeal.
  destruct (seal_loop_spec (pool_txs p) (max_txs_per_batch p)) as (ts & rest & -> & -> & _). eauto.
Qed.

Section client_lemmas.
Context {P} `{IPoolLaws P}.

Lemma toBlk_loop_spec hs p :
  pool_inv p → Forall (λ h, length h = 32%nat) hs →
  let '(r, p') := toBlk_loop hs p in
  pool_inv p' ∧ known p' = known p
  ∧ ∃ popped, pending p ≡ₚ popped ++ pending p'
    ∧ match r with Some ts => ts = popped ∧ Tx_hash <$> ts = hs
      | None => ∃ h, h ∈ hs ∧ h ∉ Tx_hash <$> pending p' end.
Proof.
  intros Hp Hl. revert p Hp. induction Hl as [|h hs Hh Hl IH]; intros p Hp; cbn.
  { split; [done|]. split; [done|]. by exists []. }
  pose proof (getTxByHash_spec p h Hp Hh) as HG.
  destruct (getTxByHash h p) as [[t|] p1].
  - destruct HG as (Hp1 & Ek & Et & Hperm). specialize (IH p1 Hp1).
    destruct (toBlk_loop hs p1) as [r p2]. destruct IH as (Hp2 & Ek2 & popped & HP & Hr).
    split; [done|]. split; [congruence|]. exists (t :: popped).
    split; [by rewrite Hperm, HP|]. destruct r as [ts|]; cbn.
    + destruct Hr as [-> Hts]. cbn. by rewrite Hts, Et.
    + destruct Hr as (h' & Hi & Hn). exists h'. split; [by right|done].
  - destruct HG as (Hp1 & Ek & Epend & Hn). split; [done|]. split; [done|].
    exists []. rewrite Epend. split; [done|]. exists h. split; [by left|done].
Qed.

Lemma toBlk_loop_pending ts rest p :
  pool_inv p → pending p ≡ₚ ts ++ rest →
  ∃ p', toBlk_loop (Tx_hash <$> ts) p = (Some ts, p') ∧ pending p' ≡ₚ rest.
Proof.
  revert p. induction ts as [|t ts IH]; intros p Hp HP; cbn.
  { by exists p. }
  pose proof (getTxByHash_spec p (Tx_hash t) Hp (length_Tx_hash t)) as HG.
  destruct (pool_wf p Hp) as (Hnd & _).
  destruct (getTxByHash (Tx_hash t) p) as [[t'|] p1].
  - destruct HG as (Hp1 & _ & Et & Hperm).
    assert (t' = t) as ->.
    { rewrite HP in Hnd. cbn in Hnd. apply NoDup_cons in Hnd as [Hn _].
      assert (t' ∈ t :: ts ++ rest) as Hin.
      { change (t' ∈ (t :: ts) ++ rest). rewrite <-HP, Hperm. by left. }
      apply elem_of_cons in Hin as [->|Hin]; [done|]. destruct Hn. rewrite <-Et.
      by apply list_elem_of_fmap_2. }
    destruct (IH p1 Hp1) as (p2 & -> & HP2).
    { apply (Permutation_cons_inv (a:=t)). by rewrite <-Hperm, HP. }
    by exists p2.
  - destruct HG as (_ & _ & _ & Hn). destruct Hn. rewrite HP. by left.
Qed.
End client_lemmas.

(** ** Theorems *)

(** C31: A pool whose invariant holds accepts a transaction exactly when
    [verifyTx] says so, i.e. when no transaction with the same sender and nonce
    hash was ever seen; the accepted one is pending, the set stays sorted by
    timestamp, sender and nonce with distinct hashes, and the hash is remembered
    in either case. *)
Theorem Mempool_addTx_correct p t :
  Mempool_inv p → Tx_wf t →
  ∃ p', Mempool_addTx t p = (Mempool_verifyTx t p, p')
  ∧ Mempool_inv p' ∧ Mempool_verifyTx t p' = false
  ∧ pool_txs p' ≡ₚ (if Mempool_verifyTx t p then [t] else []) ++ pool_txs p
  ∧ ∀ u, Tx_hash u ≠ Tx_hash t → Mempool_verifyTx u p' = Mempool_verifyTx u p.
Proof.
  intros Hp Ht. pose proof (addTx_spec p t Hp Ht) as HA. cbn in HA.
  destruct (Mempool_addTx t p) as [ok p']. destruct HA as (Hp' & Ek & Hok). exists p'.
  unfold Mempool_verifyTx. rewrite !Ek.
  assert (ok = negb (bool_decide (Tx_hash t ∈ hs p))) as ->.
  { destruct ok, Hok as [Hh _]; case_bool_decide; done. }
  split; [done|]. split; [done|]. split; [by rewrite bool_decide_eq_true_2 by set_solver|].
  split.
  - case_bool_decide; cbn in *; destruct Hok as [_ Hok]; [by rewrite Hok|done].
  - intros u Hu. f_equal. apply bool_decide_ext. set_solver.
Qed.

Definition pool_example : Mempool := mkMempool [tx_example] {[Tx_hash tx_example]} 2.
Lemma pool_example_inv : Mempool_inv pool_example.
Proof.
  unfold Mempool_inv, pool_example. cbn [pool_txs hs fmap list_fmap].
  split; [constructor; constructor|]. split; [apply NoDup_singleton|].
  split; (constructor; [|constructor]); [exact tx_example_wf|by apply elem_of_singleton].
Qed.

Lemma Mempool_addTx_correct_witness :
  ∃ p', Mempool_addTx tx_example' pool_example = (true, p') ∧ Mempool_inv p'.
Proof.
  assert (Mempool_verifyTx tx_example' pool_example = true) as E by (vm_compute; reflexivity).
  destruct (Mempool_addTx_correct pool_example tx_example' pool_example_inv tx_example'_wf)
    as (p' & Ha & Hi & _). rewrite E in Ha. exact (ex_intro _ p' (conj Ha Hi)).
Defined.

(** [washTxs] keeps, in order, the transactions whose hash was not seen
    before, one for each hash, and remembers them. *)
Theorem Mempool_wash_correct p ts ts' p' :
  Mempool_inv p → Mempool_washTxs ts p = (ts', p') →
  Mempool_inv p' ∧ pool_txs p' = pool_txs p ∧ ts' `sublist_of` ts
  ∧ NoDup (Tx_hash <$> ts') ∧ Forall (λ t, Mempool_verifyTx t p = true) ts'
  ∧ Forall (λ t, Mempool_verifyTx t p' = false) ts.
Proof.
  intros Hp E. pose proof (washTxs_spec p ts Hp) as HW. cbn in HW. rewrite E in HW.
  destruct HW as (Hp' & Epend & Ek & Hn & Hs & Hf). split; [done|]. split; [done|]. split; [done|].
  split; [done|]. split.
  - apply Forall_forall. intros t Ht. unfold Mempool_verifyTx.
    by rewrite bool_decide_eq_false_2 by auto.
  - clear -E. unfold Mempool_washTxs in E. destruct (wash_loop ts (hs p)) as [l s] eqn:EW.
    injection E as _ <-. revert EW. generalize (hs p). revert l s.
    assert (∀ ts s0 l s, wash_loop ts s0 = (l, s) → s0 ⊆ s ∧ ∀ t, t ∈ ts → Tx_hash t ∈ s) as HH.
    { induction ts0 as [|t ts0 IH]; intros s0 l s; cbn; [intros [= <- <-]; set_solver|].
      rewrite hs_insert_spec. destruct (wash_loop ts0 _) as [l1 s1] eqn:E1.
      apply IH in E1 as [HA HB]. intros [= _ <-]. set_solver. }
    intros l s s0 [_ Hin]%HH. apply Forall_forall. intros t Ht. unfold Mempool_verifyTx. cbn.
    rewrite bool_decide_eq_true_2 by auto. done.
Qed.

Lemma Mempool_wash_correct_witness :
  ∃ ts' p', Mempool_washTxs [tx_example; tx_example'; tx_example'] pool_example = (ts', p')
  ∧ length ts' = 1%nat ∧ NoDup (Tx_hash <$> ts').
Proof.
  destruct (Mempool_washTxs [tx_example; tx_example'; tx_example'] pool_example) as [ts' p'] eqn:E.
  exists ts', p'. split; [reflexivity|].
  destruct (Mempool_wash_correct _ _ _ _ pool_example_inv E) as (_ & _ & _ & Hn & _).
  split; [|exact Hn].
  assert (length ts' = length (Mempool_washTxs [tx_example; tx_example'; tx_example'] pool_example).1)
    as -> by (by rewrite E).
  vm_compute. reflexivity.
Defined.

(** A block that the sealer makes from a pool holds at most
    [max_txs_per_batch] hashes, those of the first pending transactions, and
    every other pending transaction comes after them; the pool of the same node
    turns the block into the transactions themselves, in the same order; and
    the hash and number that the sealer keeps for the next block are those of
    the resulting block. *)
Theorem seal_and_convert s p b s' :
  Mempool_inv p → check_and_seal_maybe s p = (Some b, s') →
  ∃ ts rest p', pool_txs p = ts ++ rest ∧ ts ≠ []
  ∧ (Z.of_nat (length ts) <= max_txs_per_batch p)%Z
  ∧ (∀ t u, t ∈ ts → u ∈ rest → Tx_lt t u = true)
  ∧ toBlk b p = (Some (mkBlk (mkBlkHeader (next_blk_number s) (previous_hash s)) ts), p')
  ∧ pool_txs p' ≡ₚ rest
  ∧ previous_hash s' = Blk_hash (mkBlk (mkBlkHeader (next_blk_number s) (previous_hash s)) ts)
  ∧ next_blk_number s' = u64 (next_blk_number s + 1).
Proof.
  intros Hp. unfold check_and_seal_maybe. cbn. unfold Mempool_getTxHashesForSeal.
  destruct (seal_loop_spec (pool_txs p) (max_txs_per_batch p)) as (ts & rest & E & -> & Hl).
  destruct ts as [|t ts]; [done|]. cbn [fmap list_fmap]. intros [= <- <-].
  assert (pool_inv p) as Hpi by exact Hp.
  destruct (toBlk_loop_pending (t :: ts) rest p Hpi) as (p' & EL & HP); [by rewrite <-E|].
  exists (t :: ts), rest, p'. split; [done|]. split; [done|]. split; [cbn in *; lia|]. split.
  { destruct Hp as (HS & _). rewrite E in HS. intros x y Hx Hy.
    exact (StronglySorted_app_1_elem_of Tx_ltP _ _ _ _ HS Hx Hy). }
  split; [|done]. unfold toBlk. cbn [bfc_txhs]. cbn [fmap list_fmap] in EL. by rewrite EL.
Qed.

Lemma seal_and_convert_witness :
  ∃ b s', check_and_seal_maybe (mkSealer 4 (replicate 32 x00)) pool_example = (Some b, s')
  ∧ ∃ p', toBlk b pool_example = (Some (mkBlk (mkBlkHeader 4 (replicate 32 x00)) [tx_example]), p').
Proof.
  destruct (check_and_seal_maybe (mkSealer 4 (replicate 32 x00)) pool_example) as [[b|] s'] eqn:E.
  - exists b, s'. split; [done|].
    destruct (seal_and_convert _ _ _ _ pool_example_inv E) as (ts & rest & p' & Ep & Hne & _ & _ & Ht & _).
    destruct ts as [|t [|t2 ts]]; [done| |done]. injection Ep as <- _. exists p'. exact Ht.
  - exfalso. apply (f_equal (λ x, bool_decide (is_Some x.1))) in E. vm_compute in E. discriminate E.
Defined.
