(* ===== verification/Exec.v ===== *)
(** * Execution of blocks

    include/txVerifier.hpp ([TxVerifier]), [ITxVerifiable::filterTxs]
    (include/core0.hpp) and include/execManager.hpp ([BlkExecutor]).  The
    executor of single transactions ([ITxExecutable], include/core.hpp) is an
    argument. *)
From Stdlib Require Import ZArith Strings.Byte Strings.String Strings.Ascii Lia.
From stdpp Require Import base tactics strings gmap option numbers list.
From S2P Require Import Prelude Text Hex Keccak Core Net Codec CoreJson PostExec Storage.
Import SslMsgMgr.

(** ** [TxVerifier] *)
Section verifier.
Context `{OpenSSL}.
(** No CA key: public mode. *)
Record TxVerifier := mkTxVerifier { tv_ca_public_key : option EVP_PKEY; is_public_tx_mode : bool }.
Definition TxVerifier_ctor (ca_crt_pem : string) : outcome TxVerifier :=
  if String.eqb ca_crt_pem "" then Ret (mkTxVerifier None true)
  else match load_key_from_pem ca_crt_pem false with
       | None => Throw (runtime_error ("Failed to load the ca public key from the pem:" +:+ ca_crt_pem))
       | Some k => Ret (mkTxVerifier (Some k) false)
       end.
Definition verify (v : TxVerifier) (t : Tx) : outcome bool :=
  crt_ok ← (if negb (is_public_tx_mode v) then
              match tv_ca_public_key v with
              | Some ca => Ret (do_verify ca (tx_pk_pem t) (str (tx_pk_crt t)))
              | None => UB "EVP_DigestVerifyInit with a null key"
              end
            else Ret true);
  if negb crt_ok then Ret false
  else if negb (bool_decide (tx_from t = getFromFromPkPem (tx_pk_pem t))) then Ret false
  else if negb (do_verify_pem (tx_pk_pem t) (getToSignPayload t) (str (tx_signature t))) then Ret false
  else Ret true.

(** In every verifier that the constructor makes, the key is there when it is
    used. *)
Lemma TxVerifier_ctor_total pem v t :
  TxVerifier_ctor pem = Ret v → ∃ b, verify v t = Ret b.
Proof.
  unfold TxVerifier_ctor, verify. destruct (String.eqb pem "").
  - intros [= <-]. cbn. repeat case_goal; eauto.
  - destruct (load_key_from_pem pem false); [|done]. intros [= <-]. cbn. repeat case_goal; eauto.
Qed.

Lemma verify_true v t :
  verify v t = Ret true →
  tx_from t = getFromFromPkPem (tx_pk_pem t)
  ∧ do_verify_pem (tx_pk_pem t) (getToSignPayload t) (str (tx_signature t)) = true
  ∧ (is_public_tx_mode v = false →
     ∃ ca, tv_ca_public_key v = Some ca ∧ do_verify ca (tx_pk_pem t) (str (tx_pk_crt t)) = true).
Proof.
  unfold verify. destruct (is_public_tx_mode v) eqn:Em; cbn.
  - case_bool_decide; cbn; [|done]. destruct (do_verify_pem _ _ _) eqn:Ed; cbn; [|done]. done.
  - destruct (tv_ca_public_key v) as [ca|]; cbn; [|done].
    destruct (do_verify ca _ _) eqn:Ec; cbn; [|done].
    case_bool_decide; cbn; [|done]. destruct (do_verify_pem _ _ _) eqn:Ed; cbn; [|done].
    intros _. split; [done|]. split; [done|]. intros _. by exists ca.
Qed.
End verifier.

(** ** [BlkExecutor] *)

(** What executes one transaction on a read-only world: the journal and the
    result, or failure. *)
Definition TxExecutable : Type :=
  (bytes → outcome (option Acn)) → Tx → outcome (option (list StateChange * bytes)).

(** [filterTxs]: [std::erase_if] of what does not verify. *)
Fixpoint filterTxs (v : Tx → outcome bool) (txs : list Tx) : outcome (list Tx) :=
  match txs with
  | [] => Ret []
  | t :: txs => b ← v t; r ← filterTxs v txs; Ret (if (b : bool) then t :: r else r)
  end.

Section blk_executor.
Context `{WireFormats} {W} `{IWorld W}.
(** [txExecutor] and [txVerifier] (null: no check). *)
Context (executeTx : TxExecutable) (txVerifier : option (Tx → outcome bool)).

(** One iteration: the journal and the receipt of a transaction. *)
Definition executeBlk_step (w : W) (t : Tx) : outcome (list StateChange * TxReceipt) :=
  r ← executeTx (getAcn w) t;
  match r with
  | None => rc ← TxReceipt_failed false (tx_type t); Ret ([], rc)
  | Some (j, b) => Ret (j, TxReceipt_result b (tx_type t))
  end.
(** [executeBlk]: every transaction runs on the same world [w]. *)
Definition executeBlk (w : W) (b : Blk) : outcome ExecBlk :=
  noexcept (
    txs ← match txVerifier with Some v => filterTxs v (blk_txs b) | None => Ret (blk_txs b) end;
    jr ← mapO (executeBlk_step w) txs;
    ExecBlk_ctor (mkBlk (blk_header b) txs) (jr.*1) (jr.*2)).

(** The keys of the chain database. *)
Definition tx_key (h : bytes) : string := "/tx/" +:+ hashToString h.
Definition blk_key (n : Z) : string := "/blk/" +:+ to_string n.
Definition number_key : string := "/other/blk_number".

(** The loop of [commitBlk]; [false] ends it. *)
Fixpoint commit_loop (b : ExecBlk) (i : nat) (txs : list Tx) (w : W) : outcome (bool * W) :=
  match txs with
  | [] => Ret (true, w)
  | tx :: txs =>
      let bi := mkTxOnBlkInfo (eb_number b) (Z.of_nat i) in
      '(_, w) ← setInChainDB (tx_key (Tx_hash tx)) (TxOnBlkInfo_toString bi) w;
      match stateChanges b !! i with
      | None => UB "stateChanges[i] out of range"
      | Some j =>
          '(ok, w) ← applyJournalStateDB j w;
          if negb ok then Ret (false, w) else commit_loop b (S i) txs w
      end
  end.
Definition commitBlk (b : ExecBlk) (w : W) : outcome (bool * W) :=
  noexcept (
    '(ok, w) ← commit_loop b 0 (eb_txs b) w;
    if negb (ok : bool) then Ret (false, w)
    else
      let bn := to_string (eb_number b) in
      '(ok, w) ← setInChainDB ("/blk/" +:+ bn) (ExecBlk_toString b) w;
      if negb (ok : bool) then Ret (false, w)
      else
        '(ok, w) ← setInChainDB number_key bn w;
        if negb (ok : bool) then Ret (false, w) else Ret (true, w)).
End blk_executor.

(** ** Lemmas *)

Lemma filterTxs_spec v txs r :
  filterTxs v txs = Ret r →
  r `sublist_of` txs ∧ Forall (λ t, v t = Ret true) r
  ∧ (∀ t, t ∈ txs → v t = Ret true → t ∈ r).
Proof.
  revert r. induction txs as [|t txs IH]; intros r; cbn.
  { intros [= <-]. split; [constructor|]. split; [constructor|]. set_solver. }
  destruct (v t) as [b| |] eqn:E; cbn; [|done..].
  destruct (filterTxs v txs) as [r'| |]; cbn; [|done..]. intros [= <-].
  destruct (IH r' eq_refl) as (Hs & Hf & Hc). destruct b.
  - split; [by apply sublist_skip|]. split; [by constructor|].
    intros t' [->|Hi]%elem_of_cons Hv; [by left|right; auto].
  - split; [by apply sublist_cons|]. split; [done|].
    intros t' [->|Hi]%elem_of_cons Hv; [congruence|auto].
Qed.

Section lemmas.
Context `{WireFormats} {W} `{IWorldLaws W}.

(** The abstract effect of a commit on the chain database. *)
Definition commit_tx (n : Z) (m : gmap string string) (it : nat * Tx) : gmap string string :=
  <[tx_key (Tx_hash it.2) := TxOnBlkInfo_toString (mkTxOnBlkInfo n (Z.of_nat it.1))]> m.
Definition commit_chain (b : ExecBlk) (m : gmap string string) : gmap string string :=
  <[number_key := to_string (eb_number b)]> (
  <[blk_key (eb_number b) := ExecBlk_toString b]> (
  foldl (commit_tx (eb_number b)) m (imap (λ i t, (i, t)) (eb_txs b)))).
Definition commit_state (b : ExecBlk) (m : gmap string string) : gmap string string :=
  foldl apply_journal m (stateChanges b).

Lemma commit_loop_spec b i txs w :
  length (stateChanges b) = (i + length txs)%nat →
  ∃ w', commit_loop b i txs w = Ret (true, w')
  ∧ chain_view w' = foldl (commit_tx (eb_number b)) (chain_view w) (imap (λ k t, (i + k, t)%nat) txs)
  ∧ state_view w' = foldl apply_journal (state_view w) (drop i (stateChanges b)).
Proof.
  revert i w. induction txs as [|t txs IH]; intros i w Hl; cbn [commit_loop].
  { exists w. rewrite drop_ge by (cbn in Hl; lia). done. }
  destruct (set_chain (tx_key (Tx_hash t)) (TxOnBlkInfo_toString (mkTxOnBlkInfo (eb_number b) (Z.of_nat i))) w)
    as (w1 & -> & C1 & S1). cbn [mbind outcome_bind].
  destruct (lookup_lt_is_Some_2 (stateChanges b) i) as [j Hj]; [cbn in Hl; lia|].
  rewrite Hj. destruct (apply_state j w1) as (w2 & -> & C2 & S2). cbn [mbind outcome_bind negb].
  destruct (IH (S i) w2) as (w3 & -> & C3 & S3); [cbn in Hl; lia|].
  exists w3. split; [done|]. rewrite C3, S3, C2, S2, C1, S1.
  rewrite (drop_S _ _ _ Hj). cbn [foldl imap]. split; [|done].
  rewrite Nat.add_0_r. unfold commit_tx at 3. cbn.
  f_equal. apply imap_ext. intros k x _. cbn. f_equal. lia.
Qed.

Lemma commitBlk_spec b w :
  length (stateChanges b) = length (eb_txs b) →
  ∃ w', commitBlk b w = Ret (true, w')
  ∧ chain_view w' = commit_chain b (chain_view w)
  ∧ state_view w' = commit_state b (state_view w).
Proof.
  intros Hl. unfold commitBlk. destruct (commit_loop_spec b 0 (eb_txs b) w) as (w1 & -> & C1 & S1); [done|].
  cbn [mbind outcome_bind negb].
  destruct (set_chain ("/blk/" +:+ to_string (eb_number b)) (ExecBlk_toString b) w1) as (w2 & -> & C2 & S2).
  cbn [mbind outcome_bind negb].
  destruct (set_chain number_key (to_string (eb_number b)) w2) as (w3 & -> & C3 & S3).
  exists w3. split; [done|]. rewrite C3, S3, C2, S2, C1, S1. done.
Qed.

Lemma executeBlk_spec e v w b :
  (∀ t, ∃ r, e (getAcn w) t = Ret r) → (∀ f t, v = Some f → ∃ r, f t = Ret r) →
  ∃ eb, executeBlk e v w b = Ret eb
  ∧ blk_header (eb_blk eb) = blk_header b
  ∧ length (stateChanges eb) = length (eb_txs eb) ∧ length (txReceipts eb) = length (eb_txs eb)
  ∧ eb_txs eb `sublist_of` blk_txs b
  ∧ (v = None → eb_txs eb = blk_txs b)
  ∧ (∀ f, v = Some f → Forall (λ t, f t = Ret true) (eb_txs eb)
                     ∧ ∀ t, t ∈ blk_txs b → f t = Ret true → t ∈ eb_txs eb)
  ∧ (∀ i t j rc, eb_txs eb !! i = Some t → stateChanges eb !! i = Some j → txReceipts eb !! i = Some rc →
       executeBlk_step e w t = Ret (j, rc)).
Proof.
  intros He Hv.
  assert (∃ txs, match v with Some v => filterTxs v (blk_txs b) | None => Ret (blk_txs b) end = Ret txs) as [txs Et].
  { destruct v as [f|]; [|eauto]. specialize (Hv f). induction (blk_txs b) as [|t l IH]; cbn; [eauto|].
    destruct (Hv t eq_refl) as [r ->]. cbn. destruct IH as [l' ->]. cbn. eauto. }
  assert (∀ t, ∃ r, executeBlk_step e w t = Ret r) as Hs.
  { intros t. unfold executeBlk_step. destruct (He t) as [[[j r]|] ->]; cbn; eauto. }
  assert (∃ jr, mapO (executeBlk_step e w) txs = Ret jr) as [jr Ej].
  { clear -Hs. induction txs as [|t l IH]; cbn; [eauto|]. destruct (Hs t) as [r ->]. cbn.
    destruct IH as [l' ->]. cbn. eauto. }
  pose proof (mapO_Ret_length _ _ _ Ej) as HL.
  exists (mkExecBlk (mkBlk (blk_header b) txs) jr.*1 jr.*2).
  unfold executeBlk. rewrite Et. cbn. rewrite Ej. cbn. unfold ExecBlk_ctor, eb_txs. cbn.
  rewrite !length_fmap, HL, !Nat.eqb_refl. cbn. split; [done|]. split; [done|]. split; [done|]. split; [done|].
  split; [|split; [|split]].
  - destruct v as [f|]; [by apply filterTxs_spec in Et as [? _]|by injection Et as ->].
  - intros ->. by injection Et as ->.
  - intros f ->. by apply filterTxs_spec in Et as (_ & ? & ?).
  - clear -Ej. revert jr Ej. induction txs as [|t0 l IH]; intros jr; cbn; [done|].
    destruct (executeBlk_step e w t0) as [[j0 r0]| |] eqn:E0; cbn; [|done..].
    destruct (mapO (executeBlk_step e w) l) as [jr'| |]; cbn; [|done..]. intros [= <-].
    intros [|i] t j rc; cbn; [by intros [= <-] [= <-] [= <-]|]. apply (IH jr' eq_refl).
Qed.

(** What the rest of the node needs of an executor of transactions: on states of
    some kind it answers, and its journals keep states of that kind. *)
Class TxExecutorLaws (executeTx : TxExecutable) := {
  state_ok : gmap string string → Prop;
  executeTx_total w t : state_ok (state_view w) → ∃ r, executeTx (getAcn w) t = Ret r;
  executeTx_keeps w t j b m :
    state_ok (state_view w) → executeTx (getAcn w) t = Ret (Some (j, b)) → state_ok m →
    state_ok (apply_journal m j)
}.
Lemma apply_journals_ok (P : gmap string string → Prop) js m :
  (∀ j m, j ∈ js → P m → P (apply_journal m j)) → P m → P (foldl apply_journal m js).
Proof.
  revert m. induction js as [|j js IH]; intros m Hj Hm; [done|]. cbn. apply IH.
  - intros k m' Hk. apply Hj. by right.
  - apply Hj; [by left|done].
Qed.
Lemma commit_state_ok executeTx `{!TxExecutorLaws executeTx} v w b eb :
  (∀ f t, v = Some f → ∃ r, f t = Ret r) → state_ok (state_view w) → executeBlk executeTx v w b = Ret eb →
  state_ok (commit_state eb (state_view w)).
Proof.
  intros Hv Hw Hx.
  destruct (executeBlk_spec executeTx v w b (λ t, executeTx_total w t Hw) Hv)
    as (eb' & Hx' & _ & Lj & Lr & _ & _ & _ & Hstep).
  rewrite Hx in Hx'. injection Hx' as <-. unfold commit_state. apply apply_journals_ok; [|done].
  intros j m (i & Hj)%list_elem_of_lookup Hm.
  destruct (lookup_lt_is_Some_2 (eb_txs eb) i) as [t Ht]; [rewrite <-Lj; by eapply lookup_lt_Some|].
  destruct (lookup_lt_is_Some_2 (txReceipts eb) i) as [rc Hrc]; [rewrite Lr, <-Lj; by eapply lookup_lt_Some|].
  specialize (Hstep i t j rc Ht Hj Hrc). unfold executeBlk_step in Hstep.
  destruct (executeTx (getAcn w) t) as [[[j' r]|]| |] eqn:Et; cbn in Hstep; [| |done..].
  - injection Hstep as -> _. by eapply executeTx_keeps.
  - injection Hstep as <- _. exact Hm.
Qed.
End lemmas.
Arguments state_ok {_ _ _ _} executeTx {_} m.

(** ** Theorems *)

(** C33: A transaction that a verifier accepts comes from the address of its
    public key, its signature over nonce and data verifies under that key, and in
    CA mode the CA certified the key; every verifier that the constructor makes
    gives an answer. *)
Theorem TxVerifier_sound `{OpenSSL} pem v t :
  TxVerifier_ctor pem = Ret v →
  (∃ b, verify v t = Ret b)
  ∧ (verify v t = Ret true →
     tx_from t = getFromFromPkPem (tx_pk_pem t)
     ∧ (∃ pk, load_key_from_pem (tx_pk_pem t) false = Some pk
              ∧ EVP_DigestVerify pk (getToSignPayload t) (str (tx_signature t)) = true)
     ∧ (pem ≠ "" → ∃ ca, load_key_from_pem pem false = Some ca
              ∧ EVP_DigestVerify ca (tx_pk_pem t) (str (tx_pk_crt t)) = true)).
Proof.
  intros Hc. split; [by eapply TxVerifier_ctor_total|]. intros (Hf & Hs & Hca)%verify_true.
  split; [done|]. split.
  - unfold do_verify_pem in Hs. destruct (load_key_from_pem _ false) as [pk|]; [|done]. by exists pk.
  - intros Hp. unfold TxVerifier_ctor in Hc. apply String.eqb_neq in Hp. rewrite Hp in Hc.
    destruct (load_key_from_pem pem false) as [ca|]; [|done]. injection Hc as <-. cbn in Hca.
    destruct (Hca eq_refl) as (ca' & [= <-] & Hv). by exists ca.
Qed.

Definition signed_example : Tx :=
  let pem := ToySSL.pem true in
  mkTx pem (unstr (ToySSL.sign true "123hi")) (unstr (ToySSL.sign false pem)) Type_python
       (getFromFromPkPem pem) (makeAddress 0) [x68; x69] 123 1717141105.
Definition ca_verifier : TxVerifier := mkTxVerifier (Some false) false.

Lemma TxVerifier_sound_witness :
  verify ca_verifier signed_example = Ret true
  ∧ tx_from signed_example = getFromFromPkPem (tx_pk_pem signed_example).
Proof.
  assert (verify ca_verifier signed_example = Ret true) as E by (vm_compute; reflexivity).
  split; [exact E|].
  apply (TxVerifier_sound (ToySSL.pem false) ca_verifier signed_example); [reflexivity|exact E].
Defined.

(** What a signature covers is the text of the nonce followed by the data,
    without a separator: the answer of the verifier is the same for every
    transaction with the same key, certificate, sender, signature and
    concatenation, whatever its nonce, data, type, recipient and timestamp; in
    particular digits can move from the data into the nonce, which gives the
    transaction another identity. *)
Theorem signature_covers `{OpenSSL} v t t' :
  tx_pk_pem t' = tx_pk_pem t → tx_pk_crt t' = tx_pk_crt t → tx_from t' = tx_from t →
  tx_signature t' = tx_signature t →
  to_string (tx_nonce t') +:+ str (tx_data t') = to_string (tx_nonce t) +:+ str (tx_data t) →
  verify v t' = verify v t.
Proof.
  intros E1 E2 E3 E4 E5. unfold verify, getToSignPayload, getToSignPayload0.
  by rewrite E1, E2, E3, E4, E5.
Qed.

(** The same signature with nonce 12 and data [3hi], and another recipient. *)
Definition replayed_example : Tx :=
  let pem := ToySSL.pem true in
  mkTx pem (unstr (ToySSL.sign true "123hi")) (unstr (ToySSL.sign false pem)) Type_evm
       (getFromFromPkPem pem) (makeAddress 9) [x33; x68; x69] 12 7.
Lemma signature_covers_witness :
  verify ca_verifier replayed_example = Ret true ∧ Tx_hash replayed_example ≠ Tx_hash signed_example.
Proof.
  split; [|vm_compute; discriminate].
  rewrite (signature_covers ca_verifier signed_example replayed_example); try (vm_compute; reflexivity).
Defined.

(** C32: Executing a block always yields an executed block with the header of
    the block, one journal and one receipt per remaining transaction; the
    remaining transactions are exactly those that verify, in order; and each
    journal and receipt is what the transaction gives on the world before the
    block (transactions of one block do not see each other's changes). *)
Theorem executeBlk_correct `{WireFormats} {W} `{IWorld W} e v (w : W) b :
  (∀ t, ∃ r, e (getAcn w) t = Ret r) → (∀ f t, v = Some f → ∃ r, f t = Ret r) →
  ∃ eb, executeBlk e v w b = Ret eb
  ∧ blk_header (eb_blk eb) = blk_header b
  ∧ length (stateChanges eb) = length (eb_txs eb) ∧ length (txReceipts eb) = length (eb_txs eb)
  ∧ eb_txs eb `sublist_of` blk_txs b
  ∧ (v = None → eb_txs eb = blk_txs b)
  ∧ (∀ f, v = Some f → Forall (λ t, f t = Ret true) (eb_txs eb)
                     ∧ ∀ t, t ∈ blk_txs b → f t = Ret true → t ∈ eb_txs eb)
  ∧ (∀ i t j rc, eb_txs eb !! i = Some t → stateChanges eb !! i = Some j → txReceipts eb !! i = Some rc →
       executeBlk_step e w t = Ret (j, rc)).
Proof. apply executeBlk_spec. Qed.

(** A transaction executor for the examples: it counts, in the account of the
    recipient, the transactions it sees, and fails on nonce 0. *)
Definition counting_executor `{WireFormats} : TxExecutable := λ acn t,
  a ← acn (tx_to t);
  if (tx_nonce t =? 0)%Z then Ret None
  else
    let a := default Acn_default a in
    let a := mkAcn (acn_nonce a + 1) (acn_code a) (acn_storage a) (acn_disk_storage a) in
    Ret (Some ([mkStateChange false (addressToString (tx_to t)) (Acn_toString a)], tx_data t)).

Definition total_executor : TxExecutable := λ _ t,
  if (tx_nonce t =? 0)%Z then Ret None
  else Ret (Some ([mkStateChange false (addressToString (tx_to t)) (str (tx_data t))], tx_data t)).
Lemma total_executor_total a t : ∃ r, total_executor a t = Ret r.
Proof. unfold total_executor. destruct (tx_nonce t =? 0)%Z; eauto. Qed.

#[global] Program Instance total_executor_laws `{WireFormats} {W} `{IWorldLaws W} :
    TxExecutorLaws (W:=W) total_executor := {| state_ok _ := True |}.
Next Obligation. intros. apply total_executor_total. Qed.
Next Obligation. done. Qed.

Definition blk_example : Blk := mkBlk (mkBlkHeader 0 (replicate 32 x00)) [tx_example; tx_example'].

Lemma executeBlk_correct_witness :
  ∃ eb, executeBlk (H:=ToyWire.toy_wire) total_executor None InRam.empty_storage blk_example = Ret eb
  ∧ eb_txs eb = [tx_example; tx_example'] ∧ length (txReceipts eb) = 2%nat.
Proof.
  destruct (executeBlk_correct (H:=ToyWire.toy_wire) total_executor None InRam.empty_storage blk_example)
    as (eb & E & _ & _ & HL & _ & Ht & _).
  - intros t. apply total_executor_total.
  - intros f t Hf. discriminate Hf.
  - exists eb. split; [exact E|]. rewrite HL, (Ht eq_refl). split; reflexivity.
Defined.

(** Two transactions to one account in one block: the second does not see the
    first, the account counts one. *)
Definition lost_update_run : outcome (option Z) :=
  let t n := mkTx "" [] [] Type_evm (makeAddress 1) (makeAddress 5) [] n 0 in
  let wire := ToyWire.toy_wire in
  eb ← executeBlk counting_executor None InRam.empty_storage
         (mkBlk (mkBlkHeader 0 (replicate 32 x00)) [t 1%Z; t 2%Z]);
  '(_, w) ← commitBlk eb InRam.empty_storage;
  a ← getAcn w (makeAddress 5);
  Ret (fmap (M:=option) acn_nonce a).
Example lost_update : lost_update_run = Ret (Some 1%Z).
Proof. vm_compute. reflexivity. Qed.
