(* ===== verification/Chain.v ===== *)
(** * The chain database as a list of executed blocks

    The keys that [BlkExecutor::commitBlk] writes and that the RPC and the
    start-up code read, against an abstract chain: the list of the blocks
    committed so far.  [represents] is the refinement relation;
    [commit_represents] shows that a commit implements appending a block. *)
From Stdlib Require Import ZArith Strings.Byte Strings.String Strings.Ascii Lia.
From stdpp Require Import base tactics strings gmap option numbers list.
From S2P Require Import Prelude Text Hex Keccak Core Net Codec CoreJson PostExec Storage Exec.

Local Open Scope Z_scope.

(** ** The abstract chain *)
Definition chain_txs (c : list ExecBlk) : list Tx := c ≫= eb_txs.

(** Blocks are numbered from 0, can be stored, and no transaction hash occurs
    twice. *)
Definition chain_ok (c : list ExecBlk) : Prop :=
  (∀ i b, c !! i = Some b → eb_number b = Z.of_nat i) ∧ Forall storable c
  ∧ NoDup (Tx_hash <$> chain_txs c).

Section represents.
Context `{WireFormats}.

Record represents (c : list ExecBlk) (m : gmap string string) : Prop := {
  rep_number : m !! number_key = fmap (M:=option) (λ b, to_string (eb_number b)) (last c);
  rep_blk : ∀ i b, c !! i = Some b → m !! blk_key (Z.of_nat i) = Some (ExecBlk_toString b);
  rep_no_blk : ∀ i : nat, (length c <= i)%nat → m !! blk_key (Z.of_nat i) = None;
  rep_tx : ∀ i b k t, c !! i = Some b → eb_txs b !! k = Some t →
    m !! tx_key (Tx_hash t) = Some (TxOnBlkInfo_toString (mkTxOnBlkInfo (Z.of_nat i) (Z.of_nat k)));
  rep_tx_only : ∀ key, String.prefix "/tx/" key = true → is_Some (m !! key) →
    ∃ t, t ∈ chain_txs c ∧ key = tx_key (Tx_hash t)
}.

(** *** Keys *)
Lemma tx_key_inj a b : tx_key a = tx_key b → a = b.
Proof.
  intros E%string_app_inj_l. unfold hashToString in E.
  apply (f_equal from_hex) in E. rewrite !from_hex_hex in E. congruence.
Qed.
Lemma blk_key_inj a b : 0 <= a → 0 <= b → blk_key a = blk_key b → a = b.
Proof. intros Ha Hb E%string_app_inj_l. by apply to_string_inj. Qed.
Lemma tx_key_blk_key h n : tx_key h ≠ blk_key n.
Proof. unfold tx_key, blk_key. rewrite !string_app_cons. congruence. Qed.
Lemma tx_key_number_key h : tx_key h ≠ number_key.
Proof. unfold tx_key, number_key. rewrite !string_app_cons. congruence. Qed.
Lemma blk_key_number_key n : blk_key n ≠ number_key.
Proof. unfold blk_key, number_key. rewrite !string_app_cons. congruence. Qed.
Lemma prefix_tx_key h : String.prefix "/tx/" (tx_key h) = true.
Proof. unfold tx_key. rewrite !string_app_cons, string_app_nil. cbn. by destruct (hashToString h). Qed.
Lemma prefix_blk_key n : String.prefix "/tx/" (blk_key n) = false.
Proof. unfold blk_key. rewrite !string_app_cons. done. Qed.

(** *** The transactions of one block *)
Lemma commit_txs_other n m l key :
  (∀ it, it ∈ l → tx_key (Tx_hash it.2) ≠ key) → foldl (commit_tx n) m l !! key = m !! key.
Proof.
  revert m. induction l as [|it l IH]; intros m Hk; [done|]. cbn. rewrite IH.
  - unfold commit_tx. apply lookup_insert_ne. apply Hk. by left.
  - intros it' Hi. apply Hk. by right.
Qed.

Lemma commit_txs_lookup n m (txs : list Tx) k t (o : nat) :
  NoDup (Tx_hash <$> txs) → txs !! k = Some t →
  foldl (commit_tx n) m (imap (λ i x, (o + i, x)%nat) txs) !! tx_key (Tx_hash t)
  = Some (TxOnBlkInfo_toString (mkTxOnBlkInfo n (Z.of_nat (o + k)))).
Proof.
  revert m o k. induction txs as [|x txs IH]; intros m o k Hn; [done|].
  cbn in Hn. apply NoDup_cons in Hn as [Hx Hn]. cbn [imap foldl].
  assert (imap ((λ i x, (o + i, x)%nat) ∘ S) txs = imap (λ i x, (S o + i, x)%nat) txs) as ->.
  { apply imap_ext. intros i y _. cbn. f_equal. lia. }
  destruct k as [|k]; cbn; intros Hk.
  - injection Hk as ->. rewrite commit_txs_other.
    + unfold commit_tx. cbn. by rewrite lookup_insert_eq.
    + intros [i y] Hi E%tx_key_inj. apply Hx. cbn in E. rewrite <-E.
      apply list_elem_of_fmap. exists y. split; [done|].
      apply elem_of_lookup_imap in Hi as (i' & y' & [= _ ->] & Hy). by eapply list_elem_of_lookup_2.
  - rewrite (IH _ (S o) k Hn Hk). do 3 f_equal. lia.
Qed.

Lemma commit_txs_dom n m l key :
  is_Some (foldl (commit_tx n) m l !! key) →
  is_Some (m !! key) ∨ ∃ it, it ∈ l ∧ key = tx_key (Tx_hash it.2).
Proof.
  revert m. induction l as [|it l IH]; intros m; [by left|]. cbn.
  intros [Hm|(it' & Hi & ->)]%IH; [|right; exists it'; split; [by right|done]].
  unfold commit_tx in Hm. destruct (decide (key = tx_key (Tx_hash it.2))) as [->|Hne].
  - right. exists it. split; [by left|done].
  - left. by rewrite lookup_insert_ne in Hm by done.
Qed.

Lemma chain_txs_snoc c b : chain_txs (c ++ [b]) = chain_txs c ++ eb_txs b.
Proof. unfold chain_txs. rewrite bind_app. cbn. by rewrite app_nil_r. Qed.

Lemma lookup_snoc {A} (c : list A) b i x :
  (c ++ [b]) !! i = Some x → (c !! i = Some x ∧ (i < length c)%nat) ∨ (i = length c ∧ x = b).
Proof.
  intros [Hl|[Hl E]]%lookup_app_Some.
  - left. split; [done|by eapply lookup_lt_Some].
  - right. apply list_lookup_singleton_Some in E as [E ->]. split; [lia|done].
Qed.

Lemma represents_empty : represents [] ∅.
Proof.
  split; try done.
  - intros key _ Hs. rewrite lookup_empty in Hs. by destruct Hs.
Qed.

Lemma chain_tx_in c i b k t : c !! i = Some b → eb_txs b !! k = Some t → t ∈ chain_txs c.
Proof.
  intros Hb Ht. apply list_elem_of_bind. exists b.
  split; [by eapply list_elem_of_lookup_2|by eapply list_elem_of_lookup_2].
Qed.

Lemma commit_represents_lem c m b :
  represents c m → chain_ok (c ++ [b]) → represents (c ++ [b]) (commit_chain b m).
Proof.
  intros [Rn Rb Rnb Rt Rto] (Hnum & Hst & Hnd).
  assert (eb_number b = Z.of_nat (length c)) as En.
  { apply (Hnum (length c)). rewrite lookup_app_r by lia. by rewrite Nat.sub_diag. }
  rewrite chain_txs_snoc, fmap_app in Hnd. apply NoDup_app in Hnd as (Hnd1 & Hdis & Hnd2).
  assert (∀ h, h ∉ Tx_hash <$> eb_txs b → commit_chain b m !! tx_key h = m !! tx_key h) as Htx.
  { intros h Hh. unfold commit_chain. rewrite !lookup_insert_ne.
    - apply commit_txs_other. intros [i t] Hi E%tx_key_inj. apply Hh. cbn in E. rewrite <-E.
      apply elem_of_lookup_imap in Hi as (i' & t' & [= _ ->] & Ht).
      apply list_elem_of_fmap. exists t'. split; [done|by eapply list_elem_of_lookup_2].
    - apply not_eq_sym, tx_key_blk_key.
    - apply not_eq_sym, tx_key_number_key. }
  assert (∀ n, 0 <= n → n ≠ eb_number b → commit_chain b m !! blk_key n = m !! blk_key n) as Hblk.
  { intros n Hn Hne. unfold commit_chain. rewrite !lookup_insert_ne.
    - apply commit_txs_other. intros it _. apply tx_key_blk_key.
    - intros E%blk_key_inj; [congruence|lia|done].
    - apply not_eq_sym, blk_key_number_key. }
  split.
  - unfold commit_chain. by rewrite last_snoc, lookup_insert_eq.
  - intros i x [[Hi Hlt]|[-> ->]]%lookup_snoc.
    + rewrite Hblk by lia. by apply Rb.
    + unfold commit_chain. rewrite lookup_insert_ne by apply not_eq_sym, blk_key_number_key.
      rewrite <-En. by rewrite lookup_insert_eq.
  - intros i Hi. rewrite length_app in Hi. cbn in Hi. rewrite Hblk by lia. apply Rnb. lia.
  - intros i x k t [[Hi Hlt]|[-> ->]]%lookup_snoc Ht.
    + rewrite Htx; [by eapply Rt|]. intros Hin. apply (Hdis (Tx_hash t)); [|done].
      apply list_elem_of_fmap_2. by eapply chain_tx_in.
    + unfold commit_chain. rewrite !lookup_insert_ne
        by (apply not_eq_sym, tx_key_blk_key || apply not_eq_sym, tx_key_number_key).
      rewrite (commit_txs_lookup _ _ _ k t 0) by done. by rewrite En.
  - intros key Hp Hs. rewrite chain_txs_snoc. unfold commit_chain in Hs.
    rewrite lookup_insert_ne in Hs by (intros <-; done).
    rewrite lookup_insert_ne in Hs by (intros <-; by rewrite prefix_blk_key in Hp).
    apply commit_txs_dom in Hs as [Hs|([i t] & Hi & ->)].
    + destruct (Rto key Hp Hs) as (t & Ht & ->). exists t. split; [|done]. apply elem_of_app. by left.
    + apply elem_of_lookup_imap in Hi as (i' & t' & [= _ ->] & Ht). exists t'. split; [|done].
      apply elem_of_app. right. by eapply list_elem_of_lookup_2.
Qed.
End represents.
