(* ===== verification/Rpc.v ===== *)
(** * RPC and start-up

    include/rpc.hpp: the queries and handlers of [Rpc] over the chain database
    ([get_latest_Blk], [get_Blk_from_chain], [get_txOnBlkInfo], [get_receipt],
    [get_tx], [handle_add_txs]); include/init/init.hpp: what the node restores
    from the chain database when it starts ([get_required_things_from_ChainDB]),
    and the helpers that prepare endpoints and modes. *)
From Stdlib Require Import ZArith Strings.Byte Strings.String Strings.Ascii Lia.
From stdpp Require Import base tactics strings gmap option numbers list sorting.
From S2P Require Import Prelude Text Hex Keccak Core Net Codec CoreJson PostExec Storage Exec Chain.

Local Open Scope Z_scope.

(** [parse_positive_int]: a number, or a message. *)
Definition parse_positive_int (n : string) : outcome (option Z * string) :=
  match lexical_cast_int n with
  | Ret M => if M <? 0 then Ret (None, "Failed to parse " +:+ n +:+ " as positive integer") else Ret (Some M, "")
  | Throw bad_lexical_cast => Ret (None, "Failed to parse " +:+ n +:+ " as integer")
  | Throw e => Throw e
  | UB w => UB w
  end.

Abbreviation query := (option (gmap string string)).

Section rpc.
Context `{WireFormats} {W} `{IWorld W}.

Definition get_Blk_from_chain (w : W) (bn : Z) : outcome (option ExecBlk * string) :=
  noexcept (
    match getFromChainDB ("/blk/" +:+ to_string_int bn) w with
    | None => Ret (None, "Data corruption Error: failed to get  /blk/" +:+ to_string_int bn +:+ " on chainDB")
    | Some r =>
        b ← ExecBlk_fromString r;
        match b with
        | None => Ret (None, "Data corruption Error: /blk/" +:+ to_string_int bn
                             +:+ " on chainDB doesn't deserialize to Blk")
        | Some b => Ret (Some b, "OK")
        end
    end).

(** [for (int i=0;i<N;i++)] from block [bn] down, [n] times; a missing block
    ends with its message. *)
Fixpoint latest_loop (w : W) (n : nat) (bn : Z) (a : list json) : outcome (string + list json) :=
  match n with
  | O => Ret (inr a)
  | S n =>
      '(rb, err_msg) ← get_Blk_from_chain w bn;
      match rb with
      | None => Ret (inl err_msg)
      | Some b => v ← ExecBlk_toJson b; latest_loop w n (bn - 1) (a ++ [v])
      end
  end.
Definition get_latest_Blk (w : W) (N : Z) : outcome (bool * string) :=
  noexcept (
    if N =? 0 then Ret (true, json_serialize (JArray []))
    else if N <? 0 then Ret (false, "You cannot get latest <negative number=" +:+ to_string_int N +:+ "> Blks")
    else match getFromChainDB number_key w with
    | None => Ret (true, json_serialize (JArray []))
    | Some r =>
        '(rM, err_msg) ← parse_positive_int r;
        match rM with
        | None => Ret (false, err_msg)
        | Some M =>
            if M =? 2 ^ 31 - 1 then UB "M + 1 overflows int"
            else
              let N := if M + 1 <? N then M + 1 else N in
              r ← latest_loop w (Z.to_nat N) M [];
              match r with
              | inl msg => Ret (false, msg)
              | inr a => Ret (true, json_serialize (JArray a))
              end
        end
    end).

Definition get_txOnBlkInfo (w : W) (h : string) : outcome (option TxOnBlkInfo * string) :=
  match from_hex_T 32 h with
  | None => Ret (None, "Error: `hash` " +:+ h +:+ " is ill-formed")
  | Some _ =>
      match getFromChainDB ("/tx/" +:+ h) w with
      | None => Ret (None, "Error: `hash` " +:+ h +:+ " does not (yet) exist on the chain.")
      | Some o =>
          info ← TxOnBlkInfo_fromString o;
          match info with
          | None => Ret (None, "Data corruption Error:: `TxOnBlkInfo` data corrupted on storage.")
          | Some info => Ret (Some info, "OK")
          end
      end
  end.

(** [get_receipt] and [get_tx]: the member of the block at [onBlkId]; the
    index is not checked. *)
Definition get_on_blk {A} (f : ExecBlk → list A) (show : A → outcome json) (w : W) (h : string)
  : outcome (bool * string) :=
  '(info, err_msg) ← get_txOnBlkInfo w h;
  match info with
  | None => Ret (false, err_msg)
  | Some info =>
      '(b, err_msg1) ← get_Blk_from_chain w (i32 (blkNumber info));
      match b with
      | None => Ret (false, err_msg1)
      | Some b =>
          match f b !! Z.to_nat (onBlkId info) with
          | None => UB "operator[] out of range"
          | Some x => v ← show x; Ret (true, json_serialize v)
          end
      end
  end.
Definition get_receipt : W → string → outcome (bool * string) := get_on_blk txReceipts TxReceipt_toJson.
Definition get_tx : W → string → outcome (bool * string) := get_on_blk eb_txs (λ t, Ret (Tx_toJson t)).

(** ** Handlers *)
Definition handle_get_Blk (w : W) (q : query) : outcome (bool * string) :=
  match q ≫= lookup "n" with
  | None => get_latest_Blk w 1
  | Some ns =>
      '(rN, err_msg) ← parse_positive_int ns;
      match rN with
      | None => Ret (false, err_msg)
      | Some N =>
          '(rb, err_msg1) ← get_Blk_from_chain w N;
          match rb with
          | None => Ret (false, err_msg1)
          | Some b => v ← ExecBlk_toJson b; Ret (true, json_serialize v)
          end
      end
  end.
Definition handle_get_latest_Blk (w : W) (q : query) : outcome (bool * string) :=
  match q ≫= lookup "n" with
  | None => get_latest_Blk w 1
  | Some ns =>
      '(rN, err_msg) ← parse_positive_int ns;
      match rN with
      | None => Ret (false, err_msg)
      | Some N => get_latest_Blk w N
      end
  end.
Definition handle_get_receipt (w : W) (q : query) : outcome (bool * string) :=
  match q ≫= lookup "hash" with
  | None => Ret (false, "Error: `/get_receipt` should be used with query parameter `hash=<Tx hash>`")
  | Some h => get_receipt w h
  end.
Definition handle_get_tx (w : W) (q : query) : outcome (bool * string) :=
  match q ≫= lookup "hash" with
  | None => Ret (false, "Error: `/get_tx` should be used with query parameter `hash=<Tx hash>`")
  | Some h => get_tx w h
  end.
Definition handle_get_node_status (q : query) : outcome (bool * string) :=
  Ret (true, json_serialize (JObject [("status", JString "OK")])).

(** [handle_add_txs]: the reply and what is passed to the consensus [addTxs];
    nothing is passed on when no transaction is left. *)
Definition add_txs_and_return_this (addTxs : list Tx → bool) (s : string) (txs : list Tx)
  : bool * string * list (list Tx) :=
  match txs with
  | [] => (true, s, [])
  | _ =>
      if addTxs txs then (true, s, [txs])
      else (false, "Sorry, we have encountered some error in our side."
                   +:+ "So your requests to add Txs is failed. Please try again latter.", [txs])
  end.
Definition handle_add_txs (clock : nat → Z) (files : string → option string) (txf : option (Tx → bool))
    (addTxs : list Tx → bool) (data : string) : outcome (bool * string * list (list Tx)) :=
  r ← match json_parse data with
      | None => Ret None
      | Some v => parse_txs_json_for_rpc clock files txf v
      end;
  match r with
  | None => Ret (false, "Invalid input JSON format.", [])
  | Some (rs, txs) =>
      Ret (add_txs_and_return_this addTxs (json_serialize (JArray (List.map reply_toJson rs))) txs)
  end.

(** ** Start-up *)

Definition get_hash_from_key (k : string) : outcome bytes :=
  if negb (String.length k =? 68)%nat
  then Throw (runtime_error ("The length of hash key should be 4 + 32*2 = 68, but " +:+ k))
  else
    let hs := String.substring 4 64 k in
    or_throw (from_hex_T 32 hs) (runtime_error ("Error parsing hs=" +:+ hs +:+ " as hash")).

(** The latest number, the hash of the latest block, the hashes of all
    transactions. *)
Definition get_required_things_from_ChainDB (w : W) (ns : string) : outcome (Z * bytes * gset bytes) :=
  '(rN, _) ← parse_positive_int ns;
  match rN with
  | None => Throw (runtime_error "Error parsing blk_number")
  | Some N =>
      '(rB, msg) ← get_Blk_from_chain w N;
      match rB with
      | None => Throw (runtime_error "Error getting Blk on chain")
      | Some B =>
          hs ← mapO get_hash_from_key (getKeysStartWith "/tx/" w);
          Ret (N, Blk_hash (eb_blk B), list_to_set hs)
      end
  end.
(** What [init] restores: nothing on a fresh start. *)
Definition restore (w : W) : outcome (option (Z * bytes) * gset bytes) :=
  match getFromChainDB number_key w with
  | None => Ret (None, ∅)
  | Some ns => '(n, h, hs) ← get_required_things_from_ChainDB w ns; Ret (Some (n, h), hs)
  end.
End rpc.

(** [is_unique] by sorting; [prepare_endpoint_list]. *)
Fixpoint adjacent_unique (v : list string) : bool :=
  match v with
  | a :: (b :: _) as r => negb (String.eqb a b) && adjacent_unique r
  | _ => true
  end.
Definition is_unique (v : list string) : bool := adjacent_unique (merge_sort InRam.string_le v).
Definition turn_addr_port_into_raw_endpoint (addr_port : string) : string :=
  serialize_3_strs "<mock-pk>" addr_port "".
Definition prepare_endpoint_list (v : list string) : outcome (list string) :=
  if negb (is_unique v) then Throw (runtime_error "The endpoint list is not unique: ")
  else Ret (turn_addr_port_into_raw_endpoint <$> v).
(** [figure_out_tx_mode]: serious or not, and the CA key; [read_file] reads a
    file of the host. *)
Definition figure_out_tx_mode (read_file : string → outcome string) (s : string) : outcome (bool * string) :=
  if String.eqb s "" || String.eqb s "debug" then Ret (false, "")
  else if String.eqb s "public" then Ret (true, "")
  else if String.prefix "ca@" s then c ← read_file (String.substring 3 (String.length s - 3) s); Ret (true, c)
  else Throw (runtime_error ("Error parsing tx mode " +:+ s)).

(** ** Lemmas *)

Lemma parse_positive_int_to_string n :
  0 <= n < 2 ^ 31 → parse_positive_int (to_string n) = Ret (Some n, "").
Proof.
  intros Hn. unfold parse_positive_int. rewrite lexical_cast_int_to_string by done.
  by rewrite (proj2 (Z.ltb_ge _ _)) by lia.
Qed.

Lemma to_string_int_nonneg n : 0 <= n → to_string_int n = to_string n.
Proof. intros Hn. unfold to_string_int. by rewrite (proj2 (Z.ltb_ge _ _)) by lia. Qed.

Lemma length_tx_key h : length h = 32%nat → String.length (tx_key h) = 68%nat.
Proof. intros Hh. unfold tx_key, hashToString. rewrite length_str_app, length_hex, Hh. done. Qed.

Lemma substring_app_suffix p s : String.substring (String.length p) (String.length s) (p +:+ s) = s.
Proof.
  induction p as [|c p IH].
  - rewrite string_app_nil. change (String.length "") with 0%nat.
    induction s as [|c s IH]; [done|]. cbn. by rewrite IH.
  - rewrite string_app_cons. cbn. done.
Qed.

Lemma get_hash_from_tx_key h : length h = 32%nat → get_hash_from_key (tx_key h) = Ret h.
Proof.
  intros Hh. unfold get_hash_from_key. rewrite length_tx_key by done. cbn [negb Nat.eqb].
  assert (String.substring 4 64 (tx_key h) = hex h) as ->.
  { unfold tx_key, hashToString. rewrite <-(substring_app_suffix "/tx/" (hex h)) at 2.
    by rewrite length_hex, Hh. }
  by rewrite from_hex_T_exact.
Qed.

Section correctness.
Context `{WireFormats} {W} `{IWorldLaws W}.
Context (c : list ExecBlk) (w : W).
Context (Hrep : represents c (chain_view w)) (Hok : chain_ok c) (Hlen : Z.of_nat (length c) < 2 ^ 31).

Lemma get_Blk_ok i b : c !! i = Some b → get_Blk_from_chain w (Z.of_nat i) = Ret (Some b, "OK").
Proof.
  intros Hb. unfold get_Blk_from_chain. rewrite to_string_int_nonneg by lia.
  rewrite get_chain. change ("/blk/" +:+ to_string (Z.of_nat i)) with (blk_key (Z.of_nat i)).
  rewrite (rep_blk _ _ Hrep _ _ Hb). destruct Hok as (_ & Hst & _).
  rewrite ExecBlk_fromString_toString; [done|]. rewrite Forall_lookup in Hst. by eapply Hst.
Qed.

Lemma get_Blk_missing i : (length c <= i)%nat →
  ∃ msg, get_Blk_from_chain w (Z.of_nat i) = Ret (None, msg).
Proof.
  intros Hi. unfold get_Blk_from_chain. rewrite to_string_int_nonneg by lia.
  rewrite get_chain. change ("/blk/" +:+ to_string (Z.of_nat i)) with (blk_key (Z.of_nat i)).
  rewrite (rep_no_blk _ _ Hrep _ Hi). eauto.
Qed.

Lemma get_info_ok i b k t :
  c !! i = Some b → eb_txs b !! k = Some t → Z.of_nat (length (eb_txs b)) < 2 ^ 64 →
  get_txOnBlkInfo w (hashToString (Tx_hash t)) = Ret (Some (mkTxOnBlkInfo (Z.of_nat i) (Z.of_nat k)), "OK").
Proof.
  intros Hb Ht HL. pose proof (lookup_lt_Some _ _ _ Hb). pose proof (lookup_lt_Some _ _ _ Ht).
  unfold get_txOnBlkInfo, hashToString. rewrite from_hex_T_exact by apply length_Tx_hash.
  rewrite get_chain. change ("/tx/" +:+ hex (Tx_hash t)) with (tx_key (Tx_hash t)).
  rewrite (rep_tx _ _ Hrep _ _ _ _ Hb Ht).
  rewrite TxOnBlkInfo_fromString_toString; [done|cbn; unfold is_u64; lia..].
Qed.

Lemma get_info_missing h : length h = 32%nat → h ∉ Tx_hash <$> chain_txs c →
  ∃ msg, get_txOnBlkInfo w (hashToString h) = Ret (None, msg).
Proof.
  intros Hh Hn. unfold get_txOnBlkInfo, hashToString. rewrite from_hex_T_exact by done.
  rewrite get_chain. change ("/tx/" +:+ hex h) with (tx_key h).
  destruct (chain_view w !! tx_key h) eqn:E; [|eauto].
  destruct (rep_tx_only _ _ Hrep (tx_key h) (prefix_tx_key h)) as (t & Ht & Ek%tx_key_inj); [by rewrite E|].
  destruct Hn. subst. by apply list_elem_of_fmap_2.
Qed.

Lemma get_on_blk_ok {A} (f : ExecBlk → list A) show i b k t x v :
  c !! i = Some b → eb_txs b !! k = Some t → f b !! k = Some x → show x = Ret v →
  Z.of_nat (length (eb_txs b)) < 2 ^ 64 →
  get_on_blk f show w (hashToString (Tx_hash t)) = Ret (true, json_serialize v).
Proof.
  intros Hb Ht Hx Hs HL. unfold get_on_blk. rewrite (get_info_ok i b k t) by done. cbn.
  pose proof (lookup_lt_Some _ _ _ Hb). rewrite i32_small by (unfold is_i32; lia).
  rewrite (get_Blk_ok i b) by done. cbn. rewrite Nat2Z.id, Hx, Hs. done.
Qed.

(** The JSON of the [n] blocks below position [i], newest first. *)
Lemma latest_loop_ok n i a (js : list json) :
  (n <= i <= length c)%nat → Forall2 (λ b v, ExecBlk_toJson b = Ret v) (reverse (take n (drop (i - n) c))) js →
  latest_loop w n (Z.of_nat i - 1) a = Ret (inr (a ++ js)).
Proof.
  revert i a js. induction n as [|n IH]; intros i a js Hn HF; cbn.
  { cbn in HF. inv HF. by rewrite app_nil_r. }
  destruct (lookup_lt_is_Some_2 c (i - 1)) as [b Hb]; [lia|].
  replace (Z.of_nat i - 1) with (Z.of_nat (i - 1)) by lia.
  rewrite (get_Blk_ok (i - 1) b Hb). cbn.
  assert (take (S n) (drop (i - S n) c) = take n (drop (i - 1 - n) c) ++ [b]) as ET.
  { replace (i - 1 - n)%nat with (i - S n)%nat by lia. rewrite (take_S_r _ _ b); [done|].
    rewrite lookup_drop. by replace (i - S n + n)%nat with (i - 1)%nat by lia. }
  rewrite ET, reverse_snoc in HF. inversion HF as [|? v ? js' Hv HF']; subst.
  rewrite Hv. cbn. replace (Z.of_nat (i - 1) - 1) with (Z.of_nat (i - 1) - 1) by done.
  rewrite (IH (i - 1)%nat (a ++ [v]) js'); [by rewrite <-app_assoc|lia|done].
Qed.

Lemma mapO_hashes l : (∀ k, k ∈ l → ∃ h, length h = 32%nat ∧ k = tx_key h) →
  ∃ hs, mapO get_hash_from_key l = Ret hs ∧ Forall (λ h, length h = 32%nat) hs ∧ l = tx_key <$> hs.
Proof.
  induction l as [|k l IH]; intros Hl; cbn.
  { by exists []. }
  destruct (Hl k) as (h & Hh & ->); [by left|]. rewrite get_hash_from_tx_key by done. cbn.
  destruct IH as (hs & -> & HF & ->); [intros k Hk; apply Hl; by right|].
  exists (h :: hs). cbn. split; [done|]. split; [by constructor|done].
Qed.

Lemma restored_hashes : ∃ hs, mapO get_hash_from_key (getKeysStartWith "/tx/" w) = Ret hs
  ∧ (list_to_set hs : gset bytes) = list_to_set (Tx_hash <$> chain_txs c).
Proof.
  assert (∀ k, k ∈ getKeysStartWith "/tx/" w ↔ ∃ t, t ∈ chain_txs c ∧ k = tx_key (Tx_hash t)) as HK.
  { intros k. rewrite keys_spec. split.
    - intros [Hs Hp]. by apply (rep_tx_only _ _ Hrep).
    - intros (t & Ht & ->). split; [|apply prefix_tx_key].
      apply list_elem_of_bind in Ht as (b & Hi & Hb).
      apply list_elem_of_lookup_1 in Hb as [i Hb], Hi as [k Hk].
      rewrite (rep_tx _ _ Hrep _ _ _ _ Hb Hk). done. }
  destruct (mapO_hashes (getKeysStartWith "/tx/" w)) as (hs & E & HF & El).
  { intros k (t & _ & ->)%HK. exists (Tx_hash t). split; [apply length_Tx_hash|done]. }
  exists hs. split; [done|]. apply set_eq. intros h. rewrite !elem_of_list_to_set. split.
  - intros Hh. assert (tx_key h ∈ getKeysStartWith "/tx/" w) as Hk by (rewrite El; by apply list_elem_of_fmap_2).
    apply HK in Hk as (t & Ht & E'%tx_key_inj). subst. by apply list_elem_of_fmap_2.
  - intros (t & -> & Ht)%list_elem_of_fmap.
    assert (tx_key (Tx_hash t) ∈ getKeysStartWith "/tx/" w) as Hk by (apply HK; eauto).
    rewrite El in Hk. by apply list_elem_of_fmap in Hk as (h & ->%tx_key_inj & Hh).
Qed.
End correctness.

(** ** Theorems *)

(** C3: Committing a block whose journals match its transactions succeeds, and
    implements appending it to the abstract chain: if the database represented
    the chain [c] and [c] followed by the block is still a chain, it represents
    that; the state database receives the journals in order. *)
Theorem commit_refines `{WireFormats} {W} `{IWorldLaws W} c (w : W) b :
  represents c (chain_view w) → chain_ok (c ++ [b]) →
  ∃ w', commitBlk b w = Ret (true, w')
  ∧ represents (c ++ [b]) (chain_view w')
  ∧ state_view w' = foldl apply_journal (state_view w) (stateChanges b).
Proof.
  intros Hr Hok.
  assert (length (stateChanges b) = length (eb_txs b)) as HL.
  { destruct Hok as (_ & Hst & _). apply Forall_app in Hst as [_ Hst].
    apply Forall_singleton in Hst as [(_ & _ & HL & _) _]. done. }
  destruct (commitBlk_spec b w HL) as (w' & E & EC & ES). exists w'. split; [done|].
  split; [|done]. rewrite EC. by apply commit_represents_lem.
Qed.

(** C5: The RPC answers by the abstract chain: block [n] is the one committed
    with that number and every other number is an error; a committed transaction
    and its receipt are found under the transaction's hash; a hash that is not on
    the chain is an error. *)
Theorem rpc_answers `{WireFormats} {W} `{IWorldLaws W} c (w : W) :
  represents c (chain_view w) → chain_ok c → Z.of_nat (length c) < 2 ^ 31 →
  Forall (λ b, Z.of_nat (length (eb_txs b)) < 2 ^ 64) c →
  (∀ i b, c !! i = Some b → get_Blk_from_chain w (Z.of_nat i) = Ret (Some b, "OK"))
  ∧ (∀ i, (length c <= i)%nat → ∃ msg, get_Blk_from_chain w (Z.of_nat i) = Ret (None, msg))
  ∧ (∀ i b k t, c !! i = Some b → eb_txs b !! k = Some t →
       get_tx w (hashToString (Tx_hash t)) = Ret (true, json_serialize (Tx_toJson t))
       ∧ ∀ r v, txReceipts b !! k = Some r → TxReceipt_toJson r = Ret v →
           get_receipt w (hashToString (Tx_hash t)) = Ret (true, json_serialize v))
  ∧ (∀ h, length h = 32%nat → h ∉ Tx_hash <$> chain_txs c →
       ∃ msg, get_tx w (hashToString h) = Ret (false, msg)
            ∧ get_receipt w (hashToString h) = Ret (false, msg)).
Proof.
  intros Hr Hok Hl Htx. split; [by apply get_Blk_ok|]. split; [by apply get_Blk_missing|]. split.
  - intros i b k t Hb Ht. assert (Z.of_nat (length (eb_txs b)) < 2 ^ 64) as HB.
    { rewrite Forall_lookup in Htx. by eapply Htx. }
    split; [by eapply get_on_blk_ok|]. intros r v Hrc Hv. by eapply get_on_blk_ok.
  - intros h Hh Hn. destruct (get_info_missing c w Hr h Hh Hn) as [msg E]. exists msg.
    unfold get_tx, get_receipt, get_on_blk. by rewrite E.
Qed.

(** [/get_latest_Blk?n=N] for a positive [N] shows the last [min N len]
    blocks, newest first. *)
Theorem rpc_latest `{WireFormats} {W} `{IWorldLaws W} c (w : W) N js :
  represents c (chain_view w) → chain_ok c → Z.of_nat (length c) < 2 ^ 31 - 1 → 0 < N →
  Forall2 (λ b v, ExecBlk_toJson b = Ret v)
    (reverse (drop (length c - Z.to_nat (Z.min N (Z.of_nat (length c)))) c)) js →
  get_latest_Blk w N = Ret (true, json_serialize (JArray js)).
Proof.
  intros Hr Hok Hl HN HF. unfold get_latest_Blk.
  rewrite (proj2 (Z.eqb_neq _ _)), (proj2 (Z.ltb_ge _ _)) by lia.
  rewrite get_chain, (rep_number _ _ Hr).
  destruct (last c) as [b|] eqn:EL; cbn.
  2:{ apply last_None in EL. subst. cbn in HF. rewrite drop_nil in HF. by inv HF. }
  assert (eb_number b = Z.of_nat (length c) - 1 ∧ (0 < length c)%nat) as [En Hc].
  { apply last_Some in EL as [c' ->]. destruct Hok as (Hn & _).
    rewrite (Hn (length c') b), length_app; cbn; [lia|]. rewrite lookup_app_r by lia. by rewrite Nat.sub_diag. }
  rewrite En, parse_positive_int_to_string by lia. cbn.
  rewrite (proj2 (Z.eqb_neq _ _)) by lia.
  set (n := if _ <? N then _ else N).
  assert (n = Z.min N (Z.of_nat (length c))) as Hn.
  { unfold n. destruct (Z.ltb_spec (Z.of_nat (length c) - 1 + 1) N); lia. }
  rewrite Hn. rewrite (latest_loop_ok c w Hr Hok (Z.to_nat (Z.min N (Z.of_nat (length c)))) (length c) [] js); [done|lia|].
  rewrite take_ge; [done|]. rewrite length_drop. lia.
Qed.

(** C4: A node that restarts on a chain database reads back the number and the
    hash of the last committed block and exactly the hashes of all committed
    transactions; on an empty database it starts afresh. *)
Theorem restart_restores `{WireFormats} {W} `{IWorldLaws W} c (w : W) :
  represents c (chain_view w) → chain_ok c → Z.of_nat (length c) < 2 ^ 31 →
  restore w = Ret (fmap (M:=option) (λ b, (Z.of_nat (length c) - 1, Blk_hash (eb_blk b))) (last c),
                   list_to_set (Tx_hash <$> chain_txs c)).
Proof.
  intros Hr Hok Hl. unfold restore. rewrite get_chain, (rep_number _ _ Hr).
  destruct (last c) as [b|] eqn:EL; cbn.
  2:{ by apply last_None in EL as ->. }
  apply last_Some in EL as [c' Ec]. rewrite Ec, length_app in Hl |- *. cbn in Hl |- *.
  assert (c !! length c' = Some b) as Hb by (rewrite Ec, lookup_app_r, Nat.sub_diag; done).
  assert (eb_number b = Z.of_nat (length c')) as En by (by apply (proj1 Hok)).
  unfold get_required_things_from_ChainDB. rewrite En, parse_positive_int_to_string by lia. cbn.
  rewrite (get_Blk_ok c w Hr Hok _ _ Hb). cbn.
  destruct (restored_hashes c w Hr) as (hs & -> & Eh). cbn. rewrite Eh, Ec. do 4 f_equal. lia.
Qed.

(** *** A concrete chain *)
Definition eblk (n : Z) (p : bytes) (t : Tx) : ExecBlk :=
  mkExecBlk (mkBlk (mkBlkHeader n p) [t])
    [[mkStateChange false (addressToString (tx_to t)) "v"]] [TxReceipt_result [x01] (tx_type tx_example')].
Definition eblk0 : ExecBlk := eblk 0 (replicate 32 x00) tx_example.
Definition eblk1 : ExecBlk := eblk 1 (replicate 32 x01) tx_example'.

Lemma eblk_storable n p t :
  is_u64 n → length p = 32%nat → Tx_wf t → from_derived t → utf8 (tx_pk_pem t) = true → storable (eblk n p t).
Proof.
  intros Hn Hp Hw Hd Hu. split; [|by constructor]. split; [|split; [by constructor|done]].
  split; [done|]. split; [done|]. by constructor.
Qed.
Lemma chain_example_ok : chain_ok [eblk0; eblk1].
Proof.
  split; [|split].
  - intros [|[|i]] b; cbn; [by intros [= <-]..|done].
  - constructor; [|constructor; [|constructor]]; apply eblk_storable;
      try done; try (unfold is_u64; lia); try apply tx_example_wf; try apply tx_example'_wf; by left.
  - constructor; [|by apply NoDup_singleton].
    intros E%list_elem_of_singleton. revert E. vm_compute. discriminate.
Qed.
Lemma chain_example_ok0 : chain_ok [eblk0].
Proof.
  destruct chain_example_ok as (Hn & Hs & Hd). split; [|split].
  - intros [|i] b; cbn; [by intros [= <-]|done].
  - constructor; [by apply Forall_cons in Hs as [Hs _]|constructor].
  - apply NoDup_singleton.
Qed.
(** The storage of a node that committed both blocks. *)
Definition chain_example_storage : InRam.InRamWorldStorage :=
  InRam.mkInRam ∅ (commit_chain (H:=ToyWire.toy_wire) eblk1 (commit_chain (H:=ToyWire.toy_wire) eblk0 ∅)).
Lemma chain_example_represents :
  represents (H:=ToyWire.toy_wire) [eblk0; eblk1] (chain_view chain_example_storage).
Proof.
  apply (commit_represents_lem (H:=ToyWire.toy_wire) [eblk0]); [|apply chain_example_ok].
  apply (commit_represents_lem (H:=ToyWire.toy_wire) []); [apply represents_empty|apply chain_example_ok0].
Qed.

Lemma commit_refines_witness :
  ∃ w', commitBlk (H:=ToyWire.toy_wire) eblk0 InRam.empty_storage = Ret (true, w')
  ∧ represents (H:=ToyWire.toy_wire) [eblk0] (chain_view w').
Proof.
  destruct (commit_refines (H:=ToyWire.toy_wire) [] InRam.empty_storage eblk0) as (w' & E & R & _).
  - apply represents_empty.
  - apply chain_example_ok0.
  - exact (ex_intro _ w' (conj E R)).
Defined.

Lemma rpc_answers_witness :
  get_tx (H:=ToyWire.toy_wire) chain_example_storage (hashToString (Tx_hash tx_example'))
  = Ret (true, json_serialize (JsonCodec:=wire_json (WireFormats:=ToyWire.toy_wire)) (Tx_toJson tx_example')).
Proof.
  destruct (rpc_answers (H:=ToyWire.toy_wire) [eblk0; eblk1] chain_example_storage) as (_ & _ & Ht & _).
  - apply chain_example_represents.
  - apply chain_example_ok.
  - cbn. lia.
  - repeat constructor.
  - destruct (Ht 1%nat eblk1 0%nat tx_example' eq_refl eq_refl) as [E _]. exact E.
Defined.

Lemma rpc_latest_witness :
  ∃ js, length js = 1%nat
  ∧ get_latest_Blk (H:=ToyWire.toy_wire) chain_example_storage 1
    = Ret (true, json_serialize (JsonCodec:=wire_json (WireFormats:=ToyWire.toy_wire)) (JArray js)).
Proof.
  destruct (ExecBlk_toJson (H:=wire_json (WireFormats:=ToyWire.toy_wire)) eblk1) as [v| |] eqn:E;
    [|exfalso; vm_compute in E; discriminate E..].
  exists [v]. split; [reflexivity|].
  apply (rpc_latest (H:=ToyWire.toy_wire) [eblk0; eblk1]).
  - apply chain_example_represents.
  - apply chain_example_ok.
  - cbn. lia.
  - lia.
  - constructor; [exact E|constructor].
Defined.

Lemma restart_restores_witness :
  restore (H:=ToyWire.toy_wire) chain_example_storage
  = Ret (Some (1, Blk_hash (eb_blk eblk1)), list_to_set [Tx_hash tx_example; Tx_hash tx_example']).
Proof.
  apply (restart_restores (H:=ToyWire.toy_wire) [eblk0; eblk1]).
  - apply chain_example_represents.
  - apply chain_example_ok.
  - cbn. lia.
Defined.
