(* ===== verification/ExeForCnsss.v ===== *)
(** * The command executors behind the consensus

    include/cnsss/exeForCnsss.hpp: [ExecutorForCnsss] (commands [ADD_TXS] and
    [EXECUTE_BLK] over a pool and a block executor) and
    [LightExecutorForCnsss], which seals a block inside [ADD_TXS].  A command
    may be rewritten by its executor before it is broadcast; the rewritten text
    is part of the result. *)
From Stdlib Require Import ZArith Strings.Byte Strings.String Strings.Ascii Lia.
From stdpp Require Import base tactics strings gmap option numbers list sorting.
From S2P Require Import Prelude Text Hex Keccak Core Net Codec CoreJson PostExec Storage Mempool Exec Chain.

Local Open Scope Z_scope.

(** The part of a node that the executor owns: pool and world. *)
Record Node (P W : Type) := mkNode { nd_pool : P; nd_world : W }.
Arguments mkNode {P W} nd_pool nd_world.
Arguments nd_pool {P W} n.
Arguments nd_world {P W} n.

(** The result of a command: the answer, the rewritten command, the node. *)
Definition clear_cmd_and_complain {N} (reason : string) (n : N) : outcome (string * string * N) :=
  Ret (reason, "", n).

Section executor.
Context `{WireFormats} {W} `{IWorld W} {P} `{IPool P}.
Context (executeTx : TxExecutable) (txVerifier : option (Tx → outcome bool)).

(** [exe->commitBlk(exe->executeBlk(b))]. *)
Definition execute_Blk (b : Blk) (w : W) : outcome (bool * W) :=
  eb ← executeBlk executeTx txVerifier w b;
  commitBlk eb w.

(** [cmd.substr(1)]. *)
Definition cmd_arg (cmd : string) : string :=
  match cmd with String _ arg => arg | EmptyString => "" end.

Definition handle_EXECUTE_BLK (cmd : string) (n : Node P W) : outcome (string * string * Node P W) :=
  noexcept (
    r ← BlkForConsensus_fromString (cmd_arg cmd);
    match r with
    | None => clear_cmd_and_complain "Error parsing BlkForConsensus" n
    | Some b =>
        let '(r, p) := toBlk b (nd_pool n) in
        match r with
        | None => clear_cmd_and_complain "Failed to turn BlkForConsensus into Blk" (mkNode p (nd_world n))
        | Some b =>
            '(ok, w) ← execute_Blk b (nd_world n);
            if (ok : bool) then Ret ("OK", cmd, mkNode p w)
            else clear_cmd_and_complain "Error committing Blk" (mkNode p w)
        end
    end).

(** The loop that adds to the pool and erases what is refused. *)
Fixpoint add_loop (txs : list Tx) (p : P) : list Tx * P :=
  match txs with
  | [] => ([], p)
  | t :: txs =>
      let '(ok, p) := addTx t p in
      let '(r, p) := add_loop txs p in
      (if ok then t :: r else r, p)
  end.

Definition handle_ADD_TXS (cmd : string) (n : Node P W) : outcome (string * string * Node P W) :=
  noexcept (
    match parse_to_array (cmd_arg cmd) with
    | Throw _ => clear_cmd_and_complain "Error parsing Txs" n
    | UB w => UB w
    | Ret txs =>
        let '(r, p) := add_loop txs (nd_pool n) in
        let n := mkNode p (nd_world n) in
        match r with
        | [] => clear_cmd_and_complain "All txs rejected" n
        | _ =>
            let cmd := if (length r <? length txs)%nat then String "t" (serialize_from_array r) else cmd in
            Ret ("OK", cmd, n)
        end
    end).

(** [execute]: the first character selects the command. *)
Definition execute (cmd : string) (n : Node P W) : outcome (string * string * Node P W) :=
  match cmd with
  | EmptyString => Ret ("", "", n)
  | String c _ =>
      if Ascii.eqb c "b" then handle_EXECUTE_BLK cmd n
      else if Ascii.eqb c "t" then handle_ADD_TXS cmd n
      else clear_cmd_and_complain
             ("Unknown Command Prefix [" +:+ String c "], valid values are: [b], [t]") n
  end.

(** ** [LightExecutorForCnsss] *)
Record LightNode := mkLightNode {
  ln_pool : P;
  ln_world : W;
  ln_next_blk_number : Z;
  ln_previous_hash : bytes;
  ln_optimization_level : Z
}.
Definition ln_set (l : LightNode) (p : P) (w : W) : LightNode :=
  mkLightNode p w (ln_next_blk_number l) (ln_previous_hash l) (ln_optimization_level l).

(** [if (optimization_level < 2) mempool->washTxs(txs)]. *)
Definition light_wash (txs : list Tx) (l : LightNode) : list Tx * P :=
  if ln_optimization_level l <? 2 then washTxs txs (ln_pool l) else (txs, ln_pool l).

Definition light_EXECUTE_BLK (cmd : string) (l : LightNode) : outcome (string * string * LightNode) :=
  noexcept (
    r ← Blk_fromString (cmd_arg cmd);
    match r with
    | None => clear_cmd_and_complain "Error parsing Blk" l
    | Some b =>
        let '(txs, p) := light_wash (blk_txs b) l in
        '(ok, w) ← execute_Blk (mkBlk (blk_header b) txs) (ln_world l);
        if (ok : bool) then Ret ("OK", cmd, ln_set l p w)
        else clear_cmd_and_complain "Error committing Blk" (ln_set l p w)
    end).

Definition seal_Blk_and_update_cmd (txs : list Tx) (l : LightNode) : outcome (string * string * LightNode) :=
  let '(txs, p) := light_wash txs l in
  let b := mkBlk (mkBlkHeader (ln_next_blk_number l) (ln_previous_hash l)) txs in
  let h1 := Blk_hash b in
  let cmd1 := String "b" (Blk_toString b) in
  '(ok, w) ← execute_Blk b (ln_world l);
  if (ok : bool)
  then Ret ("OK", cmd1, mkLightNode p w (u64 (ln_next_blk_number l + 1)) h1 (ln_optimization_level l))
  else clear_cmd_and_complain "Error committing Blk" (ln_set l p w).

(** (The answer to a failed parse also carries the text of the exception.) *)
Definition light_ADD_TXS (cmd : string) (l : LightNode) : outcome (string * string * LightNode) :=
  noexcept (
    match parse_to_array (cmd_arg cmd) with
    | Ret [] => clear_cmd_and_complain "Error parsing Txs" l
    | Ret txs => seal_Blk_and_update_cmd txs l
    | Throw _ => clear_cmd_and_complain "Error parsing Txs" l
    | UB w => UB w
    end).

Definition light_execute (cmd : string) (l : LightNode) : outcome (string * string * LightNode) :=
  match cmd with
  | EmptyString => Ret ("", "", l)
  | String c _ =>
      if Ascii.eqb c "b" then light_EXECUTE_BLK cmd l
      else if Ascii.eqb c "t" then light_ADD_TXS cmd l
      else clear_cmd_and_complain
             ("Unknown Command Prefix [" +:+ String c "], valid values are: [b], [t]") l
  end.
End executor.
Arguments LightNode : clear implicits.

(** ** The invariant of a node *)

(** What every transaction read from a message satisfies. *)
Definition wire_tx (t : Tx) : Prop := Tx_wf t ∧ from_derived t ∧ utf8 (tx_pk_pem t) = true.

Section invariant.
Context `{WireFormats} {W} `{IWorldLaws W} {P} `{IPoolLaws P}.

(** The database represents the chain [c]; every transaction on the chain is
    known to the pool and none of them is pending. *)
Record node_inv (c : list ExecBlk) (n : Node P W) : Prop := {
  ni_rep : represents c (chain_view (nd_world n));
  ni_chain : chain_ok c;
  ni_pool : pool_inv (nd_pool n);
  ni_wire : Forall wire_tx (pending (nd_pool n));
  ni_known : Forall (λ t, Tx_hash t ∈ known (nd_pool n)) (chain_txs c);
  ni_fresh : Forall (λ t, Tx_hash t ∉ Tx_hash <$> pending (nd_pool n)) (chain_txs c)
}.

(** *** Reading *)
Lemma Tx_fromPb_utf8 pb t :
  utf8 (pb_pk_pem pb) = true → Tx_fromPb Tx_default pb = Ret t → utf8 (tx_pk_pem t) = true.
Proof.
  intros Hu. unfold Tx_fromPb. destruct (bool_decide (pb_pk_pem pb = "")); cbn.
  - destruct (fromByteString_address (pb_from_addr pb)); cbn; [|done..].
    destruct (fromByteString_address (pb_to_addr pb)); cbn; [|done..]. by intros [= <-].
  - destruct (fromByteString_address (pb_to_addr pb)); cbn; [|done..]. by intros [= <-].
Qed.

Lemma mapO_Forall {A B} (f : A → outcome B) (Q : A → Prop) (R : B → Prop) l l' :
  (∀ x y, Q x → f x = Ret y → R y) → Forall Q l → mapO f l = Ret l' → Forall R l'.
Proof.
  intros Hf HQ. revert l'. induction HQ as [|x l Hx _ IH]; intros l'; cbn; [by intros [= <-]|].
  destruct (f x) as [y| |] eqn:E; cbn; [|done..].
  destruct (mapO f l) as [r| |]; cbn; [|done..]. intros [= <-]. constructor; [by eapply Hf|by apply IH].
Qed.

Lemma pb_txs_wire l txs :
  Forall (pb_valid (A:=PbTx)) l → mapO (Tx_fromPb Tx_default) l = Ret txs → Forall wire_tx txs.
Proof.
  intros Hv. apply (mapO_Forall _ (pb_valid (A:=PbTx))); [|done].
  intros pb t (Hn & _ & Hu) E. destruct (Tx_fromPb_wf pb t Hn E) as [Hw Hd].
  split; [done|]. split; [done|]. by eapply Tx_fromPb_utf8.
Qed.

Lemma parse_to_array_wire arg txs : parse_to_array arg = Ret txs → Forall wire_tx txs.
Proof.
  unfold parse_to_array. apply pb_txs_wire.
  destruct (ParseFromString arg) as [l|] eqn:E; cbn; [|constructor]. by apply pb_parse_valid in E.
Qed.

Lemma serialize_wire txs : Forall wire_tx txs → parse_to_array (serialize_from_array txs) = Ret txs.
Proof.
  intros Hw. apply parse_serialize_array; (eapply Forall_impl; [exact Hw|]); by intros t (? & ? & ?).
Qed.

(** *** Adding transactions *)
Lemma add_loop_spec txs p :
  pool_inv p → Forall Tx_wf txs →
  let '(r, p') := add_loop txs p in
  pool_inv p' ∧ pending p' ≡ₚ r ++ pending p
  ∧ known p' = known p ∪ list_to_set (Tx_hash <$> txs)
  ∧ r `sublist_of` txs ∧ (∀ t, t ∈ r → Tx_hash t ∉ known p).
Proof.
  intros Hp Hw. revert p Hp. induction Hw as [|t txs Ht Hw IH]; intros p Hp; cbn.
  { split; [done|]. split; [done|]. split; [set_solver|]. split; [constructor|]. set_solver. }
  pose proof (addTx_spec p t Hp Ht) as HA. destruct (addTx t p) as [ok p1].
  destruct HA as (Hp1 & Ek & Hok). specialize (IH p1 Hp1).
  destruct (add_loop txs p1) as [r p2]. destruct IH as (Hp2 & HP & Ek2 & Hs & Hf).
  split; [done|]. split; [|split; [|split]].
  - destruct ok; destruct Hok as [_ Hpend].
    + rewrite HP, Hpend. symmetry. apply Permutation_middle.
    + by rewrite HP, Hpend.
  - rewrite Ek2, Ek. set_solver.
  - destruct ok; [by apply sublist_skip|by apply sublist_cons].
  - intros x Hx. destruct ok.
    + apply elem_of_cons in Hx as [->|Hx]; [by destruct Hok|].
      specialize (Hf x Hx). set_solver.
    + specialize (Hf x Hx). set_solver.
Qed.

Lemma add_loop_complete txs p :
  pool_inv p → Forall Tx_wf txs →
  ∀ t, t ∈ txs → Tx_hash t ∈ known p ∨ Tx_hash t ∈ Tx_hash <$> (add_loop txs p).1.
Proof.
  intros Hp Hw. revert p Hp. induction Hw as [|t txs Ht Hw IH]; intros p Hp u Hu; [by apply elem_of_nil in Hu|].
  cbn [add_loop]. pose proof (addTx_spec p t Hp Ht) as HA. destruct (addTx t p) as [ok p1].
  destruct HA as (Hp1 & Ek & Hok). specialize (IH p1 Hp1). destruct (add_loop txs p1) as [r p2]. cbn in IH |- *.
  apply elem_of_cons in Hu as [->|Hu].
  - destruct ok; destruct Hok as [Hh _]; [right; by left|by left].
  - destruct (IH u Hu) as [Hk|Hr].
    + rewrite Ek in Hk. apply elem_of_union in Hk as [->%elem_of_singleton|Hk]; [|by left].
      destruct ok; destruct Hok as [Hh _]; [right; by left|by left].
    + right. destruct ok; [by right|done].
Qed.

Lemma handle_ADD_TXS_inv c n cmd r cmd' n' :
  node_inv c n → handle_ADD_TXS cmd n = Ret (r, cmd', n') → node_inv c n'.
Proof.
  intros HI. unfold handle_ADD_TXS. destruct (parse_to_array (cmd_arg cmd)) as [txs| |] eqn:Ep; cbn; [|by intros [= _ _ <-]|done].
  pose proof (parse_to_array_wire _ _ Ep) as Hwire.
  assert (Forall Tx_wf txs) as Hw by (eapply Forall_impl; [exact Hwire|]; by intros ? []).
  pose proof (add_loop_spec txs (nd_pool n) (ni_pool _ _ HI) Hw) as HA.
  destruct (add_loop txs (nd_pool n)) as [l p]. destruct HA as (Hp & HP & Ek & Hs & Hf).
  intros E. assert (n' = mkNode p (nd_world n)) as ->.
  { destruct l; cbn in E; by injection E. }
  destruct HI as [Hr Hc _ Hwp Hkn Hfr]. split; cbn; try done.
  - rewrite HP. apply Forall_app. split; [|done]. by eapply Forall_sublist.
  - eapply Forall_impl; [exact Hkn|]. cbn. intros t. rewrite Ek. set_solver.
  - apply Forall_forall. intros t Ht. rewrite HP, fmap_app, elem_of_app.
    intros [(x & E' & Hx)%list_elem_of_fmap|Hin].
    + apply (Hf x Hx). rewrite <-E'. exact (Forall_in _ _ _ Hkn Ht).
    + exact (Forall_in _ _ _ Hfr Ht Hin).
Qed.

(** *** Executing blocks *)
Context (executeTx : TxExecutable) {TL : TxExecutorLaws (W:=W) executeTx}.
Context (txVerifier : option (Tx → outcome bool)) (Hv : ∀ f t, txVerifier = Some f → ∃ r, f t = Ret r).

Lemma execute_Blk_spec b w :
  state_ok executeTx (state_view w) →
  ∃ eb w', executeBlk executeTx txVerifier w b = Ret eb
  ∧ execute_Blk executeTx txVerifier b w = Ret (true, w')
  ∧ blk_header (eb_blk eb) = blk_header b ∧ eb_txs eb `sublist_of` blk_txs b
  ∧ length (stateChanges eb) = length (eb_txs eb) ∧ length (txReceipts eb) = length (eb_txs eb)
  ∧ (txVerifier = None → eb_txs eb = blk_txs b)
  ∧ chain_view w' = commit_chain eb (chain_view w) ∧ state_view w' = commit_state eb (state_view w)
  ∧ state_ok executeTx (state_view w').
Proof.
  intros Hok. destruct (executeBlk_spec executeTx txVerifier w b (λ t, executeTx_total w t Hok) Hv)
    as (eb & E & Hh & HJ & HR & Hs & Hn & _).
  destruct (commitBlk_spec eb w HJ) as (w' & Ec & EC & ES).
  exists eb, w'. unfold execute_Blk. rewrite E. cbn. rewrite Ec. split_and!; try done.
  rewrite ES. by eapply commit_state_ok.
Qed.

Lemma chain_ok_snoc c eb :
  chain_ok c → storable eb → eb_number eb = Z.of_nat (length c) →
  NoDup (Tx_hash <$> eb_txs eb) →
  (∀ t, t ∈ eb_txs eb → Tx_hash t ∉ Tx_hash <$> chain_txs c) → chain_ok (c ++ [eb]).
Proof.
  intros (Hn & Hs & Hd) Hst En Hnd Hdis. split; [|split].
  - intros i b [[Hi _]|[-> ->]]%lookup_snoc; [by apply Hn|done].
  - apply Forall_app. split; [done|]. by constructor.
  - rewrite chain_txs_snoc, fmap_app. apply NoDup_app. split; [done|]. split; [|done].
    intros h Hh (t & -> & Ht)%list_elem_of_fmap. by apply (Hdis t Ht).
Qed.

Lemma wire_storable b eb :
  BlkHeader_wf (blk_header b) → blk_header (eb_blk eb) = blk_header b →
  Forall wire_tx (eb_txs eb) → length (stateChanges eb) = length (eb_txs eb) →
  length (txReceipts eb) = length (eb_txs eb) → storable eb.
Proof.
  intros [Hn Hp] Eh Hw HJ HR.
  split; [|eapply Forall_impl; [exact Hw|]; by intros t (? & ? & ?)].
  split; [|split; [eapply Forall_impl; [exact Hw|]; by intros t (? & ? & ?)|done]].
  unfold Blk_wf, blk_number, blk_parentHash. rewrite Eh. split; [done|]. split; [done|].
  eapply Forall_impl; [exact Hw|]. by intros t (? & ? & ?).
Qed.

(** The block that the command carries, if any, has the next number. *)
Definition in_order (c : list ExecBlk) (cmd : string) : Prop :=
  ∀ arg b, cmd = String "b" arg → BlkForConsensus_fromString arg = Ret (Some b) →
       hd_number (bfc_header b) = Z.of_nat (length c).

Lemma execute_pool_Blk c p p' w b popped :
  state_ok executeTx (state_view w) →
  node_inv c (mkNode p w) → pool_inv p' → known p' = known p → pending p ≡ₚ popped ++ pending p' →
  blk_txs b = popped → BlkHeader_wf (blk_header b) → blk_number b = Z.of_nat (length c) →
  ∃ eb w', executeBlk executeTx txVerifier w b = Ret eb
  ∧ execute_Blk executeTx txVerifier b w = Ret (true, w')
  ∧ blk_header (eb_blk eb) = blk_header b
  ∧ eb_txs eb `sublist_of` popped ∧ (txVerifier = None → eb_txs eb = popped)
  ∧ state_view w' = commit_state eb (state_view w) ∧ state_ok executeTx (state_view w')
  ∧ node_inv (c ++ [eb]) (mkNode p' w').
Proof.
  intros Hgood [Hr Hc Hp Hwp Hkn Hfr] Hp' Ek HP Eb Hh Hn. cbn in *.
  destruct (execute_Blk_spec b w Hgood) as (eb & w' & E & Ex & Eh & Hs & HJ & HR & Hnv & EC & ES & Hgood').
  rewrite Eb in Hs. exists eb, w'. split; [done|]. split; [done|]. split; [done|]. split; [done|].
  split; [by rewrite <-Eb|]. split; [done|]. split; [done|].
  assert (Forall wire_tx popped) as Hwpop by (rewrite HP in Hwp; by apply Forall_app in Hwp as [? _]).
  assert (Forall wire_tx (eb_txs eb)) as Hweb by (by eapply Forall_sublist).
  destruct (pool_wf p Hp) as (Hnd & _ & Hkp). rewrite HP, fmap_app in Hnd.
  apply NoDup_app in Hnd as (Hnd1 & Hdis & Hnd2).
  assert (∀ t, t ∈ eb_txs eb → t ∈ popped) as Hin by (intros t Ht; by eapply elem_of_sublist).
  assert (∀ t, t ∈ popped → t ∈ pending p) as Hpp.
  { intros t Ht. rewrite HP. apply elem_of_app. by left. }
  assert (chain_ok (c ++ [eb])) as Hok.
  { apply chain_ok_snoc; [done| | | |].
    - by apply (wire_storable b eb).
    - unfold eb_number, blk_number in *. by rewrite Eh.
    - eapply sublist_NoDup; [exact Hnd1|]. by apply sublist_fmap.
    - intros t Ht (u & E' & Hu)%list_elem_of_fmap. apply (Forall_in _ _ _ Hfr Hu). rewrite <-E'.
      by apply list_elem_of_fmap_2, Hpp, Hin. }
  split; cbn; [rewrite EC; by apply commit_represents_lem|done|done| | |].
  - rewrite HP in Hwp. by apply Forall_app in Hwp as [_ ?].
  - rewrite chain_txs_snoc, Ek. apply Forall_app. split; [done|].
    apply Forall_forall. intros t Ht. by apply (Forall_in _ _ _ Hkp), Hpp, Hin.
  - rewrite chain_txs_snoc. apply Forall_app. split.
    + apply Forall_forall. intros t Ht Hi. apply (Forall_in _ _ _ Hfr Ht).
      rewrite HP, fmap_app. apply elem_of_app. by right.
    + apply Forall_forall. intros t Ht Hi. apply (Hdis (Tx_hash t)); [|done].
      by apply list_elem_of_fmap_2, Hin.
Qed.

(** Transactions taken out of the pool and not executed are dropped. *)
Lemma node_inv_drop c p p' w popped :
  node_inv c (mkNode p w) → pool_inv p' → known p' = known p → pending p ≡ₚ popped ++ pending p' →
  node_inv c (mkNode p' w).
Proof.
  intros [Hr Hc Hp Hwp Hkn Hfr] Hp' Ek HP. cbn in *. split; cbn; try done.
  - rewrite HP in Hwp. by apply Forall_app in Hwp as [_ ?].
  - by rewrite Ek.
  - eapply Forall_impl; [exact Hfr|]. cbn. intros t Ht Hi. apply Ht. rewrite HP, fmap_app.
    apply elem_of_app. by right.
Qed.
End invariant.

(** ** Runs of a node *)
Section runs.
Context `{WireFormats} {W} `{IWorldLaws W} {P} `{IPoolLaws P}.
Context (executeTx : TxExecutable) {TL : TxExecutorLaws (W:=W) executeTx} (txVerifier : option (Tx → outcome bool)).
Definition node_good (n : Node P W) : Prop := state_ok executeTx (state_view (nd_world n)).

(** The block that a command makes the node execute and commit. *)
Definition committed_by (cmd : string) (n : Node P W) : list ExecBlk :=
  match cmd with
  | String "b" arg =>
      match BlkForConsensus_fromString arg with
      | Ret (Some b) =>
          match toBlk b (nd_pool n) with
          | (Some blk, _) =>
              match executeBlk executeTx txVerifier (nd_world n) blk with Ret eb => [eb] | _ => [] end
          | (None, _) => []
          end
      | _ => []
      end
  | _ => []
  end.

(** The states that commands lead to from an empty node, with the blocks
    executed on the way; a command that carries a block carries the next number. *)
Inductive reachable : list ExecBlk → Node P W → Prop :=
  | reach_init p w :
      pool_inv p → pending p = [] → chain_view w = ∅ → state_ok executeTx (state_view w) →
      reachable [] (mkNode p w)
  | reach_step c n cmd r cmd' n' :
      reachable c n → in_order c cmd → execute executeTx txVerifier cmd n = Ret (r, cmd', n') →
      reachable (c ++ committed_by cmd n) n'.

Context (Hv : ∀ f t, txVerifier = Some f → ∃ r, f t = Ret r).

Lemma node_inv_init p w : pool_inv p → pending p = [] → chain_view w = ∅ → node_inv [] (mkNode p w).
Proof.
  intros Hp Hn Hw. split; cbn; try done.
  - rewrite Hw. apply represents_empty.
  - split; [done|]. split; constructor.
  - by rewrite Hn.
Qed.

Lemma handle_EXECUTE_BLK_commits c n arg r cmd' n' :
  node_good n → node_inv c n → in_order c (String "b" arg) →
  handle_EXECUTE_BLK executeTx txVerifier (String "b" arg) n = Ret (r, cmd', n') →
  node_inv (c ++ committed_by (String "b" arg) n) n'.
Proof.
  intros Hok HI Ho. unfold handle_EXECUTE_BLK, committed_by. cbn [cmd_arg].
  destruct (BlkForConsensus_fromString arg) as [[b|]| |] eqn:Ep; cbn; try done.
  2:{ intros [= _ _ <-]. by rewrite app_nil_r. }
  pose proof (BlkForConsensus_fromString_wf _ _ Ep) as [Hh Hl]. specialize (Ho arg b eq_refl Ep).
  pose proof (toBlk_loop_spec (bfc_txhs b) (nd_pool n) (ni_pool _ _ HI) Hl) as HT.
  unfold toBlk. destruct (toBlk_loop (bfc_txhs b) (nd_pool n)) as [ts p'].
  destruct HT as (Hp' & Ek & popped & HP & Hts). destruct n as [p w]. cbn in *.
  destruct ts as [ts|]; cbn.
  - destruct Hts as [-> _].
    destruct (execute_pool_Blk executeTx txVerifier Hv c p p' w (mkBlk (bfc_header b) popped) popped)
      as (eb & w' & Ee & -> & _ & _ & _ & _ & _ & HI'); try done.
    cbn. rewrite Ee. by intros [= _ _ <-].
  - intros [= _ _ <-]. rewrite app_nil_r. by eapply node_inv_drop.
Qed.

Lemma committed_by_other c s n : Ascii.eqb c "b" = false → committed_by (String c s) n = [].
Proof.
  intros Hc. unfold committed_by.
  destruct c as [[] [] [] [] [] [] [] []]; try done.
Qed.

Lemma execute_inv c n cmd r cmd' n' :
  node_good n → node_inv c n → in_order c cmd → execute executeTx txVerifier cmd n = Ret (r, cmd', n') →
  node_inv (c ++ committed_by cmd n) n'.
Proof.
  intros Hok HI Ho. unfold execute. destruct cmd as [|ch arg].
  { intros [= _ _ <-]. by rewrite app_nil_r. }
  destruct (Ascii.eqb ch "b") eqn:Eb.
  - apply Ascii.eqb_eq in Eb as ->. by apply handle_EXECUTE_BLK_commits.
  - rewrite committed_by_other, app_nil_r by done. destruct (Ascii.eqb ch "t").
    + by apply handle_ADD_TXS_inv.
    + by intros [= _ _ <-].
Qed.

(** Every command leads from a good state to a good state. *)
Lemma handle_EXECUTE_BLK_ok cmd n r cmd' n' :
  node_good n → handle_EXECUTE_BLK executeTx txVerifier cmd n = Ret (r, cmd', n') → node_good n'.
Proof.
  intros Hok. unfold handle_EXECUTE_BLK.
  destruct (BlkForConsensus_fromString (cmd_arg cmd)) as [[b|]| |]; cbn; try done; [|by intros [= _ _ <-]].
  destruct (toBlk b (nd_pool n)) as [[blk|] p]; [|by intros [= _ _ <-]].
  destruct (execute_Blk_spec executeTx txVerifier Hv blk (nd_world n) Hok) as (eb & w' & _ & -> & Hw').
  intros [= _ _ <-]. apply Hw'.
Qed.
Lemma handle_ADD_TXS_world cmd (n : Node P W) r cmd' n' :
  handle_ADD_TXS cmd n = Ret (r, cmd', n') → nd_world n' = nd_world n.
Proof.
  unfold handle_ADD_TXS. destruct (parse_to_array (cmd_arg cmd)) as [txs| |]; [|by intros [= _ _ <-]|done].
  destruct (add_loop txs (nd_pool n)) as [[|t l] p]; cbn; by intros [= _ _ <-].
Qed.
Lemma execute_ok cmd n r cmd' n' :
  node_good n → execute executeTx txVerifier cmd n = Ret (r, cmd', n') → node_good n'.
Proof.
  intros Hok. destruct cmd as [|c arg]; cbn [execute]; [by intros [= _ _ <-]|].
  destruct (Ascii.eqb c "b"); [by apply handle_EXECUTE_BLK_ok|].
  destruct (Ascii.eqb c "t"); [|by intros [= _ _ <-]].
  intros Hx%handle_ADD_TXS_world. unfold node_good. by rewrite Hx.
Qed.

Lemma reachable_inv c n : reachable c n → node_inv c n ∧ node_good n.
Proof.
  induction 1 as [|c n cmd r cmd' n' _ [HI Hok] Ho Hx]; [split; [by apply node_inv_init|done]|].
  split; [by eapply execute_inv|by eapply execute_ok].
Qed.
End runs.

(** ** Rewritten commands *)

Lemma Mempool_addTx_refused t p p' : Mempool_addTx t p = (false, p') → Mempool_inv p → Tx_wf t → p' = p.
Proof.
  intros E Hp Ht. pose proof (addTx_spec p t Hp Ht) as HA. cbn in HA. rewrite E in HA.
  destruct HA as (_ & _ & Hin & _). unfold Mempool_addTx, hs_insert in E.
  rewrite bool_decide_eq_true_2 in E by done. injection E as <-. by destruct p.
Qed.

(** Adding only what was accepted leads to the same pool. *)
Lemma add_loop_accepted txs (p : Mempool) r p' :
  Mempool_inv p → Forall Tx_wf txs → add_loop txs p = (r, p') → add_loop r p = (r, p').
Proof.
  intros Hp Hw. revert p Hp r p'. induction Hw as [|t txs Ht Hw IH]; intros p Hp r p'; cbn [add_loop].
  { by intros [= <- <-]. }
  pose proof (addTx_spec p t Hp Ht) as HA. cbn [addTx Mempool_IPool] in HA |- *.
  destruct (Mempool_addTx t p) as [ok p1] eqn:E1. destruct HA as (Hp1 & _).
  destruct (add_loop txs p1) as [l p2] eqn:E2. intros [= <- <-]. destruct ok.
  - cbn. rewrite E1. by rewrite (IH p1 Hp1 l p2 E2).
  - apply Mempool_addTx_refused in E1 as ->; [|done..]. by apply IH.
Qed.

(** ** The answers of the executor *)
Section answers.
Context `{WireFormats} {W} `{IWorldLaws W} {P} `{IPoolLaws P}.
Definition good_answer {N} (m : outcome (string * string * N)) : Prop :=
  ∃ r cmd' n', m = Ret (r, cmd', n') ∧ (r = "OK" ∨ cmd' = "").

Lemma handle_ADD_TXS_answers cmd (n : Node P W) : good_answer (handle_ADD_TXS cmd n).
Proof.
  unfold handle_ADD_TXS, good_answer.
  assert (no_ub (parse_to_array (cmd_arg cmd))) as Hu
    by (apply no_ub_mapO; intros x; apply Tx_fromPb_no_ub).
  destruct (parse_to_array (cmd_arg cmd)); cbn; [|eauto 6|done].
  destruct (add_loop a (nd_pool n)) as [[|t r] p]; cbn; eauto 6.
Qed.

Context (executeTx : TxExecutable) {TL : TxExecutorLaws (W:=W) executeTx}.
Context (txVerifier : option (Tx → outcome bool)) (Hv : ∀ f t, txVerifier = Some f → ∃ r, f t = Ret r).

Lemma handle_EXECUTE_BLK_answers cmd (n : Node P W) :
  node_good executeTx n → good_answer (handle_EXECUTE_BLK executeTx txVerifier cmd n).
Proof.
  intros Hok. unfold handle_EXECUTE_BLK, good_answer.
  destruct (BlkForConsensus_fromString_total (cmd_arg cmd)) as [[b|] ->]; cbn; [|eauto 6].
  destruct (toBlk b (nd_pool n)) as [[blk|] p]; cbn; [|eauto 6].
  destruct (execute_Blk_spec executeTx txVerifier Hv blk (nd_world n) Hok) as (eb & w' & _ & -> & _).
  cbn. eauto 6.
Qed.
End answers.

(** The sealer's next block, executed. *)
Lemma sealed_block_lem `{WireFormats} {W} `{IWorldLaws W} {P} `{IPoolLaws P} executeTx
    {TL : TxExecutorLaws (W:=W) executeTx} txVerifier c (n : Node P W) s b s' :
  (∀ f t, txVerifier = Some f → ∃ r, f t = Ret r) → node_good executeTx n →
  node_inv c n → next_blk_number s = Z.of_nat (length c) → Z.of_nat (length c) < 2 ^ 64 →
  length (previous_hash s) = 32%nat → check_and_seal_maybe s (nd_pool n) = (Some b, s') →
  let cmd := String "b" (BlkForConsensus_toString b) in
  ∃ ts rest eb n', pending (nd_pool n) = ts ++ rest ∧ bfc_txhs b = Tx_hash <$> ts
  ∧ execute executeTx txVerifier cmd n = Ret ("OK", cmd, n')
  ∧ node_inv (c ++ [eb]) n' ∧ pending (nd_pool n') ≡ₚ rest
  ∧ blk_header (eb_blk eb) = bfc_header b ∧ eb_txs eb `sublist_of` ts
  ∧ (txVerifier = None → eb_txs eb = ts ∧ Blk_hash (eb_blk eb) = previous_hash s').
Proof.
  intros Hv Hok HI Hn Hlen Hph. unfold check_and_seal_maybe.
  destruct (getTxHashesForSeal_spec (nd_pool n) (ni_pool _ _ HI)) as (ts & rest & Epend & ->).
  destruct ts as [|t0 ts0]; [done|]. remember (t0 :: ts0) as ts eqn:Ets.
  replace (Tx_hash <$> ts) with (Tx_hash t0 :: (Tx_hash <$> ts0)) by (by subst). intros [= <- <-].
  set (b0 := mkBlkForConsensus _ _). remember b0 as b eqn:Eqb.
  assert (bfc_txhs b = Tx_hash <$> ts) as Eb by (by subst).
  assert (bfc_header b = mkBlkHeader (next_blk_number s) (previous_hash s)) as Ehd by (by subst).
  assert (BlkForConsensus_wf b) as Hb.
  { unfold BlkForConsensus_wf. rewrite Eb, Ehd. split; [split; cbn; [unfold is_u64; lia|done]|].
    apply Forall_forall. intros h (t & -> & _)%list_elem_of_fmap. apply length_Tx_hash. }
  clear b0 Eqb. destruct n as [p w]. cbn in Epend |- *.
  destruct (toBlk_loop_pending ts rest p (ni_pool _ _ HI)) as (p' & EL & HP); [by rewrite Epend|].
  pose proof (toBlk_loop_spec (bfc_txhs b) p (ni_pool _ _ HI) (proj2 Hb)) as HT. rewrite Eb, EL in HT.
  destruct HT as (Hp' & Ek & popped & HP' & -> & _).
  destruct (execute_pool_Blk executeTx txVerifier Hv c p p' w (mkBlk (bfc_header b) popped) popped)
    as (eb & w' & _ & Ex & Eh & Hs & Hnv & _ & _ & HI'); try done;
    [apply Hb|unfold blk_number; cbn; by rewrite Ehd|].
  exists popped, rest, eb, (mkNode p' w'). split; [done|]. split; [done|]. split.
  - unfold handle_EXECUTE_BLK. cbn [cmd_arg]. rewrite BlkForConsensus_string_roundtrip by done. cbn [mbind outcome_bind].
    unfold toBlk. cbn [nd_pool nd_world]. rewrite Eb, EL. cbn [fmap option_fmap option_map].
    rewrite Ex. done.
  - split; [done|]. split; [done|]. split; [done|]. split; [done|]. intros Hnone. specialize (Hnv Hnone).
    split; [done|]. unfold Blk_hash, blk_parentHash. rewrite Eh. fold (eb_txs eb). rewrite Hnv.
    unfold BlkForConsensus_hash. by rewrite Eb.
Qed.

(** ** Theorems *)

(** C2: From an empty node, through any sequence of commands whose blocks carry
    consecutive numbers: no transaction is executed twice; the chain database
    represents exactly the blocks executed, numbered from 0; every transaction on
    the chain is known to the pool, and none of them is pending. *)
Theorem node_safety `{WireFormats} {W} `{IWorldLaws W} {P} `{IPoolLaws P} executeTx
    {TL : TxExecutorLaws (W:=W) executeTx} txVerifier c (n : Node P W) :
  (∀ f t, txVerifier = Some f → ∃ r, f t = Ret r) →
  reachable executeTx txVerifier c n →
  NoDup (Tx_hash <$> chain_txs c)
  ∧ (∀ i b, c !! i = Some b → eb_number b = Z.of_nat i)
  ∧ represents c (chain_view (nd_world n))
  ∧ (∀ t, t ∈ chain_txs c → Tx_hash t ∈ known (nd_pool n) ∧ Tx_hash t ∉ Tx_hash <$> pending (nd_pool n)).
Proof.
  intros Hv [[Hr (Hn & _ & Hd) _ _ Hkn Hfr] _]%reachable_inv; [|done..].
  split; [done|]. split; [done|]. split; [done|]. intros t Ht.
  split; [exact (Forall_in _ _ _ Hkn Ht)|exact (Forall_in _ _ _ Hfr Ht)].
Qed.

(** A node of the examples: two known transactions pending, no block yet. *)
Definition node_example : Node Mempool InRam.InRamWorldStorage :=
  mkNode pool_example InRam.empty_storage.
Definition empty_node : Node Mempool InRam.InRamWorldStorage :=
  mkNode (Mempool_ctor ∅ 2) InRam.empty_storage.
Definition add_cmd (txs : list Tx) : string := String "t" (serialize_from_array (H:=ToyWire.toy_wire) txs).
Lemma empty_pool_inv : Mempool_inv (Mempool_ctor ∅ 2).
Proof. split; [constructor|]. split; [constructor|]. split; constructor. Qed.

Lemma no_verifier_total f (t : Tx) : None = Some f → ∃ r : bool, f t = Ret r.
Proof. intros [=]. Qed.

Lemma node_safety_witness :
  ∃ n, reachable (H:=ToyWire.toy_wire) total_executor None [] n
  ∧ length (pool_txs (nd_pool n)) = 2%nat ∧ represents (H:=ToyWire.toy_wire) [] (chain_view (nd_world n)).
Proof.
  destruct (handle_ADD_TXS_answers (H:=ToyWire.toy_wire) (add_cmd [tx_example; tx_example']) empty_node)
    as (r & cmd' & n' & E & _).
  change (execute (H:=ToyWire.toy_wire) total_executor None (add_cmd [tx_example; tx_example']) empty_node
    = Ret (r, cmd', n')) in E.
  assert (reachable (H:=ToyWire.toy_wire) total_executor None [] n') as R.
  { change (@nil ExecBlk) with ([] ++ committed_by (H:=ToyWire.toy_wire) total_executor None
      (add_cmd [tx_example; tx_example']) empty_node).
    eapply reach_step; [apply reach_init; [apply empty_pool_inv|reflexivity..]| |exact E].
    intros arg b Hb. discriminate Hb. }
  exists n'. split; [exact R|].
  pose proof (node_safety (H:=ToyWire.toy_wire) total_executor None [] n' no_verifier_total R) as (_ & _ & Hrep & _).
  split; [|exact Hrep].
  assert (length (pool_txs (nd_pool n')) = match execute (H:=ToyWire.toy_wire) total_executor None
    (add_cmd [tx_example; tx_example']) empty_node with Ret (_, n) => length (pool_txs (nd_pool n)) | _ => 0%nat end)
    as -> by (by rewrite E).
  vm_compute. reflexivity.
Defined.

(** C34: Every command gets an answer, whatever its text: the executor never
    throws, and when the answer is not "OK" the command is emptied, so that the
    rest of the cluster does not repeat it. *)
Theorem execute_answers `{WireFormats} {W} `{IWorldLaws W} {P} `{IPoolLaws P} executeTx
    {TL : TxExecutorLaws (W:=W) executeTx} txVerifier cmd (n : Node P W) :
  (∀ f t, txVerifier = Some f → ∃ r, f t = Ret r) → node_good executeTx n →
  ∃ r cmd' n', execute executeTx txVerifier cmd n = Ret (r, cmd', n') ∧ (r = "OK" ∨ cmd' = "").
Proof.
  intros Hv Hok. unfold execute. destruct cmd as [|ch arg]; [eauto 6|].
  destruct (Ascii.eqb ch "b"); [by apply (handle_EXECUTE_BLK_answers executeTx txVerifier Hv)|].
  destruct (Ascii.eqb ch "t"); [apply handle_ADD_TXS_answers|]. cbn. eauto 6.
Qed.

Lemma execute_answers_witness :
  ∃ r cmd' n', execute (H:=ToyWire.toy_wire) total_executor None "junk" node_example = Ret (r, cmd', n')
  ∧ (r = "OK" ∨ cmd' = "").
Proof.
  apply (execute_answers (H:=ToyWire.toy_wire) total_executor None "junk" node_example).
  - apply no_verifier_total.
  - exact I.
Defined.

(** The primary may drop refused transactions from an ADD_TXS command
    before the cluster sees it: executing the rewritten command from the same
    state is accepted as it stands and leads to the same state as the original. *)
Lemma rewritten_ADD_TXS_equivalent `{WireFormats} {W} cmd cmd' (n n' : Node Mempool W) :
  Mempool_inv (nd_pool n) → handle_ADD_TXS cmd n = Ret ("OK", cmd', n') →
  handle_ADD_TXS cmd' n = Ret ("OK", cmd', n').
Proof.
  intros Hp. unfold handle_ADD_TXS at 1.
  destruct (parse_to_array (cmd_arg cmd)) as [txs| |] eqn:Ep; [|done..].
  pose proof (parse_to_array_wire _ _ Ep) as Hwire.
  assert (Forall Tx_wf txs) as Hw by (eapply Forall_impl; [exact Hwire|]; by intros ? []).
  destruct (add_loop txs (nd_pool n)) as [r p] eqn:Ea.
  destruct r as [|t r]; [done|]. cbn [noexcept].
  pose proof (add_loop_spec txs (nd_pool n) Hp Hw) as HS. rewrite Ea in HS. destruct HS as (_ & _ & _ & Hs & _).
  destruct (length (t :: r) <? length txs)%nat eqn:El; intros [= <- <-].
  - unfold handle_ADD_TXS. cbn [cmd_arg]. rewrite serialize_wire by (by eapply Forall_sublist).
    rewrite (add_loop_accepted txs _ _ _ Hp Hw Ea). cbn [noexcept]. by rewrite Nat.ltb_irrefl.
  - unfold handle_ADD_TXS. rewrite Ep, Ea. cbn [noexcept]. by rewrite El.
Qed.

Lemma rewritten_ADD_TXS_equivalent_witness :
  ∃ cmd' n', cmd' ≠ add_cmd [tx_example; tx_example']
  ∧ handle_ADD_TXS (H:=ToyWire.toy_wire) cmd' node_example = Ret ("OK", cmd', n').
Proof.
  destruct (handle_ADD_TXS_answers (H:=ToyWire.toy_wire) (add_cmd [tx_example; tx_example']) node_example)
    as (r & cmd' & n' & E & _).
  assert (r = "OK") as ->.
  { assert (match handle_ADD_TXS (H:=ToyWire.toy_wire) (add_cmd [tx_example; tx_example']) node_example with
      Ret (r, _, _) => r | _ => "" end = r) as <- by (by rewrite E). vm_compute. reflexivity. }
  exists cmd', n'. split.
  - assert (match handle_ADD_TXS (H:=ToyWire.toy_wire) (add_cmd [tx_example; tx_example']) node_example with
      Ret (_, c, _) => c | _ => "" end = cmd') as <- by (by rewrite E). vm_compute. discriminate.
  - apply (rewritten_ADD_TXS_equivalent (H:=ToyWire.toy_wire) (add_cmd [tx_example; tx_example']));
      [exact pool_example_inv|exact E].
Defined.


Lemma node_example_inv : node_inv (H:=ToyWire.toy_wire) [] node_example.
Proof.
  split.
  - apply represents_empty.
  - split; [done|]. split; constructor.
  - apply pool_example_inv.
  - constructor; [|constructor]. split; [apply tx_example_wf|]. split; [by left|done].
  - constructor.
  - constructor.
Qed.


(** ** The light executor *)

Lemma wash_loop_kept ts s ts' s' : wash_loop ts s = (ts', s') → wash_loop ts' s = (ts', s').
Proof.
  revert s ts' s'. induction ts as [|t ts IH]; intros s ts' s'; cbn; [by intros [= <- <-]|].
  destruct (hs_insert (Tx_hash t) s) as [fresh s1] eqn:E1.
  destruct (wash_loop ts s1) as [l s2] eqn:E2. intros [= <- <-]. destruct fresh.
  - cbn. rewrite E1. by rewrite (IH _ _ _ E2).
  - unfold hs_insert in E1. destruct (bool_decide (Tx_hash t ∈ s)); [|done].
    injection E1 as <-. by apply IH.
Qed.

Lemma light_wash_kept {W} (l r : LightNode W Mempool) txs txs' p' :
  ln_optimization_level r = ln_optimization_level l →
  (ln_optimization_level l < 2 → ln_pool r = ln_pool l) →
  light_wash txs l = (txs', p') → ∃ p'', light_wash txs' r = (txs', p'')
    ∧ (ln_optimization_level l < 2 → p'' = p').
Proof.
  intros El Hp. unfold light_wash. rewrite El.
  destruct (Z.ltb_spec (ln_optimization_level l) 2) as [Hlt|Hge].
  - rewrite (Hp Hlt). cbn. unfold Mempool_washTxs.
    destruct (wash_loop txs (hs (ln_pool l))) as [ts s] eqn:E. intros [= <- <-].
    rewrite (wash_loop_kept _ _ _ _ E). eauto.
  - intros [= <- <-]. exists (ln_pool r). split; [done|lia].
Qed.

Lemma light_wash_sublist {W} (l : LightNode W Mempool) txs txs' p' :
  light_wash txs l = (txs', p') → txs' `sublist_of` txs.
Proof.
  unfold light_wash. destruct (ln_optimization_level l <? 2); [|by intros [= <- _]].
  cbn. unfold Mempool_washTxs. pose proof (wash_loop_spec txs (hs (ln_pool l))) as HW.
  destruct (wash_loop txs (hs (ln_pool l))) as [ts s]. intros [= <- _]. by destruct HW as (_ & _ & ? & _).
Qed.

Section light_good.
Context `{WireFormats} {W} `{IWorldLaws W} (executeTx : TxExecutable) {TL : TxExecutorLaws (W:=W) executeTx}.
Context (txVerifier : option (Tx → outcome bool)) (Hv : ∀ f t, txVerifier = Some f → ∃ r, f t = Ret r).
Definition light_good (l : LightNode W Mempool) : Prop := state_ok executeTx (state_view (ln_world l)).
Lemma light_EXECUTE_BLK_ok cmd l r cmd' l' :
  light_good l → light_EXECUTE_BLK executeTx txVerifier cmd l = Ret (r, cmd', l') → light_good l'.
Proof.
  intros Hok. unfold light_EXECUTE_BLK.
  destruct (Blk_fromString (cmd_arg cmd)) as [[b|]| |]; cbn; try done; [|by intros [= _ _ <-]].
  destruct (light_wash (blk_txs b) l) as [txs p].
  destruct (execute_Blk_spec executeTx txVerifier Hv (mkBlk (blk_header b) txs) (ln_world l) Hok)
    as (eb & w' & _ & -> & Hw').
  intros [= _ _ <-]. apply Hw'.
Qed.
End light_good.

(** The block that the light primary sealed, when ADD_TXS answers "OK". *)
Lemma light_ADD_TXS_inv `{WireFormats} {W} `{IWorld W} executeTx txVerifier cmd cmd' (l l' : LightNode W Mempool) :
  light_ADD_TXS executeTx txVerifier cmd l = Ret ("OK", cmd', l') →
  ∃ txs p w, Forall wire_tx txs
  ∧ (∃ txs0, parse_to_array (cmd_arg cmd) = Ret txs0 ∧ light_wash txs0 l = (txs, p))
  ∧ let b := mkBlk (mkBlkHeader (ln_next_blk_number l) (ln_previous_hash l)) txs in
    execute_Blk executeTx txVerifier b (ln_world l) = Ret (true, w)
    ∧ cmd' = String "b" (Blk_toString b)
    ∧ l' = mkLightNode p w (u64 (ln_next_blk_number l + 1)) (Blk_hash b) (ln_optimization_level l).
Proof.
  unfold light_ADD_TXS. destruct (parse_to_array (cmd_arg cmd)) as [txs| |] eqn:Ep; [|done..].
  pose proof (parse_to_array_wire _ _ Ep) as Hw. destruct txs as [|t0 txs0]; [done|].
  unfold seal_Blk_and_update_cmd. destruct (light_wash (t0 :: txs0) l) as [txs p] eqn:El.
  destruct (execute_Blk executeTx txVerifier _ (ln_world l)) as [[[] w]| |] eqn:Ex; cbn; [|done..].
  intros [= <- <-]. exists txs, p, w. split; [|eauto 7].
  eapply Forall_sublist; [|exact Hw]. by eapply light_wash_sublist.
Qed.

Lemma light_replica_lem `{WireFormats} {W} `{IWorld W} executeTx txVerifier cmd cmd'
    (l l' r : LightNode W Mempool) :
  is_u64 (ln_next_blk_number l) → length (ln_previous_hash l) = 32%nat →
  light_ADD_TXS executeTx txVerifier cmd l = Ret ("OK", cmd', l') →
  ln_world r = ln_world l → ln_optimization_level r = ln_optimization_level l →
  (ln_optimization_level l < 2 → ln_pool r = ln_pool l) →
  ∃ r', light_execute executeTx txVerifier cmd' r = Ret ("OK", cmd', r')
  ∧ ln_world r' = ln_world l' ∧ (ln_optimization_level l < 2 → ln_pool r' = ln_pool l').
Proof.
  intros Hn Hph HA Ew Eo Epool.
  apply light_ADD_TXS_inv in HA as (txs & p & w & Hw & (txs0 & _ & El) & Ex & -> & ->).
  destruct (light_wash_kept l r txs0 txs p Eo Epool El) as (p' & El' & Hp').
  unfold light_execute. cbn [Ascii.eqb]. unfold light_EXECUTE_BLK. cbn [cmd_arg].
  rewrite Blk_fromString_toString.
  - cbn [mbind outcome_bind blk_txs blk_header]. rewrite El', Ew, Ex. cbn.
    eexists. split; [done|]. cbn. auto.
  - split; [done|]. split; [done|]. eapply Forall_impl; [exact Hw|]. by intros t (? & ? & ?).
  - eapply Forall_impl; [exact Hw|]. by intros t (? & ? & ?).
  - eapply Forall_impl; [exact Hw|]. by intros t (? & ? & ?).
Qed.

(** C30: With the light executor, every replica that starts from the primary's
    world (and, below optimization level 2, from its pool of hashes) accepts the
    block that the primary broadcasts in place of ADD_TXS and reaches the
    primary's world and pool of hashes. *)
Theorem light_replicas_agree `{WireFormats} {W} `{IWorld W} executeTx txVerifier cmd cmd'
    (l l' r : LightNode W Mempool) :
  is_u64 (ln_next_blk_number l) → length (ln_previous_hash l) = 32%nat →
  light_ADD_TXS executeTx txVerifier cmd l = Ret ("OK", cmd', l') →
  ln_world r = ln_world l → ln_optimization_level r = ln_optimization_level l →
  (ln_optimization_level l < 2 → ln_pool r = ln_pool l) →
  ∃ r', light_execute executeTx txVerifier cmd' r = Ret ("OK", cmd', r')
  ∧ ln_world r' = ln_world l' ∧ (ln_optimization_level l < 2 → ln_pool r' = ln_pool l').
Proof. apply light_replica_lem. Qed.

Lemma light_EXECUTE_BLK_same `{WireFormats} {W} `{IWorld W} executeTx txVerifier cmd c (r r1 : LightNode W Mempool) :
  light_EXECUTE_BLK executeTx txVerifier cmd r = Ret ("OK", c, r1) →
  ln_next_blk_number r1 = ln_next_blk_number r ∧ ln_previous_hash r1 = ln_previous_hash r.
Proof.
  unfold light_EXECUTE_BLK. destruct (Blk_fromString (cmd_arg cmd)) as [[b|]| |]; cbn; try done.
  destruct (light_wash (blk_txs b) r) as [txs p]. destruct (execute_Blk executeTx txVerifier _ (ln_world r)) as [[[] w]| |]; cbn; try done.
  by intros [= _ <-].
Qed.
(** What the light primary stores for a request. *)
Lemma light_ADD_TXS_stores `{WireFormats} {W} `{IWorldLaws W} executeTx
    {TL : TxExecutorLaws (W:=W) executeTx} txVerifier cmd cmd' (l l' : LightNode W Mempool) :
  (∀ f t, txVerifier = Some f → ∃ x, f t = Ret x) → light_good executeTx l →
  is_u64 (ln_next_blk_number l) → length (ln_previous_hash l) = 32%nat →
  light_ADD_TXS executeTx txVerifier cmd l = Ret ("OK", cmd', l') →
  ∃ txs eb, parse_to_array (cmd_arg cmd) = Ret txs ∧ eb_txs eb `sublist_of` txs
  ∧ blk_header (eb_blk eb) = mkBlkHeader (ln_next_blk_number l) (ln_previous_hash l) ∧ storable eb
  ∧ chain_view (ln_world l') !! blk_key (ln_next_blk_number l) = Some (ExecBlk_toString eb)
  ∧ chain_view (ln_world l') !! number_key = Some (to_string (ln_next_blk_number l)).
Proof.
  intros Hv Hok Hn Hp (txs & p & w & Hw & (txs0 & Epa & El) & Ex & -> & ->)%light_ADD_TXS_inv. cbn [ln_world].
  set (b := mkBlk (mkBlkHeader (ln_next_blk_number l) (ln_previous_hash l)) txs) in *.
  destruct (execute_Blk_spec executeTx txVerifier Hv b (ln_world l) Hok) as (eb & w' & _ & Ex' & Ehd & Hs & HJ & HR & _ & EC & _).
  rewrite Ex in Ex'. injection Ex' as <-. exists txs0, eb. split; [done|].
  split; [etrans; [exact Hs|by eapply light_wash_sublist]|]. split; [done|].
  split; [apply (wire_storable b eb); [done|done| |done|done]; by eapply Forall_sublist|].
  rewrite EC. unfold commit_chain, eb_number, blk_number. rewrite Ehd. cbn [blk_header b hd_number].
  rewrite lookup_insert_eq, lookup_insert_ne by apply not_eq_sym, blk_key_number_key. by rewrite lookup_insert_eq.
Qed.


Lemma light_ADD_TXS_ok `{WireFormats} {W} `{IWorldLaws W} executeTx
    {TL : TxExecutorLaws (W:=W) executeTx} txVerifier txs (l : LightNode W Mempool) :
  (∀ f t, txVerifier = Some f → ∃ x, f t = Ret x) → light_good executeTx l →
  Forall wire_tx txs → txs ≠ [] →
  ∃ cmd' l', light_ADD_TXS executeTx txVerifier (String "t" (serialize_from_array txs)) l = Ret ("OK", cmd', l').
Proof.
  intros Hv Hok Hw Hne. unfold light_ADD_TXS. cbn [cmd_arg]. rewrite serialize_wire by done.
  destruct txs as [|t txs]; [done|]. unfold seal_Blk_and_update_cmd.
  destruct (light_wash (t :: txs) l) as [txs' p].
  destruct (execute_Blk_spec executeTx txVerifier Hv
    (mkBlk (mkBlkHeader (ln_next_blk_number l) (ln_previous_hash l)) txs') (ln_world l) Hok) as (eb & w' & _ & -> & _).
  cbn. eauto.
Qed.

(** Example: a light primary and a replica on empty worlds. *)
Definition light0 : LightNode InRam.InRamWorldStorage Mempool :=
  mkLightNode (Mempool_ctor ∅ 2) InRam.empty_storage 0 (replicate 32 x00) 2.

Lemma total_light_ok (l : LightNode InRam.InRamWorldStorage Mempool) : light_good (H:=ToyWire.toy_wire) total_executor l.
Proof. exact I. Qed.
Lemma total_node_good (n : Node Mempool InRam.InRamWorldStorage) : node_good (H:=ToyWire.toy_wire) total_executor n.
Proof. exact I. Qed.
Lemma wire_example : Forall wire_tx [tx_example].
Proof. constructor; [|constructor]. split; [apply tx_example_wf|]. split; [by left|done]. Qed.
Lemma wire_example' : Forall wire_tx [tx_example'].
Proof. constructor; [|constructor]. split; [apply tx_example'_wf|]. split; [by left|done]. Qed.

Lemma light_replicas_agree_witness :
  ∃ cmd' l' r', light_ADD_TXS (H:=ToyWire.toy_wire) total_executor None (add_cmd [tx_example]) light0
    = Ret ("OK", cmd', l')
  ∧ light_execute (H:=ToyWire.toy_wire) total_executor None cmd' light0 = Ret ("OK", cmd', r')
  ∧ ln_world r' = ln_world l'.
Proof.
  destruct (light_ADD_TXS_ok (H:=ToyWire.toy_wire) total_executor None [tx_example] light0
    no_verifier_total (total_light_ok _) wire_example) as (cmd' & l' & E); [discriminate|].
  destruct (light_replicas_agree (H:=ToyWire.toy_wire) total_executor None (add_cmd [tx_example]) cmd'
    light0 l' light0) as (r' & E' & Ew & _).
  - unfold is_u64. cbn. lia.
  - reflexivity.
  - exact E.
  - reflexivity.
  - reflexivity.
  - intros _. reflexivity.
  - exists cmd', l', r'. exact (conj E (conj E' Ew)).
Defined.

