(* ===== verification/Consensus.v ===== *)
(** * What the consensus algorithms share

    include/cnsss/pure-forCnsss.hpp: the executor interface
    [IForConsensusExecutable] with its mock, and the asynchronous network
    interface [IAsyncEndpointBasedNetworkable] as messages sent;
    [std::set<std::string>] as a strictly increasing list; the monad of the
    handlers, in which an exception keeps the changes made before it. *)
From Stdlib Require Import ZArith Strings.String Strings.Ascii Lia Sorted.
From stdpp Require Import base tactics strings gmap option sorting list.
From S2P Require Import Prelude.

(** ** [std::set<std::string>]

    Iteration visits the elements in the lexicographic order of their bytes. *)
Abbreviation sset := (list string).

Fixpoint sset_insert (x : string) (s : sset) : sset :=
  match s with
  | [] => [x]
  | y :: s =>
      match String.compare x y with
      | Lt => x :: y :: s
      | Eq => y :: s
      | Gt => y :: sset_insert x s
      end
  end.
Definition sset_contains (x : string) (s : sset) : bool := existsb (String.eqb x) s.

(** [::pure::contains] of a vector. *)
Definition contains (v : list string) (x : string) : bool := existsb (String.eqb x) v.
Arguments contains : simpl never.

Definition str_lt (a b : string) : Prop := String.compare a b = Lt.

Lemma compare_refl s : String.compare s s = Eq.
Proof. induction s as [|c s IH]; [done|]. cbn. unfold Ascii.compare. by rewrite N.compare_refl. Qed.
Lemma str_lt_irrefl a : ¬ str_lt a a.
Proof. unfold str_lt. by rewrite compare_refl. Qed.

#[global] Instance str_lt_trans : Transitive str_lt.
Proof.
  intros a b c. unfold str_lt. revert b c.
  induction a as [|x a IH]; intros [|y b] [|z c]; cbn; try done.
  unfold Ascii.compare.
  destruct (N.compare_spec (N_of_ascii x) (N_of_ascii y)) as [E1|E1|E1];
    destruct (N.compare_spec (N_of_ascii y) (N_of_ascii z)) as [E2|E2|E2]; try done; intros H1 H2.
  - rewrite E1, E2, N.compare_refl. by eapply IH.
  - rewrite E1. by apply N.compare_lt_iff in E2 as ->.
  - rewrite <-E2. by apply N.compare_lt_iff in E1 as ->.
  - assert (N_of_ascii x < N_of_ascii z)%N as ->%N.compare_lt_iff by lia. done.
Qed.

(** The elements of a set: strictly increasing. *)
Definition sset_ok (s : sset) : Prop := StronglySorted str_lt s.

Lemma contains_elem v x : contains v x = true ↔ x ∈ v.
Proof.
  unfold contains. rewrite existsb_exists. split.
  - intros (y & Hy & ->%String.eqb_eq). by apply list_elem_of_In.
  - intros H. exists x. split; [by apply list_elem_of_In|apply String.eqb_refl].
Qed.

Lemma elem_of_sset_insert x y s : y ∈ sset_insert x s ↔ y = x ∨ y ∈ s.
Proof.
  induction s as [|z s IH]; cbn; [set_solver|].
  destruct (String.compare x z) eqn:E.
  - apply String.compare_eq_iff in E as ->. set_solver.
  - set_solver.
  - rewrite !elem_of_cons, IH. set_solver.
Qed.

Lemma sset_insert_ok x s : sset_ok s → sset_ok (sset_insert x s).
Proof.
  unfold sset_ok. induction 1 as [|y s Hs IH Hy]; cbn; [repeat constructor|].
  destruct (String.compare x y) eqn:E.
  - by constructor.
  - constructor; [by constructor|]. constructor; [done|].
    eapply Forall_impl; [done|]. intros z. by apply str_lt_trans.
  - constructor; [done|]. rewrite Forall_forall in Hy |- *.
    intros z [->|Hz]%elem_of_sset_insert; [|by apply Hy].
    unfold str_lt. rewrite String.compare_antisym. by rewrite E.
Qed.

Lemma sset_NoDup s : sset_ok s → NoDup s.
Proof.
  induction 1 as [|y s Hs IH Hy]; constructor; [|done].
  intros Hin. rewrite Forall_forall in Hy. by apply (str_lt_irrefl y), Hy.
Qed.

(** Inserting an element that is there changes nothing; a new one adds one. *)
Lemma sset_insert_elem x s : sset_ok s → x ∈ s → sset_insert x s = s.
Proof.
  induction 1 as [|y s Hs IH Hy]; [by intros ?%elem_of_nil|]. cbn.
  intros [->|Hx]%elem_of_cons; [by rewrite compare_refl|].
  rewrite Forall_forall in Hy. specialize (Hy _ Hx). unfold str_lt in Hy.
  rewrite String.compare_antisym, Hy. cbn. by rewrite IH.
Qed.
Lemma sset_insert_length x s : x ∉ s → length (sset_insert x s) = S (length s).
Proof.
  induction s as [|y s IH]; [done|]. intros [Hne Hx]%not_elem_of_cons. cbn.
  destruct (String.compare x y) eqn:E; [|done|].
  - by apply String.compare_eq_iff in E.
  - cbn. by rewrite IH.
Qed.

(** Two sets with the same elements are equal. *)
Lemma sset_ext s t : sset_ok s → sset_ok t → (∀ x, x ∈ s ↔ x ∈ t) → s = t.
Proof.
  intros Hs. revert t. induction Hs as [|y s Hs IH Hy]; intros t Ht E.
  - destruct t as [|z t]; [done|]. exfalso. specialize (E z). set_solver.
  - inversion Ht as [|z t' Ht' Hz]; subst; [exfalso; specialize (E y); set_solver|].
    rewrite Forall_forall in Hy. rewrite Forall_forall in Hz.
    assert (y = z) as ->.
    { assert (y ∈ z :: t') as [|Hyt]%elem_of_cons by (apply E; left); [done|].
      assert (z ∈ y :: s) as [->|Hzs]%elem_of_cons by (apply E; left); [done|].
      exfalso. apply (str_lt_irrefl y). etrans; [by apply Hy|by apply Hz]. }
    f_equal. apply IH; [done|]. intros x. specialize (E x). rewrite !elem_of_cons in E.
    split; intros Hx.
    + destruct (proj1 E (or_intror Hx)) as [->|]; [|done]. by apply Hy, str_lt_irrefl in Hx.
    + destruct (proj2 E (or_intror Hx)) as [->|]; [|done]. by apply Hz, str_lt_irrefl in Hx.
Qed.

(** The set made of the elements of a list, in any order. *)
Definition sset_of (l : list string) : sset := foldl (λ s x, sset_insert x s) [] l.
Lemma sset_of_snoc l x : sset_of (l ++ [x]) = sset_insert x (sset_of l).
Proof. unfold sset_of. by rewrite foldl_app. Qed.
Lemma sset_of_ok l : sset_ok (sset_of l).
Proof.
  induction l as [|x l IH] using rev_ind; [constructor|]. rewrite sset_of_snoc. by apply sset_insert_ok.
Qed.
Lemma elem_of_sset_of x l : x ∈ sset_of l ↔ x ∈ l.
Proof.
  induction l as [|y l IH] using rev_ind; [done|]. rewrite sset_of_snoc, elem_of_sset_insert, IH. set_solver.
Qed.
Lemma sset_of_length l : NoDup l → length (sset_of l) = length l.
Proof.
  induction l as [|y l IH] using rev_ind; [done|].
  rewrite NoDup_app, sset_of_snoc, length_app. intros (Hl & Hd & _).
  rewrite sset_insert_length, IH by (try done; rewrite elem_of_sset_of; set_solver).
  cbn. lia.
Qed.
Lemma sset_length_le s t : sset_ok s → (∀ x, x ∈ s → x ∈ t) → (length s <= length t)%nat.
Proof. intros Hs Hsub. apply submseteq_length, NoDup_submseteq; [by apply sset_NoDup|done]. Qed.
#[export] Hint Resolve sset_insert_ok sset_of_ok sset_NoDup : wch.

(** ** Handlers

    A handler runs on the node's state; an exception leaves the state as it
    was when it was thrown. *)
Definition stM (S A : Type) : Type := S → S * outcome A.
#[global] Instance stM_ret S : MRet (stM S) := λ A a s, (s, Ret a).
#[global] Instance stM_bind S : MBind (stM S) := λ A B k m s,
  match m s with
  | (s, Ret a) => k a s
  | (s, Throw e) => (s, Throw e)
  | (s, UB w) => (s, UB w)
  end.
Definition gets {S A} (f : S → A) : stM S A := λ s, (s, Ret (f s)).
Definition modify {S} (f : S → S) : stM S unit := λ s, (f s, Ret tt).
Definition lift {S A} (o : outcome A) : stM S A := λ s, (s, o).
Definition whenM {S} (b : bool) (m : stM S unit) : stM S unit := if b then m else mret tt.
Fixpoint forM_ {S A} (l : list A) (f : A → stM S unit) : stM S unit :=
  match l with [] => mret tt | x :: l => f x ≫= λ _, forM_ l f end.
(** [try { m } catch (my_assertion_error &) { return r; }]. *)
Definition catch_assertion {S A} (m : stM S A) (r : A) : stM S A := λ s,
  match m s with
  | (s, Throw (my_assertion_error _)) => (s, Ret r)
  | sr => sr
  end.
(** An exception that reaches the end of a [noexcept] function. *)
Definition noexceptM {S A} (m : stM S A) : stM S A := λ s,
  match m s with (s, Throw _) => (s, UB "std::terminate") | sr => sr end.
(** [BOOST_ASSERT] and [BOOST_VERIFY], with the handler of core0.cpp. *)
Definition BOOST_ASSERT {S} (b : bool) (msg : string) : stM S unit :=
  if b then mret tt else lift (Throw (my_assertion_error msg)).

Lemma bind_eq {S A B} (m : stM S A) (k : A → stM S B) s s' a : m s = (s', Ret a) → (m ≫= k) s = k a s'.
Proof. intros Hm. unfold mbind, stM_bind. by rewrite Hm. Qed.

(** *** What a handler keeps

    [keeps R m]: the state after [m], however it ends, is related to the state before it. *)
Section keeps.
Context {S : Type} (R : S → S → Prop) `{!PreOrder R}.
Definition keeps {A} (m : stM S A) : Prop := ∀ s, R s (m s).1.
Lemma keeps_ret {A} (a : A) : keeps (mret a).
Proof. intros s. reflexivity. Qed.
Lemma keeps_gets {A} (f : S → A) : keeps (gets f).
Proof. intros s. reflexivity. Qed.
Lemma keeps_lift {A} (o : outcome A) : keeps (lift o).
Proof. intros s. reflexivity. Qed.
Lemma keeps_read {A} (f : S → outcome A) : keeps (λ s, (s, f s)).
Proof. intros s. reflexivity. Qed.
Lemma keeps_modify f : (∀ s, R s (f s)) → keeps (modify f).
Proof. intros H s. apply H. Qed.
Lemma keeps_bind {A B} (m : stM S A) (k : A → stM S B) : keeps m → (∀ a, keeps (k a)) → keeps (m ≫= k).
Proof.
  intros Hm Hk s. unfold mbind, stM_bind. specialize (Hm s).
  destruct (m s) as [s' [a|e|w]]; cbn in *; [|done..]. etrans; [exact Hm|]. apply Hk.
Qed.
Lemma keeps_whenM b m : keeps m → keeps (whenM b m).
Proof. intros Hm. destruct b; [done|apply keeps_ret]. Qed.
Lemma keeps_forM {A} (l : list A) f : (∀ x, keeps (f x)) → keeps (forM_ l f).
Proof. intros Hf. induction l as [|x l IH]; cbn; [apply keeps_ret|]. apply keeps_bind; [apply Hf|done]. Qed.
Lemma keeps_catch {A} (m : stM S A) r : keeps m → keeps (catch_assertion m r).
Proof.
  intros Hm s. specialize (Hm s). unfold catch_assertion.
  destruct (m s) as [s' [a|[]|w]]; cbn in *; done.
Qed.
Lemma keeps_assert b msg : keeps (BOOST_ASSERT b msg).
Proof. destruct b; [apply keeps_ret|apply keeps_lift]. Qed.
End keeps.

(** Filters that agree on the elements. *)
Lemma filter_iff_elem {A} (P Q : A → Prop) `{!∀ x, Decision (P x), !∀ x, Decision (Q x)} (l : list A) :
  (∀ x, x ∈ l → P x ↔ Q x) → filter P l = filter Q l.
Proof.
  induction l as [|x l IH]; intros Hl; [done|]. rewrite !filter_cons.
  rewrite IH by (intros; apply Hl; by right). pose proof (Hl x (list_elem_of_here _ _)).
  repeat case_decide; tauto.
Qed.

(** ** Messages *)
Record Send := mkSend { to_endpoint : string; to_target : string; to_data : string }.
#[global] Instance Send_eq_dec : EqDecision Send.
Proof. solve_decision. Defined.

(** ** [IForConsensusExecutable]

    [execute] may rewrite its argument: the answer, the command after the
    call, the executor. *)
Class IForConsensusExecutable (E : Type) := {
  cnsss_execute : string → E → outcome (string * string * E)
}.
Class IForConsensusExecutableLaws (E : Type) `{IForConsensusExecutable E} := {
  cnsss_execute_total : ∀ cmd e, ∃ answer cmd' e', cnsss_execute cmd e = Ret (answer, cmd', e')
}.

(** [mock::Executable]: answers OK; here with the log of what it was asked. *)
Record Executable := mkExecutable { exe_id : string; exe_log : list string }.
Definition Executable_ctor (i : string) : Executable := mkExecutable (String.substring 0 4 i) [].
Definition Executable_execute (cmd : string) (e : Executable) : outcome (string * string * Executable) :=
  Ret ("OK", cmd, mkExecutable (exe_id e) (exe_log e ++ [cmd])).
#[global] Instance Executable_IForConsensusExecutable : IForConsensusExecutable Executable :=
  {| cnsss_execute := Executable_execute |}.
#[global] Instance Executable_Laws : IForConsensusExecutableLaws Executable.
Proof. split. intros cmd e. by eexists _, _, _. Qed.

(** Executing a list of commands, in order: the rewritten commands. *)
Section run_cmds.
Context {E} `{IForConsensusExecutable E}.
Fixpoint run_cmds (cmds : list string) (e : E) : outcome (list string * E) :=
  match cmds with
  | [] => Ret ([], e)
  | c :: cmds =>
      '(_, c', e) ← cnsss_execute c e;
      '(cs, e) ← run_cmds cmds e;
      Ret (c' :: cs, e)
  end.
Context `{!IForConsensusExecutableLaws E}.
Lemma run_cmds_total cmds e : ∃ cs e', run_cmds cmds e = Ret (cs, e').
Proof.
  revert e. induction cmds as [|c cmds IH]; intros e; cbn; [eauto|].
  destruct (cnsss_execute_total c e) as (a & c' & e' & ->). cbn.
  destruct (IH e') as (cs & e'' & ->). cbn. eauto.
Qed.
Lemma run_cmds_app a b e :
  run_cmds (a ++ b) e = '(cs, e) ← run_cmds a e; '(cs', e) ← run_cmds b e; Ret (cs ++ cs', e).
Proof.
  revert e. induction a as [|c a IH]; intros e; cbn.
  { destruct (run_cmds b e) as [[? ?]| |]; done. }
  destruct (cnsss_execute_total c e) as (r & c' & e' & ->). cbn. rewrite IH.
  destruct (run_cmds a e') as [[cs e1]| |]; cbn; [|done..].
  destruct (run_cmds b e1) as [[cs' e2]| |]; done.
Qed.
Lemma run_cmds_snoc cmds d (e e1 e2 : E) log r d' :
  run_cmds cmds e = Ret (log, e1) → cnsss_execute d e1 = Ret (r, d', e2) →
  run_cmds (cmds ++ [d]) e = Ret (log ++ [d'], e2).
Proof. intros E1 E2. rewrite run_cmds_app, E1. cbn. by rewrite E2. Qed.
End run_cmds.

(** ** The contract of [execute]

    pure-forCnsss.hpp asks of an executor that "the modified cmd will still
    result in the same state-change".  [replica e f]: [f] may stand for [e];
    executing what [e] left of a command keeps it so. *)
Class IForConsensusExecutableContract (E : Type) `{IForConsensusExecutable E} := {
  replica : E → E → Prop;
  replica_execute cmd e f r cmd' e' :
    replica e f → cnsss_execute cmd e = Ret (r, cmd', e') →
    ∃ r2 cmd2 f', cnsss_execute cmd' f = Ret (r2, cmd2, f') ∧ replica e' f'
}.

Section contract.
Context {E : Type} {IX : IForConsensusExecutable E}.
Lemma run_cmds_split orders a b (e e' : E) :
  run_cmds orders e = Ret (a ++ b, e') →
  ∃ o1 o2 e1, orders = o1 ++ o2 ∧ run_cmds o1 e = Ret (a, e1) ∧ run_cmds o2 e1 = Ret (b, e').
Proof.
  revert a e. induction orders as [|d orders IH]; intros a e; cbn [run_cmds].
  { intros [= [-> ->]%eq_sym%app_nil <-]. by exists [], [], e. }
  destruct (cnsss_execute d e) as [[[r d'] e1]| |] eqn:E1; cbn; [|done..].
  destruct (run_cmds orders e1) as [[cs e2]| |] eqn:E2; cbn; [|done..]. intros [= Ea <-].
  destruct a as [|x a]; cbn in Ea.
  - subst b. exists [], (d :: orders), e. split; [done|]. split; [done|]. cbn. rewrite E1. cbn. by rewrite E2.
  - injection Ea as <- ->. destruct (IH a e1 E2) as (o1 & o2 & e3 & -> & H1 & H2).
    exists (d :: o1), o2, e3. split; [done|]. split; [|done]. cbn. rewrite E1. cbn. by rewrite H1.
Qed.
Lemma run_cmds_length orders log (e e' : E) : run_cmds orders e = Ret (log, e') → length log = length orders.
Proof.
  revert log e. induction orders as [|d orders IH]; intros log e; cbn; [by intros [= <- _]|].
  destruct (cnsss_execute d e) as [[[r d'] e1]| |]; cbn; [|done..].
  destruct (run_cmds orders e1) as [[cs e2]| |] eqn:E2; cbn; [|done..]. intros [= <- <-]. cbn.
  by rewrite (IH _ _ E2).
Qed.
Lemma run_cmds_snoc_inv orders log d log' (e e1 e2 : E) :
  run_cmds orders e = Ret (log, e1) → run_cmds (orders ++ [d]) e = Ret (log', e2) →
  ∃ r d', cnsss_execute d e1 = Ret (r, d', e2).
Proof.
  revert log log' e. induction orders as [|x orders IH]; intros log log' e; cbn.
  { intros [= <- <-]. destruct (cnsss_execute d e) as [[[r d'] e3]| |]; cbn; [|done..]. intros [= _ <-]. eauto. }
  destruct (cnsss_execute x e) as [[[r x'] e3]| |]; cbn; [|done..].
  destruct (run_cmds orders e3) as [[cs e4]| |] eqn:E4; cbn; [|done..]. intros [= _ <-].
  destruct (run_cmds (orders ++ [d]) e3) as [[cs' e5]| |] eqn:E5; cbn; [|done..]. intros [= _ <-].
  exact (IH _ _ _ E4 E5).
Qed.
Context {IXC : IForConsensusExecutableContract E}.
Lemma replica_run orders (e f : E) log e' :
  replica e f → run_cmds orders e = Ret (log, e') → ∃ cs f', run_cmds log f = Ret (cs, f') ∧ replica e' f'.
Proof.
  revert e f log. induction orders as [|d orders IH]; intros e f log HR; cbn.
  { intros [= <- <-]. by exists [], f. }
  destruct (cnsss_execute d e) as [[[r d'] e1]| |] eqn:E1; cbn; [|done..].
  destruct (run_cmds orders e1) as [[cs e2]| |] eqn:E2; cbn; [|done..]. intros [= <- <-].
  destruct (replica_execute _ _ _ _ _ _ HR E1) as (r2 & d2 & f1 & Ef & HR1).
  destruct (IH _ _ _ HR1 E2) as (cs' & f' & Er & HR'). exists (d2 :: cs'), f'. split; [|done].
  cbn. rewrite Ef. cbn. by rewrite Er.
Qed.
End contract.

(** [mock::Executable]. *)
#[global] Program Instance Executable_Contract : IForConsensusExecutableContract Executable :=
  {| replica e f := exe_log f = exe_log e |}.
Next Obligation.
  intros cmd e f r cmd' e' HR. cbn. unfold Executable_execute. intros [= <- <- <-].
  eexists _, _, _. split; [done|]. cbn. by rewrite HR.
Qed.
