(* ===== verification/Rbft.v ===== *)
(** * RBFT: the node

    include/cnsss/pure-rbft.hpp: the messages [LaidDownMsg] and
    [NewViewCertificate], and every operation of [RbftConsensus].

    A handler is a [stM] computation on the node's record.  A message given to
    [net->send] is appended to [outbox]; [net->listen] and [net->clear] change
    [handlers].  A handler runs as one step: the sets of confirmations and of
    commits are updated under one lock from the insertion to the erasure, and
    the nested calls happen inside it.  The text that [say] logs is not
    modelled, its lock is: [say] under the lock of [all_endpoints] is undefined. *)
From Stdlib Require Import ZArith Strings.String Strings.Ascii Lia.
From stdpp Require Import base tactics countable strings gmap option list.
From S2P Require Import Prelude Net Codec CoreJson Consensus.

Local Open Scope Z_scope.

(** ** Messages *)
Record LaidDownMsg := mkLaidDownMsg { ld_msg : string; ld_epoch : Z; ld_state : string }.
Record NewViewCertificate := mkNewViewCertificate {
  nv_msg : string;
  nv_epoch : Z;
  nv_new_view_certificate : list string;
  nv_sig_of_nodes_to_be_added : list string;
  nv_cmds : list string
}.

(** [value_to<int>] and [value_to<vector<string>>]. *)
Definition value_to_int (v : json) : outcome Z :=
  let check z := if (- 2 ^ 31 <=? z) && (z <? 2 ^ 31) then Ret z else Throw (json_error "not exact") in
  match v with
  | JInt z | JUint z => check z
  | JDouble m e => match double_to_Z m e with
                   | Some z => check z | None => Throw (json_error "not exact")
                   end
  | _ => Throw (json_error "not a number")
  end.
Definition value_to_strings (v : json) : outcome (list string) := as_array v ≫= mapO as_string.

Definition LaidDownMsg_toJson (c : LaidDownMsg) : json :=
  JObject [("msg", JString (ld_msg c)); ("epoch", JInt (ld_epoch c)); ("state", JString (ld_state c))].
Definition LaidDownMsg_fromJson (v : json) : outcome (option LaidDownMsg) :=
  catch_all (
    m ← json_at v "msg" ≫= as_string;
    e ← json_at v "epoch" ≫= value_to_int;
    s ← json_at v "state" ≫= as_string;
    Ret (Some (mkLaidDownMsg m e s))) (λ _, Ret None).
Definition NewViewCertificate_toJson (c : NewViewCertificate) : json :=
  JObject [("msg", JString (nv_msg c)); ("epoch", JInt (nv_epoch c));
           ("new_view_certificate", JArray (JString <$> nv_new_view_certificate c));
           ("sig_of_nodes_to_be_added", JArray (JString <$> nv_sig_of_nodes_to_be_added c));
           ("cmds", JArray (JString <$> nv_cmds c))].
Definition NewViewCertificate_fromJson (v : json) : outcome (option NewViewCertificate) :=
  catch_all (
    m ← json_at v "msg" ≫= as_string;
    e ← json_at v "epoch" ≫= value_to_int;
    c ← json_at v "new_view_certificate" ≫= value_to_strings;
    s ← json_at v "sig_of_nodes_to_be_added" ≫= value_to_strings;
    d ← json_at v "cmds" ≫= value_to_strings;
    Ret (Some (mkNewViewCertificate m e c s d))) (λ _, Ret None).

(** pure-rbft.proto: [epoch] is an [int32], [state] a [string], the other
    fields are [bytes]. *)
Record PbLaidDownMsg := mkPbLaidDownMsg { pld_msg : string; pld_epoch : Z; pld_state : string }.
Record PbNewViewCertificate := mkPbNewViewCertificate {
  pnv_msg : string; pnv_epoch : Z; pnv_new_view_certificate : list string;
  pnv_sig_of_nodes_to_be_added : list string; pnv_cmds : list string
}.
#[global] Instance PbLaidDownMsg_msg : PbMessage PbLaidDownMsg := λ m,
  is_i32 (pld_epoch m) ∧ utf8 (pld_state m) = true.
#[global] Instance PbNewViewCertificate_msg : PbMessage PbNewViewCertificate := λ m, is_i32 (pnv_epoch m).

Definition LaidDownMsg_toPb (m : LaidDownMsg) : PbLaidDownMsg :=
  mkPbLaidDownMsg (ld_msg m) (ld_epoch m) (ld_state m).
Definition LaidDownMsg_fromPb (pb : PbLaidDownMsg) : outcome LaidDownMsg :=
  Ret (mkLaidDownMsg (pld_msg pb) (pld_epoch pb) (pld_state pb)).
Definition NewViewCertificate_toPb (m : NewViewCertificate) : PbNewViewCertificate :=
  mkPbNewViewCertificate (nv_msg m) (nv_epoch m) (nv_new_view_certificate m)
    (nv_sig_of_nodes_to_be_added m) (nv_cmds m).
Definition NewViewCertificate_fromPb (pb : PbNewViewCertificate) : outcome NewViewCertificate :=
  Ret (mkNewViewCertificate (pnv_msg pb) (pnv_epoch pb) (pnv_new_view_certificate pb)
         (pnv_sig_of_nodes_to_be_added pb) (pnv_cmds pb)).

Class RbftWire := {
  #[global] LaidDownMsg_codec :: PbCodec PbLaidDownMsg;
  #[global] NewViewCertificate_codec :: PbCodec PbNewViewCertificate
}.

(** The strings of the two messages, in a build with protobuf. *)
Section strings.
Context `{RbftWire}.
Definition LaidDownMsg_toString : LaidDownMsg → string := toPbString LaidDownMsg_toPb.
Definition LaidDownMsg_fromString : string → outcome (option LaidDownMsg) := fromPbString LaidDownMsg_fromPb.
Definition NewViewCertificate_toString : NewViewCertificate → string := toPbString NewViewCertificate_toPb.
Definition NewViewCertificate_fromString : string → outcome (option NewViewCertificate) :=
  fromPbString NewViewCertificate_fromPb.
End strings.

(** ** The node *)
Inductive Role := Newcomer | Sub | Primary.
#[global] Instance Role_eq_dec : EqDecision Role.
Proof. solve_decision. Defined.

(** The member functions that are registered with the network. *)
Inductive Handler :=
  | H_laid_down
  | H_new_primary
  | H_add_new_node_no_boardcast
  | H_execute_for_primary1
  | H_execute_for_sub1
  | H_confirm_for_sub
  | H_commit_for_sub
  | H_new_primary_for_newcomer.

Section node.
Context {M : Type} {E : Type}.

Record Rbft := mkRbft {
  epoch : Z;      (* std::atomic_int *)
  patience : Z;      (* std::atomic_int *)
  view_change_state : bool;
  role : Role;
  laid_down_history : gmap Z (gmap string (list string));      (* epoch -> state -> signed messages *)
  sig_of_nodes_to_be_added : sset;
  to_be_confirmed_commands : gmap string sset;
  to_be_committed_commands : gmap string sset;
  received_commands : sset;
  command_history : list string;
  all_endpoints : list string;
  timer : bool;      (* the thread is joinable *)
  closed : bool;
  listened_endpoint : string;      (* of net *)
  handlers : list (string * Handler);      (* of net, the last registered first *)
  outbox : list Send;      (* what net was asked to send *)
  sig : M;
  exe : E
}.

Definition set_epoch (v : Z) (n : Rbft) : Rbft :=
  mkRbft v (patience n) (view_change_state n) (role n) (laid_down_history n)
    (sig_of_nodes_to_be_added n) (to_be_confirmed_commands n) (to_be_committed_commands n)
    (received_commands n) (command_history n) (all_endpoints n) (timer n) (closed n)
    (listened_endpoint n) (handlers n) (outbox n) (sig n) (exe n).
Definition set_patience (v : Z) (n : Rbft) : Rbft :=
  mkRbft (epoch n) v (view_change_state n) (role n) (laid_down_history n)
    (sig_of_nodes_to_be_added n) (to_be_confirmed_commands n) (to_be_committed_commands n)
    (received_commands n) (command_history n) (all_endpoints n) (timer n) (closed n)
    (listened_endpoint n) (handlers n) (outbox n) (sig n) (exe n).
Definition set_view_change_state (v : bool) (n : Rbft) : Rbft :=
  mkRbft (epoch n) (patience n) v (role n) (laid_down_history n) (sig_of_nodes_to_be_added n)
    (to_be_confirmed_commands n) (to_be_committed_commands n) (received_commands n)
    (command_history n) (all_endpoints n) (timer n) (closed n) (listened_endpoint n) (handlers n)
    (outbox n) (sig n) (exe n).
Definition set_role (v : Role) (n : Rbft) : Rbft :=
  mkRbft (epoch n) (patience n) (view_change_state n) v (laid_down_history n)
    (sig_of_nodes_to_be_added n) (to_be_confirmed_commands n) (to_be_committed_commands n)
    (received_commands n) (command_history n) (all_endpoints n) (timer n) (closed n)
    (listened_endpoint n) (handlers n) (outbox n) (sig n) (exe n).
Definition set_laid_down_history (v : gmap Z (gmap string (list string))) (n : Rbft) : Rbft :=
  mkRbft (epoch n) (patience n) (view_change_state n) (role n) v (sig_of_nodes_to_be_added n)
    (to_be_confirmed_commands n) (to_be_committed_commands n) (received_commands n)
    (command_history n) (all_endpoints n) (timer n) (closed n) (listened_endpoint n) (handlers n)
    (outbox n) (sig n) (exe n).
Definition set_sig_of_nodes_to_be_added (v : sset) (n : Rbft) : Rbft :=
  mkRbft (epoch n) (patience n) (view_change_state n) (role n) (laid_down_history n) v
    (to_be_confirmed_commands n) (to_be_committed_commands n) (received_commands n)
    (command_history n) (all_endpoints n) (timer n) (closed n) (listened_endpoint n) (handlers n)
    (outbox n) (sig n) (exe n).
Definition set_to_be_confirmed_commands (v : gmap string sset) (n : Rbft) : Rbft :=
  mkRbft (epoch n) (patience n) (view_change_state n) (role n) (laid_down_history n)
    (sig_of_nodes_to_be_added n) v (to_be_committed_commands n) (received_commands n)
    (command_history n) (all_endpoints n) (timer n) (closed n) (listened_endpoint n) (handlers n)
    (outbox n) (sig n) (exe n).
Definition set_to_be_committed_commands (v : gmap string sset) (n : Rbft) : Rbft :=
  mkRbft (epoch n) (patience n) (view_change_state n) (role n) (laid_down_history n)
    (sig_of_nodes_to_be_added n) (to_be_confirmed_commands n) v (received_commands n)
    (command_history n) (all_endpoints n) (timer n) (closed n) (listened_endpoint n) (handlers n)
    (outbox n) (sig n) (exe n).
Definition set_received_commands (v : sset) (n : Rbft) : Rbft :=
  mkRbft (epoch n) (patience n) (view_change_state n) (role n) (laid_down_history n)
    (sig_of_nodes_to_be_added n) (to_be_confirmed_commands n) (to_be_committed_commands n) v
    (command_history n) (all_endpoints n) (timer n) (closed n) (listened_endpoint n) (handlers n)
    (outbox n) (sig n) (exe n).
Definition set_command_history (v : list string) (n : Rbft) : Rbft :=
  mkRbft (epoch n) (patience n) (view_change_state n) (role n) (laid_down_history n)
    (sig_of_nodes_to_be_added n) (to_be_confirmed_commands n) (to_be_committed_commands n)
    (received_commands n) v (all_endpoints n) (timer n) (closed n) (listened_endpoint n)
    (handlers n) (outbox n) (sig n) (exe n).
Definition set_all_endpoints (v : list string) (n : Rbft) : Rbft :=
  mkRbft (epoch n) (patience n) (view_change_state n) (role n) (laid_down_history n)
    (sig_of_nodes_to_be_added n) (to_be_confirmed_commands n) (to_be_committed_commands n)
    (received_commands n) (command_history n) v (timer n) (closed n) (listened_endpoint n)
    (handlers n) (outbox n) (sig n) (exe n).
Definition set_timer (v : bool) (n : Rbft) : Rbft :=
  mkRbft (epoch n) (patience n) (view_change_state n) (role n) (laid_down_history n)
    (sig_of_nodes_to_be_added n) (to_be_confirmed_commands n) (to_be_committed_commands n)
    (received_commands n) (command_history n) (all_endpoints n) v (closed n) (listened_endpoint n)
    (handlers n) (outbox n) (sig n) (exe n).
Definition set_closed (v : bool) (n : Rbft) : Rbft :=
  mkRbft (epoch n) (patience n) (view_change_state n) (role n) (laid_down_history n)
    (sig_of_nodes_to_be_added n) (to_be_confirmed_commands n) (to_be_committed_commands n)
    (received_commands n) (command_history n) (all_endpoints n) (timer n) v (listened_endpoint n)
    (handlers n) (outbox n) (sig n) (exe n).
Definition set_handlers (v : list (string * Handler)) (n : Rbft) : Rbft :=
  mkRbft (epoch n) (patience n) (view_change_state n) (role n) (laid_down_history n)
    (sig_of_nodes_to_be_added n) (to_be_confirmed_commands n) (to_be_committed_commands n)
    (received_commands n) (command_history n) (all_endpoints n) (timer n) (closed n)
    (listened_endpoint n) v (outbox n) (sig n) (exe n).
Definition set_outbox (v : list Send) (n : Rbft) : Rbft :=
  mkRbft (epoch n) (patience n) (view_change_state n) (role n) (laid_down_history n)
    (sig_of_nodes_to_be_added n) (to_be_confirmed_commands n) (to_be_committed_commands n)
    (received_commands n) (command_history n) (all_endpoints n) (timer n) (closed n)
    (listened_endpoint n) (handlers n) v (sig n) (exe n).
Definition set_exe (v : E) (n : Rbft) : Rbft :=
  mkRbft (epoch n) (patience n) (view_change_state n) (role n) (laid_down_history n)
    (sig_of_nodes_to_be_added n) (to_be_confirmed_commands n) (to_be_committed_commands n)
    (received_commands n) (command_history n) (all_endpoints n) (timer n) (closed n)
    (listened_endpoint n) (handlers n) (outbox n) (sig n) v.


Definition find_handler (target : string) (l : list (string * Handler)) : option Handler :=
  snd <$> List.find (λ '(t, _), String.eqb t target) l.

Context `{RbftWire} `{IMsgManageable M} `{IForConsensusExecutable E}.
Abbreviation handler := (stM Rbft unit).

(** *** The network, as the node sees it *)
Definition net_send (endpoint target data : string) : handler :=
  modify (λ n, set_outbox (outbox n ++ [mkSend endpoint target data]) n).
Definition net_listen (target : string) (h : Handler) : handler :=
  modify (λ n, set_handlers ((target, h) :: handlers n) n).
Definition net_clear : handler := modify (set_handlers []).

(** [say]: takes the lock of [all_endpoints]; [held] tells whether the caller has it. *)
Definition say (held : bool) : handler :=
  if held then lift (UB "std::mutex locked by its owner") else mret tt.

(** *** Numbers of nodes *)
Definition N_of (eps : list string) : Z := Z.of_nat (length eps).
Definition f_of (eps : list string) : Z := u64 (N_of eps - 1) / 3.
Definition N : stM Rbft Z := gets (λ n, N_of (all_endpoints n)).
Definition f : stM Rbft Z := gets (λ n, f_of (all_endpoints n)).

(** [all_endpoints.o[e % all_endpoints.o.size()]]: the [int] is converted to [size_t]. *)
Definition endpoint_of_epoch (eps : list string) (e : Z) : outcome string :=
  match eps !! Z.to_nat (u64 e mod N_of eps) with
  | Some p => Ret p
  | None => UB "modulo by zero"
  end.
Definition primary : stM Rbft string := λ n, (n, endpoint_of_epoch (all_endpoints n) (epoch n)).

Definition epoch_considering (eps : list string) (e k : Z) : outcome Z :=
  if N_of eps =? 0 then UB "division by zero"
  else Ret (i32 (u64 (u64 e + u64 (u64 e / N_of eps * u64 k)))).
Definition epoch_considering_newcomers (e num_newcomers : Z) : stM Rbft Z :=
  λ n, (n, epoch_considering (all_endpoints n) e num_newcomers).

(** *** Listening *)
Definition clear_memory : handler :=
  modify (λ n, set_received_commands [] (set_view_change_state false n)).
Definition clear_and_listen_common_things : handler :=
  clear_memory ≫= λ _, net_clear ≫= λ _,
  net_listen "/ILaidDown" H_laid_down ≫= λ _,
  net_listen "/IamThePrimary" H_new_primary ≫= λ _,
  net_listen "/pleaseAddMeNoBoardcast" H_add_new_node_no_boardcast.
Definition start_listening_as_primary : handler :=
  say false ≫= λ _, clear_and_listen_common_things ≫= λ _,
  net_listen "/pleaseExecuteThis" H_execute_for_primary1 ≫= λ _,
  modify (set_role Primary).
Definition start_listening_as_sub : handler :=
  r ← gets role;
  if decide (r = Sub) then say false ≫= λ _, clear_memory
  else
    say false ≫= λ _, clear_and_listen_common_things ≫= λ _,
    net_listen "/pleaseExecuteThis" H_execute_for_sub1 ≫= λ _,
    net_listen "/pleaseConfirmThis" H_confirm_for_sub ≫= λ _,
    net_listen "/pleaseCommitThis" H_commit_for_sub ≫= λ _,
    modify (set_role Sub).

(** *** Broadcasts *)
Definition boardcast_to_others (target data : string) : handler :=
  eps ← gets all_endpoints; me ← gets listened_endpoint;
  forM_ eps (λ node, whenM (negb (String.eqb node me)) (net_send node target data)).
Definition boardcast_to_other_subs (target data : string) : handler :=
  eps ← gets all_endpoints; me ← gets listened_endpoint;
  forM_ eps (λ sub,
    if String.eqb sub me then mret tt
    else p ← primary; whenM (negb (String.eqb sub p)) (net_send sub target data)).

(** *** Commands *)
Definition finally_execute_it (data : string) : handler := λ n,
  match cnsss_execute data (exe n) with
  | Ret (_, data, e) => (set_command_history (command_history n ++ [data]) (set_exe e n), Ret tt)
  | Throw e => (n, Throw e)
  | UB w => (n, UB w)
  end.

(** The set of a command, after [endpoint] was added. *)
Definition add_vote (m : gmap string sset) (data endpoint : string) : sset :=
  sset_insert endpoint (default [] (m !! data)).
(** [s->size() >= N() - 1 - f()], in [size_t]. *)
Definition enough (eps : list string) (s : sset) : bool :=
  u64 (u64 (N_of eps - 1) - f_of eps) <=? Z.of_nat (length s).

Definition add_to_to_be_committed_commands (endpoint data : string) : handler :=
  m ← gets to_be_committed_commands;
  let s := add_vote m data endpoint in
  modify (set_to_be_committed_commands (<[data := s]> m)) ≫= λ _,
  say false ≫= λ _,
  eps ← gets all_endpoints;
  whenM (enough eps s)
    (finally_execute_it data ≫= λ _,
     modify (λ n, set_to_be_committed_commands (delete data (to_be_committed_commands n)) n)).

Definition add_to_to_be_confirmed_commands (endpoint data : string) : handler :=
  m ← gets to_be_confirmed_commands;
  let s := add_vote m data endpoint in
  modify (set_to_be_confirmed_commands (<[data := s]> m)) ≫= λ _,
  say false ≫= λ _,
  eps ← gets all_endpoints;
  whenM (enough eps s)
    (boardcast_to_other_subs "/pleaseCommitThis" data ≫= λ _,
     me ← gets listened_endpoint;
     add_to_to_be_committed_commands me data ≫= λ _,
     modify (λ n, set_to_be_confirmed_commands (delete data (to_be_confirmed_commands n)) n)).

Definition handle_execute_for_sub1 (endpoint data : string) : handler :=
  vc ← gets view_change_state;
  if (vc : bool) then mret tt
  else
    p ← primary;
    if String.eqb endpoint p then
      boardcast_to_other_subs "/pleaseConfirmThis" data ≫= λ _,
      me ← gets listened_endpoint;
      add_to_to_be_confirmed_commands me data
    else net_send p "/pleaseExecuteThis" data.
Definition handle_commit_for_sub (endpoint data : string) : handler :=
  vc ← gets view_change_state;
  if (vc : bool) then mret tt else add_to_to_be_committed_commands endpoint data.
Definition handle_confirm_for_sub (endpoint data : string) : handler :=
  vc ← gets view_change_state;
  if (vc : bool) then mret tt else add_to_to_be_confirmed_commands endpoint data.
(** [finally_execute_it] takes its argument by value: what is broadcast is the
    command as it was received. *)
Definition handle_execute_for_primary1 (endpoint data : string) : handler :=
  vc ← gets view_change_state;
  if (vc : bool) then mret tt
  else
    rc ← gets received_commands;
    if sset_contains data rc then say false
    else finally_execute_it data ≫= λ _, boardcast_to_others "/pleaseExecuteThis" data.

Definition is_primary : stM Rbft bool :=
  vc ← gets view_change_state;
  if (vc : bool) then mret false
  else p ← primary; me ← gets listened_endpoint; mret (String.eqb p me).
(** [ICnsssPrimaryBased::handle_execute] with the two overrides. *)
Definition handle_execute (endpoint data : string) : stM Rbft string :=
  b ← is_primary;
  (if (b : bool) then handle_execute_for_primary1 endpoint data
   else handle_execute_for_sub1 endpoint data) ≫= λ _, mret "".

(** *** View change *)
Definition cmds_to_state (cmds : list string) : string := "<mocked-state>".
Definition get_state : stM Rbft string := gets (λ n, cmds_to_state (command_history n)).
Definition get_signed_state : stM Rbft string := λ n,
  (n, prepare_msg (sig n) (cmds_to_state (command_history n))).
Definition comfort : handler := modify (set_patience 8) ≫= λ _, say false.

Definition tear (data : string) : stM Rbft (option (string * string)) := λ n,
  (n, tear_msg_open (sig n) data).

(** The [std::set] of the verified senders, in its order. *)
Fixpoint verified_senders (sigs : list string) (o : sset) : stM Rbft sset :=
  match sigs with
  | [] => mret o
  | s :: sigs =>
      r ← tear s;
      match r with
      | None => verified_senders sigs o
      | Some (n, _) => verified_senders sigs (sset_insert n o)
      end
  end.
Definition get_newcommers (sigs : list string) : stM Rbft (list string) := verified_senders sigs [].

(** The loop of [check_cert] after the first message. *)
Fixpoint check_rest (l : list string) (e : Z) (state : string) (valid_host : sset) : stM Rbft sset :=
  match l with
  | [] => mret valid_host
  | s :: l =>
      o ← tear s;
      match o with
      | None => BOOST_ASSERT false "o" ≫= λ _, mret valid_host
      | Some (from, data) =>
          m ← lift (LaidDownMsg_fromString data);
          match m with
          | None => BOOST_ASSERT false "msg.fromString" ≫= λ _, mret valid_host
          | Some msg =>
              BOOST_ASSERT (String.eqb (ld_state msg) state) "state" ≫= λ _,
              BOOST_ASSERT (ld_epoch msg =? e) "epoch" ≫= λ _,
              check_rest l e state (sset_insert from valid_host)
          end
      end
  end.
Definition check_cert (l : list string) (e : Z) (for_newcomer : bool) : stM Rbft bool :=
  catch_assertion (
    match l with
    | [] => BOOST_ASSERT false "empty certificate" ≫= λ _, mret false
    | s :: rest =>
        sr ← tear s;
        match sr with
        | None => BOOST_ASSERT false "first signature" ≫= λ _, mret false
        | Some (from, data) =>
            m ← lift (LaidDownMsg_fromString data);
            match m with
            | None => BOOST_ASSERT false "LaidDownMsg" ≫= λ _, mret false
            | Some msg0 =>
                st ← get_state;
                (if for_newcomer then mret tt
                 else BOOST_ASSERT (String.eqb (ld_state msg0) st) "State mismatch") ≫= λ _,
                valid_host ← check_rest rest e (if for_newcomer then ld_state msg0 else st)
                               (sset_insert from []);
                n ← N; k ← f;
                BOOST_ASSERT (u64 (n - k) <=? Z.of_nat (length valid_host)) "Requires more" ≫= λ _,
                mret true
            end
        end
    end) false.

Definition push_endpoints (newcomers : list string) : handler :=
  modify (λ n, set_all_endpoints (all_endpoints n ++ newcomers) n).

(** The loop that looks for old newcomers runs under the lock of [all_endpoints]. *)
Fixpoint check_old (newcomers : list string) : stM Rbft bool :=
  match newcomers with
  | [] => mret false
  | c :: newcomers =>
      eps ← gets all_endpoints;
      if contains eps c then say true ≫= λ _, mret true else check_old newcomers
  end.

Definition handle_new_primary (endpoint data : string) : handler :=
  r ← lift (NewViewCertificate_fromString data);
  match r with
  | None => say false
  | Some o =>
      newcomers ← get_newcommers (nv_sig_of_nodes_to_be_added o);
      old ← check_old newcomers;
      if (old : bool) then mret tt
      else
        ep ← gets epoch;
        if nv_epoch o <? ep then say false
        else
          ok ← check_cert (nv_new_view_certificate o) (nv_epoch o) false;
          if (ok : bool) then
            e ← epoch_considering_newcomers (nv_epoch o) (Z.of_nat (length newcomers));
            modify (set_epoch e) ≫= λ _,
            comfort ≫= λ _,
            modify (set_laid_down_history ∅) ≫= λ _,
            modify (set_sig_of_nodes_to_be_added []) ≫= λ _,
            push_endpoints newcomers ≫= λ _,
            start_listening_as_sub
          else say false
  end.

Definition try_to_be_primary (e : Z) (state : string) (my_list : list string) : handler :=
  eps ← gets all_endpoints; me ← gets listened_endpoint;
  p ← lift (endpoint_of_epoch eps e);
  BOOST_ASSERT (String.eqb p me) "not my view" ≫= λ _,
  st ← get_state;
  BOOST_ASSERT (String.eqb st state) "I am different from other correct nodes." ≫= λ _,
  sig_for_newcomers ← gets sig_of_nodes_to_be_added;
  modify (set_sig_of_nodes_to_be_added []) ≫= λ _,
  newcomers ← get_newcommers sig_for_newcomers;
  (match newcomers with
   | [] =>
       let m := mkNewViewCertificate "Hi, I am the primary now" e my_list [] [] in
       modify (set_epoch e) ≫= λ _,
       boardcast_to_others "/IamThePrimary" (NewViewCertificate_toString m)
   | _ =>
       e' ← epoch_considering_newcomers e (Z.of_nat (length newcomers));
       modify (set_epoch e') ≫= λ _,
       let m := mkNewViewCertificate "Hi, I am the primary now" e my_list sig_for_newcomers [] in
       boardcast_to_others "/IamThePrimary" (NewViewCertificate_toString m) ≫= λ _,
       push_endpoints newcomers ≫= λ _,
       cmds ← gets command_history;
       let m := mkNewViewCertificate "Hi, I am the primary now" e my_list sig_for_newcomers cmds in
       forM_ newcomers (λ c, net_send c "/IamThePrimaryForNewcomer" (NewViewCertificate_toString m))
   end) ≫= λ _,
  say false ≫= λ _, start_listening_as_primary.

(** [laid_down_history[epoch][state]], created when it is not there. *)
Definition laid_down_list (h : gmap Z (gmap string (list string))) (e : Z) (s : string) : list string :=
  default [] (default ∅ (h !! e) !! s).
Definition laid_down_put (h : gmap Z (gmap string (list string))) (e : Z) (s : string) (l : list string) :=
  <[e := <[s := l]> (default ∅ (h !! e))]> h.

Definition remember_this_laiddown_and_be_primary_maybe (o : LaidDownMsg) (data : string) : handler :=
  h ← gets laid_down_history;
  let l := laid_down_list h (ld_epoch o) (ld_state o) in
  modify (set_laid_down_history (laid_down_put h (ld_epoch o) (ld_state o) l)) ≫= λ _,
  if contains l data then say false
  else
    let l := l ++ [data] in
    modify (set_laid_down_history (laid_down_put h (ld_epoch o) (ld_state o) l)) ≫= λ _,
    n ← N; k ← f;
    whenM (u64 (i32 (u64 (n - k))) <=? Z.of_nat (length l))
      (try_to_be_primary (ld_epoch o) (ld_state o) l).

Definition trigger_view_change : handler :=
  modify (λ n, set_epoch (i32 (epoch n + 1)) n) ≫= λ _,
  say false ≫= λ _,
  modify (set_view_change_state true) ≫= λ _,
  next_primary ← primary;
  e ← gets epoch; st ← get_state;
  let msg := mkLaidDownMsg ("Dear " +:+ next_primary +:+ ", I laid down for U.") e st in
  data ← (λ n, (n, prepare_msg (sig n) (LaidDownMsg_toString msg)));
  me ← gets listened_endpoint;
  if String.eqb next_primary me then remember_this_laiddown_and_be_primary_maybe msg data
  else net_send next_primary "/ILaidDown" data.

Definition handle_laid_down (endpoint data : string) : handler :=
  catch_assertion (
    say false ≫= λ _,
    o ← tear data;
    match o with
    | None => BOOST_ASSERT false "o"
    | Some (_, d) =>
        m ← lift (LaidDownMsg_fromString d);
        match m with
        | None => BOOST_ASSERT false "msg.fromString"
        | Some msg =>
            ep ← gets epoch;
            if ld_epoch msg <? ep then say false
            else
              eps ← gets all_endpoints;
              next_primary ← lift (endpoint_of_epoch eps (ld_epoch msg));
              me ← gets listened_endpoint;
              if negb (String.eqb next_primary me) then say false
              else remember_this_laiddown_and_be_primary_maybe msg data
        end
    end) tt.

(** *** New nodes *)
Definition handle_add_new_node_no_boardcast (endpoint data : string) : handler :=
  modify (λ n, set_sig_of_nodes_to_be_added (sset_insert data (sig_of_nodes_to_be_added n)) n).
Definition start_listening_as_newcomer : handler :=
  data ← (λ n, (n, prepare_msg (sig n) "Hi, please let me in."));
  boardcast_to_others "/pleaseAddMeNoBoardcast" data ≫= λ _,
  net_listen "/IamThePrimaryForNewcomer" H_new_primary_for_newcomer.

(** [timer = std::thread(...)]: assigning to a joinable thread terminates.  The
    thread begins with [comfort]. *)
Definition start_timer : handler :=
  t ← gets timer;
  if (t : bool) then lift (UB "std::terminate") else modify (set_timer true) ≫= λ _, comfort.

Fixpoint execute_all (cmds : list string) : stM Rbft (list string) :=
  match cmds with
  | [] => mret []
  | c :: cmds => λ n,
      match cnsss_execute c (exe n) with
      | Ret (_, c', e) => (cs ← execute_all cmds; mret (c' :: cs)) (set_exe e n)
      | Throw e => (n, Throw e)
      | UB w => (n, UB w)
      end
  end.

Definition handle_new_primary_for_newcomer (endpoint data : string) : handler :=
  r ← lift (NewViewCertificate_fromString data);
  match r with
  | None => say false
  | Some d =>
      ok ← check_cert (nv_new_view_certificate d) (nv_epoch d) true;
      if negb ok then say false
      else
        newcomers ← get_newcommers (nv_sig_of_nodes_to_be_added d);
        e ← epoch_considering_newcomers (nv_epoch d) (Z.of_nat (length newcomers));
        modify (set_epoch e) ≫= λ _,
        push_endpoints newcomers ≫= λ _,
        eps ← gets all_endpoints; me ← gets listened_endpoint;
        BOOST_ASSERT (contains eps me) "What? I am not added by the new primary?" ≫= λ _,
        cmds ← execute_all (nv_cmds d);
        modify (set_command_history cmds) ≫= λ _,
        start_timer ≫= λ _,
        start_listening_as_sub
  end.

(** *** The timer thread: three seconds pass *)
Definition timer_tick : handler := λ n,
  if negb (timer n) then (n, Ret tt)
  else if closed n then (set_timer false n, Ret tt)
  else
    let n := set_patience (i32 (patience n - 1)) n in
    if 0 <? patience n then (n, Ret tt)
    else match trigger_view_change n with
         | (n, Ret _) => comfort n
         | (n, Throw _) => (n, UB "std::terminate")
         | (n, UB w) => (n, UB w)
         end.

(** *** Construction and destruction *)
Definition Rbft_new (endpoint : string) (s : M) (e : E) (eps : list string) : Rbft :=
  mkRbft 0 0 false Newcomer ∅ [] ∅ ∅ [] [] eps false false endpoint [] [] s e.
Definition ctor_body : handler :=
  eps ← gets all_endpoints; me ← gets listened_endpoint;
  if negb (contains eps me) then start_listening_as_newcomer
  else
    p ← primary;
    (if String.eqb p me then start_listening_as_primary else start_listening_as_sub) ≫= λ _,
    start_timer.
Definition create (endpoint : string) (s : M) (e : E) (eps : list string) : Rbft * outcome unit :=
  ctor_body (Rbft_new endpoint s e eps).
(** [timer.join()] of a thread that was never started throws in the destructor. *)
Definition destroy : handler :=
  net_clear ≫= λ _, modify (set_closed true) ≫= λ _,
  t ← gets timer;
  if (t : bool) then modify (set_timer false) else lift (UB "std::terminate").

(** *** Delivery: the handler registered for the target runs, if there is one *)
Definition run_handler (h : Handler) (endpoint data : string) : handler :=
  match h with
  | H_laid_down => handle_laid_down endpoint data
  | H_new_primary => handle_new_primary endpoint data
  | H_add_new_node_no_boardcast => handle_add_new_node_no_boardcast endpoint data
  | H_execute_for_primary1 => handle_execute_for_primary1 endpoint data
  | H_execute_for_sub1 => handle_execute_for_sub1 endpoint data
  | H_confirm_for_sub => handle_confirm_for_sub endpoint data
  | H_commit_for_sub => handle_commit_for_sub endpoint data
  | H_new_primary_for_newcomer => handle_new_primary_for_newcomer endpoint data
  end.
Definition deliver (endpoint target data : string) : handler := λ n,
  match find_handler target (handlers n) with
  | Some h => run_handler h endpoint data n
  | None => (n, Ret tt)
  end.
End node.

(** ** Lemmas *)

Arguments endpoint_of_epoch : simpl never.
Arguments epoch_considering : simpl never.
Arguments enough : simpl never.

Ltac unfold_st :=
  unfold say, whenM, net_send, net_listen, net_clear, mbind, stM_bind, mret, stM_ret, gets, modify, lift.

Section lemmas.
Context {M E : Type} {RW : RbftWire} {IM : IMsgManageable M} {IX : IForConsensusExecutable E}.
Implicit Types n : Rbft (M:=M) (E:=E).

(** Quorums.  The number of nodes fits an [int]. *)
Definition fits (eps : list string) : Prop := (0 < length eps)%nat ∧ N_of eps < 2 ^ 31.
Definition quorum (eps : list string) : nat := (length eps - 1 - (length eps - 1) / 3)%nat.

Lemma f_of_fits eps : fits eps → f_of eps = Z.of_nat ((length eps - 1) / 3).
Proof.
  intros [H1 H2]. unfold f_of, N_of in *. rewrite u64_small by (unfold is_u64; lia).
  rewrite Nat2Z.inj_div, Nat2Z.inj_sub by lia. done.
Qed.
Lemma enough_spec eps s : fits eps → enough eps s = (quorum eps <=? length s)%nat.
Proof.
  intros Hf. pose proof Hf as [H1 H2]. unfold enough, quorum, N_of in *. rewrite f_of_fits by done.
  pose proof (Nat.Div0.div_le_upper_bound (length eps - 1) 3 (length eps - 1) ltac:(lia)).
  rewrite (u64_small (_ - 1)) by (unfold is_u64; lia).
  rewrite u64_small by (unfold is_u64; lia).
  destruct (Nat.leb_spec (length eps - 1 - (length eps - 1) / 3) (length s));
    [apply Z.leb_le|apply Z.leb_gt]; lia.
Qed.
(** Two quorums of the other nodes exceed them. *)
Lemma quorum_bounds eps :
  (2 <= length eps)%nat →
  (1 <= quorum eps <= length eps - 1)%nat ∧ (length eps - 1 < 2 * quorum eps)%nat
  ∧ ((length eps - 1) / 3 < quorum eps)%nat.
Proof.
  intros Hl. unfold quorum.
  pose proof (Nat.div_mod (length eps - 1) 3). pose proof (Nat.mod_upper_bound (length eps - 1) 3). lia.
Qed.

Lemma endpoint_of_epoch_Ret eps e : fits eps → ∃ p, endpoint_of_epoch eps e = Ret p ∧ p ∈ eps.
Proof.
  intros [H1 H2]. unfold endpoint_of_epoch.
  destruct (lookup_lt_is_Some_2 eps (Z.to_nat (u64 e mod N_of eps))) as [p Hp].
  { unfold N_of. pose proof (Z.mod_pos_bound (u64 e) (Z.of_nat (length eps))). lia. }
  rewrite Hp. eauto using list_elem_of_lookup_2.
Qed.

(** What a broadcast sends. *)
Definition sends_to (eps : list string) (target data : string) : list Send :=
  (λ q, mkSend q target data) <$> eps.
Definition others (me : string) (eps : list string) : list string := filter (λ q, q ≠ me) eps.
Definition other_subs (me p : string) (eps : list string) : list string :=
  filter (λ q, q ≠ me ∧ q ≠ p) eps.
Definition sending (l : list Send) n : Rbft (M:=M) (E:=E) := set_outbox (outbox n ++ l) n.

Lemma sending_nil n : sending [] n = n.
Proof. unfold sending. rewrite app_nil_r. by destruct n. Qed.
Lemma sending_app l k n : sending k (sending l n) = sending (l ++ k) n.
Proof. unfold sending, set_outbox; cbn. by rewrite app_assoc. Qed.

Lemma boardcast_to_others_eq target data n :
  boardcast_to_others target data n
  = (sending (sends_to (others (listened_endpoint n) (all_endpoints n)) target data) n, Ret tt).
Proof.
  unfold boardcast_to_others, others, sends_to. unfold_st.
  generalize (listened_endpoint n) as me. generalize (all_endpoints n) as eps.
  intros eps me. revert n. induction eps as [|q eps IH]; intros n; [cbn; by rewrite sending_nil|].
  cbn [forM_]. unfold_st. destruct (String.eqb_spec q me) as [->|Hq].
  - rewrite filter_cons_False by naive_solver. cbn. apply IH.
  - rewrite filter_cons_True by done. cbn. rewrite IH.
    change (set_outbox _ n) with (sending [mkSend q target data] n). by rewrite sending_app.
Qed.

Lemma boardcast_to_other_subs_eq target data p n :
  endpoint_of_epoch (all_endpoints n) (epoch n) = Ret p →
  boardcast_to_other_subs target data n
  = (sending (sends_to (other_subs (listened_endpoint n) p (all_endpoints n)) target data) n, Ret tt).
Proof.
  unfold boardcast_to_other_subs, other_subs, sends_to, primary. unfold_st.
  intros Hp. assert (∀ eps, forM_ eps (λ sub, if String.eqb sub (listened_endpoint n) then mret tt
    else p ← (λ n, (n, endpoint_of_epoch (all_endpoints n) (epoch n)));
         whenM (negb (String.eqb sub p)) (net_send sub target data)) n
    = (sending ((λ q, mkSend q target data) <$> filter (λ q, q ≠ listened_endpoint n ∧ q ≠ p) eps) n, Ret tt))
    as IH; [|exact (IH (all_endpoints n))].
  intros eps. generalize (listened_endpoint n) as me. intros me.
  revert n Hp. induction eps as [|q eps IH]; intros n Hp; [cbn; by rewrite sending_nil|].
  cbn [forM_]. unfold_st. destruct (String.eqb_spec q me) as [->|Hq].
  - rewrite filter_cons_False by naive_solver. by apply IH.
  - rewrite Hp. destruct (String.eqb_spec q p) as [->|Hqp].
    + rewrite filter_cons_False by naive_solver. cbn. by apply IH.
    + rewrite filter_cons_True by done. cbn.
      change (set_outbox _ n) with (sending [mkSend q target data] n).
      etrans; [by apply IH|]. by rewrite sending_app.
Qed.
(** The handlers of the two roles, and the state in which they are installed. *)
Definition sub_handlers : list (string * Handler) :=
  [("/pleaseCommitThis", H_commit_for_sub); ("/pleaseConfirmThis", H_confirm_for_sub);
   ("/pleaseExecuteThis", H_execute_for_sub1);
   ("/pleaseAddMeNoBoardcast", H_add_new_node_no_boardcast);
   ("/IamThePrimary", H_new_primary); ("/ILaidDown", H_laid_down)].
Definition primary_handlers : list (string * Handler) :=
  [("/pleaseExecuteThis", H_execute_for_primary1);
   ("/pleaseAddMeNoBoardcast", H_add_new_node_no_boardcast);
   ("/IamThePrimary", H_new_primary); ("/ILaidDown", H_laid_down)].

Definition as_primary n : Rbft (M:=M) (E:=E) :=
  set_role Primary (set_handlers primary_handlers (set_received_commands [] (set_view_change_state false n))).
Definition as_sub n : Rbft (M:=M) (E:=E) :=
  set_role Sub (set_handlers sub_handlers (set_received_commands [] (set_view_change_state false n))).
Lemma start_listening_as_primary_eq n : start_listening_as_primary n = (as_primary n, Ret tt).
Proof. reflexivity. Qed.
Lemma start_listening_as_sub_eq n :
  role n ≠ Sub ∨ handlers n = sub_handlers → start_listening_as_sub n = (as_sub n, Ret tt).
Proof.
  intros Hn. unfold start_listening_as_sub, as_sub. unfold_st.
  destruct (decide (role n = Sub)) as [Hr|Hr]; [|reflexivity].
  destruct Hn as [|Hh]; [done|]. destruct n; cbn in *. by subst.
Qed.
Lemma start_timer_eq n : timer n = false → start_timer n = (set_patience 8 (set_timer true n), Ret tt).
Proof. intros Ht. unfold start_timer. unfold_st. by rewrite Ht. Qed.
End lemmas.

(** ** A concrete wire format *)
Module ToyRbft.
Import ToyCodec.
#[global] Instance PbLaidDownMsg_eq_dec : EqDecision PbLaidDownMsg.
Proof. solve_decision. Defined.
#[global] Instance PbNewViewCertificate_eq_dec : EqDecision PbNewViewCertificate.
Proof. solve_decision. Defined.
#[global] Instance PbLaidDownMsg_countable : Countable PbLaidDownMsg.
Proof.
  apply (inj_countable' (λ m, (pld_msg m, pld_epoch m, pld_state m))
           (λ '(a, b, c), mkPbLaidDownMsg a b c)). by intros [].
Defined.
#[global] Instance PbNewViewCertificate_countable : Countable PbNewViewCertificate.
Proof.
  apply (inj_countable' (λ m, (pnv_msg m, pnv_epoch m, pnv_new_view_certificate m,
                               pnv_sig_of_nodes_to_be_added m, pnv_cmds m))
           (λ '(a, b, c, d, e), mkPbNewViewCertificate a b c d e)). by intros [].
Defined.
#[global] Instance PbLaidDownMsg_valid_dec (m : PbLaidDownMsg) : Decision (pb_valid m).
Proof. unfold pb_valid, PbLaidDownMsg_msg, is_i32. apply _. Defined.
#[global] Instance PbNewViewCertificate_valid_dec (m : PbNewViewCertificate) : Decision (pb_valid m).
Proof. unfold pb_valid, PbNewViewCertificate_msg, is_i32. apply _. Defined.
Definition toy_rbft : RbftWire := {|
  LaidDownMsg_codec := toy_pb;
  NewViewCertificate_codec := toy_pb
|}.
End ToyRbft.
