(* ===== verification/RbftVotes.v ===== *)
(** * RBFT: the command path of a node refines a counting specification

    The specification [Abs] of a node in a view keeps who confirmed and who
    committed which command, in order of arrival, and the commands executed: a
    sub commits a command at its [quorum]-th confirmation and executes it at
    its [quorum]-th commit.  The node of Rbft.v erases a command's set when it
    is full and may create it again; the refinement shows that the two agree
    as long as nobody votes twice for one command. *)
From Stdlib Require Import ZArith Strings.String Strings.Ascii Lia.
From stdpp Require Import base tactics strings gmap option list.
From S2P Require Import Prelude Net Codec Consensus Rbft.

(** ** The specification *)
Record Abs := mkAbs {
  a_confirms : list (string * string);      (* command, who confirmed it *)
  a_commits : list (string * string);
  a_executed : list string
}.
Definition Abs_init : Abs := mkAbs [] [] [].
Definition votes_for (d : string) (l : list (string * string)) : list string :=
  snd <$> filter (λ v, v.1 = d) l.
Arguments votes_for : simpl never.

Section spec.
Context (x : nat) (eps : list string) (p me : string).

Definition abs_commit (q d : string) (a : Abs) : Abs :=
  let cm := a_commits a ++ [(d, q)] in
  mkAbs (a_confirms a) cm
    (if (length (votes_for d cm) =? x)%nat then a_executed a ++ [d] else a_executed a).
Definition abs_confirm (q d : string) (a : Abs) : Abs * list Send :=
  let cf := a_confirms a ++ [(d, q)] in
  let a := mkAbs cf (a_commits a) (a_executed a) in
  if (length (votes_for d cf) =? x)%nat
  then (abs_commit me d a, sends_to (other_subs me p eps) "/pleaseCommitThis" d)
  else (a, []).
Definition abs_order (d : string) (a : Abs) : Abs * list Send :=
  let '(a, out) := abs_confirm me d a in
  (a, sends_to (other_subs me p eps) "/pleaseConfirmThis" d ++ out).
Definition abs_lead (d : string) (a : Abs) : Abs * list Send :=
  (mkAbs (a_confirms a) (a_commits a) (a_executed a ++ [d]),
   sends_to (others me eps) "/pleaseExecuteThis" d).
End spec.

(** ** Votes *)

Lemma votes_for_snoc d d' q l :
  votes_for d (l ++ [(d', q)]) = votes_for d l ++ (if decide (d' = d) then [q] else []).
Proof.
  unfold votes_for. rewrite filter_app, fmap_app. f_equal.
  destruct (decide (d' = d)); [by rewrite filter_cons_True|by rewrite filter_cons_False].
Qed.
Lemma votes_for_eq d q l : votes_for d (l ++ [(d, q)]) = votes_for d l ++ [q].
Proof. rewrite votes_for_snoc. by rewrite decide_True. Qed.
Lemma votes_for_ne d d' q l : d' ≠ d → votes_for d (l ++ [(d', q)]) = votes_for d l.
Proof. intros Hd. rewrite votes_for_snoc, decide_False by done. apply app_nil_r. Qed.

Lemma elem_votes_snoc r d d' q l :
  r ∈ votes_for d' (l ++ [(d, q)]) ↔ r ∈ votes_for d' l ∨ (d = d' ∧ r = q).
Proof.
  rewrite votes_for_snoc, elem_of_app. case_decide; rewrite ?list_elem_of_singleton, ?elem_of_nil; naive_solver.
Qed.

(** What the code keeps of the votes [l]: all of them before the quorum, those
    after it once it was reached. *)
Definition pending (x : nat) (l : list string) : list string :=
  if (length l <? x)%nat then l else drop x l.
Definition stored (l : list string) : option sset :=
  match l with [] => None | _ => Some (sset_of l) end.
Definition tracks (x : nat) (m : gmap string sset) (votes : list (string * string)) : Prop :=
  ∀ d, m !! d = stored (pending x (votes_for d votes)).

Lemma tracks_empty x : tracks x ∅ [].
Proof.
  intros d. rewrite lookup_empty. change (votes_for d []) with (@nil string).
  unfold pending. destruct (_ <? _)%nat; [done|by rewrite drop_nil].
Qed.

Lemma default_stored l : default [] (stored l) = sset_of l.
Proof. by destruct l. Qed.
Lemma stored_snoc l q : stored (l ++ [q]) = Some (sset_insert q (sset_of l)).
Proof. rewrite <-sset_of_snoc. by destruct l. Qed.

Lemma pending_snoc x l q :
  (length l + 1 < 2 * x)%nat →
  if (length l + 1 =? x)%nat
  then pending x l = l ∧ pending x (l ++ [q]) = []
  else pending x (l ++ [q]) = pending x l ++ [q] ∧ (length (pending x l) + 1 < x)%nat.
Proof.
  intros Hl. unfold pending. rewrite length_app. cbn [length].
  destruct (Nat.eqb_spec (length l + 1) x) as [E|E].
  - rewrite (proj2 (Nat.ltb_lt _ _)), (proj2 (Nat.ltb_ge _ _)) by lia. split; [done|].
    rewrite drop_ge; [done|]. rewrite length_app. cbn. lia.
  - destruct (Nat.ltb_spec (length l) x).
    + rewrite (proj2 (Nat.ltb_lt _ _)) by lia. split; [done|lia].
    + rewrite (proj2 (Nat.ltb_ge _ _)) by lia. rewrite drop_app_le by lia.
      split; [done|]. rewrite length_drop. lia.
Qed.

(** One more vote: the set is full exactly at the [x]-th; erased then, kept otherwise. *)
Lemma tracks_vote x m votes d q :
  tracks x m votes → NoDup (votes_for d votes ++ [q]) →
  (length (votes_for d votes) + 1 < 2 * x)%nat →
  let s := add_vote m d q in
  let full := (length (votes_for d votes ++ [q]) =? x)%nat in
  (x <=? length s)%nat = full
  ∧ tracks x (if full then delete d (<[d := s]> m) else <[d := s]> m) (votes ++ [(d, q)]).
Proof.
  intros Ht Hnd Hl s full. unfold s, add_vote. rewrite Ht, default_stored.
  set (l := votes_for d votes) in *. pose proof (pending_snoc x l q Hl) as Hp.
  assert (q ∉ l) as Hq by (rewrite NoDup_app in Hnd; set_solver).
  unfold full. rewrite length_app. cbn [length].
  assert (length (sset_insert q (sset_of (pending x l))) = length (pending x l) + 1)%nat as Hlen.
  { rewrite sset_insert_length, sset_of_length; [lia| |].
    - apply NoDup_app in Hnd as [Hnd _]. unfold pending. case_goal; [done|].
      rewrite <-(take_drop x l) in Hnd. by apply NoDup_app in Hnd as (_ & _ & ?).
    - rewrite elem_of_sset_of. unfold pending. case_goal; [done|].
      intros Hd. apply Hq. rewrite <-(take_drop x l). set_solver. }
  destruct (Nat.eqb_spec (length l + 1) x) as [E|E].
  - destruct Hp as [Hp1 Hp2]. rewrite Hlen, Hp1. split; [apply Nat.leb_le; lia|].
    intros d'. destruct (decide (d = d')) as [<-|Hd].
    + rewrite lookup_delete_eq, votes_for_eq; fold l. by rewrite Hp2.
    + by rewrite lookup_delete_ne, lookup_insert_ne, votes_for_ne.
  - destruct Hp as [Hp1 Hp2]. rewrite Hlen. split; [apply Nat.leb_gt; lia|].
    intros d'. destruct (decide (d = d')) as [<-|Hd].
    + rewrite lookup_insert_eq, votes_for_eq; fold l. by rewrite Hp1, stored_snoc, Ht, default_stored.
    + by rewrite lookup_insert_ne, votes_for_ne.
Qed.

(** ** The refinement *)
Section refinement.
Context {M E : Type} {RW : RbftWire} {IM : IMsgManageable M} {IX : IForConsensusExecutable E}
  {IXL : IForConsensusExecutableLaws E}.
Context (eps : list string) (e0 : Z) (p : string).
Implicit Types n : Rbft (M:=M) (E:=E).

(** A node in the view [e0] of the cluster [eps], outside a view change. *)
Record in_view (me : string) n : Prop := {
  iv_endpoints : all_endpoints n = eps;
  iv_epoch : epoch n = e0;
  iv_normal : view_change_state n = false;
  iv_received : received_commands n = [];
  iv_me : listened_endpoint n = me;
  iv_handlers : handlers n = if decide (me = p) then primary_handlers else sub_handlers
}.

(** The executor, started as [ex], has executed [cmds]. *)
Definition ran (ex : E) (h : list string) (cmds : list string) n : Prop :=
  ∃ cs, run_cmds cmds ex = Ret (cs, exe n) ∧ command_history n = h ++ cs.

Definition subs : list string := filter (λ q, q ≠ p) eps.

Record votes_ok (me : string) (a : Abs) : Prop := {
  vo_confirms : ∀ d, NoDup (votes_for d (a_confirms a)) ∧ votes_for d (a_confirms a) ⊆ subs;
  vo_commits : ∀ d, NoDup (votes_for d (a_commits a)) ∧ votes_for d (a_commits a) ⊆ subs;
  vo_self : ∀ d, me ∈ votes_for d (a_commits a) ↔ (quorum eps <= length (votes_for d (a_confirms a)))%nat
}.

Record refines (me : string) (ex : E) (h : list string) (a : Abs) n : Prop := {
  rf_view : in_view me n;
  rf_votes : votes_ok me a;
  rf_confirms : tracks (quorum eps) (to_be_confirmed_commands n) (a_confirms a);
  rf_commits : tracks (quorum eps) (to_be_committed_commands n) (a_commits a);
  rf_ran : ran ex h (a_executed a) n
}.

Context (Hfits : fits eps) (Hp : endpoint_of_epoch eps e0 = Ret p).

Lemma finally_execute_it_eq ex h cmds d n :
  ran ex h cmds n →
  ∃ c' x', finally_execute_it d n = (set_command_history (command_history n ++ [c']) (set_exe x' n), Ret tt)
    ∧ ran ex h (cmds ++ [d]) (set_command_history (command_history n ++ [c']) (set_exe x' n)).
Proof.
  intros (cs & Hr & Hh). unfold finally_execute_it.
  destruct (cnsss_execute_total d (exe n)) as (ans & c' & x' & Hx). rewrite Hx.
  exists c', x'. split; [done|]. exists (cs ++ [c']). cbn.
  rewrite run_cmds_app, Hr. cbn. rewrite Hx. cbn. by rewrite Hh, app_assoc.
Qed.

Lemma in_eps_p : p ∈ eps.
Proof. destruct (endpoint_of_epoch_Ret eps e0 Hfits) as (q & E1 & Hq). rewrite Hp in E1. by simplify_eq. Qed.

Lemma subs_length : NoDup eps → (2 <= length eps)%nat → (quorum eps <= length subs)%nat.
Proof.
  intros Hn H2. pose proof (quorum_bounds eps H2) as [[_ Hq] _]. etrans; [exact Hq|].
  assert (length eps <= length (p :: subs))%nat as H; [|cbn in H; lia].
  apply submseteq_length, NoDup_submseteq; [done|]. intros y Hy. unfold subs.
  rewrite elem_of_cons, list_elem_of_filter. destruct (decide (y = p)); auto.
Qed.

(** Votes of distinct subs are too few for two quorums. *)
Lemma votes_bound l q :
  NoDup eps → (2 <= length eps)%nat → NoDup (l ++ [q]) → l ++ [q] ⊆ subs →
  (length l + 1 < 2 * quorum eps)%nat.
Proof.
  intros Hnd H2 Hl Hsub. pose proof (quorum_bounds eps H2) as (_ & Hq & _).
  assert (length (l ++ [q]) <= length subs)%nat as H1
    by (apply submseteq_length, NoDup_submseteq; [done|]; intros y; apply Hsub).
  assert (length subs < length eps)%nat as H3.
  { apply length_filter_lt with p; [apply in_eps_p|]. naive_solver. }
  rewrite length_app in H1. cbn in H1. lia.
Qed.

Context (Hnd : NoDup eps) (H2 : (2 <= length eps)%nat).

(** A vote not yet cast, by a sub. *)
Definition fresh_vote (q d : string) (l : list (string * string)) : Prop := q ∈ subs ∧ q ∉ votes_for d l.

Lemma fresh_ok q d l :
  fresh_vote q d l → NoDup (votes_for d l) → votes_for d l ⊆ subs →
  NoDup (votes_for d l ++ [q]) ∧ votes_for d l ++ [q] ⊆ subs
  ∧ (length (votes_for d l) + 1 < 2 * quorum eps)%nat.
Proof.
  intros [Hq Hf] Hn Hs. assert (NoDup (votes_for d l ++ [q])) as Hn'.
  { apply NoDup_app. split; [done|]. split; [|apply NoDup_singleton]. set_solver. }
  assert (votes_for d l ++ [q] ⊆ subs) as Hs' by set_solver.
  split; [done|]. split; [done|]. by apply votes_bound with q.
Qed.

(** The part of a node that the commit path changes. *)
Definition committed_update n m' h' x' : Rbft (M:=M) (E:=E) :=
  set_to_be_committed_commands m' (set_command_history h' (set_exe x' n)).

Lemma add_committed_eq ex h cmds votes q d n :
  all_endpoints n = eps → tracks (quorum eps) (to_be_committed_commands n) votes → ran ex h cmds n →
  NoDup (votes_for d votes ++ [q]) → (length (votes_for d votes) + 1 < 2 * quorum eps)%nat →
  ∃ m' h' x', let n' := committed_update n m' h' x' in
    add_to_to_be_committed_commands q d n = (n', Ret tt)
    ∧ tracks (quorum eps) m' (votes ++ [(d, q)])
    ∧ ran ex h (if (length (votes_for d (votes ++ [(d, q)])) =? quorum eps)%nat then cmds ++ [d] else cmds) n'.
Proof.
  intros Heps Ht Hr Hn Hl. destruct (tracks_vote _ _ _ _ _ Ht Hn Hl) as [Hfull Ht'].
  rewrite votes_for_eq. unfold add_to_to_be_committed_commands. unfold_st. cbn.
  rewrite Heps, enough_spec, Hfull by done.
  destruct (_ =? quorum eps)%nat.
  - destruct (finally_execute_it_eq ex h cmds d
      (set_to_be_committed_commands (<[d:=add_vote (to_be_committed_commands n) d q]>
         (to_be_committed_commands n)) n)) as (c' & x' & -> & Hran); [done|].
    cbn in *. eexists _, _, _. split; [reflexivity|]. split; [exact Ht'|exact Hran].
  - eexists _, (command_history n), (exe n). split; [reflexivity|]. split; [exact Ht'|exact Hr].
Qed.

Lemma in_view_committed me n m' h' x' : in_view me n → in_view me (committed_update n m' h' x').
Proof. by intros [? ? ? ? ? ?]. Qed.

(** A commit of another node. *)
Lemma vote_commit_refines me ex h q d a n :
  refines me ex h a n → q ≠ me → fresh_vote q d (a_commits a) →
  ∃ n', add_to_to_be_committed_commands q d n = (n', Ret tt)
    ∧ refines me ex h (abs_commit (quorum eps) q d a) n' ∧ outbox n' = outbox n.
Proof.
  intros [Hv Ho Hcf Hcm Hr] Hq Hf. destruct (vo_commits _ _ Ho d) as [Hn Hs].
  destruct (fresh_ok _ _ _ Hf Hn Hs) as (Hn' & Hs' & Hl).
  destruct (add_committed_eq ex h _ _ q d n (iv_endpoints _ _ Hv) Hcm Hr Hn' Hl)
    as (m' & h' & x' & -> & Ht & Hran).
  eexists. split; [done|]. split; [|done]. constructor; try done.
  - by apply in_view_committed.
  - constructor; intros d'; cbn; [apply Ho| |].
    + destruct (decide (d = d')) as [<-|Hd]; [by rewrite votes_for_eq|].
      rewrite votes_for_ne by done. apply Ho.
    + rewrite <-(vo_self _ _ Ho d'), votes_for_snoc. case_decide; set_solver.
Qed.

(** A confirmation, of another node or of the node itself. *)
Lemma confirm_refines me ex h q d a n :
  me ∈ subs → refines me ex h a n → fresh_vote q d (a_confirms a) →
  let r := abs_confirm (quorum eps) eps p me q d a in
  ∃ n', add_to_to_be_confirmed_commands q d n = (n', Ret tt)
    ∧ refines me ex h r.1 n' ∧ outbox n' = outbox n ++ r.2.
Proof.
  intros Hme [Hv Ho Hcf Hcm Hr] Hf. destruct (vo_confirms _ _ Ho d) as [Hn Hs].
  destruct (fresh_ok _ _ _ Hf Hn Hs) as (Hn' & Hs' & Hl).
  destruct (tracks_vote _ _ _ _ _ Hcf Hn' Hl) as [Hfull Ht'].
  unfold add_to_to_be_confirmed_commands, abs_confirm. unfold_st. cbn.
  rewrite (iv_endpoints _ _ Hv), enough_spec, Hfull, votes_for_eq by done.
  destruct (Nat.eqb_spec (length (votes_for d (a_confirms a) ++ [q])) (quorum eps)) as [E1|E1].
  2:{ eexists. split; [reflexivity|]. split; [|by rewrite app_nil_r].
      constructor; try done; [by destruct Hv|]. constructor; intros d'; cbn; [|apply Ho|].
      - destruct (decide (d = d')) as [<-|Hd]; [by rewrite votes_for_eq|].
        rewrite votes_for_ne by done. apply Ho.
      - rewrite (vo_self _ _ Ho d'). destruct (decide (d = d')) as [<-|Hd]; [|by rewrite votes_for_ne].
        rewrite votes_for_eq. rewrite length_app in *. cbn in *. lia. }
  set (n1 := set_to_be_confirmed_commands _ n).
  rewrite (boardcast_to_other_subs_eq _ _ p) by (destruct Hv; cbn; congruence).
  set (n2 := sending _ n1).
  assert (me ∉ votes_for d (a_commits a)) as Hnot.
  { rewrite (vo_self _ _ Ho d). rewrite length_app in E1. cbn in E1. lia. }
  destruct (vo_commits _ _ Ho d) as [Hn2 Hs2].
  destruct (fresh_ok me d (a_commits a) (conj Hme Hnot) Hn2 Hs2) as (Hn2' & Hs2' & Hl2).
  cbn. rewrite (iv_me _ _ Hv).
  destruct (add_committed_eq ex h (a_executed a) (a_commits a) me d n2)
    as (m' & h' & x' & -> & Ht & Hran); [by destruct Hv|done..|].
  eexists. split; [reflexivity|]. split.
  - constructor; try done; [by destruct Hv|]. constructor; intros d'; cbn.
    + destruct (decide (d = d')) as [<-|Hd]; [by rewrite votes_for_eq|].
      rewrite votes_for_ne by done. apply Ho.
    + destruct (decide (d = d')) as [<-|Hd]; [by rewrite votes_for_eq|].
      rewrite votes_for_ne by done. apply Ho.
    + destruct (decide (d = d')) as [<-|Hd].
      * rewrite !votes_for_eq, E1. split; [done|]. set_solver.
      * rewrite !votes_for_ne by done. apply Ho.
  - cbn. by rewrite (iv_endpoints _ _ Hv), (iv_me _ _ Hv).
Qed.

Lemma subs_ne q : q ∈ subs → q ≠ p ∧ q ∈ eps.
Proof. unfold subs. by rewrite list_elem_of_filter. Qed.
Lemma sub_handlers_of me n : me ∈ subs → in_view me n → handlers n = sub_handlers.
Proof. intros [Hne _]%subs_ne Hv. rewrite (iv_handlers _ _ Hv). by rewrite decide_False. Qed.

Ltac run_sub Hme Hv :=
  unfold deliver; rewrite (sub_handlers_of _ _ Hme Hv); cbn [find_handler];
  cbv [find_handler sub_handlers List.find fmap option_fmap option_map String.eqb Ascii.eqb Bool.eqb snd run_handler].

Lemma deliver_commit me ex h q d a n :
  me ∈ subs → refines me ex h a n → q ≠ me → fresh_vote q d (a_commits a) →
  ∃ n', deliver q "/pleaseCommitThis" d n = (n', Ret tt)
    ∧ refines me ex h (abs_commit (quorum eps) q d a) n' ∧ outbox n' = outbox n.
Proof.
  intros Hme Hr Hq Hf. pose proof (rf_view _ _ _ _ _ Hr) as Hv. run_sub Hme Hv.
  unfold handle_commit_for_sub. unfold_st. rewrite (iv_normal _ _ Hv). by apply vote_commit_refines.
Qed.

Lemma deliver_confirm me ex h q d a n :
  me ∈ subs → refines me ex h a n → fresh_vote q d (a_confirms a) →
  let r := abs_confirm (quorum eps) eps p me q d a in
  ∃ n', deliver q "/pleaseConfirmThis" d n = (n', Ret tt)
    ∧ refines me ex h r.1 n' ∧ outbox n' = outbox n ++ r.2.
Proof.
  intros Hme Hr Hf. pose proof (rf_view _ _ _ _ _ Hr) as Hv. run_sub Hme Hv.
  unfold handle_confirm_for_sub. unfold_st. rewrite (iv_normal _ _ Hv). by apply confirm_refines.
Qed.

Lemma refines_sending me ex h a n l : refines me ex h a n → refines me ex h a (sending l n).
Proof. intros [[? ? ? ? ? ?] ? ? ? ?]. by constructor; [constructor|..]. Qed.

Lemma order_refines me ex h d a n :
  me ∈ subs → refines me ex h a n → fresh_vote me d (a_confirms a) →
  let r := abs_order (quorum eps) eps p me d a in
  ∃ n', handle_execute_for_sub1 p d n = (n', Ret tt)
    ∧ refines me ex h r.1 n' ∧ outbox n' = outbox n ++ r.2.
Proof.
  intros Hme Hr Hf. pose proof (rf_view _ _ _ _ _ Hr) as Hv.
  unfold handle_execute_for_sub1, primary, abs_order. unfold_st. rewrite (iv_normal _ _ Hv).
  rewrite (iv_endpoints _ _ Hv), (iv_epoch _ _ Hv), Hp, String.eqb_refl.
  rewrite (boardcast_to_other_subs_eq _ _ p) by (destruct Hv; cbn; congruence). cbn.
  rewrite (iv_me _ _ Hv), (iv_endpoints _ _ Hv).
  destruct (confirm_refines me ex h me d a (sending (sends_to (other_subs me p eps) "/pleaseConfirmThis" d) n))
    as (n' & -> & Hr' & Ho); [done|by apply refines_sending|done|].
  destruct (abs_confirm _ _ _ _ _ _ _) as [a' out]. cbn in *.
  exists n'. split; [done|]. split; [done|]. by rewrite Ho, app_assoc.
Qed.
Lemma deliver_order me ex h d a n :
  me ∈ subs → refines me ex h a n → fresh_vote me d (a_confirms a) →
  let r := abs_order (quorum eps) eps p me d a in
  ∃ n', deliver p "/pleaseExecuteThis" d n = (n', Ret tt)
    ∧ refines me ex h r.1 n' ∧ outbox n' = outbox n ++ r.2.
Proof.
  intros Hme Hr Hf. pose proof (rf_view _ _ _ _ _ Hr) as Hv. run_sub Hme Hv. by apply order_refines.
Qed.

(** A command that does not come from the primary is forwarded to it. *)
Lemma forward_refines me ex h q d a n :
  me ∈ subs → refines me ex h a n → q ≠ p →
  handle_execute_for_sub1 q d n = (sending [mkSend p "/pleaseExecuteThis" d] n, Ret tt).
Proof.
  intros Hme Hr Hq. pose proof (rf_view _ _ _ _ _ Hr) as Hv.
  unfold handle_execute_for_sub1, primary. unfold_st. rewrite (iv_normal _ _ Hv).
  rewrite (iv_endpoints _ _ Hv), (iv_epoch _ _ Hv), Hp.
  by rewrite (proj2 (String.eqb_neq _ _)).
Qed.

(** The primary executes at once. *)
Lemma lead_refines ex h q d a n :
  refines p ex h a n →
  let r := abs_lead eps p d a in
  ∃ n', handle_execute_for_primary1 q d n = (n', Ret tt)
    ∧ refines p ex h r.1 n' ∧ outbox n' = outbox n ++ r.2.
Proof.
  intros [Hv Ho Hcf Hcm Hr]. unfold handle_execute_for_primary1. unfold_st.
  rewrite (iv_normal _ _ Hv), (iv_received _ _ Hv). cbn.
  destruct (finally_execute_it_eq ex h (a_executed a) d n Hr) as (c' & x' & -> & Hr').
  rewrite boardcast_to_others_eq. eexists. split; [reflexivity|]. split.
  - constructor; try done; [by destruct Hv|by destruct Ho].
  - cbn. by rewrite (iv_endpoints _ _ Hv), (iv_me _ _ Hv).
Qed.
Lemma deliver_lead ex h q d a n :
  refines p ex h a n →
  let r := abs_lead eps p d a in
  ∃ n', deliver q "/pleaseExecuteThis" d n = (n', Ret tt)
    ∧ refines p ex h r.1 n' ∧ outbox n' = outbox n ++ r.2.
Proof.
  intros Hr. pose proof (rf_view _ _ _ _ _ Hr) as Hv.
  unfold deliver. rewrite (iv_handlers _ _ Hv), decide_True by done.
  cbv [find_handler primary_handlers List.find fmap option_fmap option_map String.eqb Ascii.eqb Bool.eqb snd run_handler].
  by apply lead_refines.
Qed.

(** The client's call, at the primary and at a sub. *)
Lemma handle_execute_primary ex h q d a n :
  refines p ex h a n →
  let r := abs_lead eps p d a in
  ∃ n', handle_execute q d n = (n', Ret "")
    ∧ refines p ex h r.1 n' ∧ outbox n' = outbox n ++ r.2.
Proof.
  intros Hr. pose proof (rf_view _ _ _ _ _ Hr) as Hv.
  unfold handle_execute, is_primary, primary. unfold_st.
  rewrite (iv_normal _ _ Hv), (iv_endpoints _ _ Hv), (iv_epoch _ _ Hv), Hp, (iv_me _ _ Hv), String.eqb_refl.
  destruct (lead_refines ex h q d a n Hr) as (n' & -> & ?). by exists n'.
Qed.
Lemma handle_execute_sub me ex h q d a n :
  me ∈ subs → refines me ex h a n → q ≠ p →
  handle_execute q d n = (sending [mkSend p "/pleaseExecuteThis" d] n, Ret "").
Proof.
  intros Hme Hr Hq. pose proof (rf_view _ _ _ _ _ Hr) as Hv. destruct (subs_ne _ Hme) as [Hne _].
  unfold handle_execute, is_primary, primary. unfold_st.
  rewrite (iv_normal _ _ Hv), (iv_endpoints _ _ Hv), (iv_epoch _ _ Hv), Hp, (iv_me _ _ Hv).
  rewrite (proj2 (String.eqb_neq _ _)) by done. by rewrite (forward_refines me ex h q d a n).
Qed.
End refinement.
