(* ===== verification/RbftCluster.v ===== *)
(** * RBFT: a cluster

    The nodes of Rbft.v and the messages in flight between them.  A step
    delivers a message in any order, gives a command to a node, lets three
    seconds pass at a node, loses a message, or adds a message that a node
    outside the honest ones made up under its own endpoint. *)
From Stdlib Require Import ZArith Strings.String Strings.Ascii Lia.
From stdpp Require Import base tactics strings gmap option list.
From S2P Require Import Prelude Net Codec Consensus Rbft RbftVotes.

(** ** Steps *)
Section cluster.
Context {M E : Type} {RW : RbftWire} {IM : IMsgManageable M} {IX : IForConsensusExecutable E}.

Record Cluster := mkCluster {
  nodes : gmap string (Rbft (M:=M) (E:=E));      (* the honest nodes, by endpoint *)
  flight : list (string * Send)                  (* sender, message *)
}.

Inductive label :=
  | LDeliver (q : string) (m : Send)
  | LClient (d : string)
  | LTick
  | LLose
  | LFaulty (q : string) (m : Send).

(** The node [s] becomes [n]; what it sent is in flight. *)
Definition with_node (c : Cluster) (s : string) n (fl : list (string * Send)) : Cluster :=
  mkCluster (<[s := set_outbox [] n]> (nodes c)) (fl ++ (pair s <$> outbox n)).

Inductive step : label → Cluster → Cluster → Prop :=
  | step_deliver c l1 q m l2 n n' r :
      flight c = l1 ++ (q, m) :: l2 → nodes c !! to_endpoint m = Some n →
      deliver q (to_target m) (to_data m) n = (n', r) → no_ub r →
      step (LDeliver q m) c (with_node c (to_endpoint m) n' (l1 ++ l2))
  | step_client c s client d n n' r :
      nodes c !! s = Some n → (∀ s n, nodes c !! s = Some n → client ∉ all_endpoints n) →
      handle_execute client d n = (n', r) → no_ub r →
      step (LClient d) c (with_node c s n' (flight c))
  | step_tick c s n n' r :
      nodes c !! s = Some n → timer_tick n = (n', r) → no_ub r →
      step LTick c (with_node c s n' (flight c))
  | step_lose c l1 m l2 :
      flight c = l1 ++ m :: l2 → step LLose c (mkCluster (nodes c) (l1 ++ l2))
  | step_faulty c q m :
      nodes c !! q = None → step (LFaulty q m) c (mkCluster (nodes c) (flight c ++ [(q, m)])).

Inductive steps : list label → Cluster → Cluster → Prop :=
  | steps_nil c : steps [] c c
  | steps_snoc ls l c c' c'' : steps ls c c' → step l c' c'' → steps (ls ++ [l]) c c''.

(** A cluster just constructed: the honest nodes [hon], with the configuration [eps]. *)
Definition initial (eps hon : list string) (mgr : string → M) (ex : string → E) (c : Cluster) : Prop :=
  (∀ s, nodes c !! s = None ↔ s ∉ hon)
  ∧ (∀ s n, nodes c !! s = Some n → create s (mgr s) (ex s) eps = (n, Ret tt))
  ∧ flight c = [].

(** Runs in which messages are only delivered and commands only given. *)
Definition calm (l : label) : Prop := match l with LDeliver _ _ | LClient _ => True | _ => False end.
Definition commands (ls : list label) : list string :=
  omap (λ l, match l with LClient d => Some d | _ => None end) ls.
Definition deliveries (ls : list label) : nat :=
  length (omap (λ l, match l with LDeliver _ _ => Some tt | _ => None end) ls).
End cluster.
Arguments Cluster : clear implicits.

(** Sums over lists that differ in one place. *)
Lemma sum_change {B} (f g : B → nat) (y : B) l :
  NoDup l → y ∈ l → (∀ z, z ≠ y → f z = g z) →
  sum_list_with f l + g y = sum_list_with g l + f y.
Proof.
  induction 1 as [|z l Hz Hl IH]; [by intros ?%elem_of_nil|].
  intros [<-|Hy]%elem_of_cons Hfg; cbn.
  - assert (sum_list_with f l = sum_list_with g l) as ->; [|lia].
    clear IH Hl. induction l as [|w l IH]; [done|]. cbn. apply not_elem_of_cons in Hz as [Hw Hz].
    rewrite (Hfg w) by congruence. by rewrite IH.
  - specialize (IH Hy Hfg). rewrite (Hfg z) by congruence. lia.
Qed.
Lemma sum_same {B} (f g : B → nat) l : (∀ z, z ∈ l → f z = g z) → sum_list_with f l = sum_list_with g l.
Proof. induction l as [|w l IH]; [done|]. cbn. intros H. rewrite H, IH; [done|set_solver..]. Qed.

(** ** The messages of a view *)
Section protocol.
Context (eps : list string) (p : string).
Abbreviation subs := (subs eps p).
Abbreviation x := (quorum eps).

Definition b2n (P : Prop) `{Decision P} : nat := if decide P then 1 else 0.
Definition cnt (q s t d : string) (fl : list (string * Send)) : nat :=
  length (filter (λ m, m = (q, mkSend s t d)) fl).
Definition cnt_fwd (d : string) (fl : list (string * Send)) : nat :=
  length (filter (λ m, m.1 ≠ p ∧ m.2 = mkSend p "/pleaseExecuteThis" d) fl).

Arguments cnt : simpl never.
Arguments cnt_fwd : simpl never.

Definition cf (A : string → Abs) (s d : string) : list string := votes_for d (a_confirms (A s)).
Definition cm (A : string → Abs) (s d : string) : list string := votes_for d (a_commits (A s)).

Inductive shape : string * Send → Prop :=
  | shape_forward q d : q ≠ p → shape (q, mkSend p "/pleaseExecuteThis" d)
  | shape_order s d : s ∈ subs → shape (p, mkSend s "/pleaseExecuteThis" d)
  | shape_confirm q s d : q ∈ subs → s ∈ subs → q ≠ s → shape (q, mkSend s "/pleaseConfirmThis" d)
  | shape_commit q s d : q ∈ subs → s ∈ subs → q ≠ s → shape (q, mkSend s "/pleaseCommitThis" d).

(** Every message of the view is in flight or counted by its receiver, once. *)
Record Inv (A : string → Abs) (given : list string) (fl : list (string * Send)) : Prop := {
  i_shape : Forall shape fl;
  i_led : NoDup (a_executed (A p));
  i_forward : ∀ d, cnt_fwd d fl + b2n (d ∈ a_executed (A p)) = b2n (d ∈ given);
  i_order : ∀ s d, s ∈ subs →
    cnt p s "/pleaseExecuteThis" d fl + b2n (s ∈ cf A s d) = b2n (d ∈ a_executed (A p));
  i_confirm : ∀ q s d, q ∈ subs → s ∈ subs → q ≠ s →
    cnt q s "/pleaseConfirmThis" d fl + b2n (q ∈ cf A s d) = b2n (q ∈ cf A q d);
  i_commit : ∀ q s d, q ∈ subs → s ∈ subs → q ≠ s →
    cnt q s "/pleaseCommitThis" d fl + b2n (q ∈ cm A s d) = b2n (x <= length (cf A q d));
  i_executed : ∀ s, s ∈ subs → NoDup (a_executed (A s))
    ∧ ∀ d, d ∈ a_executed (A s) ↔ x <= length (cm A s d)
}.

Lemma cnt_cons q s t d m fl : cnt q s t d (m :: fl) = b2n (m = (q, mkSend s t d)) + cnt q s t d fl.
Proof. unfold cnt, b2n. rewrite filter_cons. by case_decide. Qed.
Lemma cnt_cons_ne q s t d m fl : m ≠ (q, mkSend s t d) → cnt q s t d (m :: fl) = cnt q s t d fl.
Proof. intros. unfold cnt. by rewrite filter_cons_False. Qed.
Lemma cnt_app q s t d fl fl' : cnt q s t d (fl ++ fl') = cnt q s t d fl + cnt q s t d fl'.
Proof. unfold cnt. by rewrite filter_app, length_app. Qed.
Lemma cnt_fwd_cons d m fl :
  cnt_fwd d (m :: fl) = b2n (m.1 ≠ p ∧ m.2 = mkSend p "/pleaseExecuteThis" d) + cnt_fwd d fl.
Proof. unfold cnt_fwd, b2n. rewrite filter_cons. by case_decide. Qed.
Lemma cnt_fwd_cons_ne d m fl : to_endpoint m.2 ≠ p → cnt_fwd d (m :: fl) = cnt_fwd d fl.
Proof. intros Hm. unfold cnt_fwd. rewrite filter_cons_False; [done|]. intros [_ E]. by rewrite E in Hm. Qed.
Lemma cnt_fwd_app d fl fl' : cnt_fwd d (fl ++ fl') = cnt_fwd d fl + cnt_fwd d fl'.
Proof. unfold cnt_fwd. by rewrite filter_app, length_app. Qed.

(** The counts of a broadcast. *)
Lemma cnt_sends q s t d me L t' d' :
  NoDup L → cnt q s t d (pair me <$> sends_to L t' d') = b2n (q = me ∧ t = t' ∧ d = d' ∧ s ∈ L).
Proof.
  unfold sends_to. induction 1 as [|y L Hy HL IH]; cbn; [unfold b2n; rewrite decide_False; [done|set_solver]|].
  rewrite cnt_cons, IH. unfold b2n.
  repeat case_decide; simplify_eq; try set_solver.
Qed.
Lemma cnt_fwd_sends d me L t d' : p ∉ L → cnt_fwd d (pair me <$> sends_to L t d') = 0.
Proof.
  unfold sends_to. induction L as [|y L IH]; [done|]. intros [Hy HL]%not_elem_of_cons. cbn.
  rewrite cnt_fwd_cons, IH by done. unfold b2n. rewrite decide_False; [done|]. cbn. naive_solver.
Qed.

Lemma Inv_perm A given fl fl' : fl ≡ₚ fl' → Inv A given fl → Inv A given fl'.
Proof.
  intros Hp [H1 H2 H3 H4 H5 H6 H7].
  assert (∀ q s t d, cnt q s t d fl' = cnt q s t d fl) as Hc by (intros; unfold cnt; by rewrite Hp).
  assert (∀ d, cnt_fwd d fl' = cnt_fwd d fl) as Hf by (intros; unfold cnt_fwd; by rewrite Hp).
  constructor; [by rewrite <-Hp|done|..]; intros; rewrite ?Hc, ?Hf; auto.
Qed.

Definition upd (A : string → Abs) (s : string) (a : Abs) : string → Abs :=
  λ q, if decide (q = s) then a else A q.
Lemma upd_eq A s a : upd A s a s = a.
Proof. unfold upd. by rewrite decide_True. Qed.
Lemma upd_ne A s a q : q ≠ s → upd A s a q = A q.
Proof. intros. unfold upd. by rewrite decide_False. Qed.

Lemma b2n_le P `{Decision P} : b2n P <= 1.
Proof. unfold b2n. case_decide; lia. Qed.
Lemma b2n_true P `{Decision P} : P → b2n P = 1.
Proof. intros. unfold b2n. by rewrite decide_True. Qed.
Lemma b2n_false P `{Decision P} : ¬ P → b2n P = 0.
Proof. intros. unfold b2n. by rewrite decide_False. Qed.
Lemma b2n_iff P Q `{Decision P, Decision Q} : (P ↔ Q) → b2n P = b2n Q.
Proof. intros. unfold b2n. by repeat case_decide; naive_solver. Qed.

Lemma b2n_inj k P Q `{Decision P, Decision Q} : k + b2n P = b2n Q → k = 0 → P ↔ Q.
Proof. unfold b2n. intros E ->. repeat case_decide; naive_solver. Qed.

(** A message that becomes a vote. *)
Lemma b2n_vote (l : list string) q s t d r d' k :
  q ∉ l ∨ d ≠ d' →
  k + 0 + b2n (r ∈ l ∨ (d = d' ∧ r = q)) = b2n ((q, mkSend s t d) = (r, mkSend s t d')) + k + b2n (r ∈ l).
Proof.
  intros Hf. destruct (decide (d = d' ∧ r = q)) as [[-> ->]|Hn].
  - rewrite (b2n_true (_ = _)), (b2n_true (_ ∨ _)), (b2n_false (q ∈ l)) by naive_solver. lia.
  - rewrite (b2n_false (_ = _)) by naive_solver. rewrite (b2n_iff (_ ∨ _) (r ∈ l)) by naive_solver. lia.
Qed.

Lemma cf_upd_eq A s a d : cf (upd A s a) s d = votes_for d (a_confirms a).
Proof. unfold cf. by rewrite upd_eq. Qed.
Lemma cf_upd_ne A s a q d : q ≠ s → cf (upd A s a) q d = cf A q d.
Proof. intros. unfold cf. by rewrite upd_ne. Qed.
Lemma cm_upd_eq A s a d : cm (upd A s a) s d = votes_for d (a_commits a).
Proof. unfold cm. by rewrite upd_eq. Qed.
Lemma cm_upd_ne A s a q d : q ≠ s → cm (upd A s a) q d = cm A q d.
Proof. intros. unfold cm. by rewrite upd_ne. Qed.

(** A vote that adds at most one command keeps the log right. *)
Lemma executed_commit q d (a : Abs) :
  1 <= x →
  NoDup (a_executed a) ∧ (∀ d, d ∈ a_executed a ↔ x <= length (votes_for d (a_commits a))) →
  let a' := abs_commit x q d a in
  NoDup (a_executed a') ∧ ∀ d, d ∈ a_executed a' ↔ x <= length (votes_for d (a_commits a')).
Proof.
  intros Hx [Hn He]. cbn. rewrite votes_for_eq, length_app. cbn.
  destruct (Nat.eqb_spec (length (votes_for d (a_commits a)) + 1) x) as [E1|E1].
  - split.
    + apply NoDup_app. split; [done|]. split; [|apply NoDup_singleton].
      intros y Hy ->%list_elem_of_singleton. apply He in Hy. lia.
    + intros d'. rewrite elem_of_app, list_elem_of_singleton, He.
      destruct (decide (d' = d)) as [->|Hd].
      * rewrite votes_for_eq, length_app. cbn. split; [lia|by right].
      * rewrite votes_for_ne by done. naive_solver.
  - split; [done|]. intros d'. rewrite He. destruct (decide (d' = d)) as [->|Hd].
    + rewrite votes_for_eq, length_app. cbn. lia.
    + by rewrite votes_for_ne.
Qed.

Lemma Inv_ext A A' given fl : (∀ r, A' r = A r) → Inv A given fl → Inv A' given fl.
Proof.
  intros HA [H1 H2 H3 H4 H5 H6 H7].
  constructor; intros; unfold cf, cm; rewrite ?HA; auto; by (apply H4 || apply H5 || apply H6 || apply H7).
Qed.

Context (Hx : 1 <= x).

Lemma Inv_commit A given q s d fl :
  q ∈ subs → s ∈ subs → q ≠ s → Inv A given ((q, mkSend s "/pleaseCommitThis" d) :: fl) →
  (q ∉ cm A s d) ∧ Inv (upd A s (abs_commit x q d (A s))) given fl.
Proof.
  intros Hq Hs Hne HI. pose proof HI as [H1 H2 H3 H4 H5 H6 H7].
  assert (s ≠ p) as Hsp by (by apply subs_ne in Hs as [? _]).
  assert (q ∉ cm A s d) as Hfresh.
  { specialize (H6 q s d Hq Hs Hne). rewrite cnt_cons, b2n_true in H6 by done.
    pose proof (b2n_le (x <= length (cf A q d))). intros Hin. rewrite (b2n_true (q ∈ _)) in H6 by done. lia. }
  split; [done|]. assert (∀ r d', cf (upd A s (abs_commit x q d (A s))) r d' = cf A r d') as Hcf.
  { intros r d'. destruct (decide (r = s)) as [->|]; [by rewrite cf_upd_eq|by rewrite cf_upd_ne]. }
  constructor.
  - by inversion H1.
  - by rewrite upd_ne.
  - intros d'. rewrite upd_ne by done. by rewrite <-H3, cnt_fwd_cons_ne.
  - intros r d' Hr. rewrite Hcf, upd_ne, <-(H4 r d') by done. by rewrite cnt_cons_ne by naive_solver.
  - intros r r' d' Hr Hr' Hrr. rewrite !Hcf, <-(H5 r r' d') by done.
    by rewrite cnt_cons_ne by naive_solver.
  - intros r r' d' Hr Hr' Hrr. rewrite Hcf, <-(H6 r r' d') by done. rewrite cnt_cons.
    destruct (decide (r' = s)) as [->|Hrs].
    + rewrite cm_upd_eq. cbn. rewrite (b2n_iff _ _ (elem_votes_snoc _ _ _ _ _)). fold (cm A s d').
      rewrite <-(Nat.add_0_r (cnt _ _ _ _ _)) at 1. apply b2n_vote. destruct (decide (d = d')) as [<-|]; [by left|by right].
    + rewrite cm_upd_ne by done. rewrite (b2n_false (_ = _)) by (clear -Hrs; naive_solver). done.
  - intros r Hr. destruct (decide (r = s)) as [->|Hrs].
    + rewrite upd_eq. unfold cm. rewrite upd_eq. apply executed_commit; [done|]. by apply H7.
    + unfold cm. rewrite upd_ne by done. by apply H7.
Qed.

Context (Hnd : NoDup eps).

Lemma other_subs_elem s r : s ∈ subs → r ∈ other_subs s p eps ↔ r ∈ subs ∧ r ≠ s.
Proof. intros Hs. unfold other_subs, RbftVotes.subs. rewrite !list_elem_of_filter. naive_solver. Qed.
Lemma other_subs_NoDup s : NoDup (other_subs s p eps).
Proof. by apply NoDup_filter. Qed.
Lemma p_not_other_sub s : p ∉ other_subs s p eps.
Proof. unfold other_subs. rewrite list_elem_of_filter. naive_solver. Qed.

Lemma shape_sends s t d :
  s ∈ subs → t = "/pleaseConfirmThis" ∨ t = "/pleaseCommitThis" →
  Forall shape (pair s <$> sends_to (other_subs s p eps) t d).
Proof.
  intros Hs Ht. unfold sends_to. rewrite <-list_fmap_compose, Forall_fmap.
  apply Forall_forall. intros r [Hr Hne]%(other_subs_elem s); [|done]. cbn.
  destruct Ht as [-> | ->]; by constructor.
Qed.

(** What a confirmation changes at the sub [s]. *)
Record confirm_effect (s q d : string) (a a' : Abs) (out : list Send) : Prop := {
  ce_confirms : a_confirms a' = a_confirms a ++ [(d, q)];
  ce_commits : ∀ r d', r ≠ s → r ∈ votes_for d' (a_commits a') ↔ r ∈ votes_for d' (a_commits a);
  ce_shape : Forall shape (pair s <$> out);
  ce_forward : ∀ d', cnt_fwd d' (pair s <$> out) = 0;
  ce_out : ∀ r r' t d', cnt r r' t d' (pair s <$> out)
    = b2n (length (votes_for d (a_confirms a)) + 1 = x ∧ r = s ∧ t = "/pleaseCommitThis" ∧ d' = d
           ∧ r' ∈ other_subs s p eps);
  ce_executed : NoDup (a_executed a) ∧ (∀ d, d ∈ a_executed a ↔ x <= length (votes_for d (a_commits a))) →
    NoDup (a_executed a') ∧ ∀ d, d ∈ a_executed a' ↔ x <= length (votes_for d (a_commits a'))
}.

Lemma abs_confirm_effect s q d a :
  s ∈ subs → confirm_effect s q d a (abs_confirm x eps p s q d a).1 (abs_confirm x eps p s q d a).2.
Proof.
  intros Hs. unfold abs_confirm. rewrite votes_for_eq, length_app. cbn [length].
  destruct (Nat.eqb_spec (length (votes_for d (a_confirms a)) + 1) x) as [E1|E1]; cbn [fst snd].
  - constructor.
    + done.
    + intros r d' Hr. cbn. rewrite elem_votes_snoc. clear -Hr. naive_solver.
    + apply shape_sends; [done|by right].
    + intros d'. by apply cnt_fwd_sends, p_not_other_sub.
    + intros r r' t d'. rewrite cnt_sends by apply other_subs_NoDup. apply b2n_iff. naive_solver.
    + intros He. apply executed_commit; [done|]. exact He.
  - constructor; cbn; try done.
    intros r r' t d'. rewrite b2n_false; [done|]. naive_solver.
Qed.

Lemma Inv_confirm A given q s d fl a' out :
  q ∈ subs → s ∈ subs → q ≠ s → Inv A given ((q, mkSend s "/pleaseConfirmThis" d) :: fl) →
  confirm_effect s q d (A s) a' out →
  Inv (upd A s a') given (fl ++ (pair s <$> out)).
Proof.
  intros Hq Hs Hne HI [C1 C2 C3 C4 C5 C6]. pose proof HI as [H1 H2 H3 H4 H5 H6 H7].
  assert (s ≠ p) as Hsp by (by apply subs_ne in Hs as [? _]).
  assert (q ∉ cf A s d) as Hfresh.
  { specialize (H5 q s d Hq Hs Hne). rewrite cnt_cons, b2n_true in H5 by done.
    pose proof (b2n_le (q ∈ cf A q d)). intros Hin. rewrite (b2n_true (q ∈ cf A s d)) in H5 by done. lia. }
  assert (∀ r d', r ∈ cf (upd A s a') r d' ↔ r ∈ cf A r d') as Hcf.
  { intros r d'. destruct (decide (r = s)) as [->|]; [|by rewrite cf_upd_ne].
    rewrite cf_upd_eq, C1, elem_votes_snoc. fold (cf A s d'). clear -Hne. naive_solver. }
  constructor.
  - rewrite Forall_app. split; [by inversion H1|done].
  - by rewrite upd_ne.
  - intros d'. rewrite upd_ne, <-H3, cnt_fwd_app, C4, cnt_fwd_cons_ne by done. lia.
  - intros r d' Hr. rewrite upd_ne, <-(H4 r d'), cnt_app, C5 by done.
    rewrite (b2n_false (_ ∧ _)) by (by intros (_ & _ & ? & _)).
    rewrite cnt_cons_ne by (intros [=]). rewrite (b2n_iff _ _ (Hcf r d')). lia.
  - intros r r' d' Hr Hr' Hrr. rewrite (b2n_iff _ _ (Hcf r d')).
    rewrite <-(H5 r r' d'), cnt_app, C5, cnt_cons by done.
    rewrite (b2n_false (_ ∧ _)) by (by intros (_ & _ & ? & _)).
    destruct (decide (r' = s)) as [->|Hrs].
    + rewrite cf_upd_eq, C1, (b2n_iff _ _ (elem_votes_snoc _ _ _ _ _)). fold (cf A s d').
      apply b2n_vote. destruct (decide (d = d')) as [<-|]; [by left|by right].
    + rewrite cf_upd_ne by done. rewrite (b2n_false (_ = _)) by (clear -Hrs; naive_solver). lia.
  - intros r r' d' Hr Hr' Hrr. rewrite cnt_app, C5. pose proof (H6 r r' d' Hr Hr' Hrr) as Heq.
    rewrite cnt_cons_ne in Heq by (intros [=]).
    assert (b2n (r ∈ cm (upd A s a') r' d') = b2n (r ∈ cm A r' d')) as ->.
    { destruct (decide (r' = s)) as [->|Hrs]; [|by rewrite cm_upd_ne].
      apply b2n_iff. rewrite cm_upd_eq. by apply C2. }
    destruct (decide (r = s)) as [->|Hrs].
    + rewrite cf_upd_eq, C1, votes_for_snoc. fold (cf A s d').
      destruct (decide (d = d')) as [<-|Hd].
      * rewrite length_app. cbn. assert (r' ∈ other_subs s p eps) as H by (by apply other_subs_elem).
        unfold b2n in *. fold (cf A s d). clear -Heq H. repeat case_decide; naive_solver lia.
      * rewrite app_nil_r, (b2n_false (_ ∧ _)) by (clear -Hd; naive_solver). lia.
    + rewrite cf_upd_ne, (b2n_false (_ ∧ _)) by (clear -Hrs; naive_solver). lia.
  - intros r Hr. destruct (decide (r = s)) as [->|Hrs].
    + rewrite upd_eq. unfold cm. rewrite upd_eq. apply C6. by apply H7.
    + unfold cm. rewrite upd_ne by done. by apply H7.
Qed.

Lemma order_fresh A given s d fl :
  s ∈ subs → Inv A given ((p, mkSend s "/pleaseExecuteThis" d) :: fl) →
  (s ∉ cf A s d) ∧ d ∈ a_executed (A p).
Proof.
  intros Hs [_ _ _ H4 _ _ _]. specialize (H4 s d Hs). rewrite cnt_cons, b2n_true in H4 by done.
  unfold b2n in H4. repeat case_decide; try lia. done.
Qed.
Lemma confirm_fresh A given q s d fl :
  q ∈ subs → s ∈ subs → q ≠ s → Inv A given ((q, mkSend s "/pleaseConfirmThis" d) :: fl) → q ∉ cf A s d.
Proof.
  intros Hq Hs Hne [_ _ _ _ H5 _ _]. specialize (H5 q s d Hq Hs Hne). rewrite cnt_cons, b2n_true in H5 by done.
  unfold b2n in H5. repeat case_decide; try lia. done.
Qed.

Lemma order_confirms A given s d fl a' out :
  s ∈ subs → Inv A given ((p, mkSend s "/pleaseExecuteThis" d) :: fl) → confirm_effect s s d (A s) a' out →
  ∀ r r' d', r ∈ subs → r' ∈ subs → r ≠ r' →
    cnt r r' "/pleaseConfirmThis" d' (fl ++ (pair s <$> (sends_to (other_subs s p eps) "/pleaseConfirmThis" d ++ out)))
      + b2n (r ∈ cf (upd A s a') r' d') = b2n (r ∈ cf (upd A s a') r d').
Proof.
  intros Hs HI [C1 C2 C3 C4 C5 C6]. pose proof HI as [H1 H2 H3 H4 H5 H6 H7].
  destruct (order_fresh _ _ _ _ _ Hs HI) as [Hfresh Hled]. rewrite fmap_app.
  intros r r' d' Hr Hr' Hrr. pose proof (H5 r r' d' Hr Hr' Hrr) as Heq.
  rewrite cnt_cons_ne in Heq by (intros [=]).
  rewrite !cnt_app, C5, (b2n_false (_ ∧ _)) by (by intros (_ & _ & ? & _)).
  rewrite cnt_sends by apply other_subs_NoDup.
  assert (b2n (r ∈ cf (upd A s a') r' d') = b2n (r ∈ cf A r' d')) as ->.
  { apply b2n_iff. destruct (decide (r' = s)) as [->|]; [|by rewrite cf_upd_ne].
    rewrite cf_upd_eq, C1, elem_votes_snoc. fold (cf A s d'). clear -Hrr. naive_solver. }
  destruct (decide (r = s)) as [->|Hrs].
  + rewrite cf_upd_eq, C1, (b2n_iff (s ∈ votes_for _ _) _ (elem_votes_snoc _ _ _ _ _)). fold (cf A s d').
    assert (r' ∈ other_subs s p eps) as Ho by (by apply other_subs_elem).
    destruct (decide (d = d')) as [<-|Hd].
    * rewrite (b2n_true (_ ∧ _)), (b2n_true (_ ∨ _)) by (by try right).
      rewrite (b2n_false (s ∈ cf A s d)) in Heq by done. lia.
    * rewrite (b2n_false (_ ∧ _)) by (clear -Hd; naive_solver).
      rewrite (b2n_iff (_ ∨ _) (s ∈ cf A s d')); [lia|]. clear -Hd. naive_solver.
  + rewrite cf_upd_ne, (b2n_false (_ ∧ _)) by (clear -Hrs; naive_solver). lia.
Qed.
Lemma order_commits A given s d fl a' out :
  s ∈ subs → Inv A given ((p, mkSend s "/pleaseExecuteThis" d) :: fl) → confirm_effect s s d (A s) a' out →
  ∀ r r' d', r ∈ subs → r' ∈ subs → r ≠ r' →
    cnt r r' "/pleaseCommitThis" d' (fl ++ (pair s <$> (sends_to (other_subs s p eps) "/pleaseConfirmThis" d ++ out)))
      + b2n (r ∈ cm (upd A s a') r' d') = b2n (x <= length (cf (upd A s a') r d')).
Proof.
  intros Hs HI [C1 C2 C3 C4 C5 C6]. pose proof HI as [H1 H2 H3 H4 H5 H6 H7].
  destruct (order_fresh _ _ _ _ _ Hs HI) as [Hfresh Hled]. rewrite fmap_app.
  intros r r' d' Hr Hr' Hrr. pose proof (H6 r r' d' Hr Hr' Hrr) as Heq.
  rewrite cnt_cons_ne in Heq by (intros [=]).
  rewrite !cnt_app, C5, cnt_sends by apply other_subs_NoDup.
  rewrite (b2n_false (_ ∧ _ = "/pleaseConfirmThis" ∧ _)) by (by intros (_ & ? & _)).
  assert (b2n (r ∈ cm (upd A s a') r' d') = b2n (r ∈ cm A r' d')) as ->.
  { destruct (decide (r' = s)) as [->|Hrs]; [|by rewrite cm_upd_ne].
    apply b2n_iff. rewrite cm_upd_eq. by apply C2. }
  destruct (decide (r = s)) as [->|Hrs].
  + rewrite cf_upd_eq, C1, votes_for_snoc. fold (cf A s d').
    destruct (decide (d = d')) as [<-|Hd].
    * rewrite length_app. cbn. assert (r' ∈ other_subs s p eps) as H by (by apply other_subs_elem).
      unfold b2n in *. fold (cf A s d). clear -Heq H. repeat case_decide; naive_solver lia.
    * rewrite app_nil_r, (b2n_false (_ ∧ _)) by (clear -Hd; naive_solver). lia.
  + rewrite cf_upd_ne, (b2n_false (_ ∧ _)) by (clear -Hrs; naive_solver). lia.
Qed.
Lemma Inv_order A given s d fl a' out :
  s ∈ subs → Inv A given ((p, mkSend s "/pleaseExecuteThis" d) :: fl) →
  confirm_effect s s d (A s) a' out →
  Inv (upd A s a') given
    (fl ++ (pair s <$> (sends_to (other_subs s p eps) "/pleaseConfirmThis" d ++ out))).
Proof.
  intros Hs HI [C1 C2 C3 C4 C5 C6]. pose proof HI as [H1 H2 H3 H4 H5 H6 H7].
  destruct (order_fresh _ _ _ _ _ Hs HI) as [Hfresh Hled].
  assert (s ≠ p) as Hsp by (by apply subs_ne in Hs as [? _]).
  rewrite fmap_app. constructor.
  - rewrite !Forall_app. split; [by inversion H1|]. split; [|done]. apply shape_sends; [done|by left].
  - by rewrite upd_ne.
  - intros d'. rewrite upd_ne, <-H3, !cnt_fwd_app, C4, cnt_fwd_cons_ne by done.
    rewrite cnt_fwd_sends by apply p_not_other_sub. lia.
  - intros r d' Hr. rewrite upd_ne, <-(H4 r d'), !cnt_app, C5, cnt_cons by done.
    rewrite (b2n_false (_ ∧ _)) by (by intros (_ & _ & ? & _)).
    rewrite cnt_sends, (b2n_false (_ ∧ _)) by (by apply other_subs_NoDup || intros (_ & ? & _)).
    destruct (decide (r = s)) as [->|Hrs].
    + rewrite cf_upd_eq, C1, (b2n_iff _ _ (elem_votes_snoc _ _ _ _ _)). fold (cf A s d').
      rewrite !Nat.add_0_r. destruct (decide (d = d')) as [<-|Hd].
      * rewrite (b2n_true (_ = _)), (b2n_true (_ ∨ _)), (b2n_false (s ∈ _)) by (by try right). lia.
      * rewrite (b2n_false (_ = _)) by (intros [=]; done).
        rewrite (b2n_iff (_ ∨ _) (s ∈ cf A s d')); [lia|]. clear -Hd. naive_solver.
    + rewrite cf_upd_ne by done. rewrite (b2n_false (_ = _)) by (intros [=]; done). lia.
  - rewrite <-fmap_app. by eapply order_confirms.
  - rewrite <-fmap_app. by eapply order_commits.
  - intros r Hr. destruct (decide (r = s)) as [->|Hrs].
    + rewrite upd_eq. unfold cm. rewrite upd_eq. apply C6. by apply H7.
    + unfold cm. rewrite upd_ne by done. by apply H7.
Qed.

(** A command enters: as a message for the primary. *)
Lemma Inv_given A given q d fl :
  q ≠ p → d ∉ given → Inv A given fl → Inv A (given ++ [d]) (fl ++ [(q, mkSend p "/pleaseExecuteThis" d)]).
Proof.
  intros Hq Hd [H1 H2 H3 H4 H5 H6 H7]. constructor; try done.
  - rewrite Forall_app. split; [done|]. by repeat constructor.
  - intros d'. specialize (H3 d'). rewrite cnt_fwd_app, cnt_fwd_cons. cbn.
    change (cnt_fwd d' []) with 0. destruct (decide (d = d')) as [<-|Hdd].
    + rewrite (b2n_true (_ ∧ _)), (b2n_true (_ ∈ _ ++ _)) by set_solver. rewrite (b2n_false (d ∈ given)) in H3; lia || done.
    + rewrite (b2n_false (_ ∧ _)) by (clear -Hdd; naive_solver).
      rewrite (b2n_iff (d' ∈ _ ++ _) (d' ∈ given)) by set_solver. lia.
  - intros s d' Hs. rewrite cnt_app, cnt_cons_ne, Nat.add_0_r; [by apply H4|]. intros [=]; done.
  - intros r s d' Hr Hs Hrs. rewrite cnt_app, cnt_cons_ne, Nat.add_0_r; [by apply H5|]. intros [=].
  - intros r s d' Hr Hs Hrs. rewrite cnt_app, cnt_cons_ne, Nat.add_0_r; [by apply H6|]. intros [=].
Qed.

Lemma led_given A given fl d : Inv A given fl → d ∈ a_executed (A p) → d ∈ given.
Proof.
  intros [_ _ H3 _ _ _ _] Hd. specialize (H3 d). rewrite (b2n_true (d ∈ a_executed _)) in H3 by done.
  unfold b2n in H3. case_decide; [done|lia].
Qed.
Lemma forward_fresh A given q d fl :
  q ≠ p → Inv A given ((q, mkSend p "/pleaseExecuteThis" d) :: fl) → (d ∉ a_executed (A p)) ∧ d ∈ given.
Proof.
  intros Hq [_ _ H3 _ _ _ _]. specialize (H3 d). rewrite cnt_fwd_cons, (b2n_true (_ ∧ _)) in H3 by done.
  unfold b2n in H3. repeat case_decide; try lia. done.
Qed.
Lemma confirm_given A given q s d fl :
  q ∈ subs → s ∈ subs → q ≠ s → Inv A given ((q, mkSend s "/pleaseConfirmThis" d) :: fl) → d ∈ given.
Proof.
  intros Hq Hs Hne HI. eapply led_given; [exact HI|]. destruct HI as [_ _ _ H4 H5 _ _].
  specialize (H5 q s d Hq Hs Hne). rewrite cnt_cons, b2n_true in H5 by done.
  specialize (H4 q d Hq). unfold b2n in *. repeat case_decide; (done || lia).
Qed.

Lemma Inv_lead A given q d fl :
  q ≠ p → Inv A given ((q, mkSend p "/pleaseExecuteThis" d) :: fl) →
  Inv (upd A p (abs_lead eps p d (A p)).1) given (fl ++ (pair p <$> (abs_lead eps p d (A p)).2)).
Proof.
  intros Hq HI. destruct (forward_fresh _ _ _ _ _ Hq HI) as [Hfresh _].
  destruct HI as [H1 H2 H3 H4 H5 H6 H7]. cbn.
  set (A' := upd A p _). assert (a_executed (A' p) = a_executed (A p) ++ [d]) as HA by (unfold A'; by rewrite upd_eq).
  assert (∀ r d', cf A' r d' = cf A r d') as Hcf.
  { intros r d'. unfold A'. destruct (decide (r = p)) as [->|]; [by rewrite cf_upd_eq|by rewrite cf_upd_ne]. }
  assert (∀ r d', cm A' r d' = cm A r d') as Hcm.
  { intros r d'. unfold A'. destruct (decide (r = p)) as [->|]; [by rewrite cm_upd_eq|by rewrite cm_upd_ne]. }
  assert (NoDup (others p eps)) as Ho by by apply NoDup_filter.
  constructor; rewrite ?HA.
  - rewrite Forall_app. split; [by inversion H1|]. unfold sends_to. rewrite <-list_fmap_compose, Forall_fmap.
    apply Forall_forall. intros r Hr. by constructor.
  - apply NoDup_app. split; [done|]. split; [|apply NoDup_singleton]. set_solver.
  - intros d'. specialize (H3 d'). rewrite cnt_fwd_cons in H3. cbn [fst snd] in H3. rewrite cnt_fwd_app, cnt_fwd_sends.
    2:{ unfold others. rewrite list_elem_of_filter. naive_solver. }
    destruct (decide (d = d')) as [<-|Hd].
    + rewrite (b2n_true (d ∈ _ ++ _)) by set_solver.
      rewrite (b2n_true (_ ∧ _)), (b2n_false (d ∈ a_executed _)) in H3 by done. lia.
    + rewrite (b2n_iff (d' ∈ _ ++ _) (d' ∈ a_executed (A p))) by set_solver.
      rewrite (b2n_false (_ ∧ _)) in H3 by (clear -Hd; naive_solver). lia.
  - intros s d' Hs. pose proof (H4 s d' Hs) as Heq. rewrite cnt_cons_ne in Heq by congruence.
    rewrite Hcf, cnt_app, cnt_sends by done. destruct (decide (d = d')) as [<-|Hd].
    + rewrite (b2n_true (_ ∧ _)), (b2n_true (d ∈ _ ++ _)) by set_solver.
      rewrite (b2n_false (d ∈ a_executed _)) in Heq by done. lia.
    + rewrite (b2n_false (_ ∧ _)) by (clear -Hd; naive_solver).
      rewrite (b2n_iff (d' ∈ _ ++ _) (d' ∈ a_executed (A p))) by set_solver. lia.
  - intros r s d' Hr Hs Hrs. rewrite !Hcf, <-(H5 r s d') by done.
    rewrite cnt_app, cnt_sends, (b2n_false (_ ∧ _)), cnt_cons_ne by (done || intros [=] || by intros (_ & ? & _)). lia.
  - intros r s d' Hr Hs Hrs. rewrite Hcf, Hcm, <-(H6 r s d') by done.
    rewrite cnt_app, cnt_sends, (b2n_false (_ ∧ _)), cnt_cons_ne by (done || intros [=] || by intros (_ & ? & _)). lia.
  - intros s Hs. destruct (subs_ne _ _ _ Hs) as [Hsp _]. destruct (H7 s Hs) as [He1 He2]. split.
    + unfold A'. by rewrite upd_ne.
    + intros d'. rewrite Hcm. unfold A'. rewrite upd_ne by done. apply He2.
Qed.

(** *** How many messages are still to come *)
Definition psi (A : string → Abs) (d : string) : nat :=
  b2n (d ∉ a_executed (A p)) * length subs
  + sum_list_with (λ s, (b2n (s ∉ cf A s d) + b2n (length (cf A s d) < x)) * (length subs - 1)) subs.
Definition Phi (A : string → Abs) (given : list string) (fl : list (string * Send)) : nat :=
  length fl + sum_list_with (psi A) given.

Lemma other_subs_length s : s ∈ subs → length (other_subs s p eps) = length subs - 1.
Proof.
  intros Hs. assert (subs ≡ₚ s :: other_subs s p eps) as Hp; [|rewrite Hp; cbn; lia].
  apply NoDup_Permutation; [by apply NoDup_filter|..].
  - constructor; [|apply other_subs_NoDup]. rewrite other_subs_elem by done. naive_solver.
  - intros y. rewrite elem_of_cons, other_subs_elem by done. destruct (decide (y = s)); naive_solver.
Qed.

(** A confirmation at [s] uses up the messages it sends. *)
Lemma psi_confirm A s q d a' :
  s ∈ subs → a_confirms a' = a_confirms (A s) ++ [(d, q)] → a_executed (A p) = a_executed (upd A s a' p) →
  q ∉ cf A s d →
  psi A d = psi (upd A s a') d
    + (b2n (s = q) + b2n (length (cf A s d) + 1 = x)) * (length subs - 1)
  ∧ ∀ d', d' ≠ d → psi (upd A s a') d' = psi A d'.
Proof.
  intros Hs Hc He Hf. unfold psi. rewrite <-He. split.
  - match goal with |- _ + sum_list_with ?f _ = _ + sum_list_with ?g _ + _ =>
      pose proof (sum_change f g s subs ltac:(by apply NoDup_filter) Hs) as Hsum end.
    cbn beta in Hsum. rewrite cf_upd_eq, Hc, votes_for_eq in Hsum. fold (cf A s d) in Hsum.
    rewrite length_app in Hsum. cbn [length] in Hsum.
    specialize (Hsum ltac:(intros z Hz; by rewrite cf_upd_ne)).
    rewrite (b2n_iff (s ∉ cf A s d ++ [q]) (s ≠ q ∧ s ∉ cf A s d)) in Hsum
      by (rewrite not_elem_of_app, list_elem_of_singleton; clear; naive_solver).
    assert (b2n (s ∉ cf A s d) = b2n (s ≠ q ∧ s ∉ cf A s d) + b2n (s = q)) as E1.
    { unfold b2n. clear -Hf. repeat case_decide; naive_solver. }
    assert (b2n (length (cf A s d) < x) = b2n (length (cf A s d) + 1 < x) + b2n (length (cf A s d) + 1 = x)) as E2.
    { unfold b2n. repeat case_decide; lia. }
    rewrite E1, E2, !Nat.mul_add_distr_r in Hsum. rewrite Nat.mul_add_distr_r. lia.
  - intros d' Hd. f_equal. apply sum_same. intros r _. destruct (decide (r = s)) as [->|Hr].
    + rewrite cf_upd_eq, Hc, votes_for_ne by done. done.
    + by rewrite cf_upd_ne.
Qed.

Lemma abs_confirm_length s q d a :
  s ∈ subs → length (abs_confirm x eps p s q d a).2
  = b2n (length (votes_for d (a_confirms a)) + 1 = x) * (length subs - 1).
Proof.
  intros Hs. unfold abs_confirm. rewrite votes_for_eq, length_app. cbn [length].
  destruct (Nat.eqb_spec (length (votes_for d (a_confirms a)) + 1) x) as [E1|E1]; cbn [snd].
  - rewrite b2n_true by done. unfold sends_to. rewrite length_fmap, other_subs_length by done. lia.
  - by rewrite b2n_false.
Qed.

Lemma Phi_confirm A given s q d m fl a' out :
  s ∈ subs → NoDup given → d ∈ given →
  a_confirms a' = a_confirms (A s) ++ [(d, q)] → q ∉ cf A s d →
  length out = (b2n (s = q) + b2n (length (cf A s d) + 1 = x)) * (length subs - 1) →
  Phi A given (m :: fl) = Phi (upd A s a') given (fl ++ (pair s <$> out)) + 1.
Proof.
  intros Hs Hg Hd Hc Hf Hl. assert (s ≠ p) as Hsp by (by apply subs_ne in Hs as [? _]).
  destruct (psi_confirm A s q d a' Hs Hc ltac:(by rewrite upd_ne) Hf) as [Hpsi Hsame].
  pose proof (sum_change (psi A) (psi (upd A s a')) d given Hg Hd ltac:(intros; by rewrite Hsame)) as Hsum.
  unfold Phi. rewrite length_app, length_fmap, Hl. cbn [length]. lia.
Qed.
Lemma Phi_commit A given s q d m fl :
  Phi A given (m :: fl) = Phi (upd A s (abs_commit x q d (A s))) given fl + 1 ∨ s = p.
Proof.
  destruct (decide (s = p)) as [|Hsp]; [by right|left]. unfold Phi. cbn [length].
  rewrite (sum_same (psi (upd A s _)) (psi A)); [lia|]. intros d' _. unfold psi. rewrite upd_ne by done.
  f_equal. apply sum_same. intros r _.
  destruct (decide (r = s)) as [->|Hr]; [by rewrite cf_upd_eq|by rewrite cf_upd_ne].
Qed.
Lemma psi_lead A d :
  d ∉ a_executed (A p) →
  psi A d = psi (upd A p (abs_lead eps p d (A p)).1) d + length subs
  ∧ ∀ d', d' ≠ d → psi (upd A p (abs_lead eps p d (A p)).1) d' = psi A d'.
Proof.
  intros Hf. assert (∀ d', sum_list_with (λ s, (b2n (s ∉ cf (upd A p (abs_lead eps p d (A p)).1) s d')
    + b2n (length (cf (upd A p (abs_lead eps p d (A p)).1) s d') < x)) * (length subs - 1)) subs
    = sum_list_with (λ s, (b2n (s ∉ cf A s d') + b2n (length (cf A s d') < x)) * (length subs - 1)) subs) as Hs.
  { intros d'. apply sum_same. intros r [Hr _]%subs_ne. by rewrite cf_upd_ne. }
  unfold psi. rewrite upd_eq. cbn [abs_lead fst a_executed]. split.
  - rewrite Hs, (b2n_true (d ∉ a_executed (A p))), b2n_false by set_solver. lia.
  - intros d' Hd. rewrite Hs. do 2 f_equal. apply b2n_iff. set_solver.
Qed.
Lemma Phi_lead A given d m fl :
  NoDup given → d ∈ given → d ∉ a_executed (A p) →
  Phi A given (m :: fl)
  = Phi (upd A p (abs_lead eps p d (A p)).1) given (fl ++ (pair p <$> (abs_lead eps p d (A p)).2)) + 1.
Proof.
  intros Hg Hd Hf. destruct (psi_lead A d Hf) as [Hpsi Hsame].
  pose proof (sum_change (psi A) (psi (upd A p (abs_lead eps p d (A p)).1)) d given Hg Hd
    ltac:(intros; by rewrite Hsame)) as Hsum.
  unfold Phi. rewrite length_app, length_fmap. cbn [abs_lead snd length]. unfold sends_to.
  rewrite length_fmap. change (others p eps) with subs. lia.
Qed.

(** What one command can cause. *)
Definition cost : nat := 1 + length subs + length subs * (2 * (length subs - 1)).
Lemma psi_cost A d : 1 + psi A d <= cost.
Proof.
  unfold psi, cost. pose proof (b2n_le (d ∉ a_executed (A p))).
  assert (∀ l, sum_list_with (λ s, (b2n (s ∉ cf A s d) + b2n (length (cf A s d) < x)) * (length subs - 1)) l
    <= length l * (2 * (length subs - 1))) as Hs.
  { intros l. induction l as [|s l IH]; cbn; [done|].
    pose proof (b2n_le (s ∉ cf A s d)). pose proof (b2n_le (length (cf A s d) < x)). nia. }
  specialize (Hs subs). nia.
Qed.

(** Nothing in flight: every sub has executed every command, once. *)
Lemma Inv_quiet A given s :
  Inv A given [] → (∀ s, s ∈ subs → votes_ok eps p s (A s)) → x <= length subs → s ∈ subs →
  a_executed (A s) ≡ₚ a_executed (A p) ∧ (∀ d, d ∈ a_executed (A p) ↔ d ∈ given).
Proof.
  intros [H1 H2 H3 H4 H5 H6 H7] Hok Hlen Hs.
  assert (∀ s d, s ∈ subs → s ∈ cf A s d ↔ d ∈ a_executed (A p)) as Hord by (intros; by eapply b2n_inj; [apply H4|]).
  assert (∀ s d, s ∈ subs → d ∈ a_executed (A p) → x <= length (cf A s d)) as Hcfl.
  { intros r d Hr Hd. etrans; [exact Hlen|]. apply submseteq_length, NoDup_submseteq; [by apply NoDup_filter|].
    intros q Hq. destruct (decide (q = r)) as [->|Hqr]; [by apply Hord|].
    apply (b2n_inj _ _ _ (H5 q r d Hq Hr Hqr)); [done|]. by apply Hord. }
  assert (∀ s d, s ∈ subs → d ∈ a_executed (A p) → x <= length (cm A s d)) as Hcml.
  { intros r d Hr Hd. etrans; [exact Hlen|]. apply submseteq_length, NoDup_submseteq; [by apply NoDup_filter|].
    intros q Hq. destruct (decide (q = r)) as [->|Hqr]; [apply (vo_self _ _ _ _ (Hok r Hr))|].
    - by apply Hcfl.
    - apply (b2n_inj _ _ _ (H6 q r d Hq Hr Hqr)); [done|]. by apply Hcfl. }
  split; [|intros d; by eapply b2n_inj; [apply H3|]]. destruct (H7 s Hs) as [He1 He2].
  apply NoDup_Permutation; [done..|]. intros d. rewrite He2. split; [|by apply Hcml].
  intros Hx'. destruct (decide (d ∈ a_executed (A p))) as [|Hn]; [done|]. exfalso.
  assert (∀ q, q ∈ subs → cf A q d = []) as Hnil.
  { intros q Hq. destruct (cf A q d) as [|r l] eqn:E1; [done|]. exfalso.
    assert (r ∈ cf A q d) as Hr by (rewrite E1; left).
    pose proof (proj2 (vo_confirms _ _ _ _ (Hok q Hq) d) r Hr) as Hrs.
    destruct (decide (r = q)) as [->|Hrq]; [by apply Hn, (Hord q d Hq)|].
    apply (b2n_inj _ _ _ (H5 r q d Hrs Hq Hrq)) in Hr; [|done]. by apply Hn, (Hord r d Hrs). }
  destruct (cm A s d) as [|r l] eqn:E1; [cbn in Hx'; lia|].
  assert (r ∈ cm A s d) as Hr by (rewrite E1; left).
  pose proof (proj2 (vo_commits _ _ _ _ (Hok s Hs) d) r Hr) as Hrs.
  destruct (decide (r = s)) as [->|Hrq].
  - apply (vo_self _ _ _ _ (Hok s Hs)) in Hr. fold (cf A s d) in Hr. rewrite (Hnil s Hs) in Hr. cbn in Hr. lia.
  - apply (b2n_inj _ _ _ (H6 r s d Hrs Hs Hrq)) in Hr; [|done]. rewrite (Hnil r Hrs) in Hr. cbn in Hr. lia.
Qed.
End protocol.
Arguments Phi : simpl never.
Arguments psi : simpl never.
Arguments cost : simpl never.

(** ** Runs without view changes *)
Section calm_runs.
Context {M E : Type} {RW : RbftWire} {IM : IMsgManageable M} {IX : IForConsensusExecutable E}
  {IXL : IForConsensusExecutableLaws E}.
Context (eps : list string) (e0 : Z) (p : string) (ex : string → E).
Context (Hfits : fits eps) (Hp : endpoint_of_epoch eps e0 = Ret p) (Hnd : NoDup eps) (H2 : 2 <= length eps).
Abbreviation Rf := (refines (M:=M) (E:=E) eps e0 p).
Abbreviation subs := (subs eps p).
Implicit Types c : Cluster M E.

Record cluster_ok c (A : string → Abs) (given : list string) : Prop := {
  ok_dom : ∀ s, nodes c !! s = None ↔ s ∉ eps;
  ok_node : ∀ s n, nodes c !! s = Some n → Rf s (ex s) [] (A s) n ∧ outbox n = [];
  ok_inv : Inv eps p A given (flight c)
}.

Lemma refines_outbox me e h a n l : Rf me e h a n → Rf me e h a (set_outbox l n).
Proof. intros [[? ? ? ? ? ?] ? ? ? ?]. by constructor; [constructor|..]. Qed.

Lemma ok_get c A given s : cluster_ok c A given → s ∈ eps → ∃ n, nodes c !! s = Some n.
Proof.
  intros Hok Hs. destruct (nodes c !! s) as [n|] eqn:E1; [by exists n|].
  by apply (ok_dom _ _ _ Hok) in E1.
Qed.

(** The node [s] moved to [n'], specified by [a'], and sent [out]. *)
Lemma ok_with_node c A given given' s n' a' out fl :
  cluster_ok c A given → s ∈ eps → Rf s (ex s) [] a' n' → outbox n' = out →
  Inv eps p (upd A s a') given' (fl ++ (pair s <$> out)) →
  cluster_ok (with_node c s n' fl) (upd A s a') given'.
Proof.
  intros [Hd Hn Hi] Hs Hr Ho Hinv. constructor; cbn.
  - intros r. rewrite lookup_insert_None, Hd. naive_solver.
  - intros r n. rewrite lookup_insert_Some. intros [[<- <-]|[Hne Hl]].
    + rewrite upd_eq. split; [by apply refines_outbox|done].
    + rewrite upd_ne by done. by apply Hn.
  - by rewrite Ho.
Qed.

Lemma quorum_1 : 1 <= quorum eps.
Proof. by destruct (quorum_bounds eps H2) as [[? _] _]. Qed.
Lemma p_in : p ∈ eps.
Proof. by eapply in_eps_p. Qed.

Lemma ok_deliver c A given l1 q m l2 :
  cluster_ok c A given → NoDup given → flight c = l1 ++ (q, m) :: l2 →
  ∃ n n' A', let c' := with_node c (to_endpoint m) n' (l1 ++ l2) in
    nodes c !! to_endpoint m = Some n ∧ deliver q (to_target m) (to_data m) n = (n', Ret tt)
    ∧ cluster_ok c' A' given
    ∧ Phi eps p A given (flight c) = Phi eps p A' given (flight c') + 1.
Proof.
  intros Hok Hng Hfl. cbn zeta.
  assert (Phi eps p A given (flight c) = Phi eps p A given ((q, m) :: (l1 ++ l2))) as ->.
  { unfold Phi. by rewrite Hfl, Permutation_middle. } pose proof (ok_inv _ _ _ Hok) as HI. rewrite Hfl in HI.
  assert (Inv eps p A given ((q, m) :: (l1 ++ l2))) as HI' by (eapply Inv_perm; [|exact HI]; by rewrite Permutation_middle).
  pose proof quorum_1 as Hx. pose proof (i_shape _ _ _ _ _ HI') as Hsh. inversion Hsh as [|? ? Hm _]; subst.
  assert (∀ s, s ∈ eps → ∃ n, nodes c !! s = Some n ∧ Rf s (ex s) [] (A s) n ∧ outbox n = []) as Hget.
  { intros s Hs. destruct (ok_get _ _ _ s Hok Hs) as [n Hn]. exists n. split; [done|]. by apply (ok_node _ _ _ Hok). }
  inversion Hm as [q' d Hq|s d Hs|q' s d Hq Hs Hne|q' s d Hq Hs Hne]; subst; cbn [to_endpoint to_target to_data].
  - destruct (Hget p p_in) as (n & Hn & Hr & Ho).
    destruct (deliver_lead _ _ _ _ _ q d _ _ Hr) as (n' & Hd & Hr' & Ho').
    rewrite Ho in Ho'. eexists _, n', _. split; [done|]. split; [done|].
    assert ((d ∉ a_executed (A p)) ∧ d ∈ given) as [Hf Hg] by (by eapply forward_fresh; [..|exact HI']).
    split; [|cbn; rewrite Ho'; by apply Phi_lead].
    eapply ok_with_node; [done|apply p_in|done|exact Ho'|]. by apply Inv_lead with q.
  - destruct (subs_ne _ _ _ Hs) as [_ Hin]. destruct (Hget s Hin) as (n & Hn & Hr & Ho).
    assert ((s ∉ cf A s d) ∧ d ∈ a_executed (A p)) as [Hf Hled] by (by eapply order_fresh; [..|exact HI']).
    assert (d ∈ given) as Hg by (by eapply led_given; [..|exact HI'|exact Hled]).
    destruct (deliver_order _ _ _ Hfits Hp Hnd H2 s (ex s) [] d (A s) n Hs Hr (conj Hs Hf)) as (n' & Hd & Hr' & Ho').
    rewrite Ho in Ho'. exists n, n', (upd A s (abs_order (quorum eps) eps p s d (A s)).1).
    split; [done|]. split; [done|].
    pose proof (abs_confirm_effect eps p Hx Hnd s s d (A s) Hs) as He.
    assert (length (abs_confirm (quorum eps) eps p s s d (A s)).2
      = b2n (length (cf A s d) + 1 = quorum eps) * (length subs - 1)) as Hlen by (by apply abs_confirm_length).
    unfold abs_order in *. destruct (abs_confirm _ _ _ _ _ _ _) as [a' out] eqn:Ec. cbn [fst snd] in *. split.
    + eapply ok_with_node; [done|done|done|exact Ho'|]. by apply Inv_order.
    + cbn. rewrite Ho'. eapply Phi_confirm; try done; [by destruct He|].
      rewrite b2n_true by done. cbn [app]. unfold sends_to. rewrite length_app, length_fmap, Hlen.
      rewrite other_subs_length by done. lia.
  - destruct (subs_ne _ _ _ Hs) as [_ Hin]. destruct (Hget s Hin) as (n & Hn & Hr & Ho).
    assert (q ∉ cf A s d) as Hf by (by eapply confirm_fresh; [..|exact HI']).
    destruct (deliver_confirm _ _ _ Hfits Hp Hnd H2 s (ex s) [] q d (A s) n Hs Hr (conj Hq Hf)) as (n' & Hd & Hr' & Ho').
    rewrite Ho in Ho'. eexists _, n', _. split; [done|]. split; [done|].
    pose proof (abs_confirm_effect eps p Hx Hnd s q d (A s) Hs) as He. split.
    + eapply ok_with_node; [done|done|done|exact Ho'|]. by eapply Inv_confirm; [..|exact HI'|].
    + cbn. rewrite Ho'. assert (d ∈ given) as Hg by (by eapply confirm_given; [..|exact HI']).
      eapply Phi_confirm; try done; [by destruct He|]. rewrite (b2n_false (s = q)) by done.
      cbn [app]. by rewrite abs_confirm_length.
  - destruct (subs_ne _ _ _ Hs) as [_ Hin]. destruct (Hget s Hin) as (n & Hn & Hr & Ho).
    assert ((q ∉ cm A s d) ∧ Inv eps p (upd A s (abs_commit (quorum eps) q d (A s))) given (l1 ++ l2)) as [Hf HI2]
      by (by apply Inv_commit).
    destruct (deliver_commit _ _ _ Hfits Hp Hnd H2 s (ex s) [] q d (A s) n Hs Hr Hne (conj Hq Hf)) as (n' & Hd & Hr' & Ho').
    rewrite Ho in Ho'. eexists _, n', _. split; [done|]. split; [done|].
    split; [eapply ok_with_node; [done|done|done|exact Ho'|]; by rewrite app_nil_r|].
    cbn. rewrite Ho', app_nil_r. destruct (subs_ne _ _ _ Hs) as [Hsp _].
    by destruct (Phi_commit eps p Hx A given s q d (q, mkSend s "/pleaseCommitThis" d) (l1 ++ l2)).
Qed.

Lemma ok_client c A given s client d n :
  cluster_ok c A given → nodes c !! s = Some n → client ∉ eps → d ∉ given →
  ∃ n' A', let c' := with_node c s n' (flight c) in
    handle_execute client d n = (n', Ret "") ∧ cluster_ok c' A' (given ++ [d])
    ∧ Phi eps p A' (given ++ [d]) (flight c') <= Phi eps p A given (flight c) + cost eps p.
Proof.
  intros Hok Hn Hc Hd. pose proof quorum_1 as Hx. pose proof (ok_node _ _ _ Hok _ _ Hn) as [Hr Ho].
  assert (client ≠ p) as Hcp by (intros ->; by apply Hc, p_in).
  assert (s ∈ eps) as Hs.
  { destruct (decide (s ∈ eps)) as [|H]; [done|]. apply (ok_dom _ _ _ Hok) in H. congruence. }
  pose proof (ok_inv _ _ _ Hok) as HI. destruct (decide (s = p)) as [->|Hsp].
  - destruct (handle_execute_primary _ _ _ Hp (ex p) [] client d (A p) n Hr) as (n' & Hh & Hr' & Ho').
    rewrite Ho in Ho'. eexists n', _. split; [done|]. split.
    2:{ cbn. rewrite Ho'. assert (d ∉ a_executed (A p)) as Hf by (intros Hin; by apply Hd; eapply led_given).
        destruct (psi_lead eps p Hx Hnd A d Hf) as [Hpsi Hsame]. unfold Phi.
        rewrite sum_list_with_app, length_app. cbn [sum_list_with].
        rewrite (sum_same _ (psi eps p A) given) by (intros d' Hd'; apply Hsame; congruence).
        pose proof (psi_cost eps p Hx A d). cbn [app]. rewrite length_fmap. cbn [abs_lead snd]. unfold sends_to.
        rewrite length_fmap. change (others p eps) with subs. lia. }
    eapply ok_with_node; [done|done|done|exact Ho'|].
    assert (Inv eps p A (given ++ [d]) (flight c ++ [(client, mkSend p "/pleaseExecuteThis" d)])) as HI'
      by (by apply Inv_given).
    eapply Inv_lead; [..|eapply Inv_perm; [|exact HI']; symmetry; apply Permutation_cons_append]; done.
  - assert (s ∈ subs) as Hss by (unfold RbftVotes.subs; by rewrite list_elem_of_filter).
    exists (sending [mkSend p "/pleaseExecuteThis" d] n), (upd A s (A s)).
    assert (∀ r, upd A s (A s) r = A r) as HA.
    { intros r. destruct (decide (r = s)) as [->|]; [by rewrite upd_eq|by rewrite upd_ne]. }
    split; [by eapply handle_execute_sub|]. split.
    + eapply ok_with_node; [done|done|by apply refines_sending|by cbn; rewrite Ho|].
      apply (Inv_ext _ _ A); [done|by apply Inv_given].
    + cbn. rewrite Ho. unfold Phi. rewrite sum_list_with_app, length_app. cbn [sum_list_with length app fmap list_fmap].
      pose proof (psi_cost eps p Hx (upd A s (A s)) d).
      rewrite (sum_same _ (psi eps p A) given); [lia|]. intros d' _. unfold psi, cf. rewrite HA.
      f_equal. apply sum_same. intros r _. by rewrite HA.
Qed.

Lemma commands_app ls ls' : commands (ls ++ ls') = commands ls ++ commands ls'.
Proof. apply omap_app. Qed.

Lemma deliveries_app ls ls' : deliveries (ls ++ ls') = deliveries ls + deliveries ls'.
Proof. unfold deliveries. by rewrite omap_app, length_app. Qed.

Lemma steps_ok c0 A0 ls c :
  cluster_ok c0 A0 [] → steps ls c0 c → Forall calm ls → NoDup (commands ls) →
  ∃ A, cluster_ok c A (commands ls)
    ∧ Phi eps p A (commands ls) (flight c) + deliveries ls
      <= Phi eps p A0 [] (flight c0) + length (commands ls) * cost eps p.
Proof.
  intros Hok0 Hst. induction Hst as [c0|ls l c0 c1 c2 Hst IH Hs]; intros Hcalm Hn; [by exists A0; cbn; split; [|lia]|].
  rewrite Forall_app, Forall_singleton in Hcalm. destruct Hcalm as [Hcalm Hl].
  rewrite commands_app in *.
  apply NoDup_app in Hn as (Hn & Hdis & _). destruct (IH Hok0 Hcalm Hn) as (A & Hok & Hphi).
  rewrite deliveries_app, length_app.
  inversion Hs; subst; try done; cbn.
  - rewrite app_nil_r. edestruct ok_deliver as (n0 & n1 & A' & Hn0 & Hd & Hok' & Hphi'); [done..|].
    assert (n0 = n) as -> by congruence. assert (n1 = n') as -> by congruence.
    exists A'. split; [done|]. cbn in Hphi'. lia.
  - edestruct (ok_client c1 A (commands ls) s client d n) as (n1 & A' & Hd & Hok' & Hphi'); [done|done| | |].
    + assert (client ∉ all_endpoints n) as Hcl by eauto.
      destruct (ok_node _ _ _ Hok _ _ H) as [[Hv _ _ _ _] _]. by destruct Hv as [<- _ _ _ _ _].
    + intros Hin. apply (Hdis d); [done|]. cbn. by left.
    + assert (n1 = n') as -> by congruence. exists A'. split; [done|]. cbn in Hphi'. lia.
Qed.
End calm_runs.

(** A constructed node is in the first view. *)
Lemma create_refines {M E} {RW : RbftWire} {IM : IMsgManageable M} {IX : IForConsensusExecutable E}
    {IXL : IForConsensusExecutableLaws E} eps p s (m : M) (e : E) :
  fits eps → endpoint_of_epoch eps 0 = Ret p → (2 <= length eps)%nat → s ∈ eps →
  ∃ n, create s m e eps = (n, Ret tt) ∧ refines eps 0 p s e [] Abs_init n ∧ outbox n = [].
Proof.
  intros Hf Hp H2 Hs. pose proof (quorum_bounds eps H2) as [[Hq _] _].
  assert (votes_ok eps p s Abs_init) as Hv.
  { constructor; intros d; [split; [apply NoDup_nil_2|apply list_subseteq_nil]..|].
    split; [by intros ?%elem_of_nil|]. change (votes_for d (a_confirms Abs_init)) with (@nil string). cbn. lia. }
  assert (∀ n : Rbft (M:=M) (E:=E), in_view eps 0 p s n → exe n = e → command_history n = [] →
    to_be_confirmed_commands n = ∅ → to_be_committed_commands n = ∅ → refines eps 0 p s e [] Abs_init n) as Hran.
  { intros n Hn <- Hh H3 H4. constructor; [done|done|..|exists []; by rewrite Hh].
    - rewrite H3. apply tracks_empty.
    - rewrite H4. apply tracks_empty. }
  unfold create, ctor_body. unfold_st. unfold primary.
  change (all_endpoints (Rbft_new s m e eps)) with eps. change (listened_endpoint (Rbft_new s m e eps)) with s.
  rewrite (proj2 (contains_elem _ _) Hs). cbn [negb].
  change (endpoint_of_epoch _ (epoch _)) with (endpoint_of_epoch eps 0%Z). rewrite Hp.
  destruct (String.eqb_spec p s) as [->|Hps].
  - rewrite start_listening_as_primary_eq, start_timer_eq by done.
    eexists. split; [reflexivity|]. split; [|reflexivity]. apply Hran; try reflexivity.
    constructor; try reflexivity. by rewrite decide_True.
  - rewrite start_listening_as_sub_eq, start_timer_eq by first [reflexivity|by left].
    eexists. split; [reflexivity|]. split; [|reflexivity]. apply Hran; try reflexivity.
    constructor; try reflexivity. by rewrite decide_False.
Qed.

Lemma initial_ok {M E} {RW : RbftWire} {IM : IMsgManageable M} {IX : IForConsensusExecutable E}
    {IXL : IForConsensusExecutableLaws E} eps p mgr ex (c : Cluster M E) :
  fits eps → endpoint_of_epoch eps 0 = Ret p → (2 <= length eps)%nat → initial eps eps mgr ex c →
  cluster_ok eps 0 p ex c (λ _, Abs_init) [].
Proof.
  intros Hf Hp H2 (Hd & Hn & Hfl). pose proof (quorum_bounds eps H2) as [[Hq _] _].
  constructor; [done| |].
  - intros s n Hs. assert (s ∈ eps) as Hin.
    { destruct (decide (s ∈ eps)) as [|H]; [done|]. apply Hd in H. congruence. }
    destruct (create_refines eps p s (mgr s) (ex s) Hf Hp H2 Hin) as (n' & Hc & Hr).
    pose proof (Hn s n Hs) as Hc'. rewrite Hc in Hc'. by simplify_eq.
  - assert (∀ s d, cf (λ _, Abs_init) s d = [] ∧ cm (λ _, Abs_init) s d = []) as Hnil by done.
    rewrite Hfl. constructor; try (intros; reflexivity).
    + constructor.
    + apply NoDup_nil_2.
    + intros q s d _ _ _. destruct (Hnil s d) as [_ ->]. destruct (Hnil q d) as [-> _].
      rewrite !b2n_false; [done|cbn; lia|apply not_elem_of_nil].
    + intros s Hs. split; [apply NoDup_nil_2|]. intros d. split; [by intros ?%elem_of_nil|].
      destruct (Hnil s d) as [_ ->]. cbn. lia.
Qed.

(** ** Running a schedule *)
Section schedule.
Context {M E : Type} {RW : RbftWire} {IM : IMsgManageable M} {IX : IForConsensusExecutable E}.
Implicit Types c : Cluster M E.

Inductive action :=
  | Pick (i : nat)                 (* deliver the [i]-th message in flight *)
  | Give (s d : string)            (* a client gives [d] to the node [s] *)
  | Forge (q : string) (m : Send).

Definition act (a : action) c : option (label * Cluster M E) :=
  match a with
  | Pick i =>
      '(q, m) ← flight c !! i; n ← nodes c !! to_endpoint m;
      match deliver q (to_target m) (to_data m) n with
      | (n', Ret _) => Some (LDeliver q m, with_node c (to_endpoint m) n' (take i (flight c) ++ drop (S i) (flight c)))
      | _ => None
      end
  | Give s d =>
      n ← nodes c !! s;
      if bool_decide (map_Forall (λ _ n, "client" ∉ all_endpoints n) (nodes c)) then
        match handle_execute "client" d n with
        | (n', Ret _) => Some (LClient d, with_node c s n' (flight c))
        | _ => None
        end
      else None
  | Forge q m =>
      match nodes c !! q with
      | None => Some (LFaulty q m, mkCluster (nodes c) (flight c ++ [(q, m)]))
      | Some _ => None
      end
  end.
Fixpoint run (acts : list action) c : option (list label * Cluster M E) :=
  match acts with
  | [] => Some ([], c)
  | a :: acts => '(l, c) ← act a c; '(ls, c) ← run acts c; Some (l :: ls, c)
  end.

Lemma act_step a c l c' : act a c = Some (l, c') → step l c c'.
Proof.
  destruct a as [i|s d|q m]; cbn; intros E1.
  - destruct (flight c !! i) as [[q m]|] eqn:Hi; cbn in E1; [|done].
    destruct (nodes c !! to_endpoint m) as [n|] eqn:Hn; cbn in E1; [|done].
    destruct (deliver _ _ _ n) as [n' [[]| |]] eqn:Hd; simplify_eq.
    eapply step_deliver; [|done|done|done]. by rewrite take_drop_middle.
  - destruct (nodes c !! s) as [n|] eqn:Hn; cbn in E1; [|done].
    destruct (bool_decide _) eqn:Hb; [|done]. apply bool_decide_eq_true in Hb.
    destruct (handle_execute _ _ n) as [n' [a| |]] eqn:Hd; simplify_eq.
    eapply (step_client _ _ "client"); [done| |done|done]. intros r nr. apply Hb.
  - destruct (nodes c !! q) eqn:Hq; simplify_eq. by constructor.
Qed.
Lemma steps_app ls l c c' c'' : step l c c' → steps ls c' c'' → steps (l :: ls) c c''.
Proof.
  intros Hs Hst. induction Hst as [c1|ls l' c1 c2 c3 Hst IH Hs'].
  - by eapply (steps_snoc []); [constructor|].
  - apply (steps_snoc (l :: ls)) with c2; auto.
Qed.
Lemma run_steps acts c ls c' : run acts c = Some (ls, c') → steps ls c c'.
Proof.
  revert c ls. induction acts as [|a acts IH]; cbn; intros c ls E1; [simplify_eq; constructor|].
  destruct (act a c) as [[l c1]|] eqn:Ha; cbn in E1; [|done].
  destruct (run acts c1) as [[ls1 c2]|] eqn:Hr; cbn in E1; [|done]. simplify_eq.
  eapply steps_app; [by eapply act_step|by eapply IH].
Qed.

(** The nodes [hon] of the configuration [eps], constructed. *)
Definition cluster (eps hon : list string) (mgr : string → M) (ex : string → E) : Cluster M E :=
  mkCluster (list_to_map ((λ s, (s, (create s (mgr s) (ex s) eps).1)) <$> hon)) [].
Lemma cluster_initial {IXL : IForConsensusExecutableLaws E} eps hon mgr ex :
  fits eps → (2 <= length eps)%nat → NoDup hon → hon ⊆ eps → initial eps hon mgr ex (cluster eps hon mgr ex).
Proof.
  intros Hf H2 Hn Hsub. destruct (endpoint_of_epoch_Ret eps 0 Hf) as (p & Hp & _). split; [|split; [|done]].
  - intros s. cbn. rewrite <-not_elem_of_list_to_map, <-list_fmap_compose.
    rewrite (list_fmap_ext _ id), list_fmap_id by done. done.
  - intros s n Hs. cbn in Hs. apply elem_of_list_to_map_2, list_elem_of_fmap in Hs as (r & E1 & Hr).
    simplify_eq. destruct (create_refines eps p r (mgr r) (ex r) Hf Hp H2) as (n & -> & _); [by apply Hsub|done].
Qed.
End schedule.

(** ** Theorems *)

(** C6: A cluster of any size from two nodes to 2^31, with different endpoints,
    constructed with one configuration, in a calm run:
    commands are given to any of its nodes, each once and no two alike, messages
    are delivered in any order, none is lost, no timer runs out and no node is
    faulty.  No message makes a node crash; and when nothing is left in flight,
    every node has executed every command exactly once, in some order.
    (Commands that are alike are told apart by nothing: [repeated_command].) *)
Theorem rbft_exactly_once {M E} {RW : RbftWire} {IM : IMsgManageable M} {IX : IForConsensusExecutable E}
    {IXL : IForConsensusExecutableLaws E} eps mgr ex ls (c0 c : Cluster M E) :
  fits eps → NoDup eps → (2 <= length eps)%nat →
  initial eps eps mgr ex c0 → steps ls c0 c → Forall calm ls → NoDup (commands ls) →
  (∀ l1 q m l2, flight c = l1 ++ (q, m) :: l2 →
     ∃ n n', nodes c !! to_endpoint m = Some n ∧ deliver q (to_target m) (to_data m) n = (n', Ret tt))
  ∧ (flight c = [] → ∀ s n, nodes c !! s = Some n →
     ∃ cmds, cmds ≡ₚ commands ls ∧ run_cmds cmds (ex s) = Ret (command_history n, exe n)).
Proof.
  intros Hf Hnd H2 Hi Hst Hcalm Hn. destruct (endpoint_of_epoch_Ret eps 0 Hf) as (p & Hp & Hpin).
  pose proof (quorum_bounds eps H2) as [[Hq1 Hq2] _].
  destruct (steps_ok eps 0 p ex Hf Hp Hnd H2 c0 _ ls c (initial_ok _ _ _ _ _ Hf Hp H2 Hi) Hst Hcalm Hn)
    as (A & Hok & _). split.
  - intros l1 q m l2 Hfl. destruct (ok_deliver eps 0 p ex Hf Hp Hnd H2 c A _ _ _ _ _ Hok Hn Hfl)
      as (n & n' & A' & ? & ? & _). eauto.
  - intros Hfl s n Hs. destruct (ok_node _ _ _ _ _ _ _ Hok s n Hs) as [Hr _].
    destruct (rf_ran _ _ _ _ _ _ _ _ Hr) as (cs & Hrun & Hh). cbn in Hh. subst cs.
    exists (a_executed (A s)). split; [|done].
    pose proof (ok_inv _ _ _ _ _ _ _ Hok) as HI. rewrite Hfl in HI.
    assert (∀ s, s ∈ subs eps p → votes_ok eps p s (A s)) as Hv.
    { intros r Hr'. destruct (subs_ne _ _ _ Hr') as [_ Hin].
      destruct (ok_get _ _ _ _ _ _ _ r Hok Hin) as [nr Hnr].
      by destruct (ok_node _ _ _ _ _ _ _ Hok r nr Hnr) as [[_ ? _ _ _] _]. }
    assert (quorum eps <= length (subs eps p))%nat as Hlen by (by apply subs_length).
    assert (∀ s, s ∈ subs eps p → a_executed (A s) ≡ₚ a_executed (A p)
      ∧ (∀ d, d ∈ a_executed (A p) ↔ d ∈ commands ls)) as Hquiet by (intros; by eapply Inv_quiet).
    assert (∃ r, r ∈ subs eps p) as [r Hr'].
    { destruct (subs eps p) as [|r ?]; [cbn in Hlen; lia|]. exists r. left. }
    assert (a_executed (A p) ≡ₚ commands ls) as Hpp.
    { apply NoDup_Permutation; [by destruct HI|done|]. by apply (Hquiet r). }
    destruct (decide (s = p)) as [->|Hsp]; [done|]. rewrite <-Hpp. apply Hquiet.
    unfold subs. rewrite list_elem_of_filter. split; [done|].
    destruct (decide (s ∈ eps)) as [|Hns]; [done|]. apply (ok_dom _ _ _ _ _ _ _ Hok) in Hns. congruence.
Qed.

(** C9: Such a run - [k] commands, no two alike, each given once, no losses, no
    time-outs, no faulty nodes - is finite: it has at most
    [k * (1 + (N-1) + 2 (N-1) (N-2))] deliveries, so the nodes do not answer
    each other for ever. *)
Theorem rbft_terminates {M E} {RW : RbftWire} {IM : IMsgManageable M} {IX : IForConsensusExecutable E}
    {IXL : IForConsensusExecutableLaws E} eps mgr ex ls (c0 c : Cluster M E) :
  fits eps → NoDup eps → (2 <= length eps)%nat →
  initial eps eps mgr ex c0 → steps ls c0 c → Forall calm ls → NoDup (commands ls) →
  (deliveries ls + length (flight c)
   <= length (commands ls) * (1 + (length eps - 1) + 2 * (length eps - 1) * (length eps - 2)))%nat.
Proof.
  intros Hf Hnd H2 Hi Hst Hcalm Hn. destruct (endpoint_of_epoch_Ret eps 0 Hf) as (p & Hp & Hpin).
  pose proof (initial_ok _ _ _ _ _ Hf Hp H2 Hi) as Hok0.
  destruct (steps_ok eps 0 p ex Hf Hp Hnd H2 c0 _ ls c Hok0 Hst Hcalm Hn) as (A & _ & Hphi).
  destruct Hi as (_ & _ & Hfl). rewrite Hfl in Hphi. unfold Phi in Hphi. cbn in Hphi. unfold cost in Hphi.
  assert (length (subs eps p) = length eps - 1)%nat as Hl.
  { assert (eps ≡ₚ p :: subs eps p) as Hpe; [|rewrite Hpe at 2; cbn; lia].
    apply NoDup_Permutation; [done|constructor; [|by apply NoDup_filter]|];
      unfold subs; intros *; rewrite ?elem_of_cons, list_elem_of_filter; [naive_solver|].
    destruct (decide (x = p)); naive_solver. }
  rewrite Hl in Hphi. replace (length eps - 2)%nat with (length eps - 1 - 1)%nat by lia. nia.
Qed.

(** Two nodes, one command. *)
#[local] Existing Instance ToyRbft.toy_rbft.
Definition toy_exe (s : string) : Executable := Executable_ctor s.
Definition two : list string := ["N0"; "N1"].
Definition two_cluster : Cluster NaiveMsgMgr Executable := cluster two two mkNaive toy_exe.
Lemma two_fits : fits two ∧ NoDup two ∧ (2 <= length two)%nat.
Proof. split; [split; [cbn; lia|reflexivity]|]. split; [|cbn; lia].
  apply (bool_decide_unpack (NoDup two)). by vm_compute. Qed.
Lemma two_initial : initial two two mkNaive toy_exe two_cluster.
Proof. destruct two_fits as (? & ? & ?). by apply cluster_initial. Qed.

Lemma rbft_exactly_once_witness :
  ∃ ls c, steps ls two_cluster c ∧ commands ls = ["b1"] ∧ flight c = [] ∧
    ∀ s n, nodes c !! s = Some n → ∃ cmds, cmds ≡ₚ ["b1"] ∧ run_cmds cmds (toy_exe s) = Ret (command_history n, exe n).
Proof.
  destruct (run [Give "N1" "b1"; Pick 0; Pick 0] two_cluster) as [[ls c]|] eqn:Hr; [|by vm_compute in Hr].
  assert (commands ls = ["b1"] ∧ flight c = [] ∧ Forall calm ls) as (Hc & Hfl & Hcalm).
  { vm_compute in Hr. injection Hr as <- <-. repeat constructor. }
  destruct two_fits as (Hf & Hn & H2). exists ls, c.
  pose proof (run_steps _ _ _ _ Hr) as Hst. split; [done|]. split; [done|]. split; [done|].
  rewrite <-Hc. apply (rbft_exactly_once two mkNaive toy_exe ls two_cluster c Hf Hn H2 two_initial Hst Hcalm); [|done].
  rewrite Hc. apply NoDup_singleton.
Defined.

Lemma rbft_terminates_witness :
  ∃ ls c, steps ls two_cluster c ∧ commands ls = ["b1"] ∧ deliveries ls = 2%nat ∧
    (deliveries ls + length (flight c) <= 2)%nat.
Proof.
  destruct (run [Give "N1" "b1"; Pick 0; Pick 0] two_cluster) as [[ls c]|] eqn:Hr; [|by vm_compute in Hr].
  assert (commands ls = ["b1"] ∧ deliveries ls = 2%nat ∧ Forall calm ls) as (Hc & Hfl & Hcalm).
  { vm_compute in Hr. injection Hr as <- <-. repeat constructor. }
  destruct two_fits as (Hf & Hn & H2). exists ls, c.
  pose proof (run_steps _ _ _ _ Hr) as Hst. split; [done|]. split; [done|]. split; [done|].
  pose proof (rbft_terminates two mkNaive toy_exe ls two_cluster c Hf Hn H2 two_initial Hst Hcalm) as Hb.
  rewrite Hc in Hb. apply Hb. apply NoDup_singleton.
Defined.

(** Four nodes, of which one may fail. *)
Definition four : list string := ["N0"; "N1"; "N2"; "N3"].
Definition histories (c : Cluster NaiveMsgMgr Executable) (s : string) : option (list string) :=
  fmap (M:=option) command_history (nodes c !! s).

(** No message carries a position: with four honest nodes, two commands of one
    primary are executed in different orders by two of them. *)
Definition reordering : list action :=
  [Give "N0" "b1"; Give "N0" "b2"]
  ++ (Pick <$> [0; 0; 3; 3; 4; 7; 8; 0; 8; 8; 0; 8; 0; 10; 0; 9; 9; 0; 0; 8; 0; 8; 0; 0; 0; 0; 0; 0; 0; 0]).
Theorem rbft_order_not_agreed :
  ∃ ls c, initial four four mkNaive toy_exe (cluster four four mkNaive toy_exe)
    ∧ steps ls (cluster four four mkNaive toy_exe) c ∧ Forall calm ls ∧ flight c = []
    ∧ histories c "N1" = Some ["b1"; "b2"] ∧ histories c "N3" = Some ["b2"; "b1"].
Proof.
  destruct (run reordering (cluster four four mkNaive toy_exe)) as [[ls c]|] eqn:Hr; [|by vm_compute in Hr].
  exists ls, c. split.
  { apply cluster_initial; [split; [cbn; lia|reflexivity]|cbn; lia| |done].
    apply (bool_decide_unpack (NoDup four)). by vm_compute. }
  split; [by apply run_steps in Hr|]. vm_compute in Hr. injection Hr as <- <-.
  split; [repeat constructor|]. by vm_compute.
Qed.

(** The primary of four nodes is the faulty one.  It orders a command and also
    commits it: the honest node N1 executes the command twice, because a set of
    commits that was erased when it was full is filled again. *)
Definition double_vote : list action :=
  [Forge "N0" (mkSend "N1" "/pleaseExecuteThis" "b1"); Forge "N0" (mkSend "N2" "/pleaseExecuteThis" "b1");
   Forge "N0" (mkSend "N3" "/pleaseExecuteThis" "b1"); Forge "N0" (mkSend "N1" "/pleaseCommitThis" "b1")]
  ++ replicate 16 (Pick 0).
Theorem rbft_executes_twice :
  ∃ ls c, steps ls (cluster four (drop 1 four) mkNaive toy_exe) c ∧ flight c = []
    ∧ histories c "N1" = Some ["b1"; "b1"] ∧ histories c "N2" = Some ["b1"].
Proof.
  destruct (run double_vote (cluster four (drop 1 four) mkNaive toy_exe)) as [[ls c]|] eqn:Hr; [|by vm_compute in Hr].
  exists ls, c. split; [by apply run_steps in Hr|]. vm_compute in Hr. injection Hr as <- <-. by vm_compute.
Qed.

(** A client gives one command twice, to a replica.  The primary would ignore the
    second, but the set of the commands received, which it asks, is never
    filled; and the sets of votes are per command, so that the second round and
    what is left of the first make a third and a fourth full set.  With four
    honest nodes and no time-outs there are 38 deliveries, not the 32 of two
    different commands; the primary executes the command twice, a replica three
    times and the others four times. *)
Definition repeated : list action :=
  [Give "N1" "b1"; Give "N1" "b1"]
  ++ (Pick <$> [0; 0; 0; 1; 4; 5; 6; 4; 0; 8; 3; 0; 8; 5; 5; 9; 2; 8; 7; 4; 1; 5; 1; 2; 1; 3; 3; 2; 1; 0; 2; 2; 1; 2; 1; 0; 1; 0]).
Theorem repeated_command :
  ∃ ls c, initial four four mkNaive toy_exe (cluster four four mkNaive toy_exe)
    ∧ steps ls (cluster four four mkNaive toy_exe) c ∧ Forall calm ls ∧ flight c = []
    ∧ commands ls = ["b1"; "b1"] ∧ deliveries ls = 38%nat
    ∧ (histories c <$> four) = [Some ["b1"; "b1"]; Some ["b1"; "b1"; "b1"]; Some ["b1"; "b1"; "b1"; "b1"]; Some ["b1"; "b1"; "b1"; "b1"]].
Proof.
  destruct (run repeated (cluster four four mkNaive toy_exe)) as [[ls c]|] eqn:Hr; [|by vm_compute in Hr].
  exists ls, c. split.
  { apply cluster_initial; [split; [cbn; lia|reflexivity]|cbn; lia| |done].
    apply (bool_decide_unpack (NoDup four)). by vm_compute. }
  split; [by apply run_steps in Hr|]. vm_compute in Hr. injection Hr as <- <-.
  split; [repeat constructor|]. by vm_compute.
Qed.
