(* ===== verification/RbftFaulty.v ===== *)
(** * RBFT: faulty nodes cannot invent commands

    Any run of a cluster: timers run out, views change, nodes join, messages
    are lost, and the faulty nodes send what they like under their own
    endpoints.  As long as they are at most a third of the others, a command
    is committed or executed by an honest node only after an honest node
    received it as a command: from a client or as an order to execute. *)
From Stdlib Require Import ZArith Strings.String Strings.Ascii Lia.
From stdpp Require Import base tactics strings gmap option list.
From S2P Require Import Prelude Net Codec Consensus Rbft RbftVotes RbftCluster.

Create HintDb keeps_rbft.

Section quiet.
Context {M E : Type} {RW : RbftWire} {IM : IMsgManageable M} {IX : IForConsensusExecutable E}.
Implicit Types n : Rbft (M:=M) (E:=E).

(** The targets on which votes travel. *)
Definition is_vote (t : string) : Prop := t = "/pleaseConfirmThis" ∨ t = "/pleaseCommitThis".

(** What the operations of a view change leave alone. *)
Record quiet n n' : Prop := {
  q_confirmed : to_be_confirmed_commands n' = to_be_confirmed_commands n;
  q_committed : to_be_committed_commands n' = to_be_committed_commands n;
  q_history : command_history n' = command_history n;
  q_exe : exe n' = exe n;
  q_me : listened_endpoint n' = listened_endpoint n;
  q_eps : all_endpoints n `prefix_of` all_endpoints n';
  q_handlers : handlers n' = handlers n ∨ handlers n' = sub_handlers ∨ handlers n' = primary_handlers;
  q_out : ∃ out, outbox n' = outbox n ++ out ∧ Forall (λ m, ¬ is_vote (to_target m)) out
}.
#[global] Instance quiet_preorder : PreOrder quiet.
Proof.
  split.
  - intros n. constructor; try done; [by left|]. exists []. by rewrite app_nil_r.
  - intros a b c [? ? ? ? ? ? Hh (o1 & E1 & H1)] [? ? ? ? ? ? Hh' (o2 & E2 & H2)].
    constructor; try congruence.
    + by etrans.
    + destruct Hh' as [-> | [-> | ->]]; auto.
    + exists (o1 ++ o2). rewrite E2, E1, app_assoc, Forall_app. done.
Qed.

Ltac quiet_field := constructor; cbn; try done; [by left|by exists []; rewrite app_nil_r].

Lemma keeps_send s t d : ¬ is_vote t → keeps quiet (net_send s t d).
Proof.
  intros Ht. apply keeps_modify. intros n. constructor; cbn; try done; [by left|].
  eexists. split; [done|]. by repeat constructor.
Qed.
Lemma keeps_start_primary : keeps quiet start_listening_as_primary.
Proof.
  intros n. rewrite start_listening_as_primary_eq. constructor; cbn; try done; [by right; right|].
  exists []. by rewrite app_nil_r.
Qed.
Lemma keeps_clear_memory : keeps quiet clear_memory.
Proof. apply keeps_modify. intros n. quiet_field. Qed.
Lemma keeps_start_sub : keeps quiet start_listening_as_sub.
Proof.
  intros n. destruct (decide (role n = Sub)) as [Hr|Hr].
  - unfold start_listening_as_sub. unfold_st. rewrite decide_True by done. apply keeps_clear_memory.
  - rewrite start_listening_as_sub_eq by by left. constructor; cbn; try done; [by right; left|].
    exists []. by rewrite app_nil_r.
Qed.
Lemma keeps_push l : keeps quiet (push_endpoints l).
Proof.
  apply keeps_modify. intros n. constructor; cbn; try done; [by exists l|by left|].
  exists []. by rewrite app_nil_r.
Qed.
Lemma keeps_set_epoch e : keeps quiet (modify (set_epoch e)).
Proof. apply keeps_modify. intros n. quiet_field. Qed.
Lemma keeps_set_laid_down h : keeps quiet (modify (set_laid_down_history h)).
Proof. apply keeps_modify. intros n. quiet_field. Qed.
Lemma keeps_set_sig h : keeps quiet (modify (set_sig_of_nodes_to_be_added h)).
Proof. apply keeps_modify. intros n. quiet_field. Qed.
Lemma keeps_set_view_change b : keeps quiet (modify (set_view_change_state b)).
Proof. apply keeps_modify. intros n. quiet_field. Qed.
Lemma keeps_comfort : keeps quiet comfort.
Proof. apply (keeps_bind quiet); [apply keeps_modify; intros n; quiet_field|intros; apply (keeps_ret quiet)]. Qed.
Lemma keeps_inc_epoch : keeps quiet (modify (λ n, set_epoch (i32 (epoch n + 1)) n)).
Proof. apply keeps_modify. intros n. quiet_field. Qed.
Lemma keeps_add_node e d : keeps quiet (handle_add_new_node_no_boardcast e d).
Proof. apply keeps_modify. intros n. quiet_field. Qed.
Lemma keeps_say b : keeps quiet (say b).
Proof. destruct b; [apply (keeps_lift quiet)|apply (keeps_ret quiet)]. Qed.
#[local] Hint Resolve keeps_send keeps_start_primary keeps_clear_memory keeps_start_sub keeps_push
  keeps_set_epoch keeps_set_laid_down keeps_set_sig keeps_set_view_change keeps_comfort
  keeps_inc_epoch keeps_say : keeps_rbft.

Ltac keeps_step :=
  match goal with
  | |- keeps _ (match ?x with _ => _ end) => destruct x
  | |- keeps ?R (mbind _ _) => apply (keeps_bind R); [|intros ?]
  | |- keeps ?R (forM_ _ _) => apply (keeps_forM R); intros ?
  | |- keeps ?R (whenM _ _) => apply (keeps_whenM R)
  | |- keeps ?R (catch_assertion _ _) => apply (keeps_catch R)
  | |- keeps ?R _ => first
      [ solve [eauto 2 with keeps_rbft] | apply (keeps_assert R) | apply (keeps_gets R) | apply (keeps_lift R)
      | apply (keeps_ret R) | apply (keeps_read R) ]
  end.
Ltac keep := repeat keeps_step.

Lemma not_vote_exec : ¬ is_vote "/IamThePrimary" ∧ ¬ is_vote "/IamThePrimaryForNewcomer" ∧ ¬ is_vote "/ILaidDown".
Proof. unfold is_vote. repeat split; by intros [|]. Qed.

Lemma keeps_boardcast t d : ¬ is_vote t → keeps quiet (boardcast_to_others t d).
Proof. intros Ht. unfold boardcast_to_others. keep. Qed.
Lemma keeps_verified l o : keeps quiet (verified_senders l o).
Proof.
  revert o. induction l as [|s l IH]; intros o; cbn; [keep|].
  apply (keeps_bind quiet); [apply (keeps_read quiet)|]. intros [[m ?]|]; apply IH.
Qed.
Lemma keeps_newcommers l : keeps quiet (get_newcommers l).
Proof. apply keeps_verified. Qed.
Lemma keeps_check_rest l e s v : keeps quiet (check_rest l e s v).
Proof.
  revert v. induction l as [|x l IH]; intros v; cbn; [keep|].
  apply (keeps_bind quiet); [apply (keeps_read quiet)|]. intros [[? ?]|]; [|keep].
  apply (keeps_bind quiet); [keep|]. intros [m|]; [|keep].
  apply (keeps_bind quiet); [keep|]. intros _. apply (keeps_bind quiet); [keep|]. intros _. apply IH.
Qed.
#[local] Hint Resolve keeps_boardcast keeps_newcommers keeps_check_rest : keeps_rbft.
Lemma keeps_check_cert l e b : keeps quiet (check_cert l e b).
Proof. unfold check_cert, get_state, N, f, tear. keep. Qed.
Lemma keeps_check_old l : keeps quiet (check_old l).
Proof.
  induction l as [|x l IH]; cbn; [keep|]. apply (keeps_bind quiet); [keep|]. intros eps.
  destruct (contains eps x); [keep|done].
Qed.
#[local] Hint Resolve keeps_check_cert keeps_check_old : keeps_rbft.

Lemma keeps_try_to_be_primary e s l : keeps quiet (try_to_be_primary e s l).
Proof.
  destruct not_vote_exec as (H1 & H2 & H3).
  unfold try_to_be_primary, get_state, epoch_considering_newcomers. keep.
Qed.
#[local] Hint Resolve keeps_try_to_be_primary : keeps_rbft.
Lemma keeps_remember o d : keeps quiet (remember_this_laiddown_and_be_primary_maybe o d).
Proof. unfold remember_this_laiddown_and_be_primary_maybe, N, f. keep. Qed.
#[local] Hint Resolve keeps_remember : keeps_rbft.
Lemma keeps_trigger : keeps quiet trigger_view_change.
Proof.
  destruct not_vote_exec as (H1 & H2 & H3). unfold trigger_view_change, primary, get_state. keep.
Qed.
Lemma keeps_laid_down e d : keeps quiet (handle_laid_down e d).
Proof. unfold handle_laid_down, tear. keep. Qed.
Lemma keeps_new_primary e d : keeps quiet (handle_new_primary e d).
Proof. unfold handle_new_primary, epoch_considering_newcomers. keep. Qed.
Lemma keeps_tick : keeps quiet timer_tick.
Proof.
  intros n. unfold timer_tick. destruct (timer n); cbn [negb]; [|reflexivity].
  destruct (closed n); [cbn; quiet_field|]. cbn [patience set_patience].
  assert (quiet n (set_patience (i32 (patience n - 1)) n)) as H1 by quiet_field.
  destruct (0 <? _)%Z; [exact H1|].
  pose proof (keeps_trigger (set_patience (i32 (patience n - 1)) n)) as H2.
  destruct (trigger_view_change _) as [n' [u|x|w]]; cbn in *; try by etrans.
  etrans; [exact H1|]. etrans; [exact H2|]. apply keeps_comfort.
Qed.
End quiet.

(** ** Votes and commands that have an honest origin *)
Section honest.
Context {M E : Type} {RW : RbftWire} {IM : IMsgManageable M} {IX : IForConsensusExecutable E}
  {IXL : IForConsensusExecutableLaws E}.
Context (N0 : nat) (B : list string).
Context (HN0 : (2 <= N0)%nat) (HB : (length B <= (N0 - 1) / 3)%nat).
Implicit Types n : Rbft (M:=M) (E:=E).

Definition sound_sets (G : string → Prop) (m : gmap string sset) : Prop :=
  ∀ d s, m !! d = Some s → sset_ok s ∧ ∀ q, q ∈ s → q ∈ B ∨ G d.

Record J (G : string → Prop) (ex0 : E) n : Prop := {
  j_confirmed : sound_sets G (to_be_confirmed_commands n);
  j_committed : sound_sets G (to_be_committed_commands n);
  j_ran : ∃ cmds, Forall G cmds ∧ run_cmds cmds ex0 = Ret (command_history n, exe n);
  j_out : Forall (λ m, is_vote (to_target m) → G (to_data m)) (outbox n);
  j_handlers : handlers n = [] ∨ handlers n = sub_handlers ∨ handlers n = primary_handlers;
  j_size : (N0 <= length (all_endpoints n))%nat
}.

Lemma J_mono (G G' : string → Prop) ex0 n : (∀ d, G d → G' d) → J G ex0 n → J G' ex0 n.
Proof.
  intros HG [H1 H2 (cmds & H3 & H4) H5 H6 H7].
  assert (∀ m, sound_sets G m → sound_sets G' m) as Hs.
  { intros m Hm d s Hd. destruct (Hm d s Hd) as [? Hq]. split; [done|]. naive_solver. }
  constructor; auto.
  - exists cmds. split; [|done]. eapply Forall_impl; [done|]. auto.
  - eapply Forall_impl; [done|]. cbn. auto.
Qed.
Lemma J_quiet G ex0 n n' : quiet n n' → J G ex0 n → J G ex0 n'.
Proof.
  intros [H1 H2 H3 H4 H5 H6 H7 (out & H8 & H9)] [J1 J2 J3 J4 J5 J6].
  constructor; rewrite ?H1, ?H2, ?H3, ?H4; auto.
  - rewrite H8, Forall_app. split; [done|]. eapply Forall_impl; [done|]. cbn. intros m Hn Hm. by destruct Hn.
  - destruct H7 as [-> | ?]; auto.
  - apply prefix_length in H6. lia.
Qed.

(** A full set has an honest member. *)
Lemma add_vote_sound G m q d :
  sound_sets G m → q ∈ B ∨ G d →
  sound_sets G (<[d := add_vote m d q]> m) ∧ sound_sets G (delete d (<[d := add_vote m d q]> m))
  ∧ ∀ eps, fits eps → (N0 <= length eps)%nat → enough eps (add_vote m d q) = true → G d.
Proof.
  intros Hm Hq. assert (sset_ok (default [] (m !! d)) ∧ ∀ r, r ∈ default [] (m !! d) → r ∈ B ∨ G d) as [Hok Hin].
  { destruct (m !! d) as [s|] eqn:E1; cbn; [by apply Hm|]. split; [constructor|]. by intros r ?%elem_of_nil. }
  assert (∀ r, r ∈ add_vote m d q → r ∈ B ∨ G d) as Hin'.
  { intros r [->|Hr]%elem_of_sset_insert; auto. }
  assert (sset_ok (add_vote m d q)) as Hok' by by apply sset_insert_ok.
  assert (sound_sets G (<[d := add_vote m d q]> m)) as Hm'.
  { intros d' s. rewrite lookup_insert_Some. intros [[<- <-]|[_ Hd]]; [done|by apply Hm]. }
  split; [done|]. split.
  { intros d' s Hd. apply lookup_delete_Some in Hd as [_ Hd]. by apply Hm'. }
  intros eps Hf Hl. rewrite enough_spec by done. intros Hen%Nat.leb_le.
  pose proof (quorum_bounds eps ltac:(lia)) as (_ & _ & Hq3).
  assert ((N0 - 1) / 3 <= (length eps - 1) / 3)%nat as Hdiv by (apply Nat.Div0.div_le_mono; lia).
  destruct (decide (Forall (λ r, r ∈ B) (add_vote m d q))) as [Hall|Hex].
  - exfalso. assert (length (add_vote m d q) <= length B)%nat; [|lia].
    apply sset_length_le; [done|]. by apply Forall_forall.
  - apply not_Forall_Exists in Hex; [|apply _]. apply Exists_exists in Hex as (r & Hr & Hb).
    by destruct (Hin' r Hr).
Qed.

Lemma J_commit G ex0 q d n :
  fits (all_endpoints n) → J G ex0 n → q ∈ B ∨ G d → J G ex0 (add_to_to_be_committed_commands q d n).1.
Proof.
  intros Hf [J1 J2 (cmds & Jg & Jr) J4 J5 J6] Hq.
  destruct (add_vote_sound G _ q d J2 Hq) as (S1 & S2 & S3).
  unfold add_to_to_be_committed_commands. unfold_st. cbn.
  destruct (enough _ _) eqn:Hen; [|constructor; cbn; eauto].
  specialize (S3 _ Hf J6 Hen). unfold finally_execute_it. cbn.
  destruct (cnsss_execute_total d (exe n)) as (a & c' & x' & Hx). rewrite Hx. cbn.
  constructor; cbn; auto. exists (cmds ++ [d]). split; [by apply Forall_app; repeat constructor|].
  rewrite run_cmds_app, Jr. cbn. by rewrite Hx.
Qed.

Lemma J_sending G ex0 n L t d :
  J G ex0 n → (is_vote t → G d) → J G ex0 (sending (sends_to L t d) n).
Proof.
  intros [J1 J2 J3 J4 J5 J6] Ht. constructor; cbn; auto. apply Forall_app. split; [done|].
  unfold sends_to. rewrite Forall_fmap. apply Forall_forall. intros r _. exact Ht.
Qed.
Lemma J_drop_confirm G ex0 n d :
  J G ex0 n → J G ex0 (set_to_be_confirmed_commands (delete d (to_be_confirmed_commands n)) n).
Proof.
  intros [J1 J2 J3 J4 J5 J6]. constructor; cbn; auto.
  intros d' s [_ Hd]%lookup_delete_Some. by apply J1.
Qed.

Lemma boardcast_to_other_subs_Ret t d n :
  fits (all_endpoints n) → ∃ L, boardcast_to_other_subs t d n = (sending (sends_to L t d) n, Ret tt).
Proof.
  intros Hf. destruct (endpoint_of_epoch_Ret (all_endpoints n) (epoch n) Hf) as (p & Hp & _).
  rewrite (boardcast_to_other_subs_eq _ _ _ _ Hp). eauto.
Qed.

Lemma J_confirm G ex0 q d n :
  fits (all_endpoints n) → J G ex0 n → q ∈ B ∨ G d → J G ex0 (add_to_to_be_confirmed_commands q d n).1.
Proof.
  intros Hf HJ Hq. pose proof HJ as [J1 J2 J3 J4 J5 J6].
  destruct (add_vote_sound G _ q d J1 Hq) as (S1 & _ & S3).
  unfold add_to_to_be_confirmed_commands. unfold_st. cbn.
  set (n1 := set_to_be_confirmed_commands _ n).
  assert (J G ex0 n1) as HJ1 by (constructor; cbn; auto).
  destruct (enough _ _) eqn:Hen; [|done]. specialize (S3 _ Hf J6 Hen).
  destruct (boardcast_to_other_subs_Ret "/pleaseCommitThis" d n1 Hf) as [L ->]. cbn.
  pose proof (J_sending G ex0 n1 L "/pleaseCommitThis" d HJ1 (λ _, S3)) as HJ2.
  pose proof (J_commit G ex0 (listened_endpoint n) d (sending _ n1) Hf HJ2 (or_intror S3)) as HJ3.
  destruct (add_to_to_be_committed_commands _ _ _) as [n3 [u|x|w]]; cbn in *; [|done..].
  by apply J_drop_confirm.
Qed.

(** A command with an honest origin, at a sub and at the primary. *)
Lemma J_order G ex0 q d n :
  fits (all_endpoints n) → J G ex0 n → G d → J G ex0 (handle_execute_for_sub1 q d n).1.
Proof.
  intros Hf HJ He. unfold handle_execute_for_sub1, primary. unfold_st. destruct (view_change_state n); [done|].
  destruct (endpoint_of_epoch_Ret (all_endpoints n) (epoch n) Hf) as (p & -> & _).
  destruct (String.eqb q p).
  - destruct (boardcast_to_other_subs_Ret "/pleaseConfirmThis" d n Hf) as [L ->]. cbn.
    apply J_confirm; [done| |by right]. by apply J_sending.
  - apply (J_sending G ex0 n [p] "/pleaseExecuteThis" d); [done|]. by intros [|].
Qed.
Lemma J_lead G ex0 q d n : J G ex0 n → G d → J G ex0 (handle_execute_for_primary1 q d n).1.
Proof.
  intros HJ He. unfold handle_execute_for_primary1. unfold_st. destruct (view_change_state n); [done|].
  destruct (sset_contains d (received_commands n)); [done|].
  destruct HJ as [J1 J2 (cmds & Jg & Jr) J4 J5 J6]. unfold finally_execute_it.
  destruct (cnsss_execute_total d (exe n)) as (a & c' & x' & Hx). rewrite Hx.
  rewrite boardcast_to_others_eq. apply J_sending; [|by intros [|]].
  constructor; cbn; auto. exists (cmds ++ [d]). split; [by apply Forall_app; repeat constructor|].
  rewrite run_cmds_app, Jr. cbn. by rewrite Hx.
Qed.
Lemma J_client G ex0 q d n :
  fits (all_endpoints n) → J G ex0 n → G d → J G ex0 (handle_execute q d n).1.
Proof.
  intros Hf HJ He. unfold handle_execute, is_primary, primary. unfold_st.
  pose proof (J_order G ex0 q d n Hf HJ He) as H1. pose proof (J_lead G ex0 q d n HJ He) as H2.
  destruct (view_change_state n).
  - by destruct (handle_execute_for_sub1 q d n) as [n' [| |]].
  - destruct (endpoint_of_epoch_Ret (all_endpoints n) (epoch n) Hf) as (p & -> & _).
    destruct (String.eqb p (listened_endpoint n)).
    + by destruct (handle_execute_for_primary1 q d n) as [n' [| |]].
    + by destruct (handle_execute_for_sub1 q d n) as [n' [| |]].
Qed.

(** A delivered message with an honest origin keeps the node sound. *)
Lemma J_deliver G ex0 q t d n :
  fits (all_endpoints n) → J G ex0 n →
  (t = "/pleaseExecuteThis" → G d) → (is_vote t → q ∈ B ∨ G d) →
  J G ex0 (deliver q t d n).1.
Proof.
  intros Hf HJ He Hv. unfold deliver.
  destruct (find_handler t (handlers n)) as [h|] eqn:Hh; [|done].
  assert ((t = "/pleaseCommitThis" ∧ h = H_commit_for_sub) ∨ (t = "/pleaseConfirmThis" ∧ h = H_confirm_for_sub)
    ∨ (t = "/pleaseExecuteThis" ∧ (h = H_execute_for_sub1 ∨ h = H_execute_for_primary1))
    ∨ h = H_add_new_node_no_boardcast ∨ h = H_new_primary ∨ h = H_laid_down) as Hcase.
  { unfold find_handler in Hh. destruct (List.find _ _) as [[t' h']|] eqn:Hfind; cbn in Hh; [|done]. simplify_eq.
    apply List.find_some in Hfind as [Hin <-%String.eqb_eq]. apply list_elem_of_In in Hin.
    destruct (j_handlers _ _ _ HJ) as [E1|[E1|E1]]; rewrite E1 in Hin; set_unfold; naive_solver. }
  destruct Hcase as [[-> ->]|[[-> ->]|[[-> Hh']|Hh']]]; cbn [run_handler].
  - unfold handle_commit_for_sub. unfold_st. destruct (view_change_state n); [done|].
    apply J_commit; auto. apply Hv. by right.
  - unfold handle_confirm_for_sub. unfold_st. destruct (view_change_state n); [done|].
    apply J_confirm; auto. apply Hv. by left.
  - specialize (He eq_refl). destruct Hh' as [-> | ->]; cbn [run_handler].
    + by apply J_order.
    + by apply J_lead.
  - destruct Hh' as [-> | [-> | ->]]; cbn [run_handler]; (eapply J_quiet; [|done]).
    + apply keeps_add_node.
    + apply keeps_new_primary.
    + apply keeps_laid_down.
Qed.
End honest.

(** ** The endpoints only grow *)
Section grow.
Context {M E : Type} {RW : RbftWire} {IM : IMsgManageable M} {IX : IForConsensusExecutable E}.
Implicit Types n : Rbft (M:=M) (E:=E).
Definition grow n n' : Prop := all_endpoints n `prefix_of` all_endpoints n'.
#[global] Instance grow_preorder : PreOrder grow.
Proof. split; [intros n; by unfold grow|]. intros a b c. unfold grow. by etrans. Qed.

Lemma keeps_grow_quiet {A} (m : stM Rbft A) : keeps quiet m → keeps grow m.
Proof. intros Hm n. by destruct (Hm n). Qed.
Lemma grow_modify f : (∀ n, all_endpoints (f n) = all_endpoints n) → keeps grow (modify f).
Proof. intros Hf. apply keeps_modify. intros n. unfold grow. by rewrite Hf. Qed.
Lemma grow_execute d : keeps grow (finally_execute_it d).
Proof.
  intros n. unfold finally_execute_it, grow. destruct (cnsss_execute _ _) as [[[? ?] ?]| |]; done.
Qed.
Lemma grow_say b : keeps grow (say b).
Proof. destruct b; [apply (keeps_lift grow)|apply (keeps_ret grow)]. Qed.
#[local] Hint Resolve grow_execute grow_say : keeps_rbft.
Ltac grow_step :=
  match goal with
  | |- keeps ?R (match ?x with _ => _ end) => destruct x
  | |- keeps ?R (mbind _ _) => apply (keeps_bind R); [|intros ?]
  | |- keeps ?R (forM_ _ _) => apply (keeps_forM R); intros ?
  | |- keeps ?R (whenM _ _) => apply (keeps_whenM R)
  | |- keeps ?R (modify _) => apply grow_modify; intros ?; reflexivity
  | |- keeps ?R _ => first
      [ solve [eauto 2 with keeps_rbft] | apply (keeps_gets R) | apply (keeps_lift R)
      | apply (keeps_ret R) | apply (keeps_read R) ]
  end.
Lemma grow_commit q d : keeps grow (add_to_to_be_committed_commands q d).
Proof. unfold add_to_to_be_committed_commands. repeat grow_step. Qed.
Lemma grow_boardcast_subs t d : keeps grow (boardcast_to_other_subs t d).
Proof. unfold boardcast_to_other_subs, primary, net_send. repeat grow_step. Qed.
Lemma grow_boardcast t d : keeps grow (boardcast_to_others t d).
Proof. unfold boardcast_to_others, net_send. repeat grow_step. Qed.
#[local] Hint Resolve grow_commit grow_boardcast_subs grow_boardcast : keeps_rbft.
Lemma grow_confirm q d : keeps grow (add_to_to_be_confirmed_commands q d).
Proof. unfold add_to_to_be_confirmed_commands. repeat grow_step. Qed.
#[local] Hint Resolve grow_confirm : keeps_rbft.
Lemma grow_order q d : keeps grow (handle_execute_for_sub1 q d).
Proof. unfold handle_execute_for_sub1, primary, net_send. repeat grow_step. Qed.
Lemma grow_lead q d : keeps grow (handle_execute_for_primary1 q d).
Proof. unfold handle_execute_for_primary1. repeat grow_step. Qed.
#[local] Hint Resolve grow_order grow_lead : keeps_rbft.
Lemma grow_client q d : keeps grow (handle_execute q d).
Proof. unfold handle_execute, is_primary, primary. repeat grow_step. Qed.
Lemma grow_all_execute cmds : keeps grow (execute_all cmds).
Proof.
  induction cmds as [|c cmds IH]; cbn; [apply (keeps_ret grow)|]. intros n.
  destruct (cnsss_execute c (exe n)) as [[[? c'] e]| |]; cbn; [|done..].
  assert (keeps grow (cs ← execute_all cmds; mret (c' :: cs))) as H
    by (apply (keeps_bind grow); [done|intros; apply (keeps_ret grow)]).
  exact (H (set_exe e n)).
Qed.
Lemma grow_for_newcomer q d : keeps grow (handle_new_primary_for_newcomer q d).
Proof.
  pose proof (λ l e b, keeps_grow_quiet _ (keeps_check_cert l e b)) as H1.
  pose proof (λ l, keeps_grow_quiet _ (keeps_newcommers l)) as H2.
  pose proof (λ l, keeps_grow_quiet _ (keeps_push l)) as H3.
  pose proof (keeps_grow_quiet _ keeps_comfort) as H4. pose proof (keeps_grow_quiet _ keeps_start_sub) as H5.
  unfold handle_new_primary_for_newcomer, epoch_considering_newcomers, start_timer.
  repeat first [apply H1 | apply H2 | apply H3 | apply H4 | apply H5 | apply grow_all_execute
               | apply (keeps_assert grow) | grow_step].
Qed.
Lemma grow_deliver q t d : keeps grow (deliver q t d).
Proof.
  intros n. unfold deliver. destruct (find_handler t (handlers n)) as [[]|]; cbn [run_handler]; [..|done].
  - apply keeps_grow_quiet, keeps_laid_down.
  - apply keeps_grow_quiet, keeps_new_primary.
  - apply keeps_grow_quiet, keeps_add_node.
  - apply grow_lead.
  - apply grow_order.
  - unfold handle_confirm_for_sub. assert (keeps grow (handle_confirm_for_sub q d)) as H
      by (unfold handle_confirm_for_sub; repeat grow_step). apply H.
  - assert (keeps grow (handle_commit_for_sub q d)) as H
      by (unfold handle_commit_for_sub; repeat grow_step). apply H.
  - apply grow_for_newcomer.
Qed.

Lemma grow_step_cluster l (c c' : Cluster M E) s n' :
  step l c c' → nodes c' !! s = Some n' → ∃ n, nodes c !! s = Some n ∧ grow n n'.
Proof.
  assert (∀ (n n1 : Rbft (M:=M) (E:=E)) r fl (c : Cluster M E), nodes c !! r = Some n → grow n n1 →
    nodes (with_node c r n1 fl) !! s = Some n' → ∃ n, nodes c !! s = Some n ∧ grow n n') as Hw.
  { intros n n1 r fl c0 Hn Hg. cbn. rewrite lookup_insert_Some. intros [[<- <-]|[_ Hs]]; [eauto|].
    exists n'. by split. }
  destruct 1 as [c l1 q m l2 n n1 r _ Hn Hd _|c r cl d n n1 o Hn _ Hd _|c r n n1 o Hn Hd _|c|c]; cbn.
  - apply (Hw n n1 (to_endpoint m) (l1 ++ l2) c Hn). pose proof (grow_deliver q (to_target m) (to_data m) n) as Hg. by rewrite Hd in Hg.
  - apply (Hw n n1 r (flight c) c Hn). pose proof (grow_client cl d n) as Hg. by rewrite Hd in Hg.
  - apply (Hw n n1 r (flight c) c Hn). pose proof (keeps_grow_quiet _ keeps_tick n) as Hg. by rewrite Hd in Hg.
  - intros Hs. exists n'. by split.
  - intros Hs. exists n'. by split.
Qed.
End grow.

(** ** The cluster *)

(** A command that an honest node was given, by a client or as an order. *)
Definition introduced (ls : list label) (d : string) : Prop :=
  LClient d ∈ ls ∨ ∃ q s, LDeliver q (mkSend s "/pleaseExecuteThis" d) ∈ ls.

Section runs.
Context {M E : Type} {RW : RbftWire} {IM : IMsgManageable M} {IX : IForConsensusExecutable E}
  {IXL : IForConsensusExecutableLaws E}.
Context (eps B : list string) (ex : string → E).
Context (Hfits : fits eps) (H2 : (2 <= length eps)%nat) (HB : (length B <= (length eps - 1) / 3)%nat).
Implicit Types c : Cluster M E.

Record K (ls : list label) c : Prop := {
  k_nodes : ∀ s n, nodes c !! s = Some n → J (length eps) B (introduced ls) (ex s) n ∧ outbox n = [];
  k_flight : ∀ q m, (q, m) ∈ flight c → is_vote (to_target m) → q ∈ B ∨ introduced ls (to_data m)
}.
Definition small c : Prop := ∀ s n, nodes c !! s = Some n → (N_of (all_endpoints n) < 2 ^ 31)%Z.

Lemma introduced_app ls l d : introduced ls d → introduced (ls ++ [l]) d.
Proof. unfold introduced. set_solver. Qed.

Lemma small_step l c c' : small c' → (∀ s, nodes c' !! s = None → nodes c !! s = None) → step l c c' → small c.
Proof.
  intros Hs Hd Hst s n Hn. destruct (nodes c' !! s) as [n'|] eqn:Hn'; [|by apply Hd in Hn'; simplify_eq].
  destruct (grow_step_cluster _ _ _ _ _ Hst Hn') as (n0 & Hn0 & Hg). simplify_eq.
  specialize (Hs _ _ Hn'). apply prefix_length in Hg. unfold N_of in *. lia.
Qed.
Lemma step_dom l c c' s : step l c c' → nodes c' !! s = None → nodes c !! s = None.
Proof. destruct 1; cbn; try done; by intros [? _]%lookup_insert_None. Qed.

(** The node [s] made a sound move. *)
Lemma K_with_node ls l c s n fl :
  K ls c → J (length eps) B (introduced (ls ++ [l])) (ex s) n →
  (∀ qm, qm ∈ fl → qm ∈ flight c) → K (ls ++ [l]) (with_node c s n fl).
Proof.
  intros [K1 K2] HJ Hfl. constructor; cbn.
  - intros r nr. rewrite lookup_insert_Some. intros [[<- <-]|[_ Hr]].
    + split; [|done]. by destruct HJ.
    + destruct (K1 r nr Hr) as [HJr ?]. split; [|done]. eapply J_mono; [|done]. apply introduced_app.
  - intros q m [Hin|Hin]%elem_of_app Hm.
    + destruct (K2 q m (Hfl _ Hin) Hm); [by left|right; by apply introduced_app].
    + apply list_elem_of_fmap in Hin as (m' & E1 & Hin). simplify_eq. right.
      apply (Forall_in _ _ _ (j_out _ _ _ _ _ HJ) Hin Hm).
Qed.

Lemma K_step ls l c c' :
  K ls c → small c → (∀ q m, l = LFaulty q m → q ∈ B) → step l c c' → K (ls ++ [l]) c'.
Proof.
  intros HK Hsm HF Hst. pose proof HK as [K1 K2].
  assert (∀ s n, nodes c !! s = Some n → fits (all_endpoints n)
    ∧ J (length eps) B (introduced (ls ++ [l])) (ex s) n) as Hn.
  { intros s n Hs. destruct (K1 s n Hs) as [HJ _]. split.
    - split; [|by eapply Hsm]. pose proof (j_size _ _ _ _ _ HJ). lia.
    - eapply J_mono; [|done]. apply introduced_app. }
  destruct Hst as [c l1 q m l2 n n' r Hfl Hs Hd _|c s cl d n n' r Hs _ Hd _|c s n n' r Hs Hd _|c l1 m l2 Hfl|c q m Hq].
  - destruct (Hn _ _ Hs) as [Hf HJ]. eapply K_with_node; [done| |].
    + pose proof (J_deliver (length eps) B H2 HB _ _ q (to_target m) (to_data m) n Hf HJ) as HJ'.
      rewrite Hd in HJ'. apply HJ'.
      * intros Ht. right. exists q, (to_endpoint m). rewrite elem_of_app, list_elem_of_singleton. right.
        destruct m; cbn in *. by subst.
      * intros Hm. destruct (K2 q m) as [?|Hi]; [rewrite Hfl; set_solver|done|by left|right; by apply introduced_app].
    + intros qm Hin. rewrite Hfl. set_solver.
  - destruct (Hn _ _ Hs) as [Hf HJ]. eapply K_with_node; [done| |done].
    pose proof (J_client (length eps) B H2 HB _ _ cl d n Hf HJ) as HJ'. rewrite Hd in HJ'. apply HJ'.
    left. set_solver.
  - destruct (Hn _ _ Hs) as [Hf HJ]. eapply K_with_node; [done| |done].
    pose proof (keeps_tick n) as Hq. rewrite Hd in Hq. by eapply J_quiet.
  - constructor; cbn.
    + intros s n Hs. destruct (Hn _ _ Hs) as [_ HJ]. split; [done|]. by destruct (K1 _ _ Hs).
    + intros q' m' Hin Hm. destruct (K2 q' m') as [?|?]; [rewrite Hfl; set_solver|done|by left|right; by apply introduced_app].
  - constructor; cbn.
    + intros s n Hs. destruct (Hn _ _ Hs) as [_ HJ]. split; [done|]. by destruct (K1 _ _ Hs).
    + intros q' m' [Hin|Hin]%elem_of_app Hm.
      * destruct (K2 q' m') as [?|?]; [done|done|by left|right; by apply introduced_app].
      * apply list_elem_of_singleton in Hin. simplify_eq. left. by eapply HF.
Qed.

Lemma K_initial hon mgr c : hon ⊆ eps → initial eps hon mgr ex c → K [] c.
Proof.
  intros Hsub (Hd & Hn & Hfl). destruct (endpoint_of_epoch_Ret eps 0 Hfits) as (p & Hp & _).
  constructor; [|intros q m; rewrite Hfl; by intros ?%elem_of_nil].
  intros s n Hs. assert (s ∈ eps) as Hin.
  { apply Hsub. destruct (decide (s ∈ hon)) as [|H]; [done|]. apply Hd in H. congruence. }
  destruct (create_refines eps p s (mgr s) (ex s) Hfits Hp H2 Hin) as (n' & Hc & Hr & Ho).
  rewrite (Hn s n Hs) in Hc. simplify_eq. split; [|done].
  destruct Hr as [[Heps _ _ _ _ Hh] _ Hcf Hcm (cs & Hran & Hch)].
  assert (∀ m, tracks (quorum eps) m [] → sound_sets B (introduced []) m) as Hs0.
  { intros m Hm d s' E1. specialize (Hm d). rewrite E1 in Hm. exfalso. revert Hm.
    pose proof (tracks_empty (quorum eps) d) as He. rewrite lookup_empty in He. by rewrite <-He. }
  constructor; auto.
  - exists []. split; [constructor|]. cbn in Hran, Hch. injection Hran as <- Hx. cbn. by rewrite Hch, Hx.
  - rewrite Ho. constructor.
  - rewrite Hh. case_decide; auto.
  - by rewrite Heps.
Qed.

Lemma K_steps hon mgr ls c0 c :
  hon ⊆ eps → initial eps hon mgr ex c0 → steps ls c0 c → small c →
  (∀ q m, LFaulty q m ∈ ls → q ∈ B) → K ls c.
Proof.
  intros Hsub Hi Hst. induction Hst as [c0|ls l c0 c1 c2 Hst IH Hs]; intros Hsm HF; [by eapply K_initial|].
  assert (small c1) as Hsm1 by (eapply small_step; [exact Hsm|intros s; by eapply step_dom|done]).
  eapply K_step; [|done| |done].
  - apply IH; [done..|]. intros q m Hin. apply (HF q m). set_solver.
  - intros q m ->. apply (HF q m). set_solver.
Qed.
End runs.

(** ** Theorems *)

(** C7: Any run of a cluster - with losses, time-outs and view changes - in which
    the honest nodes were constructed with one configuration, the faulty nodes
    are at most a third of its others, and no node knows of 2^31 nodes: a vote for a command that an honest
    node sent, and every command that an honest node has executed, goes back to a
    command that some honest node received from a client or as an order to
    execute.  (Nodes that join later are not among these honest nodes: they
    execute what the new primary tells them, see [newcomer_believes].) *)
Theorem rbft_no_forgery {M E} {RW : RbftWire} {IM : IMsgManageable M} {IX : IForConsensusExecutable E}
    {IXL : IForConsensusExecutableLaws E} eps hon B mgr ex ls (c0 c : Cluster M E) :
  fits eps → (2 <= length eps)%nat → hon ⊆ eps → (length B <= (length eps - 1) / 3)%nat →
  initial eps hon mgr ex c0 → steps ls c0 c → (∀ q m, LFaulty q m ∈ ls → q ∈ B) → small c →
  (∀ q m, (q, m) ∈ flight c → is_vote (to_target m) → q ∈ B ∨ introduced ls (to_data m))
  ∧ (∀ s n, nodes c !! s = Some n →
       ∃ cmds, Forall (introduced ls) cmds ∧ run_cmds cmds (ex s) = Ret (command_history n, exe n)).
Proof.
  intros Hf H2 Hsub HB Hi Hst HF Hsm.
  destruct (K_steps eps B ex Hf H2 HB hon mgr ls c0 c Hsub Hi Hst Hsm HF) as [K1 K2].
  split; [done|]. intros s n Hs. by destruct (K1 s n Hs) as [[_ _ ? _ _ _] _].
Qed.

#[local] Existing Instance ToyRbft.toy_rbft.
Definition forged : list action := [Forge "N0" (mkSend "N1" "/pleaseCommitThis" "b9"); Pick 0].
Lemma forged_run :
  ∃ ls c n, run forged (cluster four (drop 1 four) mkNaive toy_exe) = Some (ls, c) ∧ nodes c !! "N1" = Some n
    ∧ to_be_committed_commands n !! "b9" = Some ["N0"] ∧ (∀ q m, LFaulty q m ∈ ls → q ∈ ["N0"]) ∧ small c.
Proof.
  destruct (run forged (cluster four (drop 1 four) mkNaive toy_exe)) as [[ls c]|] eqn:Hr; [|by vm_compute in Hr].
  destruct (nodes c !! "N1") as [n|] eqn:Hn;
    [|by vm_compute in Hr; injection Hr as <- <-; vm_compute in Hn].
  exists ls, c, n. split; [done|]. split; [done|].
  assert (bool_decide (map_Forall (λ _ n, (N_of (all_endpoints n) < 2 ^ 31)%Z) (nodes c)) = true)
    as Hsm%bool_decide_eq_true by (by vm_compute in Hr; injection Hr as <- <-; vm_compute).
  vm_compute in Hr. injection Hr as <- <-. vm_compute in Hn. injection Hn as <-.
  split; [by vm_compute|]. split; [intros q m; set_solver|exact Hsm].
Qed.

Lemma four_facts :
  fits four ∧ (2 <= length four)%nat ∧ drop 1 four ⊆ four ∧ (length ["N0"] <= (length four - 1) / 3)%nat
  ∧ initial four (drop 1 four) mkNaive toy_exe (cluster four (drop 1 four) mkNaive toy_exe).
Proof.
  assert (fits four) as Hf by (split; [cbn; lia|reflexivity]).
  assert (drop 1 four ⊆ four) as Hs by set_solver.
  split; [done|]. split; [cbn; lia|]. split; [done|]. split; [cbn; lia|].
  apply cluster_initial; [done|cbn; lia| |done].
  apply (bool_decide_unpack (NoDup (drop 1 four))). by vm_compute.
Qed.

(** The faulty N0 commits a command of its own to N1: N1 keeps the vote and
    executes nothing. *)
Lemma rbft_no_forgery_witness :
  ∃ ls c n, steps ls (cluster four (drop 1 four) mkNaive toy_exe) c ∧ nodes c !! "N1" = Some n
    ∧ to_be_committed_commands n !! "b9" = Some ["N0"]
    ∧ ∃ cmds, Forall (introduced ls) cmds ∧ run_cmds cmds (toy_exe "N1") = Ret (command_history n, exe n).
Proof.
  destruct forged_run as (ls & c & n & Hr & Hn & Hv & HF & Hsm).
  exists ls, c, n. pose proof (run_steps _ _ _ _ Hr) as Hst. split; [done|]. split; [done|]. split; [done|].
  destruct four_facts as (H1 & H2 & H3 & H4 & H5).
  exact (proj2 (rbft_no_forgery four (drop 1 four) ["N0"] mkNaive toy_exe ls _ c H1 H2 H3 H4 H5 Hst HF Hsm) "N1" n Hn).
Defined.
