(* ===== verification/RbftView.v ===== *)
(** * RBFT: views

    The epoch after new nodes join, the check of a new-view certificate against
    its specification, and a whole view change: timers run out, the next
    primary collects the laid-down messages, takes over and is followed. *)
From Stdlib Require Import ZArith Strings.String Strings.Ascii Lia.
From stdpp Require Import base tactics strings gmap option list.
From S2P Require Import Prelude Net Codec Consensus Rbft.

Local Open Scope Z_scope.

(** ** Epochs *)
Lemma u64_nonneg e : 0 <= e < 2 ^ 63 → u64 e = e.
Proof. intros. apply u64_small. unfold is_u64. lia. Qed.

(** [e + (e / N) * k] modulo [N + k] is [e] modulo [N]. *)
Lemma epoch_mod e n k : 0 < n → 0 <= k → 0 <= e → (e + e / n * k) mod (n + k) = e mod n.
Proof.
  intros Hn Hk He. pose proof (Z.div_mod e n ltac:(lia)) as Hd. pose proof (Z.mod_pos_bound e n Hn).
  symmetry. apply Z.mod_unique with (e / n); [lia|]. rewrite Hd at 1. lia.
Qed.

Lemma epoch_considering_spec eps new e :
  fits (eps ++ new) → (0 < length eps)%nat → 0 <= e → e + e / N_of eps * N_of new < 2 ^ 31 →
  let e' := e + e / N_of eps * N_of new in
  epoch_considering eps e (N_of new) = Ret e'
  ∧ endpoint_of_epoch (eps ++ new) e' = endpoint_of_epoch eps e.
Proof.
  intros [Hf1 Hf2] Hl He Hb e'. unfold N_of in *. rewrite length_app, Nat2Z.inj_add in Hf2.
  assert (0 < Z.of_nat (length eps)) as Hn by lia. assert (0 <= Z.of_nat (length new)) as Hk by lia.
  assert (0 <= e / Z.of_nat (length eps) * Z.of_nat (length new)) as Hm.
  { apply Z.mul_nonneg_nonneg; [|lia]. by apply Z.div_pos. }
  unfold e'. split.
  - unfold epoch_considering, N_of. rewrite (proj2 (Z.eqb_neq _ _)) by lia.
    rewrite (u64_nonneg e), (u64_nonneg (Z.of_nat (length new))) by lia.
    rewrite (u64_nonneg (_ / _ * _)), (u64_nonneg (e + _)) by lia. rewrite i32_small; [done|]. unfold is_i32. lia.
  - unfold endpoint_of_epoch, N_of. rewrite length_app, Nat2Z.inj_add.
    rewrite (u64_nonneg (e + _)), (u64_nonneg e), epoch_mod by lia.
    pose proof (Z.mod_pos_bound e (Z.of_nat (length eps)) Hn). rewrite lookup_app_l by lia. done.
Qed.

(** ** Certificates *)
Section cert.
Context {M E : Type} {RW : RbftWire} {IM : IMsgManageable M} {IX : IForConsensusExecutable E}.
Implicit Types n : Rbft (M:=M) (E:=E).

(** What a node reads in a signed laid-down message: the signer and the message. *)
Definition open_vote (m : M) (s : string) : outcome (option (string * LaidDownMsg)) :=
  r ← tear_msg_open m s;
  match r with
  | None => Ret None
  | Some (from, data) =>
      o ← LaidDownMsg_fromString data;
      Ret (fmap (M:=option) (pair from) o)
  end.

(** The specification of [check_cert]: at least [N - f] signers, one state, and
    the epoch [e] in every message but the first. *)
Definition cert_ok (eps : list string) (state : string) (e : Z) (for_newcomer : bool)
    (votes : list (string * LaidDownMsg)) : Prop :=
  ∃ h0 m0 rest, votes = (h0, m0) :: rest
    ∧ (for_newcomer = false → ld_state m0 = state)
    ∧ Forall (λ v, ld_state v.2 = ld_state m0 ∧ ld_epoch v.2 = e) rest
    ∧ N_of eps - f_of eps <= Z.of_nat (length (sset_of (fst <$> votes))).

Lemma LaidDownMsg_fromString_no_throw d : ∃ r, LaidDownMsg_fromString d = Ret r.
Proof. unfold LaidDownMsg_fromString, fromPbString. destruct (ParseFromString d); cbn; eauto. Qed.

Lemma check_rest_spec l e st hosts n :
  (∀ s, s ∈ l → ∃ r, open_vote (sig n) s = Ret r) →
  ∃ r, check_rest l e st hosts n = (n, r) ∧
  ((∃ votes, Forall2 (λ s v, open_vote (sig n) s = Ret (Some v)) l votes
     ∧ Forall (λ v, ld_state v.2 = st ∧ ld_epoch v.2 = e) votes
     ∧ r = Ret (foldl (λ s x, sset_insert x s) hosts (fst <$> votes)))
   ∨ ((∃ w, r = Throw (my_assertion_error w)) ∧
      ¬ ∃ votes, Forall2 (λ s v, open_vote (sig n) s = Ret (Some v)) l votes
         ∧ Forall (λ v, ld_state v.2 = st ∧ ld_epoch v.2 = e) votes)).
Proof.
  revert hosts. induction l as [|s l IH]; intros hosts Hl; cbn [check_rest].
  { eexists. split; [reflexivity|]. left. exists []. by repeat constructor. }
  destruct (Hl s ltac:(left)) as [r Hr]. unfold tear. unfold_st.
  assert (∀ w, (∃ votes, Forall2 (λ s v, open_vote (sig n) s = Ret (Some v)) (s :: l) votes ∧ w votes) →
    ∃ v, r = Some v ∧ ∃ vs, Forall2 (λ s v, open_vote (sig n) s = Ret (Some v)) l vs ∧ w (v :: vs)) as Hinv.
  { intros w (votes & Hv & Hw). inversion Hv as [|? v ? vs Hsv Hrest]; subst. rewrite Hr in Hsv. simplify_eq.
    exists v. split; [done|]. by exists vs. }
  unfold open_vote in Hr. destruct (tear_msg_open (sig n) s) as [[[from data]|]| |] eqn:Ht; cbn in Hr; [|..|done].
  2:{ simplify_eq. eexists. split; [reflexivity|]. right. split; [eauto|]. by intros (v & ? & _)%Hinv. }
  2:{ done. }
  destruct (LaidDownMsg_fromString data) as [[msg|]| |] eqn:Hm; cbn in Hr; simplify_eq.
  2:{ eexists. split; [reflexivity|]. right. split; [eauto|]. by intros (v & ? & _)%Hinv. }
  unfold BOOST_ASSERT.
  destruct (String.eqb_spec (ld_state msg) st) as [Hs|Hs].
  2:{ eexists. split; [reflexivity|]. right. split; [eauto|].
      intros (v & ? & vs & _ & Hw)%Hinv. simplify_eq. inversion Hw; subst. naive_solver. }
  destruct (Z.eqb_spec (ld_epoch msg) e) as [He|He].
  2:{ eexists. split; [reflexivity|]. right. split; [eauto|].
      intros (v & ? & vs & _ & Hw)%Hinv. simplify_eq. inversion Hw; subst. naive_solver. }
  cbn. destruct (IH (sset_insert from hosts)) as (r & Hc & Hcase); [intros; apply Hl; by right|].
  exists r. split; [exact Hc|]. destruct Hcase as [(votes & Hv & Hf & ->)|[Hw Hno]].
  - left. exists ((from, msg) :: votes). split; [|split; [by constructor|done]].
    constructor; [|done]. unfold open_vote. rewrite Ht. cbn. by rewrite Hm.
  - right. split; [done|]. intros (v & ? & vs & Hvs & Hw')%Hinv. simplify_eq.
    inversion Hw'; subst. apply Hno. eauto.
Qed.

Lemma f_le_N eps : fits eps → 0 <= f_of eps < N_of eps.
Proof.
  intros Hf. rewrite f_of_fits by done. destruct Hf as [Hl _]. unfold N_of.
  pose proof (Nat.Div0.div_le_upper_bound (length eps - 1) 3 (length eps - 1) ltac:(lia)). lia.
Qed.

Abbreviation opens n := (λ s v, open_vote (sig n) s = Ret (Some v)).
Lemma opens_fun n l vs vs' : Forall2 (opens n) l vs → Forall2 (opens n) l vs' → vs' = vs.
Proof.
  intros H. revert vs'. induction H as [|s v l vs Hs _ IH]; intros vs' H'; inversion H'; subst; [done|].
  f_equal; [congruence|by apply IH].
Qed.

(** The end of [check_cert], from the second message on. *)
Definition check_tail (rest : list string) (e : Z) (st from : string) : stM (Rbft (M:=M) (E:=E)) bool :=
  valid_host ← check_rest rest e st (sset_insert from []);
  n ← N; k ← f;
  BOOST_ASSERT (u64 (n - k) <=? Z.of_nat (length valid_host)) "Requires more" ≫= λ _, mret true.
Lemma check_tail_spec rest e st from n :
  fits (all_endpoints n) → (∀ s, s ∈ rest → ∃ r, open_vote (sig n) s = Ret r) →
  ∃ b, catch_assertion (check_tail rest e st from) false n = (n, Ret b) ∧
    (b = true ↔ ∃ vs, Forall2 (opens n) rest vs
       ∧ Forall (λ v, ld_state v.2 = st ∧ ld_epoch v.2 = e) vs
       ∧ N_of (all_endpoints n) - f_of (all_endpoints n)
         <= Z.of_nat (length (sset_of (from :: (fst <$> vs))))).
Proof.
  intros Hf Hl. unfold check_tail, catch_assertion, N, f. unfold_st.
  destruct (check_rest_spec rest e st (sset_insert from []) n Hl)
    as (r & -> & [(vs & Hv & Hst & ->)|[[w ->] Hno]]).
  - change (foldl _ (sset_insert from []) (fst <$> vs)) with (sset_of (from :: (fst <$> vs))).
    pose proof (f_le_N _ Hf). destruct Hf as [_ Hf2]. rewrite u64_nonneg by lia. unfold BOOST_ASSERT.
    destruct (Z.leb_spec (N_of (all_endpoints n) - f_of (all_endpoints n))
      (Z.of_nat (length (sset_of (from :: (fst <$> vs)))))); eexists; (split; [reflexivity|]).
    + split; [|done]. intros _. by exists vs.
    + split; [done|]. intros (vs' & Hv' & _ & Hle). rewrite (opens_fun _ _ _ _ Hv Hv') in Hle. lia.
  - exists false. split; [reflexivity|]. split; [done|]. intros (vs & Hv & Hst & _). exfalso. eauto.
Qed.

Lemma check_cert_lem l e nc n :
  fits (all_endpoints n) → (∀ s, s ∈ l → ∃ r, open_vote (sig n) s = Ret r) →
  ∃ b, check_cert l e nc n = (n, Ret b) ∧
    (b = true ↔ ∃ votes, Forall2 (opens n) l votes
       ∧ cert_ok (all_endpoints n) (cmds_to_state (command_history n)) e nc votes).
Proof.
  intros Hf Hl. destruct l as [|s rest].
  { exists false. split; [reflexivity|]. split; [done|]. intros (votes & Hv & h0 & m0 & r & -> & _). inversion Hv. }
  destruct (Hl s ltac:(left)) as [r Hr]. set (cst := cmds_to_state (command_history n)).
  assert ((∃ votes, Forall2 (opens n) (s :: rest) votes ∧ cert_ok (all_endpoints n) cst e nc votes) ↔
    ∃ h0 m0 vs, r = Some (h0, m0) ∧ (nc = false → ld_state m0 = cst) ∧ Forall2 (opens n) rest vs
      ∧ Forall (λ v, ld_state v.2 = ld_state m0 ∧ ld_epoch v.2 = e) vs
      ∧ N_of (all_endpoints n) - f_of (all_endpoints n) <= Z.of_nat (length (sset_of (h0 :: (fst <$> vs))))) as Hspec.
  { split.
    - intros (votes & Hv & h0 & m0 & vs & -> & ?). inversion Hv; subst.
      exists h0, m0, vs. split; [congruence|]. naive_solver.
    - intros (h0 & m0 & vs & -> & ? & ? & ? & ?). exists ((h0, m0) :: vs). split; [by constructor|].
      exists h0, m0, vs. naive_solver. }
  setoid_rewrite Hspec. clear Hspec.
  assert (∀ x, check_cert (s :: rest) e nc n = (n, Ret false) → (x → False) →
    ∃ b, check_cert (s :: rest) e nc n = (n, Ret b) ∧ (b = true ↔ x)) as Hfalse.
  { intros x -> Hx. exists false. split; [done|]. split; [done|]. intros ?. by destruct Hx. }
  unfold open_vote in Hr. destruct (tear_msg_open (sig n) s) as [[[from data]|]| |] eqn:Ht; cbn in Hr; [| |done..].
  2:{ apply Hfalse; [|simplify_eq; naive_solver].
      unfold check_cert, catch_assertion, tear. unfold_st. by rewrite Ht. }
  destruct (LaidDownMsg_fromString data) as [[msg|]| |] eqn:Hm; cbn in Hr; simplify_eq.
  2:{ apply Hfalse; [|naive_solver].
      unfold check_cert, catch_assertion, tear. unfold_st. by rewrite Ht, Hm. }
  destruct (decide (nc = false ∧ ld_state msg ≠ cst)) as [[-> Hne]|Hgood].
  { apply Hfalse; [|naive_solver]. unfold check_cert, catch_assertion, tear, get_state, BOOST_ASSERT. unfold_st.
    rewrite Ht, Hm. fold cst. by rewrite (proj2 (String.eqb_neq _ _)). }
  destruct (check_tail_spec rest e (ld_state msg) from n Hf ltac:(intros; apply Hl; by right)) as (b & Hb & Hiff).
  exists b. split.
  - rewrite <-Hb. unfold check_cert, check_tail, catch_assertion, tear, get_state, BOOST_ASSERT. unfold_st.
    rewrite Ht, Hm. fold cst. destruct nc; [done|].
    destruct (String.eqb_spec (ld_state msg) cst) as [<-|]; [done|naive_solver].
  - rewrite Hiff. split.
    + intros (vs & ? & ? & ?). exists from, msg, vs. split; [done|]. split; [|done].
      intros ->. destruct (decide (ld_state msg = cst)); naive_solver.
    + intros (h0 & m0 & vs & [= <- <-] & _ & ? & ? & ?). by exists vs.
Qed.

(** ** Following a new primary, and being one *)
Fixpoint senders_of (m : M) (sigs : list string) (o : sset) : outcome sset :=
  match sigs with
  | [] => Ret o
  | s :: sigs =>
      r ← tear_msg_open m s;
      match r with
      | None => senders_of m sigs o
      | Some (n, _) => senders_of m sigs (sset_insert n o)
      end
  end.
Lemma verified_senders_eq sigs o n : verified_senders sigs o n = (n, senders_of (sig n) sigs o).
Proof.
  revert o. induction sigs as [|s sigs IH]; intros o; [done|]. cbn [verified_senders senders_of].
  unfold tear. unfold_st. destruct (tear_msg_open (sig n) s) as [[[h d]|]| |]; cbn; [apply IH..|done|done].
Qed.
Lemma check_old_eq new n :
  (∀ c, c ∈ new → c ∉ all_endpoints n) → check_old new n = (n, Ret false).
Proof.
  induction new as [|c new IH]; intros Hn; [done|]. cbn. unfold_st.
  destruct (contains (all_endpoints n) c) eqn:Hc; [|apply IH; set_solver].
  apply contains_elem in Hc. exfalso. apply (Hn c); [left|done].
Qed.

Definition new_view_epoch (eps new : list string) (e : Z) : Z := e + e / N_of eps * N_of new.

(** A node in the view of epoch [e] with the nodes [new] added. *)
Definition moved (e : Z) (new : list string) n : Rbft (M:=M) (E:=E) :=
  set_all_endpoints (all_endpoints n ++ new) (set_sig_of_nodes_to_be_added []
    (set_epoch (new_view_epoch (all_endpoints n) new e) n)).

Record view_bounds (eps new : list string) (e : Z) : Prop := {
  vb_fits : fits (eps ++ new);
  vb_some : (0 < length eps)%nat;
  vb_epoch : 0 <= e;
  vb_new : new_view_epoch eps new e < 2 ^ 31
}.

Lemma vb_old eps new e : view_bounds eps new e → fits eps ∧ is_i32 e.
Proof.
  intros [[_ Hf] Hl He Hb]. unfold new_view_epoch, N_of in *. rewrite length_app, Nat2Z.inj_add in Hf.
  assert (0 <= e / Z.of_nat (length eps) * Z.of_nat (length new)).
  { apply Z.mul_nonneg_nonneg; [|lia]. apply Z.div_pos; lia. }
  split; [split; [done|unfold N_of; lia]|unfold is_i32; lia].
Qed.

Lemma handle_new_primary_accepts msg e l sigs cmds new q n :
  view_bounds (all_endpoints n) new e → epoch n <= e →
  senders_of (sig n) sigs [] = Ret new → (∀ c, c ∈ new → c ∉ all_endpoints n) →
  check_cert l e false n = (n, Ret true) →
  role n ≠ Sub ∨ handlers n = sub_handlers →
  handle_new_primary q (NewViewCertificate_toString (mkNewViewCertificate msg e l sigs cmds)) n
  = (as_sub (moved e new (set_laid_down_history ∅ (set_patience 8 n))), Ret tt).
Proof.
  intros Hb Hep Hs Hnew Hcert Hrole. destruct (vb_old _ _ _ Hb) as [_ Hi]. destruct Hb as [Hf Hl He Hb].
  unfold handle_new_primary, NewViewCertificate_fromString, NewViewCertificate_toString.
  rewrite fromPbString_toPbString by done. unfold_st. unfold get_newcommers.
  rewrite verified_senders_eq. cbn [nv_sig_of_nodes_to_be_added]. rewrite Hs, check_old_eq by done.
  cbn [nv_epoch nv_new_view_certificate]. rewrite (proj2 (Z.ltb_ge _ _)), Hcert by done.
  unfold epoch_considering_newcomers.
  destruct (epoch_considering_spec (all_endpoints n) new e Hf Hl He Hb) as [Hec _].
  change (Z.of_nat (length new)) with (N_of new). rewrite Hec.
  unfold comfort, push_endpoints. unfold_st. by rewrite start_listening_as_sub_eq.
Qed.

(** The certificate that the new primary sends to the other nodes. *)
Definition primary_cert (e : Z) (l sigs new : list string) : NewViewCertificate :=
  mkNewViewCertificate "Hi, I am the primary now" e l (match new with [] => [] | _ => sigs end) [].

Lemma forM_send L t d n :
  forM_ L (λ c n, (set_outbox (outbox n ++ [mkSend c t d]) n, Ret tt)) n = (sending (sends_to L t d) n, Ret tt).
Proof.
  revert n. induction L as [|c L IH]; intros n; cbn; [by rewrite sending_nil|]. unfold_st. rewrite IH.
  change (set_outbox _ n) with (sending [mkSend c t d] n). by rewrite sending_app.
Qed.

Lemma try_to_be_primary_eq e l new n :
  view_bounds (all_endpoints n) new e →
  endpoint_of_epoch (all_endpoints n) e = Ret (listened_endpoint n) →
  senders_of (sig n) (sig_of_nodes_to_be_added n) [] = Ret new →
  let sigs := sig_of_nodes_to_be_added n in
  let m := primary_cert e l sigs new in
  try_to_be_primary e (cmds_to_state (command_history n)) l n
  = (as_primary (sending
      (sends_to (others (listened_endpoint n) (all_endpoints n)) "/IamThePrimary" (NewViewCertificate_toString m)
       ++ sends_to new "/IamThePrimaryForNewcomer"
            (NewViewCertificate_toString (mkNewViewCertificate (nv_msg m) e l sigs (command_history n))))
      (moved e new n)), Ret tt).
Proof.
  intros [Hf Hl He Hb] Hp Hs sigs m. unfold try_to_be_primary, get_state. unfold_st.
  rewrite Hp. unfold BOOST_ASSERT, get_newcommers, mret, stM_ret.
  rewrite String.eqb_refl. cbv beta iota. rewrite String.eqb_refl. cbv beta iota. rewrite verified_senders_eq. cbn [sig set_sig_of_nodes_to_be_added].
  fold sigs in Hs |- *. rewrite Hs. unfold epoch_considering_newcomers.
  destruct (epoch_considering_spec (all_endpoints n) new e Hf Hl He Hb) as [Hec _].
  unfold moved, m, primary_cert. destruct new as [|c new].
  - rewrite boardcast_to_others_eq, start_listening_as_primary_eq.
    change (sends_to [] _ _) with (@nil Send). unfold new_view_epoch.
    change (N_of []) with 0. rewrite !app_nil_r, Z.mul_0_r, Z.add_0_r. by destruct n.
  - cbn [all_endpoints set_sig_of_nodes_to_be_added]. change (Z.of_nat (length (c :: new))) with (N_of (c :: new)).
    rewrite Hec. rewrite boardcast_to_others_eq. unfold push_endpoints. unfold_st.
    rewrite (forM_send (c :: new)), start_listening_as_primary_eq. cbn -[sends_to].
    unfold sending, new_view_epoch. cbn -[sends_to]. by rewrite app_assoc.
Qed.

(** ** Timers *)
Fixpoint ticks (k : nat) : stM (Rbft (M:=M) (E:=E)) unit :=
  match k with O => mret tt | S k => timer_tick ≫= λ _, ticks k end.

Definition laid_down_msg (p : string) (e : Z) n : LaidDownMsg :=
  mkLaidDownMsg ("Dear " +:+ p +:+ ", I laid down for U.") e (cmds_to_state (command_history n)).

Lemma trigger_eq p data n :
  let e := i32 (epoch n + 1) in
  endpoint_of_epoch (all_endpoints n) e = Ret p → p ≠ listened_endpoint n →
  prepare_msg (sig n) (LaidDownMsg_toString (laid_down_msg p e n)) = Ret data →
  trigger_view_change n
  = (sending [mkSend p "/ILaidDown" data] (set_view_change_state true (set_epoch e n)), Ret tt).
Proof.
  intros e Hp Hne Hd. unfold trigger_view_change, primary, get_state. unfold_st.
  cbn [all_endpoints epoch set_epoch set_view_change_state sig command_history]. fold e. rewrite Hp.
  change (mkLaidDownMsg _ _ _) with (laid_down_msg p e n). rewrite Hd.
  cbn [listened_endpoint set_epoch set_view_change_state]. by rewrite (proj2 (String.eqb_neq _ _)).
Qed.

Lemma tick_wait k n :
  timer n = true → closed n = false → patience n = k + 1 → 0 < k < 2 ^ 31 - 1 →
  timer_tick n = (set_patience k n, Ret tt).
Proof.
  intros Ht Hc Hk Hb. unfold timer_tick. rewrite Ht, Hc. cbn [negb]. cbn [patience set_patience].
  rewrite Hk, i32_small by (unfold is_i32; lia). rewrite Z.add_simpl_r, (proj2 (Z.ltb_lt _ _)) by lia. done.
Qed.

Lemma ticks_wait j k n :
  timer n = true → closed n = false → patience n = Z.of_nat j + k → 0 < k → Z.of_nat j + k < 2 ^ 31 →
  ticks j n = (set_patience k n, Ret tt).
Proof.
  revert n. induction j as [|j IH]; intros n Ht Hc Hp Hk Hb; cbn [ticks].
  - unfold mret, stM_ret. destruct n; cbn in *. by rewrite Hp.
  - unfold mbind, stM_bind. rewrite (tick_wait (Z.of_nat j + k)) by (done || lia).
    rewrite IH by (try done; cbn; lia). by destruct n.
Qed.
Lemma ticks_add j k n :
  ticks (j + k) n = match ticks j n with (n', Ret _) => ticks k n' | r => r end.
Proof.
  revert n. induction j as [|j IH]; intros n; [done|]. cbn [ticks Nat.add]. unfold mbind, stM_bind.
  destruct (timer_tick n) as [n' [[]| |]]; [apply IH|done|done].
Qed.

(** Eight periods without news: the node lays down, and waits again. *)
Lemma ticks_8 p data n :
  timer n = true → closed n = false → patience n = 8 →
  let e := i32 (epoch n + 1) in
  endpoint_of_epoch (all_endpoints n) e = Ret p → p ≠ listened_endpoint n →
  prepare_msg (sig n) (LaidDownMsg_toString (laid_down_msg p e n)) = Ret data →
  ticks 8 n = (sending [mkSend p "/ILaidDown" data]
                 (set_patience 8 (set_view_change_state true (set_epoch e n))), Ret tt).
Proof.
  intros Ht Hc Hk e Hp Hne Hd. rewrite (ticks_add 7 1), (ticks_wait 7 1) by done.
  cbn [ticks]. unfold mbind, stM_bind, timer_tick. cbn [timer closed set_patience patience].
  rewrite Ht, Hc. cbn [negb]. change (i32 (1 - 1)) with 0. change (0 <? 0) with false. cbv iota.
  rewrite (trigger_eq p data) by done. unfold comfort. unfold_st. by destruct n.
Qed.

(** ** Collecting laid-down messages *)
Lemma laid_down_list_put h e s l : laid_down_list (laid_down_put h e s l) e s = l.
Proof. unfold laid_down_list, laid_down_put. rewrite lookup_insert_eq. cbn. by rewrite lookup_insert_eq. Qed.

Lemma mocked_utf8 : utf8 "<mocked-state>" = true.
Proof. by vm_compute. Qed.

Lemma LaidDownMsg_roundtrip m :
  is_i32 (ld_epoch m) → ld_state m = "<mocked-state>" →
  LaidDownMsg_fromString (LaidDownMsg_toString m) = Ret (Some m).
Proof.
  intros He Hs. unfold LaidDownMsg_fromString, LaidDownMsg_toString.
  apply fromPbString_toPbString; [|by destruct m]. split; [done|]. cbn. rewrite Hs. apply mocked_utf8.
Qed.

(** A laid-down message for this node: it is remembered, and the [N - f]-th
    makes the node try to be the primary. *)
Lemma handle_laid_down_eq q h data msg n :
  fits (all_endpoints n) → is_i32 (ld_epoch msg) → ld_state msg = "<mocked-state>" →
  tear_msg_open (sig n) data = Ret (Some (h, LaidDownMsg_toString msg)) →
  epoch n <= ld_epoch msg → endpoint_of_epoch (all_endpoints n) (ld_epoch msg) = Ret (listened_endpoint n) →
  let l := laid_down_list (laid_down_history n) (ld_epoch msg) (ld_state msg) in
  data ∉ l →
  let n' := set_laid_down_history (laid_down_put (laid_down_history n) (ld_epoch msg) (ld_state msg) (l ++ [data])) n in
  handle_laid_down q data n
  = if N_of (all_endpoints n) - f_of (all_endpoints n) <=? Z.of_nat (length (l ++ [data]))
    then catch_assertion (try_to_be_primary (ld_epoch msg) (ld_state msg) (l ++ [data])) tt n'
    else (n', Ret tt).
Proof.
  intros Hf Hi Hs Ht He Hp l Hl n'. unfold handle_laid_down, catch_assertion, tear. unfold_st.
  rewrite Ht, LaidDownMsg_roundtrip by done. rewrite (proj2 (Z.ltb_ge _ _)), Hp, String.eqb_refl by lia. cbn [negb].
  unfold remember_this_laiddown_and_be_primary_maybe, N, f. unfold_st. fold l.
  destruct (contains l data) eqn:Hc; [by apply contains_elem in Hc|].
  change (set_laid_down_history _ (set_laid_down_history _ n)) with n'.
  change (all_endpoints n') with (all_endpoints n).
  pose proof (f_le_N _ Hf). destruct Hf as [_ Hf2]. rewrite (u64_nonneg (_ - _)) by lia.
  rewrite i32_small, u64_nonneg by (unfold is_i32; lia).
  by destruct (_ <=? _).
Qed.

Definition collect (msgs : list (string * string)) : stM (Rbft (M:=M) (E:=E)) unit :=
  forM_ msgs (λ '(q, d), deliver q "/ILaidDown" d).
Lemma collect_snoc msgs qd n :
  collect (msgs ++ [qd]) n = match collect msgs n with (n', Ret _) => deliver qd.1 "/ILaidDown" qd.2 n' | r => r end.
Proof.
  unfold collect. revert n. induction msgs as [|[q d] msgs IH]; intros n; cbn [forM_ app].
  - unfold_st. destruct qd as [q d]. cbn. by destruct (deliver q "/ILaidDown" d n) as [n' [[]| |]].
  - unfold_st. destruct (deliver q "/ILaidDown" d n) as [n' [[]| |]]; [apply IH|done|done].
Qed.

(** A message in which [h] lays down for the epoch [e]. *)
Definition lays_down (m : M) (e : Z) (d : string) : Prop :=
  ∃ h msg, tear_msg_open m d = Ret (Some (h, LaidDownMsg_toString msg))
    ∧ ld_epoch msg = e ∧ ld_state msg = "<mocked-state>".

Lemma deliver_laid_down q d n : handlers n = sub_handlers → deliver q "/ILaidDown" d n = handle_laid_down q d n.
Proof. intros Hh. unfold deliver. by rewrite Hh. Qed.

Lemma deliver_new_primary q d n :
  handlers n = sub_handlers → deliver q "/IamThePrimary" d n = handle_new_primary q d n.
Proof. intros Hh. unfold deliver. by rewrite Hh. Qed.

Lemma collect_wait e msgs n :
  fits (all_endpoints n) → is_i32 e → handlers n = sub_handlers → epoch n <= e →
  endpoint_of_epoch (all_endpoints n) e = Ret (listened_endpoint n) →
  laid_down_history n = ∅ → NoDup (snd <$> msgs) → Forall (λ qd, lays_down (sig n) e qd.2) msgs →
  Z.of_nat (length msgs) < N_of (all_endpoints n) - f_of (all_endpoints n) →
  ∃ h, collect msgs n = (set_laid_down_history h n, Ret tt)
    ∧ laid_down_list h e "<mocked-state>" = snd <$> msgs.
Proof.
  intros Hf Hi Hh He Hp Hld. induction msgs as [|[q d] msgs IH] using rev_ind; intros Hnd Hall Hlen.
  { exists ∅. cbn. split; [|done]. unfold_st. rewrite <-Hld. by destruct n. }
  rewrite fmap_app in *. apply NoDup_app in Hnd as (Hnd & Hdis & _).
  apply Forall_app in Hall as [Hall (h0 & msg & Ht & Hme & Hms)%Forall_singleton].
  rewrite length_app in Hlen. cbn in Hlen, Ht.
  destruct IH as (h & Hc & Hl); [done|done|lia|]. rewrite collect_snoc, Hc. cbn [fst snd].
  set (n1 := set_laid_down_history h n). rewrite deliver_laid_down by done.
  rewrite (handle_laid_down_eq q h0 d msg n1); rewrite ?Hme, ?Hms; try done.
  - change (laid_down_history n1) with h. rewrite Hl. change (all_endpoints n1) with (all_endpoints n).
    rewrite (proj2 (Z.leb_gt _ _)) by (rewrite length_app, length_fmap; cbn; lia).
    eexists. split; [by destruct n|]. by rewrite laid_down_list_put.
  - change (laid_down_history n1) with h. rewrite Hl. intros Hin. by apply (Hdis d Hin); left.
Qed.

(** The [N - f]-th message makes the node the primary. *)
Lemma collect_elects e new msgs n :
  view_bounds (all_endpoints n) new e → handlers n = sub_handlers → epoch n <= e →
  endpoint_of_epoch (all_endpoints n) e = Ret (listened_endpoint n) →
  senders_of (sig n) (sig_of_nodes_to_be_added n) [] = Ret new →
  laid_down_history n = ∅ → NoDup (snd <$> msgs) → Forall (λ qd, lays_down (sig n) e qd.2) msgs →
  Z.of_nat (length msgs) = N_of (all_endpoints n) - f_of (all_endpoints n) →
  ∃ h, collect msgs n
  = (as_primary (sending
      (sends_to (others (listened_endpoint n) (all_endpoints n)) "/IamThePrimary"
         (NewViewCertificate_toString (primary_cert e (snd <$> msgs) (sig_of_nodes_to_be_added n) new))
       ++ sends_to new "/IamThePrimaryForNewcomer"
            (NewViewCertificate_toString (mkNewViewCertificate "Hi, I am the primary now" e (snd <$> msgs)
               (sig_of_nodes_to_be_added n) (command_history n))))
      (moved e new (set_laid_down_history h n))), Ret tt).
Proof.
  intros Hb Hh He Hp Hs Hld Hnd Hall Hlen. destruct (vb_old _ _ _ Hb) as [Hf Hi].
  destruct msgs as [|[q d] msgs _] using rev_ind.
  { pose proof (f_le_N _ Hf). cbn in Hlen. lia. }
  rewrite fmap_app in *. pose proof Hnd as (Hnd1 & Hdis & _)%NoDup_app.
  pose proof Hall as [Hall1 (h0 & msg & Ht & Hme & Hms)%Forall_singleton]%Forall_app.
  rewrite length_app in Hlen. cbn in Hlen, Ht.
  destruct (collect_wait e msgs n) as (h & Hc & Hl); try done; [lia|].
  rewrite collect_snoc, Hc. cbn [fst snd].
  set (n1 := set_laid_down_history h n). rewrite deliver_laid_down by done.
  rewrite (handle_laid_down_eq q h0 d msg n1); rewrite ?Hme, ?Hms; try done.
  2:{ change (laid_down_history n1) with h. rewrite Hl. intros Hin. by apply (Hdis d Hin); left. }
  change (laid_down_history n1) with h. rewrite Hl. change (all_endpoints n1) with (all_endpoints n).
  rewrite (proj2 (Z.leb_le _ _)) by (rewrite length_app, length_fmap; cbn; lia).
  eexists. unfold catch_assertion.
  match goal with |- context [try_to_be_primary e _ ?l ?m] => pose proof (try_to_be_primary_eq e l new m) as Hq end.
  unfold cmds_to_state in Hq. rewrite Hq by done. reflexivity.
Qed.
End cert.

(** ** A view change *)
Section view_change.
Context {M E : Type} {RW : RbftWire} {IM : IMsgManageable M} {IX : IForConsensusExecutable E}.

(** A node [v] of [eps], other than [p], that has heard of no primary since the epoch [e - 1]. *)
Record waiting (eps : list string) (p : string) (e : Z) (v : Rbft (M:=M) (E:=E)) : Prop := {
  w_eps : all_endpoints v = eps;
  w_epoch : epoch v = e - 1;
  w_ne : p ≠ listened_endpoint v;
  w_timer : timer v = true;
  w_open : closed v = false;
  w_patience : patience v = 8;
  w_me : my_endpoint (sig v) = listened_endpoint v
}.

(** It sends a message that every receiver it can reach reads as its own. *)
Lemma waiting_sends eps p e v (r : M) :
  is_i32 e → endpoint_of_epoch eps e = Ret p → waiting eps p e v → delivers (sig v) r →
  ∃ d v', ticks 8 v = (v', Ret tt) ∧ outbox v' = outbox v ++ [mkSend p "/ILaidDown" d]
    ∧ ∀ r, delivers (sig v) r →
      open_vote r d = Ret (Some (listened_endpoint v, laid_down_msg p e v))
      ∧ tear_msg_open r d = Ret (Some (listened_endpoint v, LaidDownMsg_toString (laid_down_msg p e v))).
Proof.
  intros Hi Hp [He1 He2 Hne Ht Hc Hk Hme] Hd.
  assert (i32 (epoch v + 1) = e) as Hep by (rewrite He2, Z.sub_add; by apply i32_small).
  destruct (Hd (LaidDownMsg_toString (laid_down_msg p e v))) as (d & Hpr & _).
  eexists d, _. split; [apply (ticks_8 p d v Ht Hc Hk); rewrite ?Hep, ?He1; done|]. split; [done|].
  intros r' Hd'. destruct (Hd' (LaidDownMsg_toString (laid_down_msg p e v))) as (d' & Hpr' & Ht').
  rewrite Hpr in Hpr'. simplify_eq. rewrite Hme in Ht'. split; [|done].
  unfold open_vote. rewrite Ht'. cbn. by rewrite LaidDownMsg_roundtrip.
Qed.

Lemma election_lem eps new p e (pn s : Rbft (M:=M) (E:=E)) voters :
  view_bounds eps new e → endpoint_of_epoch eps e = Ret p →
  Forall (waiting eps p e) voters → NoDup (listened_endpoint <$> voters) →
  Z.of_nat (length voters) = N_of eps - f_of eps →
  Forall (λ v, delivers (sig v) (sig pn) ∧ delivers (sig v) (sig s)) voters →
  ∃ msgs, Forall2 (λ v d, ∃ v', ticks 8 v = (v', Ret tt) ∧ outbox v' = outbox v ++ [mkSend p "/ILaidDown" d]) voters msgs
    ∧ NoDup msgs ∧ Forall (lays_down (sig pn) e) msgs
    ∧ ∀ n : Rbft (M:=M) (E:=E), sig n = sig s → all_endpoints n = eps → check_cert msgs e false n = (n, Ret true).
Proof.
  intros Hb Hp Hw Hnd Hlen Hdel. destruct (vb_old _ _ _ Hb) as [Hf Hi].
  assert (∃ msgs, Forall2 (λ v d, (∃ v', ticks 8 v = (v', Ret tt) ∧ outbox v' = outbox v ++ [mkSend p "/ILaidDown" d])
    ∧ open_vote (sig s) d = Ret (Some (listened_endpoint v, laid_down_msg p e v))
    ∧ tear_msg_open (sig pn) d = Ret (Some (listened_endpoint v, LaidDownMsg_toString (laid_down_msg p e v))))
    voters msgs) as [msgs Hm].
  { clear Hnd Hlen. induction voters as [|v vs IH]; [exists []; constructor|].
    apply Forall_cons in Hw as [Hv Hw]. apply Forall_cons in Hdel as [[Hd1 Hd2] Hdel].
    destruct (IH Hw Hdel) as [msgs Hm].
    destruct (waiting_sends _ _ _ _ (sig pn) Hi Hp Hv Hd1) as (d & v' & Ht & Ho & Hr).
    exists (d :: msgs). constructor; [|done]. split; [eauto|]. split; [by apply Hr|by apply Hr]. }
  exists msgs. split; [eapply Forall2_impl; [exact Hm|]; naive_solver|]. split.
  { clear -Hm Hnd. induction Hm as [|v d vs ds Hv Hm IH]; [constructor|]. cbn in Hnd.
    apply NoDup_cons in Hnd as [Hni Hnd]. constructor; [|by apply IH]. intros Hin. apply Hni.
    destruct (list_elem_of_lookup_1 _ _ Hin) as [i Hi]. destruct (Forall2_lookup_r _ _ _ _ _ Hm Hi) as (v' & Hv' & _ & Ho & _).
    destruct Hv as (_ & Ho' & _). rewrite Ho in Ho'. simplify_eq.
    apply list_elem_of_fmap. exists v'. split; [congruence|by eapply list_elem_of_lookup_2]. }
  split.
  { clear -Hm. induction Hm as [|v d vs ds (_ & _ & Ht) Hm IH]; constructor; [|done].
    by eexists _, _. }
  intros n Hsig Heps.
  assert (Forall2 (λ d v, open_vote (sig n) d = Ret (Some v)) msgs
    ((λ v, (listened_endpoint v, laid_down_msg p e v)) <$> voters)) as Hopen.
  { rewrite Hsig. clear -Hm. induction Hm as [|v d vs ds (_ & Ho & _) Hm IH]; constructor; done. }
  destruct (check_cert_lem msgs e false n) as (b & Hb' & Hiff); [by rewrite Heps| |].
  { intros d [i Hd]%list_elem_of_lookup. destruct (Forall2_lookup_l _ _ _ _ _ Hopen Hd) as (v & _ & Hv). eauto. }
  rewrite Hb'. do 2 f_equal. apply Hiff. eexists. split; [exact Hopen|]. rewrite Heps.
  destruct voters as [|v0 vs]; [pose proof (f_le_N _ Hf); cbn in Hlen; lia|].
  exists (listened_endpoint v0), (laid_down_msg p e v0), ((λ v, (listened_endpoint v, laid_down_msg p e v)) <$> vs).
  split; [reflexivity|]. split; [done|]. split.
  - rewrite Forall_fmap. apply Forall_true. by intros v.
  - rewrite <-list_fmap_compose. change ((fst ∘ (λ v, (listened_endpoint v, laid_down_msg p e v))) <$> v0 :: vs)
      with (listened_endpoint <$> v0 :: vs). rewrite sset_of_length, length_fmap by done. lia.
Qed.
End view_change.

(** ** Theorems *)

(** When [k] nodes join, the epoch that every node computes,
    [e + (e / N) * k], has the same primary among the [N + k] nodes as [e] had
    among the [N] nodes, as long as it fits an [int]. *)
Theorem rbft_epoch_keeps_primary eps new e :
  fits (eps ++ new) → (0 < length eps)%nat → 0 <= e → new_view_epoch eps new e < 2 ^ 31 →
  epoch_considering eps e (N_of new) = Ret (new_view_epoch eps new e)
  ∧ endpoint_of_epoch (eps ++ new) (new_view_epoch eps new e) = endpoint_of_epoch eps e
  ∧ e <= new_view_epoch eps new e.
Proof.
  intros Hf Hl He Hb. destruct (epoch_considering_spec eps new e Hf Hl He Hb) as [H1 H2].
  split; [done|]. split; [done|]. unfold new_view_epoch, N_of.
  assert (0 <= e / Z.of_nat (length eps) * Z.of_nat (length new)); [|lia].
  apply Z.mul_nonneg_nonneg; [|lia]. apply Z.div_pos; lia.
Qed.
Lemma rbft_epoch_keeps_primary_witness :
  epoch_considering ["a"; "b"; "c"] 7 2 = Ret 11
  ∧ endpoint_of_epoch ["a"; "b"; "c"; "d"; "e"] 11 = endpoint_of_epoch ["a"; "b"; "c"] 7 ∧ 7 <= 11.
Proof.
  apply (rbft_epoch_keeps_primary ["a"; "b"; "c"] ["d"; "e"] 7); [split; [cbn; lia|reflexivity]|cbn; lia|lia|reflexivity].
Defined.

(** C10: [check_cert] accepts a certificate exactly when every message opens
    to a laid-down message, the signers are at least [N - f] different ones, the
    states are the node's own (for a newcomer: one state), and every message
    after the first has the epoch asked for.  It never throws. *)
Theorem check_cert_spec {M E} {RW : RbftWire} {IM : IMsgManageable M} {IX : IForConsensusExecutable E}
    l e nc (n : Rbft (M:=M) (E:=E)) :
  fits (all_endpoints n) → (∀ s, s ∈ l → ∃ r, open_vote (sig n) s = Ret r) →
  ∃ b, check_cert l e nc n = (n, Ret b) ∧
    (b = true ↔ ∃ votes, Forall2 (λ s v, open_vote (sig n) s = Ret (Some v)) l votes
       ∧ cert_ok (all_endpoints n) (cmds_to_state (command_history n)) e nc votes).
Proof. apply check_cert_lem. Qed.

(** C8: A whole view change.  [N - f] nodes hear of no primary for eight
    periods and lay down for the epoch [e]; the next primary collects their
    messages, takes over, and adds the nodes that asked to join; a node that
    receives its certificate follows.  Both end in the same epoch with the same
    list of nodes, whose primary is that node. *)
Theorem rbft_view_change {M E} {RW : RbftWire} {IM : IMsgManageable M} {IX : IForConsensusExecutable E}
    eps new p e (pn s : Rbft (M:=M) (E:=E)) (voters : list (Rbft (M:=M) (E:=E))) :
  view_bounds eps new e → endpoint_of_epoch eps e = Ret p →
  Forall (waiting eps p e) voters → NoDup (listened_endpoint <$> voters) →
  Z.of_nat (length voters) = N_of eps - f_of eps →
  Forall (λ v, delivers (sig v) (sig pn) ∧ delivers (sig v) (sig s)) voters →
  all_endpoints pn = eps → listened_endpoint pn = p → epoch pn <= e → handlers pn = sub_handlers →
  laid_down_history pn = ∅ →
  all_endpoints s = eps → listened_endpoint s ∈ eps → listened_endpoint s ≠ p → epoch s <= e →
  handlers s = sub_handlers →
  senders_of (sig pn) (sig_of_nodes_to_be_added pn) [] = Ret new →
  senders_of (sig s) (sig_of_nodes_to_be_added pn) [] = Ret new → (∀ c, c ∈ new → c ∉ eps) →
  ∃ msgs pn' cert s',
    Forall2 (λ v d, ∃ v', ticks 8 v = (v', Ret tt) ∧ outbox v' = outbox v ++ [mkSend p "/ILaidDown" d]) voters msgs
    ∧ collect (zip (listened_endpoint <$> voters) msgs) pn = (pn', Ret tt)
    ∧ role pn' = Primary ∧ view_change_state pn' = false ∧ handlers pn' = primary_handlers
    ∧ mkSend (listened_endpoint s) "/IamThePrimary" cert ∈ outbox pn'
    ∧ deliver p "/IamThePrimary" cert s = (s', Ret tt)
    ∧ role s' = Sub ∧ view_change_state s' = false ∧ handlers s' = sub_handlers
    ∧ all_endpoints pn' = eps ++ new ∧ all_endpoints s' = eps ++ new ∧ epoch s' = epoch pn'
    ∧ endpoint_of_epoch (all_endpoints s') (epoch s') = Ret p.
Proof.
  intros Hb Hp Hw Hnd Hlen Hdel Hpe Hpm Hpep Hph Hpl Hse Hsin Hsne Hsep Hsh Hpn Hsn Hnew.
  destruct (election_lem eps new p e pn s voters Hb Hp Hw Hnd Hlen Hdel) as (msgs & Hm & Hmn & Hml & Hcert).
  pose proof (Forall2_length _ _ _ Hm) as Hml2.
  assert (snd <$> zip (listened_endpoint <$> voters) msgs = msgs) as Hzip
    by (apply snd_zip; rewrite length_fmap; lia).
  destruct (collect_elects e new (zip (listened_endpoint <$> voters) msgs) pn) as (h & Hc);
    rewrite ?Hpe, ?Hpm, ?Hzip; try done.
  { rewrite <-Hzip in Hml. by rewrite Forall_fmap in Hml. }
  { rewrite length_zip_with, length_fmap. rewrite Nat.min_l by lia. done. }
  rewrite Hzip, Hpe, Hpm in Hc.
  eexists msgs, _, _, _. split; [done|]. split; [exact Hc|]. split; [done|]. split; [done|]. split; [done|].
  set (cert := NewViewCertificate_toString (primary_cert e msgs (sig_of_nodes_to_be_added pn) new)) in *.
  split.
  { cbn. apply elem_of_app. right. apply elem_of_app. left. apply list_elem_of_fmap.
    exists (listened_endpoint s). split; [reflexivity|]. apply list_elem_of_filter. done. }
  pose proof Hb as Hb2. rewrite <-Hse in Hb2. split.
  { rewrite deliver_new_primary by done. unfold cert, primary_cert.
    apply handle_new_primary_accepts; [exact Hb2|done| |by rewrite Hse|by apply Hcert|by right].
    destruct new; [done|exact Hsn]. }
  cbn. rewrite Hse, Hpe. do 6 (split; [done|]).
  destruct Hb as [Hf Hl He Hb]. destruct (epoch_considering_spec eps new e Hf Hl He Hb) as [_ Hq]. by etrans; [exact Hq|].
Qed.

(** ** Examples: four nodes, N1 is the primary of the epoch 1 *)
#[local] Existing Instance ToyRbft.toy_rbft.
Abbreviation Node := (Rbft (M:=NaiveMsgMgr) (E:=Executable)).
Definition nodes4 : list string := ["N0"; "N1"; "N2"; "N3"].
Definition node (s : string) : Node := (create s (mkNaive s) (Executable_ctor s) nodes4).1.
(** What the node [q] signs when it lays down for [e]. *)
Definition signed (q : string) (e : Z) (text : string) : string :=
  match prepare_msg (mkNaive q) (LaidDownMsg_toString (mkLaidDownMsg text e "<mocked-state>")) with
  | Ret d => d | _ => "" end.
Definition votes3 : list string := [signed "N0" 1 "a"; signed "N2" 1 "a"; signed "N3" 1 "a"].

Lemma votes3_open n s : sig n = mkNaive "N2" → s ∈ votes3 → ∃ r, open_vote (sig (n : Node)) s = Ret r.
Proof.
  intros Hn Hs. rewrite Hn. unfold votes3 in Hs. rewrite !elem_of_cons, elem_of_nil in Hs.
  destruct Hs as [E1|[E1|[E1|[]]]]; rewrite E1; eexists; vm_compute; reflexivity.
Qed.
Lemma nodes4_fits : fits nodes4.
Proof. split; [cbn; lia|reflexivity]. Qed.
Lemma node_N2 : all_endpoints (node "N2") = nodes4 ∧ sig (node "N2") = mkNaive "N2".
Proof. by vm_compute. Qed.
Lemma check_votes3 : (check_cert votes3 1 false (node "N2")).2 = Ret true.
Proof. by vm_compute. Qed.

Lemma check_cert_spec_witness :
  ∃ votes, Forall2 (λ s v, open_vote (sig (node "N2")) s = Ret (Some v)) votes3 votes
    ∧ cert_ok nodes4 "<mocked-state>" 1 false votes.
Proof.
  destruct (check_cert_spec votes3 1 false (node "N2")) as (b & Hb & Hiff).
  - rewrite (proj1 node_N2). apply nodes4_fits.
  - intros s. apply votes3_open, node_N2.
  - rewrite (proj1 node_N2) in Hiff. apply Hiff. pose proof check_votes3 as Hc. rewrite Hb in Hc.
    cbn in Hc. congruence.
Defined.

Record fresh_node (s : string) (h : list (string * Handler)) (n : Node) : Prop := {
  fn_eps : all_endpoints n = nodes4; fn_epoch : epoch n = 0; fn_timer : timer n = true;
  fn_closed : closed n = false; fn_patience : patience n = 8; fn_me : listened_endpoint n = s;
  fn_sig : sig n = mkNaive s; fn_laid : laid_down_history n = ∅; fn_sigs : sig_of_nodes_to_be_added n = [];
  fn_handlers : handlers n = h
}.
Lemma node_facts :
  fresh_node "N0" primary_handlers (node "N0") ∧ fresh_node "N1" sub_handlers (node "N1")
  ∧ fresh_node "N2" sub_handlers (node "N2") ∧ fresh_node "N3" sub_handlers (node "N3").
Proof. repeat split; vm_compute; reflexivity. Qed.
Lemma fresh_waiting s h n : fresh_node s h n → s ≠ "N1" → waiting nodes4 "N1" 1 n.
Proof. intros [? ? ? ? ? ? Hs ? ? ?] Hne. constructor; try done; [congruence|]. rewrite Hs. cbn. congruence. Qed.
Lemma nodes4_facts :
  view_bounds nodes4 [] 1 ∧ endpoint_of_epoch nodes4 1 = Ret "N1"
  ∧ Z.of_nat 3 = N_of nodes4 - f_of nodes4 ∧ NoDup ["N0"; "N2"; "N3"].
Proof.
  split; [|split; [|split]].
  - constructor; [rewrite app_nil_r; apply nodes4_fits|cbn; lia|lia|reflexivity].
  - by vm_compute.
  - by vm_compute.
  - apply (bool_decide_unpack (NoDup ["N0"; "N2"; "N3"])). by vm_compute.
Qed.
Lemma fresh_delivers s h n r : fresh_node s h n → (1 <= String.length s <= 255)%nat → delivers (sig n) (mkNaive r).
Proof. intros Hn Hl. rewrite (fn_sig _ _ _ Hn). by apply Naive_delivers_lem. Qed.

Lemma rbft_view_change_witness :
  ∃ msgs pn' s', collect (zip ["N0"; "N2"; "N3"] msgs) (node "N1") = (pn', Ret tt) ∧ role pn' = Primary
    ∧ role (s' : Node) = Sub ∧ epoch s' = epoch pn' ∧ endpoint_of_epoch (all_endpoints s') (epoch s') = Ret "N1".
Proof.
  destruct node_facts as (F0 & F1 & F2 & F3). destruct nodes4_facts as (Hb & Hp & Hq & Hnd).
  destruct (rbft_view_change nodes4 [] "N1" 1 (node "N1") (node "N2") [node "N0"; node "N2"; node "N3"])
    as (msgs & pn' & cert & s' & _ & Hc & Hr & _ & _ & _ & _ & Hr' & _ & _ & _ & _ & He & Hep).
  - exact Hb.
  - exact Hp.
  - repeat constructor; by eapply fresh_waiting.
  - cbn. rewrite (fn_me _ _ _ F0), (fn_me _ _ _ F2), (fn_me _ _ _ F3). exact Hnd.
  - exact Hq.
  - rewrite (fn_sig _ _ _ F1), (fn_sig _ _ _ F2).
    repeat constructor; (eapply fresh_delivers; [eassumption|cbn; lia]).
  - apply F1.
  - apply F1.
  - rewrite (fn_epoch _ _ _ F1). lia.
  - apply F1.
  - apply F1.
  - apply F2.
  - rewrite (fn_me _ _ _ F2). set_solver.
  - rewrite (fn_me _ _ _ F2). done.
  - rewrite (fn_epoch _ _ _ F2). lia.
  - apply F2.
  - rewrite (fn_sigs _ _ _ F1). done.
  - rewrite (fn_sigs _ _ _ F1). done.
  - intros c Hin. by apply elem_of_nil in Hin.
  - exists msgs, pn', s'. cbn in Hc. rewrite (fn_me _ _ _ F0), (fn_me _ _ _ F2), (fn_me _ _ _ F3) in Hc.
    done.
Defined.

(** ** What the view change does not guard against *)

Lemma check_old_locks {M E : Type} (new : list string) (n : Rbft (M:=M) (E:=E)) c :
  c ∈ new → c ∈ all_endpoints n → (check_old new n).2 = UB "std::mutex locked by its owner".
Proof.
  induction new as [|x new IH]; [by intros ?%elem_of_nil|]. intros Hc Hin. cbn. unfold_st.
  destruct (contains (all_endpoints n) x) eqn:Hx; [done|]. apply IH; [|done].
  apply elem_of_cons in Hc as [->|]; [|done]. apply contains_elem in Hin. congruence.
Qed.

(** A certificate that names a node of the cluster as a newcomer, from anybody
    and whatever else it holds: the receiver logs the refusal while it holds the
    lock that logging takes. *)
Theorem new_primary_deadlock {M E} {RW : RbftWire} {IM : IMsgManageable M} {IX : IForConsensusExecutable E}
    q data o new c (n : Rbft (M:=M) (E:=E)) :
  NewViewCertificate_fromString data = Ret (Some o) →
  senders_of (sig n) (nv_sig_of_nodes_to_be_added o) [] = Ret new → c ∈ new → c ∈ all_endpoints n →
  (handle_new_primary q data n).2 = UB "std::mutex locked by its owner".
Proof.
  intros Ho Hs Hc Hin. unfold handle_new_primary, get_newcommers. unfold_st.
  rewrite Ho, verified_senders_eq, Hs. pose proof (check_old_locks new n c Hc Hin) as Hl.
  destruct (check_old new n) as [n' r]. cbn in Hl. by subst r.
Qed.

(** The epoch of the first message of a certificate is not looked at. *)
Theorem first_epoch_unchecked :
  (check_cert [signed "N0" 99 "a"; signed "N2" 1 "a"; signed "N3" 1 "a"] 1 false (node "N2")).2 = Ret true.
Proof. by vm_compute. Qed.
(** Nor whether the signers are nodes of the cluster. *)
Theorem outsiders_certify :
  (check_cert [signed "X1" 1 "a"; signed "X2" 1 "a"; signed "X3" 1 "a"] 1 false (node "N2")).2 = Ret true.
Proof. by vm_compute. Qed.
(** The next primary counts messages, not their senders: three of one node elect it. *)
Theorem one_sender_elects :
  let r := collect [("N3", signed "N3" 1 "a"); ("N3", signed "N3" 1 "b"); ("N3", signed "N3" 1 "c")] (node "N1") in
  r.2 = Ret tt ∧ role r.1 = Primary.
Proof. by vm_compute. Qed.
(** The certificate of a primary, sent back to it, makes it listen as a sub
    although it still is the primary. *)
Theorem replay_demotes :
  let r := collect [("N0", signed "N0" 1 "a"); ("N2", signed "N2" 1 "a"); ("N3", signed "N3" 1 "a")] (node "N1") in
  match outbox r.1 with
  | m :: _ =>
      let r' := deliver "N3" "/IamThePrimary" (to_data m) r.1 in
      role r.1 = Primary ∧ r'.2 = Ret tt ∧ role r'.1 = Sub ∧ (is_primary r'.1).2 = Ret true
  | [] => False
  end.
Proof. by vm_compute. Qed.
(** Destroying a node that was never let in joins a thread that was not started. *)
Theorem newcomer_destructor_terminates :
  (destroy (create "N9" (mkNaive "N9") (Executable_ctor "N9") nodes4).1).2 = UB "std::terminate".
Proof. by vm_compute. Qed.
(** The commands that a certificate carries for a newcomer are signed by nobody:
    the newcomer executes what the new primary says was executed. *)
Definition history_for_newcomer (cmds : list string) : string :=
  match prepare_msg (mkNaive "N9") "let me in" with
  | Ret s => NewViewCertificate_toString (mkNewViewCertificate "Hi, I am the primary now" 1 votes3 [s] cmds)
  | _ => "" end.
Theorem newcomer_believes :
  let r := deliver "N1" "/IamThePrimaryForNewcomer" (history_for_newcomer ["b9"]) (create "N9" (mkNaive "N9") (Executable_ctor "N9") nodes4).1 in
  r.2 = Ret tt ∧ role r.1 = Sub ∧ all_endpoints r.1 = nodes4 ++ ["N9"] ∧ command_history r.1 = ["b9"].
Proof. by vm_compute. Qed.
(** The primary broadcasts the command as it came, not as its executor left it. *)
Theorem primary_broadcasts_unfiltered {M E} {RW : RbftWire} {IM : IMsgManageable M} {IX : IForConsensusExecutable E}
    q d ans c' x' (n : Rbft (M:=M) (E:=E)) :
  view_change_state n = false → received_commands n = [] → cnsss_execute d (exe n) = Ret (ans, c', x') →
  let n' := (handle_execute_for_primary1 q d n).1 in
  command_history n' = command_history n ++ [c'] ∧
  outbox n' = outbox n ++ sends_to (others (listened_endpoint n) (all_endpoints n)) "/pleaseExecuteThis" d.
Proof.
  intros Hv Hr Hx. unfold handle_execute_for_primary1, finally_execute_it. unfold_st.
  rewrite Hv, Hr. cbn. rewrite Hx. by rewrite boardcast_to_others_eq.
Qed.
