(* ===== verification/Raft.v ===== *)
(** * Raft consensus: one node

    include/cnsss/pure-raft.hpp: [RaftConsensusBase] (election, heartbeats, the
    timer) and [RaftConsensus] (commands) as one state with a step per handler,
    per turn of the timer and per turn of the thread of the primary.  The
    random number of [comfort] is an argument [r] of the steps that draw one. *)
From Stdlib Require Import ZArith Strings.String Strings.Ascii Lia.
From stdpp Require Import base tactics strings gmap option list.
From S2P Require Import Prelude Text Consensus.

Local Open Scope Z_scope.

(** The member functions that are registered with the network. *)
Inductive Handler := H_pleaseVoteMe | H_voteForYou | H_heartbeat | H_iAmThePrimary | H_pleaseExecute.

(** [std::jthread primary_thread], which runs [start_being_primary]: default
    constructed; before [my_votes = 0]; in its loop; left the loop. *)
Inductive Thread := NoThread | Starting | Beating | Ended.
#[global] Instance Thread_eq_dec : EqDecision Thread.
Proof. solve_decision. Defined.

Section node.
Context {E : Type}.

Record Raft := mkRaft {
  others : list string;
  done : bool;      (* std::atomic_flag *)
  patience : Z;      (* std::atomic_int *)
  term : Z;      (* std::atomic_int *)
  voted_term : Z;      (* std::atomic_int *)
  my_votes : Z;      (* std::atomic_int *)
  primary : string;
  timer : bool;      (* the thread is joinable *)
  primary_thread : Thread;
  new_thread : Thread;      (* not yet assigned: a handler that has the lock of my_votes joins primary_thread *)
  listened_endpoint : string;      (* of net *)
  handlers : list (string * Handler);      (* of net, the last registered first *)
  outbox : list Send;      (* what net was asked to send *)
  exe : E;
  cmds : list string
}.

Definition set_done (v : bool) (n : Raft) : Raft :=
  mkRaft (others n) v (patience n) (term n) (voted_term n) (my_votes n) (primary n) (timer n)
    (primary_thread n) (new_thread n) (listened_endpoint n) (handlers n) (outbox n) (exe n)
    (cmds n).
Definition set_patience (v : Z) (n : Raft) : Raft :=
  mkRaft (others n) (done n) v (term n) (voted_term n) (my_votes n) (primary n) (timer n)
    (primary_thread n) (new_thread n) (listened_endpoint n) (handlers n) (outbox n) (exe n)
    (cmds n).
Definition set_term (v : Z) (n : Raft) : Raft :=
  mkRaft (others n) (done n) (patience n) v (voted_term n) (my_votes n) (primary n) (timer n)
    (primary_thread n) (new_thread n) (listened_endpoint n) (handlers n) (outbox n) (exe n)
    (cmds n).
Definition set_voted_term (v : Z) (n : Raft) : Raft :=
  mkRaft (others n) (done n) (patience n) (term n) v (my_votes n) (primary n) (timer n)
    (primary_thread n) (new_thread n) (listened_endpoint n) (handlers n) (outbox n) (exe n)
    (cmds n).
Definition set_my_votes (v : Z) (n : Raft) : Raft :=
  mkRaft (others n) (done n) (patience n) (term n) (voted_term n) v (primary n) (timer n)
    (primary_thread n) (new_thread n) (listened_endpoint n) (handlers n) (outbox n) (exe n)
    (cmds n).
Definition set_primary (v : string) (n : Raft) : Raft :=
  mkRaft (others n) (done n) (patience n) (term n) (voted_term n) (my_votes n) v (timer n)
    (primary_thread n) (new_thread n) (listened_endpoint n) (handlers n) (outbox n) (exe n)
    (cmds n).
Definition set_timer (v : bool) (n : Raft) : Raft :=
  mkRaft (others n) (done n) (patience n) (term n) (voted_term n) (my_votes n) (primary n) v
    (primary_thread n) (new_thread n) (listened_endpoint n) (handlers n) (outbox n) (exe n)
    (cmds n).
Definition set_primary_thread (v : Thread) (n : Raft) : Raft :=
  mkRaft (others n) (done n) (patience n) (term n) (voted_term n) (my_votes n) (primary n) (timer n)
    v (new_thread n) (listened_endpoint n) (handlers n) (outbox n) (exe n) (cmds n).
Definition set_new_thread (v : Thread) (n : Raft) : Raft :=
  mkRaft (others n) (done n) (patience n) (term n) (voted_term n) (my_votes n) (primary n) (timer n)
    (primary_thread n) v (listened_endpoint n) (handlers n) (outbox n) (exe n) (cmds n).
Definition set_handlers (v : list (string * Handler)) (n : Raft) : Raft :=
  mkRaft (others n) (done n) (patience n) (term n) (voted_term n) (my_votes n) (primary n) (timer n)
    (primary_thread n) (new_thread n) (listened_endpoint n) v (outbox n) (exe n) (cmds n).
Definition set_outbox (v : list Send) (n : Raft) : Raft :=
  mkRaft (others n) (done n) (patience n) (term n) (voted_term n) (my_votes n) (primary n) (timer n)
    (primary_thread n) (new_thread n) (listened_endpoint n) (handlers n) v (exe n) (cmds n).
Definition set_exe (v : E) (n : Raft) : Raft :=
  mkRaft (others n) (done n) (patience n) (term n) (voted_term n) (my_votes n) (primary n) (timer n)
    (primary_thread n) (new_thread n) (listened_endpoint n) (handlers n) (outbox n) v (cmds n).
Definition set_cmds (v : list string) (n : Raft) : Raft :=
  mkRaft (others n) (done n) (patience n) (term n) (voted_term n) (my_votes n) (primary n) (timer n)
    (primary_thread n) (new_thread n) (listened_endpoint n) (handlers n) (outbox n) (exe n) v.

Context `{IForConsensusExecutable E}.
(** [defined(WEAK_CNSSS_NO_CONFIG)]: the build that keeps the commands. *)
Context (NO_CONFIG : bool).
Abbreviation handler := (stM Raft unit).

(** ** The network, as the node sees it *)
Definition net_send (endpoint target data : string) : handler :=
  modify (λ n, set_outbox (outbox n ++ [mkSend endpoint target data]) n).
Definition net_listen (target : string) (h : Handler) : handler :=
  modify (λ n, set_handlers ((target, h) :: handlers n) n).
Definition net_clear : handler := modify (set_handlers []).
Definition find_handler (target : string) (l : list (string * Handler)) : option Handler :=
  snd <$> List.find (λ '(t, _), String.eqb t target) l.

(** [for (auto other = others.cbegin(); ...) net->send( *other, target, data)]. *)
Definition send_others (target data : string) : handler :=
  os ← gets others; forM_ os (λ other, net_send other target data).

(** ** Elections *)

(** [5 + (std::rand() % 6)]; [std::rand()] is not negative. *)
Definition comfort (r : Z) : handler := modify (set_patience (5 + r mod 6)).

Definition complain : handler :=
  modify (λ n, set_term (i32 (term n + 1)) n) ≫= λ _,
  modify (set_my_votes 1) ≫= λ _,
  modify (λ n, set_voted_term (term n) n) ≫= λ _,
  t ← gets term;
  send_others "/pleaseVoteMe" (to_string_int t).

(** The body of the loop of [start_internal_timer]. *)
Definition timer_tick (r : Z) : handler :=
  d ← gets done; t ← gets timer;
  if (d : bool) || negb t then mret tt
  else
    p ← gets primary; me ← gets listened_endpoint;
    if String.eqb p me then mret tt
    else
      pt ← gets patience;
      if pt =? 0 then complain ≫= λ _, comfort r
      else modify (λ n, set_patience (i32 (patience n - 1)) n).

Definition handle_pleaseVoteMe (from msg : string) : handler :=
  t ← lift (stoi msg);
  mine ← gets term; voted ← gets voted_term;
  whenM ((mine <? t) && (voted <? t))
    (modify (set_voted_term t) ≫= λ _,
     net_send from "/voteForYou" (to_string_int t)).

(** [primary_thread = std::jthread(...)]: the new thread starts, then the old
    one is joined: while it runs, the handler waits, with the lock of [my_votes]. *)
Definition new_primary_thread : handler :=
  th ← gets primary_thread;
  match th with
  | NoThread | Ended => modify (set_primary_thread Starting)
  | Starting | Beating => modify (set_new_thread Starting)
  end.
(** [lock_for_my_votes] is held between the steps. *)
Definition vote_locked (n : Raft) : bool := bool_decide (new_thread n ≠ NoThread).

(** [my_votes.load() > others.size() / 2], in [size_t]. *)
Definition enough_votes (votes : Z) (os : list string) : bool :=
  Z.of_nat (length os) / 2 <? u64 votes.

Definition handle_voteForYou (from msg : string) : handler :=
  t ← lift (stoi msg);
  mine ← gets term;
  whenM (t =? mine)
    (modify (λ n, set_my_votes (i32 (my_votes n + 1)) n) ≫= λ _,
     votes ← gets my_votes; os ← gets others;
     whenM (enough_votes votes os)
       (mine ← gets term;
        send_others "/iAmThePrimary" (to_string_int mine) ≫= λ _,
        me ← gets listened_endpoint;
        modify (set_primary me) ≫= λ _,
        new_primary_thread)).

(** One turn of a thread that runs [start_being_primary], up to the next sleep. *)
Definition heartbeat_turn : stM Raft Thread :=
  d ← gets done; p ← gets primary; me ← gets listened_endpoint;
  if negb d && String.eqb p me then send_others "/heartbeat" "" ≫= λ _, mret Beating
  else mret Ended.
Definition start_being_primary (th : Thread) : stM Raft Thread :=
  match th with
  | Starting => modify (set_my_votes 0) ≫= λ _, heartbeat_turn
  | Beating => heartbeat_turn
  | NoThread | Ended => mret th
  end.
(** When [primary_thread] ends, a handler that joins it assigns the new thread. *)
Definition primary_thread_turn : handler :=
  th ← gets primary_thread; th ← start_being_primary th; new ← gets new_thread;
  if bool_decide (th = Ended) && bool_decide (new ≠ NoThread) then
    modify (set_primary_thread new) ≫= λ _, modify (set_new_thread NoThread)
  else modify (set_primary_thread th).
Definition new_thread_turn : handler :=
  th ← gets new_thread; th ← start_being_primary th; modify (set_new_thread th).

Definition handle_heartbeat (r : Z) (from msg : string) : handler :=
  p ← gets primary;
  whenM (String.eqb p from) (comfort r).

Definition handle_iAmThePrimary (r : Z) (from msg : string) : handler :=
  t ← lift (stoi msg);
  mine ← gets term;
  whenM (mine <=? t)
    (modify (set_term t) ≫= λ _, modify (set_primary from) ≫= λ _, comfort r).

(** ** Commands *)
Definition is_primary (n : Raft) : bool := String.eqb (primary n) (listened_endpoint n).

(** [exe->execute(data)] with [data] a local variable: the command as the
    executor leaves it. *)
Definition execute (data : string) : stM Raft string := λ n,
  match cnsss_execute data (exe n) with
  | Ret (_, data, e) =>
      (set_cmds (if NO_CONFIG then cmds n ++ [data] else cmds n) (set_exe e n), Ret data)
  | Throw e => (n, Throw e)
  | UB w => (n, UB w)
  end.

Definition handle_execute_for_primary (endpoint data : string) : stM Raft string :=
  data ← execute data;
  send_others "/pleaseExecute" data ≫= λ _, mret "Done".
Definition handle_execute_for_sub (endpoint data : string) : stM Raft string :=
  p ← gets primary;
  if negb (String.eqb endpoint p) then
    net_send p "/pleaseExecute" data ≫= λ _, mret "forwarded to primary"
  else execute data ≫= λ _, mret "Done".
Definition handle_pleaseExecute (from msg : string) : handler :=
  p ← gets primary;
  if String.eqb p "" then mret tt
  else
    b ← gets is_primary;
    (if (b : bool) then handle_execute_for_primary from msg
     else handle_execute_for_sub from msg) ≫= λ _, mret tt.
(** [ICnsssPrimaryBased::handle_execute], which RPC and sealer call. *)
Definition handle_execute (endpoint data : string) : stM Raft string :=
  b ← gets is_primary;
  if (b : bool) then handle_execute_for_primary endpoint data
  else handle_execute_for_sub endpoint data.

(** ** Construction and destruction *)
Definition Raft_new (endpoint : string) (e : E) (o : list string) : Raft :=
  mkRaft o false 0 0 0 0 "" false NoThread NoThread endpoint [] [] e [].
(** [start]: the timer thread begins with [comfort]. *)
Definition start (r : Z) : handler := modify (set_timer true) ≫= λ _, comfort r.
Definition RaftConsensusBase_ctor (r : Z) : handler :=
  net_listen "/pleaseVoteMe" H_pleaseVoteMe ≫= λ _,
  net_listen "/voteForYou" H_voteForYou ≫= λ _,
  net_listen "/heartbeat" H_heartbeat ≫= λ _,
  net_listen "/iAmThePrimary" H_iAmThePrimary ≫= λ _,
  start r.
Definition create (r : Z) (endpoint : string) (e : E) (o : list string) : Raft * outcome unit :=
  (RaftConsensusBase_ctor r ≫= λ _, net_listen "/pleaseExecute" H_pleaseExecute) (Raft_new endpoint e o).
(** [timer.join()] throws when the thread was joined before. *)
Definition stop : handler :=
  net_clear ≫= λ _, modify (set_done true) ≫= λ _,
  t ← gets timer;
  if (t : bool) then modify (set_timer false) else lift (Throw (runtime_error "std::system_error")).
Definition destroy : handler :=
  d ← gets done;
  if (d : bool) then mret tt else stop.

(** ** Delivery: the handler registered for the target runs, if there is one *)
Definition run_handler (h : Handler) (r : Z) (from msg : string) : handler :=
  match h with
  | H_pleaseVoteMe => handle_pleaseVoteMe from msg
  | H_voteForYou => handle_voteForYou from msg
  | H_heartbeat => handle_heartbeat r from msg
  | H_iAmThePrimary => handle_iAmThePrimary r from msg
  | H_pleaseExecute => handle_pleaseExecute from msg
  end.
Definition deliver (r : Z) (from target msg : string) : handler := λ n,
  match find_handler target (handlers n) with
  | Some h => run_handler h r from msg n
  | None => (n, Ret tt)
  end.
End node.
Arguments Raft : clear implicits.

(** ** Lemmas *)
Arguments enough_votes : simpl never.
Ltac unfold_st :=
  unfold whenM, net_send, net_listen, net_clear, mbind, stM_bind, mret, stM_ret, gets, modify, lift.

Section lemmas.
Context {E : Type} {IX : IForConsensusExecutable E}.
Implicit Types n : Raft E.

(** What a broadcast sends. *)
Definition sends_to (eps : list string) (target data : string) : list Send :=
  (λ q, mkSend q target data) <$> eps.
Definition sending (l : list Send) n : Raft E := set_outbox (outbox n ++ l) n.
Lemma raft_sending_nil n : sending [] n = n.
Proof. unfold sending. rewrite app_nil_r. by destruct n. Qed.
Lemma raft_sending_app l k n : sending k (sending l n) = sending (l ++ k) n.
Proof. unfold sending, set_outbox; cbn. by rewrite app_assoc. Qed.
Lemma send_others_eq target data n :
  send_others target data n = (sending (sends_to (others n) target data) n, Ret tt).
Proof.
  unfold send_others. unfold_st. generalize (others n) as os. intros os. revert n.
  induction os as [|q os IH]; intros n; [cbn; by rewrite raft_sending_nil|].
  cbn [forM_]. unfold_st. rewrite IH.
  change (set_outbox _ n) with (sending [mkSend q target data] n). by rewrite raft_sending_app.
Qed.

(** A node that was just constructed. *)
Definition created (r : Z) (endpoint : string) (e : E) (o : list string) : Raft E :=
  mkRaft o false (5 + r mod 6) 0 0 0 "" true NoThread NoThread endpoint
    [("/pleaseExecute", H_pleaseExecute); ("/iAmThePrimary", H_iAmThePrimary); ("/heartbeat", H_heartbeat);
     ("/voteForYou", H_voteForYou); ("/pleaseVoteMe", H_pleaseVoteMe)] [] e [].
Lemma create_eq r endpoint e o : create r endpoint e o = (created r endpoint e o, Ret tt).
Proof. reflexivity. Qed.
End lemmas.

