(* ===== verification/RaftCluster.v ===== *)
(** * Raft: a cluster, and who wins elections

    The nodes of include/cnsss/pure-raft.hpp with a network that delays, loses
    and reorders messages, but neither invents nor duplicates them.  Steps: a
    message is delivered, a client gives a command, a timer ticks, a thread of
    a primary takes a turn, a message is lost. *)
From Stdlib Require Import ZArith Strings.String Strings.Ascii Lia.
From stdpp Require Import base tactics strings gmap option list.
From S2P Require Import Prelude Text Consensus Raft.

Local Open Scope Z_scope.

Section cluster.
Context {E : Type} {IX : IForConsensusExecutable E} (NO_CONFIG : bool).
Implicit Types n : Raft E.

Record Cluster := mkCluster {
  nodes : gmap string (Raft E);      (* by endpoint *)
  flight : list (string * Send)      (* sender, message; the oldest first *)
}.

(** What a tick of the timer does: nothing or counting down; a complaint; a
    complaint of a node that has given its vote in a later term. *)
Inductive tick := Wait | Complain | ComplainEarly.
Definition tick_of n : tick :=
  if done n || negb (timer n) || is_primary n || negb (patience n =? 0) then Wait
  else if term n <? voted_term n then ComplainEarly else Complain.

(** A delivery may overtake an older message between the same two nodes. *)
Definition same_channel (q : string) (m : Send) (x : string * Send) : bool :=
  String.eqb x.1 q && String.eqb (to_endpoint x.2) (to_endpoint m).

Inductive label :=
  | LDeliver (q : string) (m : Send) (overtakes : bool)
  | LClient (s d : string)
  | LTick (s : string) (t : tick)
  | LThread (s : string)
  | LLose.

(** The node [s] becomes [n]; what it sent is in flight. *)
Definition with_node (c : Cluster) (s : string) n (fl : list (string * Send)) : Cluster :=
  mkCluster (<[s := set_outbox [] n]> (nodes c)) (fl ++ (pair s <$> outbox n)).

Inductive step : label → Cluster → Cluster → Prop :=
  | step_deliver c l1 q m l2 n r n' o :
      flight c = l1 ++ (q, m) :: l2 → nodes c !! to_endpoint m = Some n →
      ¬ (to_target m = "/voteForYou" ∧ vote_locked n = true) →
      deliver NO_CONFIG r q (to_target m) (to_data m) n = (n', o) →
      step (LDeliver q m (existsb (same_channel q m) l1)) c (with_node c (to_endpoint m) n' (l1 ++ l2))
  | step_client c s client d n n' o :
      nodes c !! s = Some n → nodes c !! client = None → client ≠ "" →
      handle_execute NO_CONFIG client d n = (n', o) →
      step (LClient s d) c (with_node c s n' (flight c))
  | step_tick c s r n n' o :
      nodes c !! s = Some n → timer_tick r n = (n', o) →
      step (LTick s (tick_of n)) c (with_node c s n' (flight c))
  | step_thread c s n n' o :
      nodes c !! s = Some n → primary_thread_turn n = (n', o) ∨ new_thread_turn n = (n', o) →
      step (LThread s) c (with_node c s n' (flight c))
  | step_lose c l1 m l2 :
      flight c = l1 ++ m :: l2 → step LLose c (mkCluster (nodes c) (l1 ++ l2)).

Inductive steps : list label → Cluster → Cluster → Prop :=
  | steps_nil c : steps [] c c
  | steps_snoc ls l c c' c'' : steps ls c c' → step l c' c'' → steps (ls ++ [l]) c c''.

(** The other nodes of a configuration, in its order. *)
Definition others_of (eps : list string) (s : string) : list string := filter (λ q, q ≠ s) eps.

(** A cluster just constructed. *)
Definition initial (eps : list string) (ex : string → E) (c : Cluster) : Prop :=
  (∀ s, nodes c !! s = None ↔ s ∉ eps)
  ∧ (∀ s n, nodes c !! s = Some n → ∃ r, create r s (ex s) (others_of eps s) = (n, Ret tt))
  ∧ flight c = [].
End cluster.
Arguments Cluster : clear implicits.

(** ** Executable schedules *)
Section schedule.
Context {E : Type} {IX : IForConsensusExecutable E} (NO_CONFIG : bool).

Inductive action :=
  | Pick (i : nat)            (* the [i]-th message in flight is delivered *)
  | Give (s d : string)       (* a client gives [d] to the node [s] *)
  | Tick (s : string)
  | Turn (s : string)
  | Drop (i : nat).

Definition act (a : action) (c : Cluster E) : option (label * Cluster E) :=
  match a with
  | Pick i =>
      '(q, m) ← flight c !! i; n ← nodes c !! to_endpoint m;
      if String.eqb (to_target m) "/voteForYou" && vote_locked n then None
      else
        Some (LDeliver q m (existsb (same_channel q m) (take i (flight c))),
              with_node c (to_endpoint m) (deliver NO_CONFIG 0 q (to_target m) (to_data m) n).1
                (take i (flight c) ++ drop (S i) (flight c)))
  | Give s d =>
      n ← nodes c !! s;
      match nodes c !! "CLIENT" with
      | None => Some (LClient s d, with_node c s (handle_execute NO_CONFIG "CLIENT" d n).1 (flight c))
      | Some _ => None
      end
  | Tick s => n ← nodes c !! s; Some (LTick s (tick_of n), with_node c s (timer_tick 0 n).1 (flight c))
  | Turn s => n ← nodes c !! s; Some (LThread s, with_node c s (primary_thread_turn n).1 (flight c))
  | Drop i => _ ← flight c !! i; Some (LLose, mkCluster (nodes c) (take i (flight c) ++ drop (S i) (flight c)))
  end.
Fixpoint run (acts : list action) (c : Cluster E) : option (list label * Cluster E) :=
  match acts with
  | [] => Some ([], c)
  | a :: acts => '(l, c) ← act a c; '(ls, c) ← run acts c; Some (l :: ls, c)
  end.

Lemma raft_act_step a c l c' : act a c = Some (l, c') → step NO_CONFIG l c c'.
Proof.
  destruct a as [i|s d|s|s|i]; cbn; intros E1.
  - destruct (flight c !! i) as [[q m]|] eqn:Hi; cbn in E1; [|done].
    destruct (nodes c !! to_endpoint m) as [n|] eqn:Hn; cbn in E1; [|done].
    destruct (String.eqb _ _ && _) eqn:Hb; [done|].
    destruct (deliver NO_CONFIG 0 q (to_target m) (to_data m) n) as [n' o] eqn:Hd. cbn in E1. simplify_eq.
    eapply step_deliver; [by rewrite take_drop_middle|done| |done].
    intros [Ht Hv]. rewrite Ht, Hv in Hb. done.
  - destruct (nodes c !! s) as [n|] eqn:Hn; cbn in E1; [|done].
    destruct (nodes c !! "CLIENT") eqn:Hc; [done|].
    destruct (handle_execute _ _ _ n) as [n' o] eqn:Hd. cbn in E1. simplify_eq. by eapply step_client.
  - destruct (nodes c !! s) as [n|] eqn:Hn; cbn in E1; [|done].
    destruct (timer_tick 0 n) as [n' o] eqn:Hd. cbn in E1. simplify_eq. by eapply step_tick.
  - destruct (nodes c !! s) as [n|] eqn:Hn; cbn in E1; [|done].
    destruct (primary_thread_turn n) as [n' o] eqn:Hd. cbn in E1. simplify_eq. eapply step_thread; eauto.
  - destruct (flight c !! i) as [m|] eqn:Hi; cbn in E1; [|done]. simplify_eq.
    eapply step_lose. by rewrite take_drop_middle.
Qed.
Lemma steps_cons ls l (c c' c'' : Cluster E) :
  step NO_CONFIG l c c' → steps NO_CONFIG ls c' c'' → steps NO_CONFIG (l :: ls) c c''.
Proof.
  intros Hs Hst. induction Hst as [c1|ls l' c1 c2 c3 Hst IH Hs'].
  - by eapply (steps_snoc NO_CONFIG []); [constructor|].
  - apply (steps_snoc NO_CONFIG (l :: ls)) with c2; auto.
Qed.
Lemma raft_run_steps acts c ls c' : run acts c = Some (ls, c') → steps NO_CONFIG ls c c'.
Proof.
  revert c ls. induction acts as [|a acts IH]; cbn; intros c ls E1; [simplify_eq; constructor|].
  destruct (act a c) as [[l c1]|] eqn:Ha; cbn in E1; [|done].
  destruct (run acts c1) as [[ls1 c2]|] eqn:Hr; cbn in E1; [|done]. simplify_eq.
  eapply steps_cons; [by eapply raft_act_step|by eapply IH].
Qed.

(** The nodes of the configuration [eps], constructed. *)
Definition cluster (eps : list string) (ex : string → E) : Cluster E :=
  mkCluster (list_to_map ((λ s, (s, created 0 s (ex s) (others_of eps s))) <$> eps)) [].
Lemma cluster_lookup eps ex s n :
  nodes (cluster eps ex) !! s = Some n → s ∈ eps ∧ n = created 0 s (ex s) (others_of eps s).
Proof.
  intros H%elem_of_list_to_map_2. apply list_elem_of_fmap in H as (s' & E1 & Hin). by simplify_eq.
Qed.
Lemma raft_cluster_initial eps ex : initial eps ex (cluster eps ex).
Proof.
  split; [|split; [|done]].
  - intros s. unfold cluster; cbn [nodes]. rewrite <-not_elem_of_list_to_map, <-list_fmap_compose.
    by rewrite list_fmap_id.
  - intros s n [_ ->]%cluster_lookup. exists 0. apply create_eq.
Qed.
End schedule.
