(* ===== verification/RaftElection.v ===== *)
(** * Raft: at most one primary in a term

    What each step does to the state of the election ([elect]), the invariant
    of the votes that were ever given, and the theorem: in a cluster of an odd
    number of nodes, as long as no node complains between giving its vote and
    hearing of the term it voted in, two primaries of one term are the same
    node.  Both conditions are needed: [even_cluster_two_primaries] and
    [early_complaint_two_primaries]. *)
From Stdlib Require Import ZArith Strings.String Strings.Ascii Lia.
From stdpp Require Import base tactics strings gmap option list.
From S2P Require Import Prelude Text Consensus Raft RaftCluster.

Local Open Scope Z_scope.

Section elect.
Context {E : Type} {IX : IForConsensusExecutable E} (NO_CONFIG : bool).
Implicit Types n : Raft E.

(** The targets of the messages of an election. *)
Definition electing (t : string) : Prop :=
  t = "/pleaseVoteMe" ∨ t = "/voteForYou" ∨ t = "/iAmThePrimary".

(** What no step changes. *)
Definition same_node n n' : Prop :=
  others n' = others n ∧ listened_endpoint n' = listened_endpoint n ∧ handlers n' = handlers n.

(** Why a node takes a step. *)
Inductive cause := Received (q : string) (m : Send) | Ticked | Other.

(** The effects of a step on term, votes and primary; [out] is what is sent. *)
Inductive elect (why : cause) n n' (out : list Send) : Prop :=
  | el_same :
      term n' = term n → voted_term n' = voted_term n → primary n' = primary n →
      my_votes n' = my_votes n ∨ my_votes n' = 0 →
      Forall (λ m, ¬ electing (to_target m)) out → elect why n n' out
  | el_complain :
      why = Ticked → is_primary n = false → tick_of n ≠ Wait →
      term n' = i32 (term n + 1) → voted_term n' = term n' → my_votes n' = 1 → primary n' = primary n →
      out = sends_to (others n) "/pleaseVoteMe" (to_string_int (term n')) → elect why n n' out
  | el_grant q m t :
      why = Received q m → to_target m = "/pleaseVoteMe" → stoi (to_data m) = Ret t →
      term n < t → voted_term n < t →
      term n' = term n → voted_term n' = t → my_votes n' = my_votes n → primary n' = primary n →
      out = [mkSend q "/voteForYou" (to_string_int t)] → elect why n n' out
  | el_count q m :
      why = Received q m → to_target m = "/voteForYou" → stoi (to_data m) = Ret (term n) →
      term n' = term n → voted_term n' = voted_term n → my_votes n' = i32 (my_votes n + 1) →
      (primary n' = primary n ∧ out = []
       ∨ enough_votes (my_votes n') (others n) = true ∧ primary n' = listened_endpoint n
         ∧ out = sends_to (others n) "/iAmThePrimary" (to_string_int (term n))) →
      elect why n n' out
  | el_follow q m t :
      why = Received q m → to_target m = "/iAmThePrimary" → stoi (to_data m) = Ret t →
      term n <= t → term n' = t → voted_term n' = voted_term n → my_votes n' = my_votes n →
      primary n' = q → out = [] → elect why n n' out.

Lemma electing_not t : ¬ electing t ↔ t ≠ "/pleaseVoteMe" ∧ t ≠ "/voteForYou" ∧ t ≠ "/iAmThePrimary".
Proof. unfold electing. tauto. Qed.

(** *** Commands leave the election alone *)
Definition calm n n' : Prop :=
  same_node n n' ∧ term n' = term n ∧ voted_term n' = voted_term n ∧ primary n' = primary n
  ∧ my_votes n' = my_votes n
  ∧ ∃ out, outbox n' = outbox n ++ out ∧ Forall (λ m, ¬ electing (to_target m)) out.
#[local] Instance calm_preorder : PreOrder calm.
Proof.
  split.
  - intros n. repeat split. exists []. by rewrite app_nil_r.
  - intros a b c ((? & ? & ?) & ? & ? & ? & ? & o & E1 & F1) ((? & ? & ?) & ? & ? & ? & ? & o' & E2 & F2).
    repeat split; try congruence. exists (o ++ o'). rewrite E2, E1, app_assoc, Forall_app. done.
Qed.
Lemma calm_sending l n : Forall (λ m, ¬ electing (to_target m)) l → calm n (sending l n).
Proof. intros Hl. repeat split. by exists l. Qed.
Lemma calm_sends t d L : ¬ electing t → Forall (λ m, ¬ electing (to_target m)) (sends_to L t d).
Proof. intros Ht. apply Forall_fmap, Forall_true. by intros. Qed.
Lemma calm_others t d : ¬ electing t → keeps calm (send_others t d).
Proof. intros Ht n. rewrite send_others_eq. by apply calm_sending, calm_sends. Qed.
Lemma calm_send s t d : ¬ electing t → keeps calm (net_send s t d).
Proof. intros Ht. apply keeps_modify. intros n. apply calm_sending. by repeat constructor. Qed.
Lemma calm_exec d : keeps calm (execute NO_CONFIG d).
Proof.
  intros n. unfold execute. destruct (cnsss_execute d (exe n)) as [[[? ?] ?]| |]; [|reflexivity..].
  repeat split. exists []. by rewrite app_nil_r.
Qed.
Lemma calm_handle_execute q d : keeps calm (handle_execute NO_CONFIG q d).
Proof.
  assert (¬ electing "/pleaseExecute") as Ht by (by apply electing_not).
  apply (keeps_bind calm); [apply keeps_gets, _|]. intros []; unfold handle_execute_for_primary, handle_execute_for_sub.
  - apply (keeps_bind calm); [apply calm_exec|]. intros d'.
    apply (keeps_bind calm); [by apply calm_others|]. intros _. apply keeps_ret, _.
  - apply (keeps_bind calm); [apply keeps_gets, _|]. intros p. destruct (negb _).
    + apply (keeps_bind calm); [by apply calm_send|]. intros _. apply keeps_ret, _.
    + apply (keeps_bind calm); [apply calm_exec|]. intros _. apply keeps_ret, _.
Qed.
Lemma calm_pleaseExecute q d : keeps calm (handle_pleaseExecute NO_CONFIG q d).
Proof.
  apply (keeps_bind calm); [apply keeps_gets, _|]. intros p. destruct (String.eqb p ""); [apply keeps_ret, _|].
  intros n. pose proof (calm_handle_execute q d n) as Hc. unfold handle_execute in Hc. revert Hc. unfold_st.
  destruct (is_primary n); [destruct (handle_execute_for_primary _ _ _ n) as [? [| |]]
                           |destruct (handle_execute_for_sub _ _ _ n) as [? [| |]]]; done.
Qed.
Lemma calm_elect why n n' : outbox n = [] → calm n n' → same_node n n' ∧ elect why n n' (outbox n').
Proof.
  intros Ho (Hs & ? & ? & ? & ? & o & E1 & F1). split; [done|]. rewrite E1, Ho. apply el_same; auto.
Qed.

(** *** Every step is one of the effects *)
Ltac same := split; [done|]; apply el_same; cbn; auto.

Lemma elect_pleaseVoteMe q m n n' o :
  outbox n = [] → to_target m = "/pleaseVoteMe" → handle_pleaseVoteMe q (to_data m) n = (n', o) →
  same_node n n' ∧ elect (Received q m) n n' (outbox n').
Proof.
  intros Ho Ht. unfold handle_pleaseVoteMe. unfold_st. destruct (stoi (to_data m)) as [t| |] eqn:Es.
  2-3: intros [= <- <-]; rewrite Ho; same.
  destruct ((_ <? t) && _) eqn:Eb; intros [= <- <-]; [|rewrite Ho; same].
  apply andb_true_iff in Eb as [?%Z.ltb_lt ?%Z.ltb_lt]. split; [done|].
  eapply el_grant; cbn; try done. by rewrite Ho.
Qed.

Lemma elect_voteForYou q m n n' o :
  outbox n = [] → to_target m = "/voteForYou" → handle_voteForYou q (to_data m) n = (n', o) →
  same_node n n' ∧ elect (Received q m) n n' (outbox n').
Proof.
  intros Ho Ht. unfold handle_voteForYou. unfold_st. destruct (stoi (to_data m)) as [t| |] eqn:Es.
  2-3: intros [= <- <-]; rewrite Ho; same.
  destruct (Z.eqb_spec t (term n)) as [->|Hne]; [|intros [= <- <-]; rewrite Ho; same].
  cbn [my_votes others set_my_votes].
  destruct (enough_votes _ _) eqn:Ev.
  2: { intros [= <- <-]. split; [done|]. eapply el_count; try done. left. by rewrite <-Ho. }
  rewrite send_others_eq. unfold new_primary_thread. unfold_st. cbn.
  intros Hr. assert (same_node n n' ∧ term n' = term n ∧ voted_term n' = voted_term n
    ∧ my_votes n' = i32 (my_votes n + 1) ∧ primary n' = listened_endpoint n
    ∧ outbox n' = sends_to (others n) "/iAmThePrimary" (to_string_int (term n)))
    as (Hsn & Hp1 & Hp2 & Hp3 & Hp4 & Hp5).
  { destruct (primary_thread n); simplify_eq/=; rewrite Ho; done. }
  split; [done|]. eapply el_count; try done. right. by rewrite Hp3.
Qed.

Lemma elect_iAmThePrimary r q m n n' o :
  outbox n = [] → to_target m = "/iAmThePrimary" → handle_iAmThePrimary r q (to_data m) n = (n', o) →
  same_node n n' ∧ elect (Received q m) n n' (outbox n').
Proof.
  intros Ho Ht. unfold handle_iAmThePrimary. unfold_st. destruct (stoi (to_data m)) as [t| |] eqn:Es.
  2-3: intros [= <- <-]; rewrite Ho; same.
  destruct (Z.leb_spec (term n) t); intros [= <- <-]; [|rewrite Ho; same].
  split; [done|]. by eapply el_follow.
Qed.

(** The five handlers of [create], in any order of registration. *)
Definition expected (h : Handler) : string :=
  match h with
  | H_pleaseVoteMe => "/pleaseVoteMe"
  | H_voteForYou => "/voteForYou"
  | H_heartbeat => "/heartbeat"
  | H_iAmThePrimary => "/iAmThePrimary"
  | H_pleaseExecute => "/pleaseExecute"
  end.
Definition well_listening n : Prop := Forall (λ '(t, h), t = expected h) (handlers n).

Lemma find_expected t h n : well_listening n → find_handler t (handlers n) = Some h → t = expected h.
Proof.
  unfold find_handler, well_listening. intros Hw. destruct (List.find _ _) as [[t' h']|] eqn:Ef; [|done].
  intros [= ->]. apply find_some in Ef as [Hin Heq%String.eqb_eq]. subst t'.
  rewrite Forall_forall in Hw. apply list_elem_of_In in Hin. exact (Hw _ Hin).
Qed.

Lemma elect_deliver r q m n n' o :
  outbox n = [] → well_listening n → deliver NO_CONFIG r q (to_target m) (to_data m) n = (n', o) →
  same_node n n' ∧ elect (Received q m) n n' (outbox n').
Proof.
  intros Ho Hw. unfold deliver. destruct (find_handler _ _) as [h|] eqn:Eh.
  2: { intros [= <- <-]. rewrite Ho. same. }
  apply (find_expected _ _ _ Hw) in Eh. destruct h; cbn [expected run_handler] in *.
  - by apply elect_pleaseVoteMe.
  - by apply elect_voteForYou.
  - unfold handle_heartbeat. unfold_st. destruct (String.eqb _ _); intros [= <- <-]; cbn; rewrite Ho; same.
  - by apply elect_iAmThePrimary.
  - intros Hd. apply calm_elect; [done|]. pose proof (calm_pleaseExecute q (to_data m) n) as Hc.
    by rewrite Hd in Hc.
Qed.

Lemma elect_tick r n n' o :
  outbox n = [] → timer_tick r n = (n', o) → same_node n n' ∧ elect Ticked n n' (outbox n').
Proof.
  intros Ho. unfold timer_tick. unfold_st. destruct (done n || negb (timer n)) eqn:Ed.
  { intros [= <- <-]. rewrite Ho. same. }
  destruct (String.eqb _ _) eqn:Ep; [intros [= <- <-]; rewrite Ho; same|].
  destruct (patience n =? 0) eqn:Ez; [|intros [= <- <-]; cbn; rewrite Ho; same].
  unfold complain, comfort. unfold_st. rewrite send_others_eq. cbn. intros [= <- <-]. split; [done|].
  apply el_complain; cbn; try done.
  - unfold tick_of, is_primary. rewrite Ed, Ep, Ez. cbn. by destruct (_ <? _).
  - by rewrite Ho.
Qed.

Lemma elect_thread n n' o :
  outbox n = [] → primary_thread_turn n = (n', o) ∨ new_thread_turn n = (n', o) →
  same_node n n' ∧ elect Other n n' (outbox n').
Proof.
  assert (¬ electing "/heartbeat") as Ht by (by apply electing_not).
  assert (∀ L, Forall (λ m, ¬ electing (to_target m)) (sends_to L "/heartbeat" "")) as HL
    by (intros; by apply calm_sends).
  intros Ho [Hp|Hp]; revert Hp;
    unfold primary_thread_turn, new_thread_turn, start_being_primary, heartbeat_turn; unfold_st;
    [destruct (primary_thread n)|destruct (new_thread n)]; cbn;
    try (destruct (negb (done n) && _); [rewrite ?send_others_eq|]); cbn;
    repeat (destruct (bool_decide _)); cbn; intros Hp; simplify_eq/=; rewrite ?Ho; same; apply HL.
Qed.
End elect.

(** ** The votes ever given *)
Section votes.
Context {E : Type}.
Implicit Types n : Raft E.
Context (eps : list string) (Hnd : NoDup eps).

(** (voter, term) to candidate. *)
Abbreviation ballots := (gmap (string * Z) string).
Implicit Types G : ballots.
Definition voters (G : ballots) (t : Z) (c : string) : list string :=
  filter (λ v, G !! (v, t) = Some c) eps.
Definition flying (t : Z) (c : string) (fl : list (string * Send)) : nat :=
  length (filter (λ x, x.2 = mkSend c "/voteForYou" (to_string_int t)) fl).

Record node_ok (K : Z) (G : ballots) (fl : list (string * Send)) (s : string) n : Prop := {
  ok_me : listened_endpoint n = s;
  ok_others : others n = others_of eps s;
  ok_out : outbox n = [];
  ok_listening : well_listening n;
  ok_term : 0 <= term n <= K;
  ok_voted_term : 0 <= voted_term n <= K;
  ok_voted : ∀ t d, G !! (s, t) = Some d → t <= Z.max (term n) (voted_term n);
  ok_cand : ∀ v t, G !! (v, t) = Some s → t <= term n;
  ok_count : G !! (s, term n) = Some s →
    0 <= my_votes n ∧ my_votes n + Z.of_nat (flying (term n) s fl) <= Z.of_nat (length (voters G (term n) s));
  ok_won : primary n = s → Z.of_nat (length (others n)) / 2 < Z.of_nat (length (voters G (term n) s))
}.
Definition packet_ok (K : Z) (G : ballots) (x : string * Send) : Prop :=
  (to_target x.2 = "/pleaseVoteMe" → ∃ t, to_data x.2 = to_string_int t ∧ 0 <= t <= K ∧ G !! (x.1, t) = Some x.1)
  ∧ (to_target x.2 = "/voteForYou" →
     ∃ t, to_data x.2 = to_string_int t ∧ 0 <= t <= K ∧ G !! (x.1, t) = Some (to_endpoint x.2))
  ∧ (to_target x.2 = "/iAmThePrimary" →
     ∃ t, to_data x.2 = to_string_int t ∧ 0 <= t <= K ∧ x.1 ≠ to_endpoint x.2).
Record Inv (K : Z) (G : ballots) (c : Cluster E) : Prop := {
  inv_dom : ∀ s n, nodes c !! s = Some n → s ∈ eps;
  inv_self : ∀ v t d, G !! (v, t) = Some d → v ∈ eps ∧ G !! (d, t) = Some d;
  inv_nodes : ∀ s n, nodes c !! s = Some n → node_ok K G (flight c) s n;
  inv_packets : Forall (packet_ok K G) (flight c)
}.

Lemma flying_app t c fl fl' : flying t c (fl ++ fl') = (flying t c fl + flying t c fl')%nat.
Proof. unfold flying. by rewrite filter_app, length_app. Qed.
Lemma flying_other t c fl :
  Forall (λ x, to_target x.2 ≠ "/voteForYou" ∨ to_endpoint x.2 ≠ c) fl → flying t c fl = 0%nat.
Proof.
  unfold flying. induction 1 as [|x fl Hx _ IH]; [done|]. rewrite filter_cons_False; [done|].
  intros Eq. rewrite Eq in Hx. cbn in Hx. by destruct Hx.
Qed.
Lemma flying_out t c s t' d L :
  t' ≠ "/voteForYou" → flying t c (pair s <$> sends_to L t' d) = 0%nat.
Proof. intros Ht. apply flying_other. unfold sends_to. rewrite !Forall_fmap. apply Forall_true. intros q. cbn. by left. Qed.

Lemma flying_vote t t' c s :
  flying t c (pair s <$> [mkSend c "/voteForYou" (to_string_int t')])
  = if decide (to_string_int t' = to_string_int t) then 1%nat else 0%nat.
Proof.
  change (pair s <$> _) with [(s, mkSend c "/voteForYou" (to_string_int t'))]. unfold flying.
  rewrite filter_cons. cbn [snd]. repeat case_decide; congruence || done.
Qed.
Lemma to_string_int_inj t t' :
  0 <= t < 2 ^ 31 → 0 <= t' < 2 ^ 31 → to_string_int t = to_string_int t' → t = t'.
Proof.
  intros Ht Ht' Es. assert (@Ret Z t = Ret t') as [=]; [|done].
  rewrite <-(stoi_to_string t), Es, stoi_to_string by done. done.
Qed.

Lemma voters_le G t c : (length (voters G t c) <= length eps)%nat.
Proof. apply length_filter. Qed.
Lemma voters_insert_other G v t t' d c :
  (t, d) ≠ (t', c) → G !! (v, t) = None → voters (<[(v, t) := d]> G) t' c = voters G t' c.
Proof.
  intros Hne Hv. apply list_filter_iff. intros w. cbn beta.
  destruct (decide ((v, t) = (w, t'))) as [[= -> ->]|Hk].
  - rewrite lookup_insert_eq, Hv. split; intros; simplify_eq.
  - by rewrite lookup_insert_ne.
Qed.
(** A new vote counts. *)
Lemma voters_insert G v t d :
  v ∈ eps → G !! (v, t) = None → length (voters (<[(v, t) := d]> G) t d) = S (length (voters G t d)).
Proof.
  intros Hv Hf. unfold voters. clear -Hnd Hv Hf.
  induction Hnd as [|w l Hw Hl IH]; [by apply elem_of_nil in Hv|].
  apply elem_of_cons in Hv as [->|Hv].
  - rewrite filter_cons_True by (by rewrite lookup_insert_eq).
    rewrite filter_cons_False by (by rewrite Hf). cbn. f_equal. f_equal.
    apply filter_iff_elem. intros u Hu. cbn beta. by rewrite lookup_insert_ne by set_solver.
  - assert (v ≠ w) by set_solver. rewrite !filter_cons, lookup_insert_ne by congruence.
    case_decide; cbn; rewrite IH by done; done.
Qed.

(** *** Frame lemmas *)
Lemma node_ok_flight K G fl fl' s n :
  (∀ t, flying t s fl' <= flying t s fl)%nat → node_ok K G fl s n → node_ok K G fl' s n.
Proof.
  intros Hf [? ? ? ? ? ? ? ? Hc ?]. constructor; try done. intros HG. specialize (Hc HG).
  specialize (Hf (term n)). lia.
Qed.
Lemma node_ok_K K K' G fl s n : K <= K' → node_ok K G fl s n → node_ok K' G fl s n.
Proof. intros HK [? ? ? ? ? ? ? ? ? ?]. constructor; try done; lia. Qed.
Lemma packet_ok_mono K K' G G' x : K <= K' → G ⊆ G' → packet_ok K G x → packet_ok K' G' x.
Proof.
  intros HK HG (P1 & P2 & P3). split; [|split]; intros Ht.
  - destruct (P1 Ht) as (t & ? & ? & ?). exists t. split_and!; [done|lia..|by eapply lookup_weaken].
  - destruct (P2 Ht) as (t & ? & ? & ?). exists t. split_and!; [done|lia..|by eapply lookup_weaken].
  - destruct (P3 Ht) as (t & ? & ? & ?). exists t. split_and!; [done|lia..|done].
Qed.
Lemma packet_calm K G x : ¬ electing (to_target x.2) → packet_ok K G x.
Proof. intros (? & ? & ?)%electing_not. by split_and!. Qed.
Lemma Inv_drop K G ns l1 x l2 : Inv K G (mkCluster ns (l1 ++ x :: l2)) → Inv K G (mkCluster ns (l1 ++ l2)).
Proof.
  intros [H1 H2 H3 H4]; cbn in *. constructor; cbn; try done.
  - intros s n Hn. eapply node_ok_flight; [|by apply H3]. intros t.
    rewrite !flying_app, (flying_app t s [x] l2 : flying t s (x :: l2) = _). lia.
  - rewrite Forall_app, Forall_cons in *. tauto.
Qed.
(** The state of a node with the fields of the election replaced. *)
Lemma node_ok_same K G fl s n n' :
  same_node n n' → term n' = term n → voted_term n' = voted_term n → primary n' = primary n →
  my_votes n' = my_votes n ∨ my_votes n' = 0 →
  node_ok K G fl s n → node_ok K G fl s (set_outbox [] n').
Proof.
  intros (Eo & El & Eh) Et Ev Ep Em [? ? ? ? ? ? ? ? Hc Hw].
  constructor; unfold well_listening; cbn; rewrite ?Eo, ?El, ?Eh, ?Et, ?Ev, ?Ep; try done.
  intros HG. specialize (Hc HG). destruct Em as [-> | ->]; lia.
Qed.
Lemma Inv_update K G G' ns fl s n n' out :
  Inv K G (mkCluster ns fl) → ns !! s = Some n →
  (∀ v t d, G' !! (v, t) = Some d → v ∈ eps ∧ G' !! (d, t) = Some d) →
  (∀ s' n0, s' ≠ s → node_ok K G fl s' n0 → node_ok K G' (fl ++ (pair s <$> out)) s' n0) →
  node_ok (K + 1) G' (fl ++ (pair s <$> out)) s (set_outbox [] n') →
  G ⊆ G' → Forall (λ m, packet_ok (K + 1) G' (s, m)) out →
  Inv (K + 1) G' (mkCluster (<[s := set_outbox [] n']> ns) (fl ++ (pair s <$> out))).
Proof.
  intros [H1 H2 H3 H4] Hs Hself Hoth Hme HG Hp; cbn in *. constructor; cbn; try done.
  - intros s' n0. destruct (decide (s' = s)) as [-> | Hne]; [by eauto|].
    rewrite lookup_insert_ne by done. by apply H1.
  - intros s' n0. destruct (decide (s' = s)) as [-> | Hne].
    + rewrite lookup_insert_eq. by intros [= <-].
    + rewrite lookup_insert_ne by done. intros Hn. apply (node_ok_K K); [lia|]. apply Hoth; [done|by apply H3].
  - apply Forall_app. split.
    + eapply Forall_impl; [done|]. intros x. apply packet_ok_mono; [lia|done].
    + by apply Forall_fmap.
Qed.

(** *** The effects keep the invariant *)
Lemma Inv_same K G ns fl s n n' out :
  Inv K G (mkCluster ns fl) → ns !! s = Some n → same_node n n' →
  term n' = term n → voted_term n' = voted_term n → primary n' = primary n →
  my_votes n' = my_votes n ∨ my_votes n' = 0 → Forall (λ m, ¬ electing (to_target m)) out →
  Inv (K + 1) G (mkCluster (<[s := set_outbox [] n']> ns) (fl ++ (pair s <$> out))).
Proof.
  intros HI Hs Hsame Et Ev Ep Em Hout.
  assert (∀ t c, flying t c (fl ++ (pair s <$> out)) = flying t c fl) as Hfl.
  { intros t c. rewrite flying_app, (flying_other t c (pair s <$> out)); [lia|]. apply Forall_fmap.
    eapply Forall_impl; [done|]. intros m (? & ? & ?)%electing_not. by left. }
  eapply Inv_update; try done; [by apply (inv_self _ _ _ HI)|..].
  - intros s' n0 _ Hok. eapply node_ok_flight; [|done]. intros t. rewrite Hfl. lia.
  - eapply node_ok_flight; [intros t; rewrite Hfl; done|]. eapply node_ok_same; try done.
    apply (node_ok_K K); [lia|]. by apply (inv_nodes _ _ _ HI).
  - eapply Forall_impl; [done|]. intros m Hm. by apply packet_calm.
Qed.

(** A vote that was not given before. *)
Lemma self_insert G s t d :
  s ∈ eps → G !! (s, t) = None →
  (∀ v t d, G !! (v, t) = Some d → v ∈ eps ∧ G !! (d, t) = Some d) → s = d ∨ G !! (d, t) = Some d →
  ∀ v t' d', <[(s, t) := d]> G !! (v, t') = Some d' → v ∈ eps ∧ <[(s, t) := d]> G !! (d', t') = Some d'.
Proof.
  intros Hs Hf Hself Hd v t' d'. destruct (decide ((s, t) = (v, t'))) as [[= <- <-]|Hne].
  - rewrite lookup_insert_eq. intros [= <-]. split; [done|]. destruct Hd as [-> | Hd]; [by rewrite lookup_insert_eq|].
    rewrite lookup_insert_ne; [done|]. intros [= ->]. by rewrite Hf in Hd.
  - rewrite lookup_insert_ne by done. intros [? Hg]%Hself. split; [done|].
    rewrite lookup_insert_ne; [done|]. intros [= -> ->]. by rewrite Hf in Hg.
Qed.
(** What it means for the nodes that neither gave nor got it. *)
Lemma node_ok_vote K G fl s t d s' n :
  s' ≠ s → s' ≠ d → G !! (s, t) = None → node_ok K G fl s' n → node_ok K (<[(s, t) := d]> G) fl s' n.
Proof.
  intros Hs Hd Hf [? ? ? ? ? ? Hv Hc Hcnt Hw]. constructor; try done.
  - intros t' d'. rewrite lookup_insert_ne by congruence. apply Hv.
  - intros v t'. destruct (decide ((s, t) = (v, t'))) as [[= <- <-]|Hne].
    + rewrite lookup_insert_eq. congruence.
    + rewrite lookup_insert_ne by done. apply Hc.
  - rewrite lookup_insert_ne, voters_insert_other by congruence. done.
  - rewrite voters_insert_other by congruence. done.
Qed.

Lemma flying_none K G fl s t :
  Forall (packet_ok K G) fl → 0 <= t → K < 2 ^ 31 → t < 2 ^ 31 →
  (∀ v, G !! (v, t) ≠ Some s) → flying t s fl = 0%nat.
Proof.
  intros Hfl Ht HK Ht' Hno. unfold flying. induction Hfl as [|x fl Hx _ IH]; [done|].
  rewrite filter_cons_False; [done|]. intros Ex. destruct Hx as (_ & Hx & _). rewrite Ex in Hx.
  destruct (Hx eq_refl) as (t' & Ed & Ht1 & Hg). cbn in Ed, Hg.
  apply to_string_int_inj in Ed as ->; [|lia..]. by apply (Hno x.1).
Qed.

Lemma Inv_complain K G ns fl s n n' :
  Inv K G (mkCluster ns fl) → ns !! s = Some n → same_node n n' → K + 1 < 2 ^ 31 →
  is_primary n = false → voted_term n <= term n →
  term n' = i32 (term n + 1) → voted_term n' = term n' → my_votes n' = 1 → primary n' = primary n →
  Inv (K + 1) (<[(s, term n + 1) := s]> G)
    (mkCluster (<[s := set_outbox [] n']> ns)
       (fl ++ (pair s <$> sends_to (others n) "/pleaseVoteMe" (to_string_int (term n'))))).
Proof.
  intros HI Hs (Eo & El & Eh) HK Hp Hv Et Ev Em Ep.
  pose proof (inv_nodes _ _ _ HI _ _ Hs) as [Hme Hos Hout Hl Ht1 Ht2 Hvoted Hcand _ _].
  rewrite i32_small in Et by (unfold is_i32; lia).
  assert (G !! (s, term n + 1) = None) as Hf.
  { destruct (G !! (s, _)) as [d|] eqn:Eg; [|done]. apply Hvoted in Eg. lia. }
  assert (∀ v, G !! (v, term n + 1) ≠ Some s) as Hno.
  { intros v Hg%Hcand. lia. }
  eapply Inv_update; try done.
  - apply self_insert; eauto using inv_dom, inv_self.
  - intros s' n0 Hne Hok. eapply node_ok_flight; [|apply node_ok_vote; [done|congruence|done|exact Hok]].
    intros t. rewrite flying_app, flying_out by done. lia.
  - constructor; unfold well_listening; cbn; rewrite ?El, ?Eo, ?Eh, ?Ev, ?Et; try done; try lia.
    + intros t d. destruct (decide (term n + 1 = t)) as [<-|Hne]; [lia|].
      rewrite lookup_insert_ne by congruence. intros Hg%Hvoted. lia.
    + intros v t. destruct (decide ((s, term n + 1) = (v, t))) as [[= <- <-]|Hne]; [lia|].
      rewrite lookup_insert_ne by done. intros Hg%Hcand. lia.
    + intros _. rewrite Em, flying_app, flying_out, voters_insert by eauto using inv_dom.
      rewrite (flying_none K G) by (try done; lia || apply (inv_packets _ _ _ HI)). lia.
    + rewrite Ep. unfold is_primary in Hp. rewrite Hme in Hp. by apply String.eqb_neq in Hp.
  - by apply insert_subseteq.
  - unfold sends_to. apply Forall_fmap, Forall_true. intros q. cbn. split; [|by split].
    intros _. exists (term n'). rewrite Et. split_and!; [done|lia..|]. by rewrite lookup_insert_eq.
Qed.

Lemma Inv_grant K G ns fl s n n' q t :
  Inv K G (mkCluster ns fl) → ns !! s = Some n → same_node n n' → K < 2 ^ 31 →
  G !! (q, t) = Some q → 0 <= t <= K → term n < t → voted_term n < t →
  term n' = term n → voted_term n' = t → my_votes n' = my_votes n → primary n' = primary n →
  Inv (K + 1) (<[(s, t) := q]> G)
    (mkCluster (<[s := set_outbox [] n']> ns) (fl ++ (pair s <$> [mkSend q "/voteForYou" (to_string_int t)]))).
Proof.
  intros HI Hs (Eo & El & Eh) HK Hq Htb Ht Hv Et Ev Em Ep.
  pose proof (inv_nodes _ _ _ HI _ _ Hs) as [Hme Hos Hout Hl Ht1 Ht2 Hvoted Hcand Hcnt Hwon].
  assert (G !! (s, t) = None) as Hf.
  { destruct (G !! (s, t)) as [d|] eqn:Eg; [|done]. apply Hvoted in Eg. lia. }
  assert (q ≠ s) as Hqs by congruence.
  assert (∀ t' c, c ≠ q → flying t' c (fl ++ (pair s <$> [mkSend q "/voteForYou" (to_string_int t)]))
                          = flying t' c fl) as Hfl.
  { intros t' c Hc. rewrite flying_app, (flying_other t' c (pair s <$> _)); [lia|].
    constructor; [by right|constructor]. }
  eapply Inv_update; try done.
  - apply self_insert; eauto using inv_dom, inv_self.
  - intros s' n0 Hne Hok. destruct (decide (s' = q)) as [-> | Hq'].
    2: { eapply node_ok_flight; [intros t'; rewrite Hfl; done|]. by apply node_ok_vote. }
    destruct Hok as [? ? ? ? ? ? Hv' Hc' Hcnt' Hw']. constructor; try done.
    + intros t' d'. rewrite lookup_insert_ne by congruence. apply Hv'.
    + intros v t'. destruct (decide ((s, t) = (v, t'))) as [[= <- <-]|Hk]; [intros _; by eapply Hc'|].
      rewrite lookup_insert_ne by done. apply Hc'.
    + rewrite lookup_insert_ne by congruence. intros Hg. specialize (Hcnt' Hg). rewrite flying_app.
      destruct (decide (term n0 = t)) as [<- | Hne'].
      * rewrite voters_insert by eauto using inv_dom. rewrite flying_vote, decide_True by done. lia.
      * rewrite voters_insert_other by congruence. rewrite flying_vote, decide_False; [lia|].
        intros Es%to_string_int_inj; [done|lia..].
    + intros Hp. destruct (decide (term n0 = t)) as [<- | Hne'].
      * rewrite voters_insert by eauto using inv_dom. specialize (Hw' Hp). lia.
      * rewrite voters_insert_other by congruence. by apply Hw'.
  - eapply node_ok_flight; [intros t'; rewrite Hfl by congruence; done|].
    constructor; unfold well_listening; cbn; rewrite ?El, ?Eo, ?Eh, ?Ev, ?Et, ?Em, ?Ep; try done; try lia.
    + intros t' d. destruct (decide (t = t')) as [<-|Hne]; [lia|].
      rewrite lookup_insert_ne by congruence. intros Hg%Hvoted. lia.
    + intros v t'. destruct (decide ((s, t) = (v, t'))) as [[= <- <-]|Hne]; [rewrite lookup_insert_eq; congruence|].
      rewrite lookup_insert_ne by done. apply Hcand.
    + rewrite lookup_insert_ne, voters_insert_other by (congruence || (intros [= ?]; lia)). done.
    + rewrite voters_insert_other by congruence. done.
  - by apply insert_subseteq.
  - repeat constructor; cbn; try done. intros _. exists t. split_and!; [done|lia..|by rewrite lookup_insert_eq].
Qed.

Lemma Inv_count K G ns l1 l2 s n n' q m out :
  Inv K G (mkCluster ns (l1 ++ (q, m) :: l2)) → ns !! s = Some n → to_endpoint m = s → same_node n n' →
  K < 2 ^ 31 → Z.of_nat (length eps) < 2 ^ 31 →
  to_target m = "/voteForYou" → stoi (to_data m) = Ret (term n) →
  term n' = term n → voted_term n' = voted_term n → my_votes n' = i32 (my_votes n + 1) →
  primary n' = primary n ∧ out = []
  ∨ enough_votes (my_votes n') (others n) = true ∧ primary n' = listened_endpoint n
    ∧ out = sends_to (others n) "/iAmThePrimary" (to_string_int (term n)) →
  Inv (K + 1) G (mkCluster (<[s := set_outbox [] n']> ns) (l1 ++ l2 ++ (pair s <$> out))).
Proof.
  intros HI Hs Hm (Eo & El & Eh) HK HN Ht Hd Et Ev Em Hw.
  pose proof (inv_nodes _ _ _ HI _ _ Hs) as [Hme Hos Hout Hl Ht1 Ht2 Hvoted Hcand Hcnt Hwon]. cbn [flight] in Hcnt.
  pose proof (inv_packets _ _ _ HI) as Hpk. cbn in Hpk. rewrite Forall_app, Forall_cons in Hpk.
  destruct Hpk as (Hp1 & (_ & Hx & _) & Hp2). destruct (Hx Ht) as (t & Ed & Htb & Hg). cbn in Ed, Hg.
  rewrite Ed, stoi_to_string in Hd by lia. injection Hd as ->. rewrite Hm in Hg.
  apply (inv_self _ _ _ HI) in Hg as [_ Hg]. specialize (Hcnt Hg). destruct Hcnt as [Hc0 Hcnt].
  assert (flying (term n) s (l1 ++ (q, m) :: l2) = S (flying (term n) s (l1 ++ l2))) as Hfl.
  { unfold flying. rewrite !filter_app, filter_cons_True; [rewrite !length_app; cbn [length]; lia|].
    destruct m; cbn in *. by subst. }
  assert (∀ t' c, flying t' c (pair s <$> out) = 0%nat) as Hfo.
  { intros t' c. destruct Hw as [[_ ->]|(_ & _ & ->)]; [done|]. by apply flying_out. }
  pose proof (voters_le G (term n) s) as Hle. rewrite i32_small in Em by (unfold is_i32; lia).
  rewrite app_assoc. eapply Inv_update; [by eapply Inv_drop|done|apply (inv_self _ _ _ HI)|..]; try done.
  - intros s' n0 _ Hok. eapply node_ok_flight; [|done]. intros t'. rewrite flying_app, Hfo. lia.
  - constructor; unfold well_listening; cbn; rewrite ?El, ?Eo, ?Eh, ?Ev, ?Et, ?Em; try done; try lia.
    + intros _. rewrite flying_app, Hfo. lia.
    + destruct Hw as [[-> _]|(He & _ & _)]; [done|]. intros _. unfold enough_votes in He.
      apply Z.ltb_lt in He. rewrite Em, u64_small in He by (unfold is_u64; lia). lia.
  - destruct Hw as [[_ ->]|(_ & _ & ->)]; [constructor|]. unfold sends_to. rewrite Forall_fmap, Forall_forall.
    intros r Hr. split; [done|]. split; [done|]. intros _. exists (term n). split_and!; [done|lia..|].
    cbn. rewrite Hos in Hr. apply list_elem_of_filter in Hr. naive_solver.
Qed.

Lemma Inv_follow K G ns fl s n n' q t :
  Inv K G (mkCluster ns fl) → ns !! s = Some n → same_node n n' → 0 <= t <= K → q ≠ s →
  term n <= t → term n' = t → voted_term n' = voted_term n → my_votes n' = my_votes n → primary n' = q →
  Inv (K + 1) G (mkCluster (<[s := set_outbox [] n']> ns) (fl ++ (pair s <$> []))).
Proof.
  intros HI Hs (Eo & El & Eh) Htb Hq Ht Et Ev Em Ep.
  pose proof (inv_nodes _ _ _ HI _ _ Hs) as [Hme Hos Hout Hl Ht1 Ht2 Hvoted Hcand Hcnt Hwon]. cbn [flight] in Hcnt.
  eapply Inv_update; [done|done|apply (inv_self _ _ _ HI)|..]; try done.
  - intros s' n0 _. by rewrite app_nil_r.
  - cbn [fmap list_fmap]. rewrite app_nil_r.
    constructor; unfold well_listening; cbn; rewrite ?El, ?Eo, ?Eh, ?Ev, ?Et, ?Em, ?Ep; try done; try lia.
    + intros t' d Hg%Hvoted. lia.
    + intros v t' Hg%Hcand. lia.
    + intros Hg. pose proof (Hcand _ _ Hg). assert (t = term n) as -> by lia. by apply Hcnt.
Qed.

(** Every effect, with the message that caused it taken out of the flight. *)
Definition without (why : cause) (fl fl' : list (string * Send)) : Prop :=
  match why with
  | Received q m => ∃ l1 l2, fl = l1 ++ (q, m) :: l2 ∧ fl' = l1 ++ l2
  | _ => fl' = fl
  end.

Lemma Inv_elect K G ns fl fl' s n n' why :
  Inv K G (mkCluster ns fl) → ns !! s = Some n → without why fl fl' →
  (∀ q m, why = Received q m → to_endpoint m = s) → same_node n n' → elect why n n' (outbox n') →
  (why = Ticked → tick_of n ≠ ComplainEarly) →
  K + 1 < 2 ^ 31 → Z.of_nat (length eps) < 2 ^ 31 →
  ∃ G', Inv (K + 1) G' (mkCluster (<[s := set_outbox [] n']> ns) (fl' ++ (pair s <$> outbox n'))).
Proof.
  intros HI Hs Hwo Hto Hsame Hel Hearly HK HN.
  assert (Inv K G (mkCluster ns fl')) as HI'.
  { destruct why as [q m| |]; cbn in Hwo; [|by subst..]. destruct Hwo as (l1 & l2 & -> & ->). by eapply Inv_drop. }
  assert (∀ q m, why = Received q m → packet_ok K G (q, m)) as Hpk.
  { intros q m ->. destruct Hwo as (l1 & l2 & -> & _). pose proof (inv_packets _ _ _ HI) as Hp. cbn in Hp.
    rewrite Forall_app, Forall_cons in Hp. tauto. }
  destruct Hel as [Et Ev Ep Em Hout|Hw Hp Hti Et Ev Em Ep Hout|q m t Er Ht Hd Hl1 Hl2 Et Ev Em Ep Hout
                  |q m Er Ht Hd Et Ev Em Hw|q m t Er Ht Hd Hl1 Et Ev Em Ep Hout].
  - exists G. by eapply Inv_same.
  - rewrite Hout. eexists. eapply Inv_complain; try done. specialize (Hearly Hw). unfold tick_of in *.
    destruct (_ || _) in *; [done|]. destruct (Z.ltb_spec (term n) (voted_term n)); [done|lia].
  - destruct (Hpk _ _ Er) as (Hx & _ & _). destruct (Hx Ht) as (t' & Ed & Htb & Hg). cbn in Ed, Hg.
    rewrite Ed, stoi_to_string in Hd by lia. injection Hd as ->. rewrite Hout.
    eexists. eapply Inv_grant; try done. lia.
  - exists G. subst why. destruct Hwo as (l1 & l2 & -> & ->). rewrite <-app_assoc.
    eapply Inv_count; try done; [by eapply Hto|lia].
  - destruct (Hpk _ _ Er) as (_ & _ & Hx). destruct (Hx Ht) as (t' & Ed & Htb & Hq). cbn in Ed, Hq.
    rewrite Ed, stoi_to_string in Hd by lia. injection Hd as ->. rewrite Hout.
    specialize (Hto _ _ Er). exists G. eapply Inv_follow; try done. congruence.
Qed.
End votes.

(** ** Majorities *)

(** Two majorities of voters share one, who voted once. *)
Lemma two_majorities (eps : list string) (G : gmap (string * Z) string) t a b :
  Nat.Odd (length eps) →
  Z.of_nat (length eps - 1) / 2 < Z.of_nat (length (voters eps G t a)) →
  Z.of_nat (length eps - 1) / 2 < Z.of_nat (length (voters eps G t b)) → a = b.
Proof.
  intros [k Hk] Ha Hb. destruct (decide (a = b)) as [|Hne]; [done|exfalso].
  assert (length (voters eps G t a) + length (voters eps G t b) <= length eps)%nat as Hle.
  { clear -Hne. unfold voters. induction eps as [|v l IH]; [done|].
    rewrite !filter_cons. repeat case_decide; cbn [length]; (lia || congruence). }
  rewrite Hk in *. replace (Z.of_nat (2 * k + 1 - 1)) with (Z.of_nat k * 2) in * by lia.
  rewrite Z.div_mul in * by lia. lia.
Qed.
Lemma length_others_of (eps : list string) s : NoDup eps → s ∈ eps → length (others_of eps s) = (length eps - 1)%nat.
Proof.
  intros Hnd Hs. unfold others_of.
  induction Hnd as [|v l Hv Hl IH]; [by apply elem_of_nil in Hs|]. rewrite filter_cons.
  apply elem_of_cons in Hs as [->|Hs].
  - rewrite decide_False by naive_solver. cbn. rewrite Nat.sub_0_r. f_equal.
    rewrite (filter_iff_elem _ (λ _, True)); [|intros u Hu; split; [done|intros _ ->; done]].
    clear. induction l as [|u l IH]; [done|]. rewrite filter_cons_True by done. by rewrite IH.
  - rewrite decide_True by (intros ->; done). cbn. rewrite IH by done.
    destruct l; [by apply elem_of_nil in Hs|cbn; lia].
Qed.

(** ** Runs *)

(** A node that gave its vote in a later term does not complain before it hears of that term. *)
Definition timely (l : label) : Prop := match l with LTick _ ComplainEarly => False | _ => True end.

Section runs.
Context {E : Type} {IX : IForConsensusExecutable E} (NO_CONFIG : bool).
Context (eps : list string) (Hnd : NoDup eps) (Hsize : Z.of_nat (length eps) < 2 ^ 31).
Implicit Types n : Raft E.

Lemma Inv_K K K' G (c : Cluster E) : K <= K' → Inv eps K G c → Inv eps K' G c.
Proof.
  intros HK [I1 I2 I3 I4]. constructor; try done.
  - intros s n Hn. apply (node_ok_K eps K); [done|by apply I3].
  - eapply Forall_impl; [done|]. intros x. by apply packet_ok_mono.
Qed.

Lemma Inv_step K G (c c' : Cluster E) l :
  Inv eps K G c → step NO_CONFIG l c c' → timely l → K + 1 < 2 ^ 31 → ∃ G', Inv eps (K + 1) G' c'.
Proof.
  intros HI Hst Htm HK. destruct Hst as [c l1 q m l2 n r n' o Hfl Hn _ Hd|c s cl d n n' o Hn _ _ Hd|
    c s r n n' o Hn Hd|c s n n' o Hn Hd|c l1 m l2 Hfl]; cbn [timely] in Htm; destruct c as [ns fl]; cbn in *.
  - pose proof (inv_nodes _ _ _ _ HI _ _ Hn) as Hok.
    apply (elect_deliver NO_CONFIG) in Hd as [Hs He]; [|apply Hok..].
    eapply Inv_elect; try done; [by exists l1, l2|]. by intros ? ? [= <- <-].
  - pose proof (inv_nodes _ _ _ _ HI _ _ Hn) as Hok.
    pose proof (calm_handle_execute NO_CONFIG cl d n) as Hc. rewrite Hd in Hc.
    apply (calm_elect Other) in Hc as [Hs He]; [|apply Hok]. by eapply (Inv_elect eps Hnd _ _ _ _ _ _ _ _ Other).
  - pose proof (inv_nodes _ _ _ _ HI _ _ Hn) as Hok. apply elect_tick in Hd as [Hs He]; [|apply Hok].
    eapply (Inv_elect eps Hnd _ _ _ _ _ _ _ _ Ticked); try done. intros _ Ht. by rewrite Ht in Htm.
  - pose proof (inv_nodes _ _ _ _ HI _ _ Hn) as Hok. apply elect_thread in Hd as [Hs He]; [|apply Hok].
    by eapply (Inv_elect eps Hnd _ _ _ _ _ _ _ _ Other).
  - exists G. apply (Inv_K K); [lia|]. rewrite Hfl in HI. by eapply Inv_drop.
Qed.

Lemma Inv_initial ex (c : Cluster E) : "" ∉ eps → initial eps ex c → Inv eps 0 ∅ c.
Proof.
  intros Hemp (Hdom & Hnodes & Hfl). constructor.
  - intros s n Hn. destruct (decide (s ∈ eps)) as [|Hs]; [done|]. apply Hdom in Hs. congruence.
  - intros v t d. by rewrite lookup_empty.
  - intros s n Hn. assert (s ∈ eps) as Hs.
    { destruct (decide (s ∈ eps)) as [|Hs]; [done|]. apply Hdom in Hs. congruence. }
    destruct (Hnodes s n Hn) as [r Hc]. rewrite create_eq in Hc. apply (f_equal fst) in Hc. cbn [fst] in Hc. subst n.
    constructor; cbn; try done; [by repeat constructor|]. intros <-. done.
  - rewrite Hfl. constructor.
Qed.

Lemma Inv_steps ex (c0 c : Cluster E) ls :
  "" ∉ eps → initial eps ex c0 → steps NO_CONFIG ls c0 c → Forall timely ls →
  Z.of_nat (length ls) < 2 ^ 31 → ∃ G, Inv eps (Z.of_nat (length ls)) G c.
Proof.
  intros Hemp Hinit Hst. induction Hst as [c|ls l c c' c'' Hst IH Hs]; intros Ht Hl.
  - exists ∅. by eapply Inv_initial.
  - apply Forall_app in Ht as [Ht [Htl _]%Forall_cons_1]. rewrite length_app in *. cbn [length] in *.
    destruct (IH Hinit Ht ltac:(lia)) as [G HI].
    replace (Z.of_nat (length ls + 1)) with (Z.of_nat (length ls) + 1) by lia.
    eapply Inv_step; try done. lia.
Qed.
End runs.

(** ** An election that succeeds *)
Section wins.
Context {E : Type} {IX : IForConsensusExecutable E} (NO_CONFIG : bool).
Implicit Types n : Raft E.

Definition listening n : Prop := handlers n = handlers (created 0 "" (exe n) []).
Definition receive (r : Z) (target data : string) (qs : list string) n : Raft E :=
  foldl (λ n q, (deliver NO_CONFIG r q target data n).1) n qs.

(** The state after a complaint. *)
Definition complained (r : Z) n : Raft E :=
  set_patience (5 + r mod 6) (sending (sends_to (others n) "/pleaseVoteMe" (to_string_int (term n + 1)))
    (set_voted_term (term n + 1) (set_my_votes 1 (set_term (term n + 1) n)))).
Lemma tick_complains r n :
  done n = false → timer n = true → is_primary n = false → patience n = 0 → is_i32 (term n + 1) →
  timer_tick r n = (complained r n, Ret tt).
Proof.
  intros Hd Ht Hp Hz Hi. unfold timer_tick, is_primary in *. unfold_st. rewrite Hd, Ht. cbn [orb negb]. rewrite Hp, Hz.
  cbn [Z.eqb].
  unfold complain, comfort, complained. unfold_st. rewrite send_others_eq. cbn [term set_term set_my_votes set_voted_term].
  by rewrite i32_small.
Qed.

Lemma deliver_vote r q d n :
  listening n → deliver NO_CONFIG r q "/voteForYou" d n = handle_voteForYou q d n.
Proof. intros Hl. unfold deliver. by rewrite Hl. Qed.

(** How many votes of others are needed. *)
Definition needed (os : list string) : nat := Nat.max 1 (length os / 2).
Lemma enough_needed os k :
  Z.of_nat (length os) < 2 ^ 31 → (0 < k <= needed os)%nat →
  enough_votes (Z.of_nat (S k)) os = (needed os <=? k)%nat.
Proof.
  intros Ho Hk. unfold enough_votes, needed in *.
  pose proof (Nat.Div0.mul_div_le (length os) 2).
  rewrite u64_small by (unfold is_u64; lia).
  replace (Z.of_nat (length os) / 2) with (Z.of_nat (length os / 2)) by (rewrite Nat2Z.inj_div; done).
  destruct (Nat.leb_spec (Nat.max 1 (length os / 2)) k); [apply Z.ltb_lt|apply Z.ltb_ge]; lia.
Qed.

Lemma receive_waits r n qs :
  listening n → my_votes n = 1 → 0 <= term n < 2 ^ 31 → Z.of_nat (length (others n)) < 2 ^ 31 →
  (length qs < needed (others n))%nat →
  receive r "/voteForYou" (to_string_int (term n)) qs n = set_my_votes (Z.of_nat (S (length qs))) n.
Proof.
  intros Hl Hv Ht Ho. induction qs as [|q qs IH] using rev_ind; intros Hq; [destruct n; cbn in *; by subst|].
  rewrite length_app in Hq. cbn [length] in Hq. unfold receive in *. rewrite foldl_app, IH by lia. cbn [foldl].
  rewrite deliver_vote by done. unfold handle_voteForYou. unfold_st. rewrite stoi_to_string by done.
  cbn [term set_my_votes my_votes others]. rewrite Z.eqb_refl.
  cbn [my_votes set_my_votes others].
  pose proof (Nat.Div0.mul_div_le (length (others n)) 2).
  rewrite (i32_small (Z.of_nat (S (length qs)) + 1)) by (unfold is_i32, needed in *; lia).
  replace (Z.of_nat (S (length qs)) + 1) with (Z.of_nat (S (S (length qs)))) by lia.
  rewrite enough_needed, (proj2 (Nat.leb_gt _ _)) by lia.
  rewrite length_app, Nat.add_1_r. done.
Qed.
(** The state after the last vote. *)
Definition elected n : Raft E :=
  set_primary_thread Starting (set_primary (listened_endpoint n)
    (sending (sends_to (others n) "/iAmThePrimary" (to_string_int (term n)))
      (set_my_votes (Z.of_nat (S (needed (others n)))) n))).
Lemma receive_wins r n qs :
  listening n → my_votes n = 1 → 0 <= term n < 2 ^ 31 → Z.of_nat (length (others n)) < 2 ^ 31 →
  primary_thread n = NoThread ∨ primary_thread n = Ended → length qs = needed (others n) →
  receive r "/voteForYou" (to_string_int (term n)) qs n = elected n.
Proof.
  intros Hl Hv Ht Ho Hth Hq. destruct qs as [|q qs' _] using rev_ind.
  { unfold needed in Hq. cbn [length] in Hq. lia. }
  rewrite length_app in Hq. cbn [length] in Hq. pose proof (receive_waits r n qs' Hl Hv Ht Ho ltac:(lia)) as IH.
  unfold receive in *. rewrite foldl_app, IH. cbn [foldl].
  rewrite deliver_vote by done. unfold handle_voteForYou. unfold_st. rewrite stoi_to_string by done.
  cbn [term set_my_votes my_votes others]. rewrite Z.eqb_refl.
  cbn [my_votes set_my_votes others].
  pose proof (Nat.Div0.mul_div_le (length (others n)) 2).
  rewrite (i32_small (Z.of_nat (S (length qs')) + 1)) by (unfold is_i32, needed in *; lia).
  replace (Z.of_nat (S (length qs')) + 1) with (Z.of_nat (S (needed (others n)))) by lia.
  rewrite enough_needed, Nat.leb_refl by (unfold needed in *; lia). rewrite send_others_eq.
  unfold new_primary_thread. unfold_st. cbn.
  destruct Hth as [-> | ->]; done.
Qed.

(** Ticks without a message from the primary. *)
Fixpoint tick_n (r : Z) (k : nat) n : Raft E :=
  match k with O => n | S k => (timer_tick r (tick_n r k n)).1 end.
Lemma tick_n_waits r k n :
  done n = false → timer n = true → is_primary n = false → 0 <= Z.of_nat k <= patience n →
  is_i32 (patience n) → tick_n r k n = set_patience (patience n - Z.of_nat k) n.
Proof.
  intros Hd Ht Hp. induction k as [|k IH]; intros Hk Hi.
  - cbn. rewrite Z.sub_0_r. by destruct n.
  - cbn [tick_n]. rewrite IH by (done || lia). unfold timer_tick. unfold_st.
    cbn [done set_patience timer primary listened_endpoint]. rewrite Hd, Ht.
    cbn [orb negb primary listened_endpoint set_patience]. unfold is_primary in Hp. rewrite Hp.
    cbn [patience set_patience].
    rewrite (proj2 (Z.eqb_neq (patience n - Z.of_nat k) 0)) by lia. cbn [fst patience set_patience].
    unfold is_i32 in Hi. rewrite i32_small by (unfold is_i32; lia). unfold set_patience; cbn. f_equal. lia.
Qed.

Lemma grants r q t n :
  listening n → 0 <= t < 2 ^ 31 → term n < t → voted_term n < t → 
  deliver NO_CONFIG r q "/pleaseVoteMe" (to_string_int t) n
  = (sending [mkSend q "/voteForYou" (to_string_int t)] (set_voted_term t n), Ret tt).
Proof.
  intros Hl Ht H1 H2. unfold deliver. rewrite Hl. cbn. unfold handle_pleaseVoteMe. unfold_st.
  rewrite stoi_to_string by done.
  by rewrite (proj2 (Z.ltb_lt (term n) t)), (proj2 (Z.ltb_lt (voted_term n) t)) by done.
Qed.
Lemma welcomes r q t n :
  listening n → 0 <= t < 2 ^ 31 → term n <= t →
  deliver NO_CONFIG r q "/iAmThePrimary" (to_string_int t) n
  = (set_patience (5 + r mod 6) (set_primary q (set_term t n)), Ret tt).
Proof.
  intros Hl Ht H1. unfold deliver. rewrite Hl. cbn. unfold handle_iAmThePrimary. unfold_st.
  rewrite stoi_to_string by done. by rewrite (proj2 (Z.leb_le (term n) t)) by done.
Qed.
End wins.

(** C22: Election safety.  From a cluster just constructed, of an odd number of
    nodes, through any run in which messages are delayed, lost and reordered,
    timers run out and clients give commands: when no node complains between
    giving its vote and hearing of the term it voted in, there are never two
    primaries in one term. *)
Theorem raft_election_safety {E} {IX : IForConsensusExecutable E} (NO_CONFIG : bool)
    (eps : list string) ex (c0 c : Cluster E) ls a b na nb :
  NoDup eps → "" ∉ eps → Z.of_nat (length eps) < 2 ^ 31 → Nat.Odd (length eps) →
  initial eps ex c0 → steps NO_CONFIG ls c0 c → Forall timely ls → Z.of_nat (length ls) < 2 ^ 31 →
  nodes c !! a = Some na → nodes c !! b = Some nb → a ≠ b → term na = term nb →
  is_primary na = true → is_primary nb = false.
Proof.
  intros Hnd Hemp Hsize Hodd Hinit Hst Ht Hl Ha Hb Hne Et Hpa.
  destruct (is_primary nb) eqn:Hpb; [exfalso|done].
  destruct (Inv_steps NO_CONFIG eps Hnd Hsize ex c0 c ls Hemp Hinit Hst Ht Hl) as [G HI].
  pose proof (inv_nodes _ _ _ _ HI _ _ Ha) as [Ma Oa _ _ _ _ _ _ _ Wa].
  pose proof (inv_nodes _ _ _ _ HI _ _ Hb) as [Mb Ob _ _ _ _ _ _ _ Wb].
  unfold is_primary in *. apply String.eqb_eq in Hpa, Hpb. rewrite Ma in Hpa. rewrite Mb in Hpb.
  specialize (Wa Hpa). specialize (Wb Hpb).
  rewrite Oa, length_others_of in Wa by (done || by eapply inv_dom).
  rewrite Ob, length_others_of in Wb by (done || by eapply inv_dom).
  rewrite Et in Wa. by apply Hne, (two_majorities eps G (term nb)).
Qed.

(** C28: Elections.  A node that hears nothing from a primary asks all others for
    their votes when its patience, between 5 and 10, is used up; a node that has
    neither reached nor voted in that term gives its vote; the candidate is no
    primary before max(1, (N-1)/2) votes of others have come, announces itself
    with the last of them, and a node of no later term then follows it. *)
Theorem raft_elects {E} {IX : IForConsensusExecutable E} (NO_CONFIG : bool)
    (r r' : Z) (n : Raft E) (k : nat) :
  let t := term n + 1 in
  let candidate := tick_n r (S k) n in
  let votes := receive NO_CONFIG r "/voteForYou" (to_string_int t) in
  listening n → done n = false → timer n = true → is_primary n = false → outbox n = [] →
  primary_thread n = NoThread ∨ primary_thread n = Ended →
  patience n = Z.of_nat k → 5 <= patience n <= 10 → 0 <= term n → t < 2 ^ 31 →
  Z.of_nat (length (others n)) < 2 ^ 31 →
  (∀ j, (j <= k)%nat → outbox (tick_n r j n) = [])
  ∧ outbox candidate = sends_to (others n) "/pleaseVoteMe" (to_string_int t)
  ∧ (∀ nv, listening nv → outbox nv = [] → term nv < t → voted_term nv < t →
       outbox (deliver NO_CONFIG r (listened_endpoint n) "/pleaseVoteMe" (to_string_int t) nv).1
       = [mkSend (listened_endpoint n) "/voteForYou" (to_string_int t)])
  ∧ (∀ qs, (length qs < needed (others n))%nat → is_primary (votes qs candidate) = false)
  ∧ (∀ qs, length qs = needed (others n) →
       is_primary (votes qs candidate) = true ∧ term (votes qs candidate) = t
       ∧ outbox (votes qs candidate)
         = outbox candidate ++ sends_to (others n) "/iAmThePrimary" (to_string_int t))
  ∧ (∀ nv, listening nv → term nv <= t →
       let nv' := (deliver NO_CONFIG r' (listened_endpoint n) "/iAmThePrimary" (to_string_int t) nv).1 in
       primary nv' = listened_endpoint n ∧ term nv' = t ∧ 5 <= patience nv' <= 10).
Proof.
  intros t candidate votes Hl Hd Ht Hp Ho Hth Hk Hb Hterm Ht31 Hos.
  assert (candidate = complained r n) as Hc.
  { unfold candidate. cbn [tick_n].
    rewrite tick_n_waits by (done || unfold is_i32; lia). rewrite Hk, Z.sub_diag.
    rewrite tick_complains; [by destruct n|done..|unfold is_i32, t in *; cbn; lia]. }
  assert (listening candidate) as Hlc by (rewrite Hc; done).
  assert (others candidate = others n ∧ term candidate = t ∧ my_votes candidate = 1
    ∧ primary_thread candidate = primary_thread n ∧ listened_endpoint candidate = listened_endpoint n
    ∧ primary candidate = primary n) as (C1 & C2 & C3 & C4 & C5 & C6) by (rewrite Hc; done).
  clearbody candidate.
  split_and!.
  - intros j Hj. rewrite tick_n_waits; [done..|lia|unfold is_i32; lia].
  - rewrite Hc. cbn. by rewrite Ho.
  - intros nv V1 V2 V3 V4. rewrite grants by (done || unfold t in *; lia). cbn. by rewrite V2.
  - intros qs Hq. unfold votes. rewrite <-C2. rewrite receive_waits; [|done|done|unfold t in *; lia|by rewrite C1..].
    unfold is_primary in *. cbn. by rewrite C5, C6.
  - intros qs Hq. unfold votes. rewrite <-C2.
    rewrite receive_wins; [|done|done|unfold t in *; lia|by rewrite C1|by rewrite C4|by rewrite C1].
    unfold is_primary, elected. cbn. rewrite String.eqb_refl, C1. done.
  - intros nv V1 V2 nv'. unfold nv'. rewrite welcomes by (done || unfold t in *; lia). cbn.
    pose proof (Z.mod_pos_bound r' 6 ltac:(lia)). split_and!; [done..|lia|lia].
Qed.

(** *** Examples *)
Definition mocks (s : string) : Executable := Executable_ctor s.
Definition three : list string := ["A"; "B"; "C"].
Definition four : list string := ["A"; "B"; "C"; "D"].
Definition ticks (s : string) (k : nat) : list action := repeat (Tick s) k.

(** What a schedule reaches from a cluster just constructed. *)
Definition reaches (eps : list string) (acts : list action) (P : list label → Cluster Executable → bool) : bool :=
  match run false acts (cluster eps mocks) with Some (ls, c) => P ls c | None => false end.
Lemma reaches_steps eps acts P :
  reaches eps acts P = true → ∃ ls c, steps false ls (cluster eps mocks) c ∧ P ls c = true.
Proof.
  unfold reaches. destruct (run _ _ _) as [[ls c]|] eqn:Er; [|done]. intros HP.
  exists ls, c. split; [by eapply raft_run_steps|done].
Qed.
Definition node_is (c : Cluster Executable) (s : string) (f : Raft Executable → bool) : bool :=
  match nodes c !! s with Some n => f n | None => false end.
Lemma node_is_spec c s f : node_is c s f = true → ∃ n, nodes c !! s = Some n ∧ f n = true.
Proof. unfold node_is. destruct (nodes c !! s); [eauto|done]. Qed.
Definition leads (t : Z) (n : Raft Executable) : bool := is_primary n && (term n =? t).
#[global] Instance timely_dec l : Decision (timely l).
Proof. destruct l as [| |? []| |]; apply _. Defined.

(** In a cluster of four, two votes make a primary: two nodes that complain
    together are both elected in term 1, although every timer is honest. *)
Lemma even_cluster_two_primaries :
  ∃ ls c na nc, steps false ls (cluster four mocks) c ∧ Forall timely ls
    ∧ nodes c !! "A" = Some na ∧ nodes c !! "C" = Some nc
    ∧ leads 1 na = true ∧ leads 1 nc = true.
Proof.
  destruct (reaches_steps four (ticks "A" 6 ++ ticks "C" 6 ++ [Pick 0; Pick 5; Pick 4; Pick 7])
    (λ ls c, bool_decide (Forall timely ls) && node_is c "A" (leads 1) && node_is c "C" (leads 1)))
    as (ls & c & Hs & HP); [vm_compute; reflexivity|].
  rewrite !andb_true_iff in HP. destruct HP as ((Ht%bool_decide_eq_true & Ha) & Hc).
  apply node_is_spec in Ha as (na & ? & ?). apply node_is_spec in Hc as (nc & ? & ?). by exists ls, c, na, nc.
Qed.

(** In a cluster of three: B gives A its vote in term 1, complains before it
    hears of A as the primary of term 1, votes for itself in term 1 as well and
    is elected with the vote of C. *)
Lemma early_complaint_two_primaries :
  ∃ ls c na nb, steps false ls (cluster three mocks) c
    ∧ nodes c !! "A" = Some na ∧ nodes c !! "B" = Some nb
    ∧ leads 1 na = true ∧ leads 1 nb = true.
Proof.
  destruct (reaches_steps three (ticks "A" 6 ++ [Pick 0; Pick 1] ++ ticks "B" 6 ++ [Pick 4; Pick 4])
    (λ ls c, node_is c "A" (leads 1) && node_is c "B" (leads 1)))
    as (ls & c & Hs & HP); [vm_compute; reflexivity|].
  rewrite !andb_true_iff in HP. destruct HP as (Ha & Hc).
  apply node_is_spec in Ha as (na & ? & ?). apply node_is_spec in Hc as (nb & ? & ?). by exists ls, c, na, nb.
Qed.

(** A primary of four that gets the other two votes wins again: the handler
    then joins the thread of the primary, which does not end, and keeps the
    lock of the votes. *)
Lemma second_win_blocks :
  ∃ ls c na, steps false ls (cluster four mocks) c ∧ Forall timely ls
    ∧ nodes c !! "A" = Some na ∧ leads 1 na = true ∧ vote_locked na = true.
Proof.
  destruct (reaches_steps four (ticks "A" 6 ++ [Pick 0; Pick 2; Turn "A"; Pick 0; Pick 0; Pick 6; Pick 6])
    (λ ls c, bool_decide (Forall timely ls) && node_is c "A" (λ n, leads 1 n && vote_locked n)))
    as (ls & c & Hs & HP); [vm_compute; reflexivity|].
  rewrite !andb_true_iff in HP. destruct HP as (Ht%bool_decide_eq_true & Ha).
  apply node_is_spec in Ha as (na & ? & [? ?]%andb_true_iff). by exists ls, c, na.
Qed.

Lemma three_elects :
  ∃ ls c na nb, steps false ls (cluster three mocks) c ∧ Forall timely ls ∧ (Z.of_nat (length ls) < 2 ^ 31)
    ∧ nodes c !! "A" = Some na ∧ nodes c !! "B" = Some nb ∧ term na = term nb ∧ is_primary na = true.
Proof.
  destruct (reaches_steps three (ticks "A" 6 ++ [Pick 0; Pick 1; Pick 1])
    (λ ls c, bool_decide (Forall timely ls) && (Z.of_nat (length ls) <? 2147483648)
       && node_is c "A" (leads 1) && node_is c "B" (λ n, term n =? 1)))
    as (ls & c & Hs & HP); [vm_compute; reflexivity|].
  rewrite !andb_true_iff in HP. destruct HP as (((Ht%bool_decide_eq_true & Hl%Z.ltb_lt) & Ha) & Hb).
  apply node_is_spec in Ha as (na & ? & [? ?%Z.eqb_eq]%andb_true_iff).
  apply node_is_spec in Hb as (nb & ? & ?%Z.eqb_eq). exists ls, c, na, nb. split_and!; done || congruence.
Qed.
Lemma three_ok : NoDup three ∧ ("" ∉ three) ∧ Z.of_nat (length three) < 2 ^ 31 ∧ Nat.Odd (length three).
Proof. split_and!; [by apply (bool_decide_unpack _)|by apply (bool_decide_unpack _)|done|by exists 1%nat]. Qed.
Lemma raft_election_safety_witness :
  ∃ ls c na nb, steps false ls (cluster three mocks) c
    ∧ nodes c !! "A" = Some na ∧ nodes c !! "B" = Some nb ∧ is_primary na = true ∧ is_primary nb = false.
Proof.
  destruct three_elects as (ls & c & na & nb & Hs & Ht & Hl & Ha & Hb & Et & Hp).
  destruct three_ok as (Hnd & He & Hz & Ho). exists ls, c, na, nb. split; [exact Hs|].
  split; [exact Ha|]. split; [exact Hb|]. split; [exact Hp|].
  exact (raft_election_safety false three mocks (cluster three mocks) c ls "A" "B" na nb
           Hnd He Hz Ho (raft_cluster_initial three mocks) Hs Ht Hl Ha Hb ltac:(discriminate) Et Hp).
Defined.

Lemma raft_elects_witness :
  let n := created 0 "A" (mocks "A") ["B"; "C"] in
  outbox (tick_n 0 6 n) = [mkSend "B" "/pleaseVoteMe" "1"; mkSend "C" "/pleaseVoteMe" "1"]
  ∧ is_primary (receive false 0 "/voteForYou" "1" ["C"] (tick_n 0 6 n)) = true.
Proof.
  destruct (raft_elects false 0 0 (created 0 "A" (mocks "A") ["B"; "C"]) 5 eq_refl eq_refl eq_refl eq_refl eq_refl
    (or_introl eq_refl) eq_refl ltac:(vm_compute; done) ltac:(vm_compute; done) ltac:(vm_compute; done)
    ltac:(vm_compute; done))
    as (_ & H1 & _ & _ & H2 & _).
  split; [exact H1|]. exact (proj1 (H2 ["C"] eq_refl)).
Defined.
