(* ===== verification/RaftReplication.v ===== *)
(** * Raft: replication under a settled primary

    All nodes follow one primary, its heartbeats arrive before anybody's
    patience ends, and the network keeps the order between two nodes: every
    other node replays, in order, a prefix of what the primary executed, the
    rest is on its way, and every command of a client is executed by the
    primary exactly once or on its way to it. *)
From Stdlib Require Import ZArith Strings.String Strings.Ascii Lia.
From stdpp Require Import base tactics strings gmap option list.
From S2P Require Import Prelude Text Consensus Raft RaftCluster RaftElection.

Local Open Scope Z_scope.

(** The steps of such a run, and the commands given in it. *)
Definition orderly (l : label) : Prop :=
  match l with
  | LDeliver _ _ overtakes => overtakes = false
  | LTick _ t => t = Wait
  | LClient _ _ | LThread _ => True
  | LLose => False
  end.
Definition commands (ls : list label) : list string :=
  omap (λ l, match l with LClient _ d => Some d | _ => None end) ls.

Section replication.
Context {E : Type} {IX : IForConsensusExecutable E} {IXL : IForConsensusExecutableLaws E} (NO_CONFIG : bool).
Implicit Types n : Raft E.
Context (eps : list string) (p : string).

(** The commands on their way from the primary to [s], oldest first, and to the primary. *)
Definition broadcast (s : string) (fl : list (string * Send)) : list string :=
  omap (λ x, if decide (x.1 = p ∧ to_endpoint x.2 = s ∧ to_target x.2 = "/pleaseExecute")
             then Some (to_data x.2) else None) fl.
Definition forwarded (fl : list (string * Send)) : list string :=
  omap (λ x, if decide (to_endpoint x.2 = p ∧ to_target x.2 = "/pleaseExecute")
             then Some (to_data x.2) else None) fl.

(** A node that follows [p]. *)
Definition follows (s : string) n : Prop :=
  listened_endpoint n = s ∧ others n = others_of eps s ∧ outbox n = [] ∧ primary n = p
  ∧ handlers n = handlers (created 0 s (exe n) []).
Definition settled_packet (x : string * Send) : Prop :=
  to_target x.2 = "/heartbeat"
  ∨ to_target x.2 = "/pleaseExecute" ∧ (x.1 = p ∧ to_endpoint x.2 ≠ p ∨ x.1 ≠ p ∧ to_endpoint x.2 = p).
Definition settled (c : Cluster E) : Prop :=
  p ≠ "" ∧ p ∈ eps ∧ NoDup eps ∧ (∀ s, s ∈ eps ↔ is_Some (nodes c !! s))
  ∧ (∀ s n, nodes c !! s = Some n → follows s n)
  ∧ Forall (λ x, to_target x.2 = "/heartbeat") (flight c).

(** What is on its way, after messages were added and taken. *)
Lemma broadcast_app s fl fl' : broadcast s (fl ++ fl') = broadcast s fl ++ broadcast s fl'.
Proof. apply omap_app. Qed.
Lemma forwarded_app fl fl' : forwarded (fl ++ fl') = forwarded fl ++ forwarded fl'.
Proof. apply omap_app. Qed.
Lemma broadcast_other s fl :
  Forall (λ x, x.1 ≠ p ∨ to_endpoint x.2 ≠ s ∨ to_target x.2 ≠ "/pleaseExecute") fl → broadcast s fl = [].
Proof. induction 1 as [|x fl Hx _ IH]; [done|]. cbn. rewrite decide_False by tauto. done. Qed.
Lemma forwarded_other fl :
  Forall (λ x, to_endpoint x.2 ≠ p ∨ to_target x.2 ≠ "/pleaseExecute") fl → forwarded fl = [].
Proof. induction 1 as [|x fl Hx _ IH]; [done|]. cbn. rewrite decide_False by tauto. done. Qed.
Lemma Forall_sent (P : string * Send → Prop) s L t d :
  (∀ q, q ∈ L → P (s, mkSend q t d)) → Forall P (pair s <$> sends_to L t d).
Proof.
  intros HP. unfold sends_to. rewrite !Forall_fmap, Forall_forall. intros q Hq. by apply HP.
Qed.
Lemma broadcast_sent s L d :
  NoDup L → broadcast s (pair p <$> sends_to L "/pleaseExecute" d) = if decide (s ∈ L) then [d] else [].
Proof.
  induction 1 as [|q L Hq HL IH]; [done|]. change (pair p <$> _) with
    ((p, mkSend q "/pleaseExecute" d) :: (pair p <$> sends_to L "/pleaseExecute" d)).
  rewrite (broadcast_app s [_] _ : broadcast s (_ :: _) = _), IH. unfold broadcast. cbn.
  repeat case_decide; set_solver.
Qed.

(** *** Handlers of a node that follows [p] *)
Lemma follower_execute_eq d n :
  ∃ r d' e, cnsss_execute d (exe n) = Ret (r, d', e)
    ∧ execute NO_CONFIG d n
      = (set_cmds (if NO_CONFIG then cmds n ++ [d'] else cmds n) (set_exe e n), Ret d').
Proof.
  destruct (cnsss_execute_total d (exe n)) as (r & d' & e & He). exists r, d', e.
  split; [done|]. unfold execute. by rewrite He.
Qed.

(** What a step changes: nothing that matters here, an execution, or a message forwarded. *)
Definition keeps_view n n' : Prop :=
  listened_endpoint n' = listened_endpoint n ∧ others n' = others n ∧ primary n' = primary n
  ∧ handlers n' = handlers n.
Definition heartbeats (out : list Send) : Prop := Forall (λ m, to_target m = "/heartbeat") out.
Definition idle n n' : Prop := keeps_view n n' ∧ exe n' = exe n ∧ heartbeats (outbox n').

Lemma follows_keeps s n n' : follows s n → keeps_view n n' → follows s (set_outbox [] n').
Proof.
  unfold follows. intros (F1 & F2 & F3 & F4 & F5) (V1 & V2 & V3 & V4). cbn.
  by rewrite V1, V2, V3, V4, F1, F2, F4, F5.
Qed.

Ltac idle_now Ho := repeat split; cbn; rewrite ?Ho; first [done|constructor].
Lemma idle_tick r n n' o :
  outbox n = [] → tick_of n = Wait → timer_tick r n = (n', o) → idle n n'.
Proof.
  intros Ho Hw. unfold tick_of, is_primary, timer_tick in *. unfold_st.
  destruct (done n || negb (timer n)); [intros [= <- <-]; idle_now Ho|].
  destruct (String.eqb _ _); [intros [= <- <-]; idle_now Ho|]. cbn in Hw.
  destruct (patience n =? 0); [by destruct (_ <? _)|]. intros [= <- <-]. idle_now Ho.
Qed.
Lemma idle_thread n n' o :
  outbox n = [] → primary_thread_turn n = (n', o) ∨ new_thread_turn n = (n', o) → idle n n'.
Proof.
  assert (∀ L, heartbeats (sends_to L "/heartbeat" "")) as HL.
  { intros L. unfold heartbeats, sends_to. by apply Forall_fmap, Forall_true. }
  intros Ho [Hp|Hp]; revert Hp;
    unfold primary_thread_turn, new_thread_turn, start_being_primary, heartbeat_turn; unfold_st;
    [destruct (primary_thread n)|destruct (new_thread n)]; cbn;
    try (destruct (negb (done n) && _); [rewrite ?send_others_eq|]); cbn;
    repeat (destruct (bool_decide _)); cbn; intros Hp; simplify_eq/=; repeat split; cbn; rewrite ?Ho;
    first [done|constructor|apply HL].
Qed.

(** The primary executes a command and sends what the executor left of it. *)
Definition leads_with d n n' : Prop :=
  ∃ r d', cnsss_execute d (exe n) = Ret (r, d', exe n') ∧ keeps_view n n'
    ∧ outbox n' = sends_to (others n) "/pleaseExecute" d'.
Lemma primary_leads q d n n' o :
  outbox n = [] → handle_execute_for_primary NO_CONFIG q d n = (n', o) → leads_with d n n'.
Proof.
  intros Ho. unfold handle_execute_for_primary. unfold_st.
  destruct (follower_execute_eq d n) as (r & d' & e & He & ->). rewrite send_others_eq. intros [= <- <-].
  exists r, d'. cbn. rewrite Ho. by repeat split.
Qed.
(** Another node executes what comes from the primary and forwards the rest. *)
Definition replays d n n' : Prop :=
  ∃ r d', cnsss_execute d (exe n) = Ret (r, d', exe n') ∧ keeps_view n n' ∧ outbox n' = [].
Definition forwards d n n' : Prop :=
  exe n' = exe n ∧ keeps_view n n' ∧ outbox n' = [mkSend p "/pleaseExecute" d].
Lemma sub_executes q d n n' o :
  outbox n = [] → primary n = p → handle_execute_for_sub NO_CONFIG q d n = (n', o) →
  q = p ∧ replays d n n' ∨ q ≠ p ∧ forwards d n n'.
Proof.
  intros Ho Hp. unfold handle_execute_for_sub. unfold_st. rewrite Hp.
  destruct (String.eqb_spec q p) as [->|Hq]; cbn.
  - destruct (follower_execute_eq d n) as (r & d' & e & He & ->). intros [= <- <-]. left. split; [done|].
    exists r, d'. by repeat split.
  - intros [= <- <-]. right. repeat split; try done. cbn. by rewrite Ho.
Qed.

Lemma deliver_settled r x n n' o s :
  follows s n → p ≠ "" → settled_packet x → to_endpoint x.2 = s →
  deliver NO_CONFIG r x.1 (to_target x.2) (to_data x.2) n = (n', o) →
  to_target x.2 = "/heartbeat" ∧ idle n n'
  ∨ to_target x.2 = "/pleaseExecute" ∧ x.1 ≠ p ∧ s = p ∧ leads_with (to_data x.2) n n'
  ∨ to_target x.2 = "/pleaseExecute" ∧ x.1 = p ∧ s ≠ p ∧ replays (to_data x.2) n n'.
Proof.
  intros (F1 & F2 & F3 & F4 & F5) Hp Hx Hs. unfold deliver. rewrite F5.
  destruct Hx as [Ht|(Ht & Hx)]; rewrite Ht; cbn.
  - unfold handle_heartbeat, comfort. unfold_st. intros Hd. left. split; [done|].
    destruct (String.eqb _ _); simplify_eq; idle_now F3.
  - unfold handle_pleaseExecute. unfold_st. rewrite F4.
    rewrite (proj2 (String.eqb_neq p "")) by done. unfold is_primary. rewrite F4, F1.
    destruct (String.eqb_spec p s) as [<-|Hne].
    + destruct (handle_execute_for_primary _ _ _ n) as [n1 o1] eqn:Eh.
      apply primary_leads in Eh; [|done]. intros Hd. right. left. split_and!; [done|destruct Hx as [[? ?]|[? ?]]; congruence|done|].
      by destruct o1; simplify_eq.
    + destruct (handle_execute_for_sub _ _ _ n) as [n1 o1] eqn:Eh.
      apply sub_executes in Eh; [|done..]. intros Hd. right. right. assert (x.1 = p) as Hq by (destruct Hx as [[? ?]|[? ?]]; congruence).
      split_and!; [done..|congruence|]. destruct Eh as [[_ Eh]|[? _]]; [|done]. by destruct o1; simplify_eq.
Qed.
Lemma client_settled q d n n' o s :
  follows s n → q ≠ p → handle_execute NO_CONFIG q d n = (n', o) →
  s = p ∧ leads_with d n n' ∨ s ≠ p ∧ forwards d n n'.
Proof.
  intros (F1 & F2 & F3 & F4 & F5) Hq. unfold handle_execute. unfold_st. unfold is_primary. rewrite F4, F1.
  destruct (String.eqb_spec p s) as [<-|Hne]; intros Hd.
  - left. split; [done|]. by eapply primary_leads.
  - right. split; [congruence|]. apply sub_executes in Hd; [|done..]. by destruct Hd as [[? _]|[_ ?]].
Qed.

(** *** The invariant of a run from [c0] *)
Record Rep (c0 : Cluster E) (given orders log : list string) (c : Cluster E) : Prop := {
  rep_dom : ∀ s, s ∈ eps ↔ is_Some (nodes c !! s);
  rep_follows : ∀ s n, nodes c !! s = Some n → follows s n;
  rep_packets : Forall settled_packet (flight c);
  rep_given : given ≡ₚ orders ++ forwarded (flight c);
  rep_primary : ∀ n0 n, nodes c0 !! p = Some n0 → nodes c !! p = Some n →
    run_cmds orders (exe n0) = Ret (log, exe n);
  rep_subs : ∀ s n0 n, s ≠ p → nodes c0 !! s = Some n0 → nodes c !! s = Some n →
    ∃ replayed cs, log = replayed ++ broadcast s (flight c) ∧ run_cmds replayed (exe n0) = Ret (cs, exe n)
}.

(** The part of the invariant that every step keeps, when node and messages are fit. *)
Lemma rep_update (c : Cluster E) s n n' fl :
  (∀ s, s ∈ eps ↔ is_Some (nodes c !! s)) → (∀ s n, nodes c !! s = Some n → follows s n) →
  nodes c !! s = Some n → keeps_view n n' →
  let c' := mkCluster (<[s := set_outbox [] n']> (nodes c)) fl in
  (∀ s, s ∈ eps ↔ is_Some (nodes c' !! s)) ∧ (∀ s n, nodes c' !! s = Some n → follows s n).
Proof.
  intros Hd Hf Hn Hk. cbn. split.
  - intros s'. rewrite lookup_insert_is_Some'. rewrite Hd. split; [by right|]. intros [<-|]; [by eexists|done].
  - intros s' n1. destruct (decide (s = s')) as [<-|Hne].
    + rewrite lookup_insert_eq. intros [= <-]. eapply follows_keeps; [by apply Hf|done].
    + rewrite lookup_insert_ne by done. apply Hf.
Qed.

(** Nodes other than the one that moves, when their broadcasts stay. *)
Lemma rep_idle c0 given orders log c s n n' fl :
  Rep c0 given orders log c → nodes c !! s = Some n → keeps_view n n' → exe n' = exe n →
  Forall settled_packet fl → (∀ s', s' ≠ p → broadcast s' fl = broadcast s' (flight c)) →
  ∀ given', given' ≡ₚ orders ++ forwarded fl →
  Rep c0 given' orders log (mkCluster (<[s := set_outbox [] n']> (nodes c)) fl).
Proof.
  intros [R1 R2 R3 R4 R5 R6] Hn Hk He Hp Hb given' Hg.
  destruct (rep_update c s n n' fl R1 R2 Hn Hk) as [U1 U2]. constructor; try done; cbn [nodes flight].
  - intros n0 n1 Hn0. destruct (decide (s = p)) as [->|Hne].
    + rewrite lookup_insert_eq. intros [= <-]. cbn [exe set_outbox]. rewrite He. by apply R5.
    + rewrite lookup_insert_ne by done. by apply R5.
  - intros s' n0 n1 Hs' Hn0. rewrite Hb by done. destruct (decide (s = s')) as [->|Hne].
    + rewrite lookup_insert_eq. intros [= <-]. cbn [exe set_outbox]. rewrite He. by eapply R6.
    + rewrite lookup_insert_ne by done. by apply R6.
Qed.

Lemma rep_lead c0 given orders log c n n' fl d :
  NoDup eps → Rep c0 given orders log c → nodes c !! p = Some n → leads_with d n n' →
  (∀ s', s' ≠ p → broadcast s' fl = broadcast s' (flight c)) → Forall settled_packet fl →
  ∀ given', given' ≡ₚ d :: orders ++ forwarded fl →
  ∃ log', Rep c0 given' (orders ++ [d]) log'
    (mkCluster (<[p := set_outbox [] n']> (nodes c)) (fl ++ (pair p <$> outbox n'))).
Proof.
  intros Hnd [R1 R2 R3 R4 R5 R6] Hn (r & d' & He & Hk & Hout) Hb Hp given' Hg. exists (log ++ [d']).
  destruct (R2 _ _ Hn) as (_ & Ho & _ & _ & _). rewrite Hout, Ho.
  assert (∀ s', s' ∈ others_of eps p ↔ s' ≠ p ∧ s' ∈ eps) as Hot.
  { intros s'. unfold others_of. by rewrite list_elem_of_filter. }
  destruct (rep_update c p n n' (fl ++ (pair p <$> sends_to (others_of eps p) "/pleaseExecute" d'))
              R1 R2 Hn Hk) as [U1 U2].
  constructor; try done; cbn [nodes flight].
  - apply Forall_app. split; [done|]. apply Forall_sent. intros q [Hq _]%Hot. right. split; [done|by left].
  - rewrite forwarded_app, (forwarded_other (pair p <$> _)), app_nil_r.
    { rewrite Hg, <-app_assoc. apply Permutation_middle. }
    apply Forall_sent. intros q [Hq _]%Hot. by left.
  - intros n0 n1 Hn0. rewrite lookup_insert_eq. intros [= <-]. eapply run_cmds_snoc; [by apply R5|done].
  - intros s' n0 n1 Hs' Hn0. rewrite lookup_insert_ne by done. intros Hn1.
    destruct (R6 s' n0 n1 Hs' Hn0 Hn1) as (rp & cs & -> & Hr). exists rp, cs. split; [|done].
    rewrite broadcast_app, Hb, broadcast_sent, decide_True, app_assoc; [done| |by apply NoDup_filter|done].
    apply Hot. split; [done|]. apply R1. by eexists.
Qed.

Lemma rep_replay c0 given orders log c s n n' fl d :
  s ≠ p → Rep c0 given orders log c → nodes c !! s = Some n → replays d n n' →
  broadcast s (flight c) = d :: broadcast s fl →
  (∀ s', s' ≠ p → s' ≠ s → broadcast s' fl = broadcast s' (flight c)) → forwarded fl = forwarded (flight c) →
  Forall settled_packet fl →
  Rep c0 given orders log (mkCluster (<[s := set_outbox [] n']> (nodes c)) fl).
Proof.
  intros Hs [R1 R2 R3 R4 R5 R6] Hn (r & d' & He & Hk & Hout) Hd Hb Hf Hp.
  destruct (rep_update c s n n' fl R1 R2 Hn Hk) as [U1 U2]. constructor; try done; cbn [nodes flight].
  - by rewrite Hf.
  - intros n0 n1 Hn0. rewrite lookup_insert_ne by done. by apply R5.
  - intros s' n0 n1 Hs' Hn0. destruct (decide (s = s')) as [<-|Hne].
    + rewrite lookup_insert_eq. intros [= <-]. destruct (R6 s n0 n Hs Hn0 Hn) as (rp & cs & -> & Hr).
      exists (rp ++ [d]), (cs ++ [d']). rewrite Hd, <-app_assoc. split; [done|]. by eapply run_cmds_snoc.
    + rewrite lookup_insert_ne, Hb by congruence. by apply R6.
Qed.

(** Taking the oldest message of its channel. *)
Lemma first_in_channel q m l1 :
  existsb (same_channel q m) l1 = false → Forall (λ x, ¬ (x.1 = q ∧ to_endpoint x.2 = to_endpoint m)) l1.
Proof.
  intros H. apply Forall_forall. intros x Hx [E1 E2].
  assert (existsb (same_channel q m) l1 = true); [|congruence].
  apply existsb_exists. exists x. split; [by apply list_elem_of_In|].
  unfold same_channel. by rewrite E1, E2, !String.eqb_refl.
Qed.
Lemma broadcast_cons s x fl :
  broadcast s (x :: fl)
  = (if decide (x.1 = p ∧ to_endpoint x.2 = s ∧ to_target x.2 = "/pleaseExecute") then [to_data x.2] else [])
    ++ broadcast s fl.
Proof. cbn. by case_decide. Qed.
Lemma forwarded_cons x fl :
  forwarded (x :: fl)
  = (if decide (to_endpoint x.2 = p ∧ to_target x.2 = "/pleaseExecute") then [to_data x.2] else [])
    ++ forwarded fl.
Proof. cbn. by case_decide. Qed.
Lemma broadcast_drop s l1 x l2 :
  (x.1 ≠ p ∨ to_endpoint x.2 ≠ s ∨ to_target x.2 ≠ "/pleaseExecute") →
  broadcast s (l1 ++ l2) = broadcast s (l1 ++ x :: l2).
Proof. intros Hx. rewrite !broadcast_app, broadcast_cons, decide_False by tauto. done. Qed.

Definition given_by (l : label) : list string := match l with LClient _ d => [d] | _ => [] end.

Lemma heartbeat_frame s fl out :
  heartbeats out →
  (∀ s', broadcast s' (fl ++ (pair s <$> out)) = broadcast s' fl)
  ∧ forwarded (fl ++ (pair s <$> out)) = forwarded fl
  ∧ (Forall settled_packet fl → Forall settled_packet (fl ++ (pair s <$> out))).
Proof.
  intros Hh. split_and!.
  - intros s'. rewrite broadcast_app, (broadcast_other s' (pair s <$> out)), app_nil_r; [done|].
    apply Forall_fmap. eapply Forall_impl; [done|]. intros m Hm. cbn. right. right. by rewrite Hm.
  - rewrite forwarded_app, (forwarded_other (pair s <$> out)), app_nil_r; [done|].
    apply Forall_fmap. eapply Forall_impl; [done|]. intros m Hm. cbn. right. by rewrite Hm.
  - intros Hf. apply Forall_app. split; [done|]. apply Forall_fmap. eapply Forall_impl; [done|].
    intros m Hm. by left.
Qed.

Lemma rep_step c0 given orders log c l c' :
  p ≠ "" → p ∈ eps → NoDup eps → Rep c0 given orders log c → step NO_CONFIG l c c' → orderly l →
  ∃ orders' log', Rep c0 (given ++ given_by l) orders' log' c'.
Proof.
  intros Hp Hin Hnd HR Hst Hor. pose proof HR as [R1 R2 R3 R4 R5 R6].
  destruct Hst as [c l1 q m l2 n r n' o Hfl Hn _ Hd|c s cl d n n' o Hn Hcl _ Hd|
    c s r n n' o Hn Hd|c s n n' o Hn Hd|c l1 m l2 Hfl]; cbn [orderly given_by] in *; rewrite ?app_nil_r.
  - pose proof (R2 _ _ Hn) as Hf. rewrite Hfl in R3, R4. apply Forall_app in R3 as [R31 [R32 R33]%Forall_cons_1].
    assert (Forall settled_packet (l1 ++ l2)) as Hpk by (by apply Forall_app).
    destruct (deliver_settled r (q, m) n n' o _ Hf Hp R32 eq_refl Hd)
      as [(Ht & Hk & He & Hh)|[(Ht & Hq & Hs & Hl)|(Ht & Hq & Hs & Hrp)]]; cbn in Ht.
    + exists orders, log. destruct (heartbeat_frame (to_endpoint m) (l1 ++ l2) _ Hh) as (B1 & B2 & B3).
      eapply rep_idle; try done; [by apply B3|..].
      * intros s' _. rewrite B1, Hfl. apply broadcast_drop. right. right. cbn. by rewrite Ht.
      * rewrite B2, forwarded_app. rewrite forwarded_app, forwarded_cons, decide_False in R4; [done|].
        cbn. rewrite Ht. by intros [_ ?].
    + destruct (rep_lead c0 given orders log c n n' (l1 ++ l2) (to_data m)) with (given' := given)
        as [log' HR']; try done.
      * by rewrite <-Hs.
      * intros s' _. rewrite Hfl. apply broadcast_drop. by left.
      * rewrite R4, !forwarded_app, forwarded_cons, decide_True by done. cbn. by rewrite !Permutation_middle.
      * exists (orders ++ [to_data m]), log'. unfold with_node. by rewrite Hs.
    + exists orders, log. unfold with_node. destruct Hrp as (r1 & d1 & He1 & Hk1 & Ho1). rewrite Ho1.
      cbn [fmap list_fmap]. rewrite app_nil_r.
      eapply rep_replay; [done|done|done|by exists r1, d1| | | |done].
      * rewrite Hfl, !broadcast_app, (broadcast_other _ l1), broadcast_cons, decide_True; [done|done|].
        eapply Forall_impl; [by apply (first_in_channel q m)|]. cbn in Hq. subst q. intros x Hx.
        destruct (decide (x.1 = p)); tauto.
      * intros s' _ Hne. rewrite Hfl. apply broadcast_drop. right. left. cbn. congruence.
      * rewrite Hfl, !forwarded_app, forwarded_cons, decide_False; [done|]. cbn. by intros [? _].
  - assert (cl ≠ p) as Hclp. { intros ->. apply R1 in Hin as [? ?]. congruence. }
    destruct (client_settled cl d n n' o s (R2 _ _ Hn) Hclp Hd) as [[-> Hl]|(Hs & He & Hk & Ho)].
    + destruct (rep_lead c0 given orders log c n n' (flight c) d) with (given' := given ++ [d])
        as [log' HR']; try done; [|by exists (orders ++ [d]), log'].
      by rewrite R4, (Permutation_app_comm _ [d]).
    + exists orders, log. unfold with_node. rewrite Ho. eapply rep_idle; try done.
      * apply Forall_app. split; [done|]. constructor; [|constructor]. right. split; [done|]. by right.
      * intros s' _. rewrite broadcast_app, (broadcast_other s' (pair s <$> _)), app_nil_r; [done|].
        constructor; [by left|constructor].
      * rewrite R4, forwarded_app, app_assoc. f_equiv. unfold forwarded. cbn. by rewrite decide_True.
  - subst. pose proof (R2 _ _ Hn) as (_ & _ & Ho & _ & _). apply idle_tick in Hd as (Hk & He & Hh); [|done..].
    exists orders, log. destruct (heartbeat_frame s (flight c) _ Hh) as (B1 & B2 & B3).
    eapply rep_idle; try done; [by apply B3|by rewrite B2].
  - pose proof (R2 _ _ Hn) as (_ & _ & Ho & _ & _). apply idle_thread in Hd as (Hk & He & Hh); [|done..].
    exists orders, log. destruct (heartbeat_frame s (flight c) _ Hh) as (B1 & B2 & B3).
    eapply rep_idle; try done; [by apply B3|by rewrite B2].
  - done.
Qed.
End replication.

Section theorem.
Context {E : Type} {IX : IForConsensusExecutable E} {IXL : IForConsensusExecutableLaws E} (NO_CONFIG : bool).

Lemma commands_snoc ls l : commands (ls ++ [l]) = commands ls ++ given_by l.
Proof. unfold commands. rewrite omap_app. f_equal. by destruct l. Qed.

Lemma rep_steps eps p (c0 c : Cluster E) ls :
  settled eps p c0 → steps NO_CONFIG ls c0 c → Forall orderly ls →
  ∃ orders log, Rep eps p c0 (commands ls) orders log c.
Proof.
  intros (Hp & Hin & Hnd & Hd & Hf & Hh) Hst. induction Hst as [c|ls l c c' c'' Hst IH Hs]; intros Ho.
  - exists [], []. constructor; try done.
    + eapply Forall_impl; [done|]. intros x Hx. by left.
    + rewrite forwarded_other; [done|]. eapply Forall_impl; [done|]. intros x Hx. right. by rewrite Hx.
    + intros n0 n E1 E2. cbn. by simplify_eq.
    + intros s n0 n Hs E1 E2. exists [], []. cbn [app]. split; [|cbn; by simplify_eq].
      rewrite broadcast_other; [done|]. eapply Forall_impl; [done|]. intros x Hx. right. right. by rewrite Hx.
  - apply Forall_app in Ho as [Ho [Hol _]%Forall_cons_1]. destruct (IH Hd Hf Hh Ho) as (orders & log & HR).
    rewrite commands_snoc. by eapply rep_step.
Qed.
End theorem.

(** C23: Replication.  All nodes follow one primary and no patience ends; the
    network keeps the order between two nodes.  Then the commands that clients
    gave are those that the primary executed and those on their way to it, none
    twice; and every other node executed, in the same order, what the primary
    left of its commands, except for those that are on their way. *)
Theorem raft_replicates {E} {IX : IForConsensusExecutable E} {IXL : IForConsensusExecutableLaws E}
    (NO_CONFIG : bool) (eps : list string) (p : string) (c0 c : Cluster E) ls :
  settled eps p c0 → steps NO_CONFIG ls c0 c → Forall orderly ls →
  ∃ orders log,
    commands ls ≡ₚ orders ++ forwarded p (flight c)
    ∧ (∀ n0 n, nodes c0 !! p = Some n0 → nodes c !! p = Some n →
         run_cmds orders (exe n0) = Ret (log, exe n))
    ∧ (∀ s n0 n, s ≠ p → nodes c0 !! s = Some n0 → nodes c !! s = Some n →
         ∃ replayed cs, log = replayed ++ broadcast p s (flight c)
           ∧ run_cmds replayed (exe n0) = Ret (cs, exe n)).
Proof.
  intros Hc Hst Ho. destruct (rep_steps NO_CONFIG eps p c0 c ls Hc Hst Ho) as (orders & log & HR).
  exists orders, log. split_and!; apply HR.
Qed.

(** *** Example: three nodes elect A, then two commands are given *)
#[global] Instance Handler_eq_dec : EqDecision Handler.
Proof. solve_decision. Defined.
#[global] Instance follows_dec eps p s (n : Raft Executable) : Decision (follows eps p s n).
Proof. unfold follows. apply _. Defined.
#[global] Instance tick_eq_dec : EqDecision tick.
Proof. solve_decision. Defined.
#[global] Instance orderly_dec l : Decision (orderly l).
Proof. destruct l; cbn; apply _. Defined.

Definition settled_b (eps : list string) (p : string) (c : Cluster Executable) : bool :=
  bool_decide (p ≠ "" ∧ p ∈ eps ∧ NoDup eps ∧ dom (nodes c) = list_to_set (C:=gset string) eps
    ∧ map_Forall (λ s n, follows eps p s n) (nodes c)
    ∧ Forall (λ x, to_target x.2 = "/heartbeat") (flight c)).
Lemma settled_b_spec eps p c : settled_b eps p c = true → settled eps p c.
Proof.
  unfold settled_b. rewrite bool_decide_eq_true. intros (H1 & H2 & H3 & H4 & H5 & H6).
  split_and!; try done. intros s. rewrite <-elem_of_dom, H4, elem_of_list_to_set. done.
Qed.

Definition elect_A : list action := ticks "A" 6 ++ [Pick 0; Pick 1; Turn "A"; Pick 0; Pick 4; Pick 0; Pick 0].
Definition two_commands : list action := [Give "B" "x"; Give "A" "y"] ++ repeat (Pick 0) 7.
Lemma replication_run :
  ∃ c0 ls c, settled three "A" c0 ∧ steps false ls c0 c ∧ Forall orderly ls
    ∧ commands ls = ["x"; "y"] ∧ flight c = []
    ∧ (∃ n0 n, nodes c0 !! "A" = Some n0 ∧ nodes c !! "A" = Some n ∧ exe_log (exe n0) = [])
    ∧ (∃ n0 n, nodes c0 !! "C" = Some n0 ∧ nodes c !! "C" = Some n ∧ exe_log (exe n0) = []
         ∧ exe_log (exe n) = ["y"; "x"]).
Proof.
  pose (ok := match run false elect_A (cluster three mocks) with
              | Some (_, c0) =>
                  match run false two_commands c0 with
                  | Some (ls, c) =>
                      settled_b three "A" c0 && bool_decide (Forall orderly ls)
                      && bool_decide (commands ls = ["x"; "y"]) && bool_decide (flight c = [])
                      && node_is c0 "A" (λ n, bool_decide (exe_log (exe n) = [])) && node_is c "A" (λ _, true)
                      && node_is c0 "C" (λ n, bool_decide (exe_log (exe n) = []))
                      && node_is c "C" (λ n, bool_decide (exe_log (exe n) = ["y"; "x"]))
                  | None => false
                  end
              | None => false
              end).
  assert (ok = true) as Hok by (vm_compute; reflexivity). unfold ok in Hok. clear ok.
  destruct (run false elect_A _) as [[ls0 c0]|]; [|done].
  destruct (run false two_commands c0) as [[ls c]|] eqn:Er; [|done].
  rewrite !andb_true_iff in Hok. destruct Hok as (((((((K1 & K2) & K3) & K4) & K5) & K6) & K7) & K8).
  apply bool_decide_eq_true in K2, K3, K4.
  exists c0, ls, c. split_and!; [by apply settled_b_spec|by eapply raft_run_steps|done..| |].
  - apply node_is_spec in K5 as (n0 & ? & Hl%bool_decide_eq_true). apply node_is_spec in K6 as (n & ? & _). by exists n0, n.
  - apply node_is_spec in K7 as (n0 & ? & Hl0%bool_decide_eq_true).
    apply node_is_spec in K8 as (n & ? & Hl%bool_decide_eq_true). by exists n0, n.
Qed.
Lemma raft_replicates_witness :
  ∃ (c0 c : Cluster Executable) ls orders log,
    settled three "A" c0 ∧ steps false ls c0 c ∧ commands ls = ["x"; "y"] ∧ ["x"; "y"] ≡ₚ orders
    ∧ ∃ n0 n, nodes c0 !! "A" = Some n0 ∧ nodes c !! "A" = Some n
        ∧ run_cmds orders (exe n0) = Ret (log, exe n).
Proof.
  destruct replication_run as (c0 & ls & c & Hc & Hst & Ho & Hcmds & Hfl & (n0 & n & Hn0 & Hn & _) & _).
  destruct (raft_replicates false three "A" c0 c ls Hc Hst Ho) as (orders & log & Hg & Hp & _).
  exists c0, c, ls, orders, log. split; [exact Hc|]. split; [exact Hst|]. split; [exact Hcmds|].
  rewrite Hcmds, Hfl in Hg. cbn in Hg. rewrite app_nil_r in Hg. split; [exact Hg|].
  exists n0, n. split; [exact Hn0|]. split; [exact Hn|]. exact (Hp n0 n Hn0 Hn).
Defined.
