(* ===== verification/ListenToOne.v ===== *)
(** * Listen-to-one consensus

    include/cnsss/pure-listenToOne.hpp: the ticket of a newcomer, the node
    [ListenToOneConsensus], and the in-process network of the same file, whose
    [send] runs the handler of the receiver and returns its answer.  All nodes
    are one state: a node that waits for an answer is changed by the calls that
    reach it meanwhile.  The keys of the network are "endpoint-target", so no
    endpoint contains a dash. *)
From Stdlib Require Import ZArith Strings.String Strings.Ascii Lia.
From stdpp Require Import base tactics strings gmap option list.
From S2P Require Import Prelude Text Codec CoreJson Consensus.

Local Open Scope Z_scope.

(** ** The ticket *)
Record YouAreInTicket := mkYouAreInTicket { t_msg : string; t_command_history : list string }.

Definition YouAreInTicket_toJson (c : YouAreInTicket) : json :=
  JObject [("msg", JString (t_msg c)); ("command_history", JArray (JString <$> t_command_history c))].
Definition YouAreInTicket_fromJson (v : json) : outcome (option YouAreInTicket) :=
  catch_all (
    m ← json_at v "msg" ≫= as_string;
    h ← json_at v "command_history" ≫= value_to_vector as_string;
    Ret (Some (mkYouAreInTicket m h))) (λ _, Ret None).

(** pure-listenToOne.proto: both fields are [bytes]. *)
Record PbYouAreInTicket := mkPbYouAreInTicket { pt_msg : string; pt_command_history : list string }.
#[global] Instance PbYouAreInTicket_msg : PbMessage PbYouAreInTicket := λ _, True.
Definition YouAreInTicket_toPb (t : YouAreInTicket) : PbYouAreInTicket :=
  mkPbYouAreInTicket (t_msg t) (t_command_history t).
Definition YouAreInTicket_fromPb (pb : PbYouAreInTicket) : outcome YouAreInTicket :=
  Ret (mkYouAreInTicket (pt_msg pb) (pt_command_history pb)).

Definition S_CYAN : string := String (ascii_of_nat 27) "[36m".
Definition S_NOR : string := String (ascii_of_nat 27) "[0m".
(** [boost::algorithm::join]. *)
Fixpoint join (l : list string) (sep : string) : string :=
  match l with [] => "" | [x] => x | x :: l => x +:+ sep +:+ join l sep end.

(** ** The nodes *)
Inductive Handler := H_add_new_node | H_execute_for_primary | H_execute_for_sub.

Section nodes.
Context {E : Type}.

Record Node := mkNode {
  exe : E;
  primary_is_me : bool;
  primary : string;
  remember : bool;
  known_subs : list string;
  command_history : list string;
  handlers : list (string * Handler)      (* of net *)
}.
Definition set_exe (v : E) (n : Node) : Node :=
  mkNode v (primary_is_me n) (primary n) (remember n) (known_subs n) (command_history n) (handlers n).
Definition set_known_subs (v : list string) (n : Node) : Node :=
  mkNode (exe n) (primary_is_me n) (primary n) (remember n) v (command_history n) (handlers n).
Definition set_command_history (v : list string) (n : Node) : Node :=
  mkNode (exe n) (primary_is_me n) (primary n) (remember n) (known_subs n) v (handlers n).
Definition set_handlers (v : list (string * Handler)) (n : Node) : Node :=
  mkNode (exe n) (primary_is_me n) (primary n) (remember n) (known_subs n) (command_history n) v.

(** The objects that exist, by the endpoint they listen at. *)
Abbreviation World := (gmap string Node).
Context `{IForConsensusExecutable E} {codec : PbCodec PbYouAreInTicket}.

Definition YouAreInTicket_toString : YouAreInTicket → string := toPbString YouAreInTicket_toPb.
Definition YouAreInTicket_fromString : string → outcome (option YouAreInTicket) := fromPbString YouAreInTicket_fromPb.

(** A member of the object at [self]. *)
Definition this {A} (self : string) (f : Node → A) : stM World A := λ w,
  match w !! self with Some n => (w, Ret (f n)) | None => (w, UB "object destroyed") end.
Definition update (self : string) (f : Node → Node) : stM World unit := modify (alter f self).
Definition net_listen (self target : string) (h : Handler) : stM World unit :=
  update self (λ n, set_handlers ((target, h) :: handlers n) n).
Definition find_handler (target : string) (l : list (string * Handler)) : option Handler :=
  snd <$> List.find (λ '(t, _), String.eqb t target) l.

(** [exe->execute(data)]: the command as the executor leaves it. *)
Definition execute (self data : string) : stM World string := λ w,
  match w !! self with
  | None => (w, UB "object destroyed")
  | Some n =>
      match cnsss_execute data (exe n) with
      | Ret (_, data, e) => (<[self := set_exe e n]> w, Ret data)
      | Throw x => (w, Throw x)
      | UB y => (w, UB y)
      end
  end.

Definition start_listening_as_primary (self : string) : stM World unit :=
  net_listen self "/pleaseAddMe" H_add_new_node ≫= λ _,
  net_listen self "/pleaseExecuteThis" H_execute_for_primary.
Definition start_listening_as_sub (self : string) : stM World unit :=
  net_listen self "/pleaseExecuteThis" H_execute_for_sub.

Definition handle_add_new_node (self endpoint data : string) : stM World (option string) :=
  update self (λ n, set_known_subs (known_subs n ++ [endpoint]) n) ≫= λ _,
  h ← this self command_history;
  let msg := "Dear " +:+ endpoint +:+ ", you're in. " +:+ self in
  mret (Some (YouAreInTicket_toString (mkYouAreInTicket msg h))).

Section send.
(** [net->send]. *)
Context (send : string → string → string → string → stM World (option string)).

(** The loop over [known_subs], by reference.  [l.erase(it)] invalidates [it],
    which is used afterwards; so does a [push_back] during a call. *)
Fixpoint send_to_subs (self data : string) (l : list string) : stM World unit :=
  match l with
  | [] => mret tt
  | sub :: l' =>
      before ← this self known_subs;
      r ← send self sub "/pleaseExecuteThis" data;
      after ← this self known_subs;
      if negb (bool_decide (after = before)) then lift (UB "iterator used after push_back")
      else
        match r with
        | None => lift (UB "iterator used after erase")
        | Some _ => send_to_subs self data l'
        end
  end.

Definition handle_execute_for_primary (self endpoint data : string) : stM World (option string) :=
  data ← execute self data;
  rm ← this self remember;
  whenM rm (update self (λ n, set_command_history (command_history n ++ [data]) n)) ≫= λ _,
  l ← this self known_subs;
  send_to_subs self data l ≫= λ _,
  l ← this self known_subs;
  mret (Some ("Dear Client,your request has been carried out by our group." +:+
              "	Members: " +:+ join l "," +:+ ";" +:+ "	Sincerely;" +:+ "	" +:+ self +:+ ",The primary;")).

Definition handle_execute_for_sub (self endpoint data : string) : stM World (option string) :=
  p ← this self primary;
  if String.eqb endpoint p then
    data ← execute self data;
    mret (Some ("Dear boss " +:+ p +:+ ";" +:+ "	Mission[<--binary data of size "
                +:+ to_string (Z.of_nat (String.length data)) +:+ ">] is accomplished;" +:+ "	Regards	" +:+ self))
  else
    r ← send self p "/pleaseExecuteThis" data;
    match r with
    | None => lift (Throw (runtime_error "Failed to forward msg to primary"))
    | Some _ => mret r
    end.

Fixpoint execute_all (self : string) (cmds : list string) : stM World unit :=
  match cmds with
  | [] => mret tt
  | cmd :: cmds => execute self cmd ≫= λ _, execute_all self cmds
  end.
Definition ask_primary_for_entry (self : string) : stM World unit :=
  p ← this self primary;
  let msg := "Hi primary " +:+ S_CYAN +:+ p +:+ ";" +:+ S_NOR +:+ "	please add me in the group;	Regards " +:+ self in
  r ← send self p "/pleaseAddMe" msg;
  match r with
  | None => lift (Throw (runtime_error "Failed to join the group"))
  | Some s =>
      t ← lift (YouAreInTicket_fromString s);
      match t with
      | None => lift (Throw (runtime_error "Failed to parse the ticket from primary"))
      | Some t => execute_all self (t_command_history t)
      end
  end.

Definition ctor_body (self : string) : stM World unit :=
  b ← this self primary_is_me;
  if (b : bool) then start_listening_as_primary self
  else ask_primary_for_entry self ≫= λ _, start_listening_as_sub self.

Definition run_handler (h : Handler) (self endpoint data : string) : stM World (option string) :=
  match h with
  | H_add_new_node => handle_add_new_node self endpoint data
  | H_execute_for_primary => handle_execute_for_primary self endpoint data
  | H_execute_for_sub => handle_execute_for_sub self endpoint data
  end.
End send.

(** [EndpointNetworkNode::send]: the handler of [endpoint-target] runs, if there
    is one.  [depth] bounds the nesting of calls. *)
Fixpoint send (depth : nat) (self endpoint target data : string) : stM World (option string) :=
  match depth with
  | O => lift (UB "stack overflow")
  | S depth => λ w,
      match w !! endpoint ≫= λ n, find_handler target (handlers n) with
      | None => (w, Ret None)
      | Some h => noexceptM (run_handler (send depth) h endpoint self data) w
      end
  end.

(** [create]: an object whose constructor throws does not exist. *)
Definition create (depth : nat) (self : string) (e : E) (nodeToConnect : string) (remember_cmds : bool)
    : stM World unit := λ w,
  let w0 := <[self := mkNode e (String.eqb nodeToConnect "") nodeToConnect remember_cmds [] [] []]> w in
  match ctor_body (send depth) self w0 with
  | (w1, Throw x) => (delete self w1, Throw x)
  | r => r
  end.
Definition is_primary (self : string) : stM World bool := this self primary_is_me.
(** [ICnsssPrimaryBased::handle_execute], which is [noexcept]. *)
Definition handle_execute (depth : nat) (self endpoint data : string) : stM World (option string) :=
  noexceptM (
    b ← is_primary self;
    if (b : bool) then handle_execute_for_primary (send depth) self endpoint data
    else handle_execute_for_sub (send depth) self endpoint data).
(** [EndpointNetworkNode::clear]. *)
Definition net_clear (self : string) : stM World unit := update self (set_handlers []).
End nodes.
Arguments Node : clear implicits.

(** ** The group *)
Ltac unfold_lst :=
  unfold whenM, net_listen, update, mbind, stM_bind, mret, stM_ret, gets, modify, lift.

Section group.
Context {E : Type} {IX : IForConsensusExecutable E} {IXL : IForConsensusExecutableLaws E}.
Context {codec : PbCodec PbYouAreInTicket}.
Implicit Types n : Node E.
Implicit Types w : gmap string (Node E).

Definition sub_handlers : list (string * Handler) := [("/pleaseExecuteThis", H_execute_for_sub)].
Definition primary_handlers : list (string * Handler) :=
  [("/pleaseExecuteThis", H_execute_for_primary); ("/pleaseAddMe", H_add_new_node)].

(** A node that listens to [p]. *)
Definition is_sub (p : string) n : Prop :=
  primary_is_me n = false ∧ primary n = p ∧ handlers n = sub_handlers.

Lemma this_eq {A} self (f : Node E → A) w n : w !! self = Some n → this self f w = (w, Ret (f n)).
Proof. intros Hn. unfold this. by rewrite Hn. Qed.
Lemma execute_eq self d w n :
  w !! self = Some n → ∃ r d' e, cnsss_execute d (exe n) = Ret (r, d', e)
    ∧ execute self d w = (<[self := set_exe e n]> w, Ret d').
Proof.
  intros Hn. destruct (cnsss_execute_total d (exe n)) as (r & d' & e & He). exists r, d', e.
  split; [done|]. unfold execute. by rewrite Hn, He.
Qed.

Lemma send_eq k self endpoint target d w n h :
  w !! endpoint = Some n → find_handler target (handlers n) = Some h →
  send (S k) self endpoint target d w = noexceptM (run_handler (send k) h endpoint self d) w.
Proof. intros Hn Hh. cbn [send]. rewrite Hn. unfold mbind, option_bind. by rewrite Hh. Qed.

(** The primary orders a sub. *)
Lemma send_order k p s d w n :
  w !! s = Some n → is_sub p n →
  ∃ r d' e a, cnsss_execute d (exe n) = Ret (r, d', e)
    ∧ send (S k) p s "/pleaseExecuteThis" d w = (<[s := set_exe e n]> w, Ret (Some a)).
Proof.
  intros Hn (_ & Hp & Hh). destruct (execute_eq s d w n Hn) as (r & d' & e & He & Hx).
  eexists r, d', e, _. split; [done|]. cbn [send]. rewrite Hn. cbn. rewrite Hh. cbn.
  unfold noexceptM, handle_execute_for_sub, this. unfold_lst. rewrite Hn, Hp, String.eqb_refl, Hx. done.
Qed.
Lemma send_to_subs_eq k p d l w np :
  NoDup l → p ∉ l → w !! p = Some np → (∀ s, s ∈ l → ∃ n, w !! s = Some n ∧ is_sub p n) →
  ∃ w', send_to_subs (send (S k)) p d l w = (w', Ret tt)
    ∧ (∀ x, x ∉ l → w' !! x = w !! x)
    ∧ (∀ s n, s ∈ l → w !! s = Some n → ∃ r d' e, cnsss_execute d (exe n) = Ret (r, d', e)
         ∧ w' !! s = Some (set_exe e n)).
Proof.
  intros Hl. revert w. induction Hl as [|s l Hs Hl IH]; intros w Hp Hnp Hsubs.
  { exists w. split_and!; [done|done|]. by intros s n ?%elem_of_nil. }
  apply not_elem_of_cons in Hp as [Hps Hpl].
  destruct (Hsubs s ltac:(left)) as (n & Hn & Hsub).
  destruct (send_order k p s d w n Hn Hsub) as (r & d' & e & a & He & Hse).
  destruct (IH (<[s := set_exe e n]> w)) as (w' & Hrun & Hother & Hex); [done|by rewrite lookup_insert_ne|..].
  { intros s' Hs'. rewrite lookup_insert_ne by (intros ->; done). apply Hsubs. by right. }
  exists w'. split_and!.
  - cbn [send_to_subs]. erewrite bind_eq by (by apply this_eq). erewrite bind_eq by done.
    erewrite bind_eq by (apply this_eq; by rewrite lookup_insert_ne). by rewrite bool_decide_true.
  - intros x [Hx1 Hx2]%not_elem_of_cons. rewrite Hother, lookup_insert_ne by done. done.
  - intros s' n' [->|Hs']%elem_of_cons Hn'.
    + simplify_eq. exists r, d', e. split; [done|]. by rewrite Hother, lookup_insert_eq.
    + apply Hex; [done|]. rewrite lookup_insert_ne; [done|]. intros ->. done.
Qed.

Lemma primary_executes k p q d w np :
  w !! p = Some np → remember np = true → NoDup (known_subs np) → p ∉ known_subs np →
  (∀ s, s ∈ known_subs np → ∃ n, w !! s = Some n ∧ is_sub p n) →
  ∃ w' a r d' e, handle_execute_for_primary (send (S k)) p q d w = (w', Ret (Some a))
    ∧ cnsss_execute d (exe np) = Ret (r, d', e)
    ∧ w' !! p = Some (set_command_history (command_history np ++ [d']) (set_exe e np))
    ∧ (∀ s n, s ∈ known_subs np → w !! s = Some n → ∃ r2 d2 e2, cnsss_execute d' (exe n) = Ret (r2, d2, e2)
         ∧ w' !! s = Some (set_exe e2 n))
    ∧ (∀ x, x ≠ p → x ∉ known_subs np → w' !! x = w !! x).
Proof.
  intros Hnp Hrm Hnd Hp Hsubs. destruct (execute_eq p d w np Hnp) as (r & d' & e & He & Hx).
  set (np1 := set_command_history (command_history np ++ [d']) (set_exe e np)).
  assert (alter (λ n, set_command_history (command_history n ++ [d']) n) p (<[p := set_exe e np]> w)
          = <[p := np1]> w) as Ha.
  { rewrite <-(insert_insert_eq w p (set_exe e np) np1). by rewrite alter_insert_eq, insert_insert_eq. }
  destruct (send_to_subs_eq k p d' (known_subs np) (<[p := np1]> w) np1) as (w' & Hrun & Hother & Hex);
    [done|done|by rewrite lookup_insert_eq|..].
  { intros s Hs. rewrite lookup_insert_ne by (intros ->; done). by apply Hsubs. }
  assert (w' !! p = Some np1) as Hp1 by (by rewrite Hother, lookup_insert_eq).
  eexists w', _, r, d', e. split_and!; [|done|done|..].
  - unfold handle_execute_for_primary. erewrite bind_eq by done.
    erewrite bind_eq by (apply this_eq; by rewrite lookup_insert_eq). cbn [remember set_exe]. rewrite Hrm.
    erewrite bind_eq by (unfold whenM, update, modify; rewrite Ha; done).
    erewrite bind_eq by (apply this_eq; by rewrite lookup_insert_eq).
    erewrite bind_eq by exact Hrun. erewrite bind_eq by (by apply this_eq). done.
  - intros s n Hs Hn. apply Hex; [done|]. rewrite lookup_insert_ne; [done|]. intros ->. done.
  - intros x Hx1 Hx2. rewrite Hother, lookup_insert_ne by done. done.
Qed.

(** *** The invariant *)
Context (p : string) (e0 : string → E).
Record LInv (subs orders log : list string) w : Prop := {
  l_primary : ∃ np, w !! p = Some np ∧ primary_is_me np = true ∧ remember np = true
    ∧ known_subs np = subs ∧ command_history np = log ∧ handlers np = primary_handlers
    ∧ run_cmds orders (e0 p) = Ret (log, exe np);
  l_nodup : NoDup subs;
  l_fresh : p ∉ subs;
  l_dom : ∀ s, is_Some (w !! s) ↔ s = p ∨ s ∈ subs;
  l_subs : ∀ s, s ∈ subs → ∃ n cs, w !! s = Some n ∧ is_sub p n ∧ run_cmds log (e0 s) = Ret (cs, exe n)
}.

Lemma LInv_primary k q d subs orders log w :
  LInv subs orders log w →
  ∃ w' a log', handle_execute_for_primary (send (S k)) p q d w = (w', Ret (Some a))
    ∧ LInv subs (orders ++ [d]) log' w'.
Proof.
  intros [(np & Hnp & Hme & Hrm & Hks & Hh & Hhd & Hrun) Hnd Hf Hdom Hsubs].
  destruct (primary_executes k p q d w np Hnp Hrm) as (w' & a & r & d' & e & Hx & He & Hp' & Hs' & Ho').
  { by rewrite Hks. } { by rewrite Hks. }
  { intros s Hs. rewrite Hks in Hs. destruct (Hsubs s Hs) as (n & cs & ? & ? & ?). eauto. }
  rewrite Hks in Hs', Ho'. exists w', a, (log ++ [d']). split; [done|]. constructor; try done.
  - eexists. split; [exact Hp'|]. cbn. rewrite Hh. split_and!; try done. by eapply run_cmds_snoc.
  - intros s. destruct (decide (s = p)) as [->|Hsp]; [rewrite Hp'; naive_solver|].
    destruct (decide (s ∈ subs)) as [Hin|Hin]; [|by rewrite Ho', Hdom].
    destruct (Hsubs s Hin) as (n & _ & Hn & _). destruct (Hs' s n Hin Hn) as (? & ? & ? & _ & ->). naive_solver.
  - intros s Hin. destruct (Hsubs s Hin) as (n & cs & Hn & Hsub & Hr).
    destruct (Hs' s n Hin Hn) as (r2 & d2 & e2 & He2 & ->). eexists _, (cs ++ [d2]).
    split_and!; [done|done|]. by eapply run_cmds_snoc.
Qed.

Lemma LInv_command k s q d subs orders log w :
  LInv subs orders log w → s = p ∨ s ∈ subs → q ≠ p →
  ∃ w' a log', handle_execute (S (S k)) s q d w = (w', Ret (Some a)) ∧ LInv subs (orders ++ [d]) log' w'.
Proof.
  intros HI Hs Hq. pose proof HI as [(np & Hnp & Hme & Hrm & Hks & Hh & Hhd & Hrun) Hnd Hf Hdom Hsubs].
  destruct Hs as [->|Hs].
  - destruct (LInv_primary (S k) q d _ _ _ _ HI) as (w' & a & log' & Hx & HI'). exists w', a, log'.
    split; [|done]. unfold handle_execute, noexceptM, is_primary.
    erewrite bind_eq by (by apply this_eq). by rewrite Hme, Hx.
  - destruct (Hsubs s Hs) as (n & cs & Hn & (Hm & Hp & Hh') & _).
    destruct (LInv_primary k s d _ _ _ _ HI) as (w' & a & log' & Hx & HI'). exists w', a, log'.
    split; [|done]. unfold handle_execute, noexceptM, is_primary.
    erewrite bind_eq by (by apply this_eq). rewrite Hm. unfold handle_execute_for_sub.
    erewrite bind_eq by (by apply this_eq). rewrite Hp, (proj2 (String.eqb_neq q p)) by done.
    rewrite (bind_eq _ _ w w' (Some a)); [done|].
    erewrite send_eq by (done || by rewrite Hhd). unfold noexceptM. cbn [run_handler snd]. by rewrite Hx.
Qed.

Lemma execute_all_eq s cmds w n :
  w !! s = Some n → ∃ cs e, run_cmds cmds (exe n) = Ret (cs, e)
    ∧ execute_all s cmds w = (<[s := set_exe e n]> w, Ret tt).
Proof.
  revert w n. induction cmds as [|d cmds IH]; intros w n Hn.
  - exists [], (exe n). split; [done|]. cbn. rewrite insert_id; [done|]. rewrite Hn. by destruct n.
  - destruct (execute_eq s d w n Hn) as (r & d' & e & He & Hx).
    destruct (IH (<[s := set_exe e n]> w) (set_exe e n)) as (cs & e' & Hr & Hall); [by rewrite lookup_insert_eq|].
    exists (d' :: cs), e'. split.
    + cbn [run_cmds]. rewrite He. cbn. cbn in Hr. by rewrite Hr.
    + cbn [execute_all]. erewrite bind_eq by exact Hx. rewrite Hall, insert_insert_eq. done.
Qed.

Lemma LInv_join k s b subs orders log w :
  LInv subs orders log w → s ≠ p → s ∉ subs → p ≠ "" →
  ∃ w', create (S k) s (e0 s) p b w = (w', Ret tt) ∧ LInv (subs ++ [s]) orders log w'.
Proof.
  intros [(np & Hnp & Hme & Hrm & Hks & Hh & Hhd & Hrun) Hnd Hf Hdom Hsubs] Hsp Hss Hp.
  set (n0 := mkNode (e0 s) false p b [] [] []).
  set (np1 := set_known_subs (subs ++ [s]) np).
  set (w1 := <[p := np1]> (<[s := n0]> w)).
  assert (w1 !! s = Some n0) as Hs1 by (unfold w1; by rewrite lookup_insert_ne, lookup_insert_eq).
  destruct (execute_all_eq s log w1 n0 Hs1) as (cs & e & Hr & Hall).
  set (n1 := set_handlers sub_handlers (set_exe e n0)).
  exists (<[s := n1]> w1). split.
  - unfold create. rewrite (proj2 (String.eqb_neq p "")) by done. fold n0. unfold ctor_body.
    erewrite bind_eq by (apply this_eq; by rewrite lookup_insert_eq). cbn [primary_is_me n0].
    erewrite bind_eq.
    2: { unfold ask_primary_for_entry. erewrite bind_eq by (apply this_eq; by rewrite lookup_insert_eq).
         cbn [primary n0]. erewrite bind_eq.
         2: { erewrite send_eq; [|by rewrite lookup_insert_ne, Hnp|by rewrite Hhd].
              unfold noexceptM. cbn [run_handler snd]. unfold handle_add_new_node. erewrite bind_eq by done.
              erewrite bind_eq; [done|]. apply this_eq. rewrite lookup_alter_eq, lookup_insert_ne, Hnp by done. done. }
         unfold lift, YouAreInTicket_fromString, YouAreInTicket_toString. cbn [command_history set_known_subs].
         erewrite bind_eq by (rewrite fromPbString_toPbString; done). cbn [t_command_history]. rewrite Hh.
         replace (alter _ p (<[s := n0]> w)) with w1; [exact Hall|].
         unfold w1. apply map_eq. intros x. destruct (decide (x = p)) as [->|Hx].
         - rewrite lookup_insert_eq, lookup_alter_eq, lookup_insert_ne, Hnp by done. cbn. by rewrite Hks.
         - by rewrite lookup_insert_ne, lookup_alter_ne by done. }
    unfold start_listening_as_sub, net_listen, update, modify. by rewrite alter_insert_eq.
  - constructor.
    + exists np1. unfold w1. rewrite lookup_insert_ne, lookup_insert_eq by done. by split_and!.
    + apply NoDup_app. split_and!; [done|set_solver|apply NoDup_singleton].
    + set_solver.
    + intros x. unfold w1. destruct (decide (x = s)) as [->|Hx1]; [rewrite lookup_insert_eq; set_solver|].
      destruct (decide (x = p)) as [->|Hx2]; [rewrite lookup_insert_ne, lookup_insert_eq by done; naive_solver|].
      rewrite !lookup_insert_ne, Hdom by done. set_solver.
    + intros x [Hx | ->%list_elem_of_singleton]%elem_of_app.
      * destruct (Hsubs x Hx) as (n & cs' & Hn & ? & ?). exists n, cs'. split; [|done]. unfold w1.
        rewrite !lookup_insert_ne; [done|..]; intros ->; done.
      * exists n1, cs. rewrite lookup_insert_eq. by split_and!.
Qed.
End group.

(** ** Runs: nodes join, clients give commands to any node *)
Inductive op := Join (s : string) (remember_cmds : bool) | Command (s client d : string).
Definition commands (ops : list op) : list string :=
  omap (λ o, match o with Command _ _ d => Some d | Join _ _ => None end) ops.
Definition joined (ops : list op) : list string :=
  omap (λ o, match o with Join s _ => Some s | Command _ _ _ => None end) ops.

Section runs.
Context {E : Type} {IX : IForConsensusExecutable E} {IXL : IForConsensusExecutableLaws E}.
Context {codec : PbCodec PbYouAreInTicket}.
Context (p : string) (e0 : string → E).
Abbreviation World := (gmap string (Node E)).

Definition run_op (depth : nat) (o : op) : stM World unit :=
  match o with
  | Join s b => create depth s (e0 s) p b
  | Command s client d => handle_execute depth s client d ≫= λ _, mret tt
  end.
Definition run_ops (depth : nat) (ops : list op) : stM World unit := forM_ ops (run_op depth).

(** Nodes join once; commands go to members and do not come from the primary. *)
Fixpoint valid_ops (members : list string) (ops : list op) : Prop :=
  match ops with
  | [] => True
  | Join s _ :: ops => s ≠ p ∧ (s ∉ members) ∧ valid_ops (members ++ [s]) ops
  | Command s client _ :: ops => (s = p ∨ s ∈ members) ∧ client ≠ p ∧ valid_ops members ops
  end.

Lemma LInv_run k ops subs orders log w :
  p ≠ "" → LInv p e0 subs orders log w → valid_ops subs ops →
  ∃ w' log', run_ops (S (S k)) ops w = (w', Ret tt)
    ∧ LInv p e0 (subs ++ joined ops) (orders ++ commands ops) log' w'.
Proof.
  intros Hp. revert subs orders log w. induction ops as [|o ops IH]; intros subs orders log w HI Hv.
  { exists w, log. unfold joined, commands. cbn. by rewrite !app_nil_r. }
  destruct o as [s b|s q d]; cbn in Hv.
  - destruct Hv as (Hs & Hm & Hv).
    destruct (LInv_join p e0 (S k) s b _ _ _ _ HI Hs Hm Hp) as (w1 & Hc & HI1).
    destruct (IH _ _ _ _ HI1 Hv) as (w' & log' & Hr & HI'). exists w', log'. split.
    + unfold run_ops. cbn [forM_ run_op]. by erewrite bind_eq by exact Hc.
    + rewrite <-app_assoc in HI'. exact HI'.
  - destruct Hv as (Hs & Hq & Hv).
    destruct (LInv_command p e0 k s q d _ _ _ _ HI Hs Hq) as (w1 & a & log1 & Hc & HI1).
    destruct (IH _ _ _ _ HI1 Hv) as (w' & log' & Hr & HI'). exists w', log'. split.
    + unfold run_ops. cbn [forM_ run_op]. erewrite bind_eq; [exact Hr|]. by erewrite bind_eq by exact Hc.
    + rewrite <-app_assoc in HI'. exact HI'.
Qed.

Lemma LInv_create k : ∃ w, create (S k) p (e0 p) "" true ∅ = (w, Ret tt) ∧ LInv p e0 [] [] [] w.
Proof.
  set (n0 := mkNode (e0 p) true "" true [] [] []).
  exists (<[p := set_handlers primary_handlers n0]> ∅). split.
  - unfold create. rewrite String.eqb_refl. fold n0. unfold ctor_body.
    erewrite bind_eq by (apply this_eq; by rewrite lookup_insert_eq). cbn [primary_is_me n0].
    unfold start_listening_as_primary, net_listen, update. erewrite bind_eq by done.
    unfold modify. by rewrite !alter_insert_eq.
  - constructor; [|constructor|by apply not_elem_of_nil| |by intros s ?%elem_of_nil].
    + exists (set_handlers primary_handlers n0). rewrite lookup_insert_eq. by split_and!.
    + intros s. rewrite lookup_insert_is_Some', lookup_empty. split; [intros [<-|[? ?]]; [by left|done]|].
      intros [->|?%elem_of_nil]; [by left|done].
Qed.
End runs.

(** C26: Replication.  Nodes join the primary and clients give commands to any
    member: nothing throws, calls nest at most twice, and when the last call
    returns, the primary has executed the commands in the order given, and
    every member has executed what the primary left of them, in that order,
    the commands before it joined included. *)
Theorem listenToOne_replicates {E} {IX : IForConsensusExecutable E} {IXL : IForConsensusExecutableLaws E}
    {codec : PbCodec PbYouAreInTicket} (p : string) (e0 : string → E) (depth : nat) (ops : list op) :
  p ≠ "" → (2 <= depth)%nat → valid_ops p [] ops →
  ∃ w log np, (create depth p (e0 p) "" true ≫= λ _, run_ops p e0 depth ops) ∅ = (w, Ret tt)
    ∧ w !! p = Some np ∧ command_history np = log
    ∧ run_cmds (commands ops) (e0 p) = Ret (log, exe np)
    ∧ ∀ s, s ∈ joined ops → ∃ n cs, w !! s = Some n ∧ run_cmds log (e0 s) = Ret (cs, exe n).
Proof.
  intros Hp Hd Hv. destruct depth as [|[|k]]; [lia..|].
  destruct (LInv_create p e0 (S k)) as (w0 & Hc & HI0).
  destruct (LInv_run p e0 k ops _ _ _ _ Hp HI0 Hv) as (w & log & Hr & [(np & Hnp & _ & _ & _ & Hh & _ & Hx) _ _ _ Hs]).
  exists w, log, np. split_and!; [by erewrite bind_eq by exact Hc|done..|].
  intros s Hin. destruct (Hs s Hin) as (n & cs & ? & _ & ?). eauto.
Qed.

(** ** A concrete wire format, and examples *)
Module ToyListenToOne.
Import ToyCodec.
#[global] Instance PbYouAreInTicket_eq_dec : EqDecision PbYouAreInTicket.
Proof. solve_decision. Defined.
#[global] Instance PbYouAreInTicket_countable : Countable PbYouAreInTicket.
Proof.
  apply (inj_countable' (λ m, (pt_msg m, pt_command_history m)) (λ '(a, b), mkPbYouAreInTicket a b)). by intros [].
Defined.
#[global] Instance PbYouAreInTicket_valid_dec (m : PbYouAreInTicket) : Decision (pb_valid m).
Proof. unfold pb_valid, PbYouAreInTicket_msg. apply _. Defined.
Definition toy_ticket : PbCodec PbYouAreInTicket := toy_pb.
End ToyListenToOne.

Section examples.
Import ToyListenToOne.
#[local] Existing Instance toy_ticket.
Definition mock_of (s : string) : Executable := Executable_ctor s.
Definition group (ops : list op) : gmap string (Node Executable) * outcome unit :=
  (create 2 "P" (mock_of "P") "" true ≫= λ _, run_ops "P" mock_of 2 ops) ∅.
Definition log_of (w : gmap string (Node Executable)) (s : string) : option (list string) :=
  exe_log ∘ exe <$> w !! s.

Definition history : list op :=
  [Command "P" "CLIENT" "x"; Join "A" true; Command "A" "CLIENT" "y"; Join "B" false; Command "B" "SEALER" "z"].
Lemma listenToOne_replicates_witness :
  ∃ w log np, (create 2 "P" (mock_of "P") "" true ≫= λ _, run_ops "P" mock_of 2 history) ∅ = (w, Ret tt)
    ∧ w !! "P" = Some np ∧ command_history np = log
    ∧ run_cmds ["x"; "y"; "z"] (mock_of "P") = Ret (log, exe np).
Proof.
  assert (valid_ops "P" [] history) as Hv by (repeat split; by (apply (bool_decide_unpack _); vm_compute; done)).
  destruct (listenToOne_replicates "P" mock_of 2 history ltac:(done) ltac:(lia) Hv)
    as (w & log & np & H1 & H2 & H3 & H4 & _).
  exists w, log, np. split; [exact H1|]. split; [exact H2|]. split; [exact H3|exact H4].
Defined.

(** A node that joins again is known twice and executes every later command twice. *)
Lemma rejoined_executes_twice :
  ∃ w, group [Join "A" true; Join "A" true; Command "P" "CLIENT" "x"] = (w, Ret tt)
    ∧ log_of w "P" = Some ["x"] ∧ log_of w "A" = Some ["x"; "x"].
Proof. eexists. split; [vm_compute; reflexivity|]. by vm_compute. Qed.
(** A member that does not answer: the primary uses an erased iterator. *)
Lemma member_down_undefined :
  ((create 2 "P" (mock_of "P") "" true ≫= λ _, create 2 "A" (mock_of "A") "P" true ≫= λ _, net_clear "A" ≫= λ _,
   handle_execute 2 "P" "CLIENT" "x") ∅).2 = UB "iterator used after erase".
Proof. vm_compute. reflexivity. Qed.
(** A primary that does not answer: a command given to a member ends its process. *)
Lemma primary_down_terminates :
  ((create 2 "P" (mock_of "P") "" true ≫= λ _, create 2 "A" (mock_of "A") "P" true ≫= λ _, net_clear "P" ≫= λ _,
   handle_execute 2 "A" "CLIENT" "x") ∅).2 = UB "std::terminate".
Proof. vm_compute. reflexivity. Qed.
End examples.
