(* ===== verification/Evmc.v ===== *)
(** * The interface between a virtual machine and its host

    pkgs/evmweak/evmc-10.1.0: messages, results, and what a machine may ask of
    its host.  A machine is modelled as the tree of its requests ([VmProg]): at
    each node a request and the continuation for every answer, at each leaf a
    value, or a point where its behaviour is not defined.

    [prog_ok] reads a tree as a program with a contract: the machine makes only
    allowed requests as long as the answers keep their promises. *)
From Stdlib Require Import ZArith Strings.Byte Strings.String Strings.Ascii Lia.
From stdpp Require Import base tactics strings numbers list.
From S2P Require Import Prelude.

Local Open Scope Z_scope.

(** ** evmc.h *)
Inductive evmc_call_kind := EVMC_CALL | EVMC_DELEGATECALL | EVMC_CALLCODE | EVMC_CREATE | EVMC_CREATE2.
#[global] Instance evmc_call_kind_eq_dec : EqDecision evmc_call_kind.
Proof. solve_decision. Defined.
(** [kind >= EVMC_CREATE]. *)
Definition is_create (k : evmc_call_kind) : bool :=
  match k with EVMC_CREATE | EVMC_CREATE2 => true | _ => false end.

Record evmc_message := mkMsg {
  kind : evmc_call_kind;
  flags : Z;
  depth : Z;
  gas : Z;
  recipient : bytes;
  sender : bytes;
  input_data : bytes;
  msg_value : bytes;
  create2_salt : bytes;
  code_address : bytes
}.
Definition EVMC_STATIC : Z := 1.

Definition EVMC_SUCCESS : Z := 0.
Definition EVMC_FAILURE : Z := 1.
Definition EVMC_REVERT : Z := 2.
Definition EVMC_OUT_OF_GAS : Z := 3.
Definition EVMC_INVALID_INSTRUCTION : Z := 4.
Definition EVMC_UNDEFINED_INSTRUCTION : Z := 5.
Definition EVMC_STACK_OVERFLOW : Z := 6.
Definition EVMC_STACK_UNDERFLOW : Z := 7.
Definition EVMC_BAD_JUMP_DESTINATION : Z := 8.
Definition EVMC_INVALID_MEMORY_ACCESS : Z := 9.
Definition EVMC_STATIC_MODE_VIOLATION : Z := 11.

Record Result := mkResult {
  status_code : Z;
  gas_left : Z;
  gas_refund : Z;
  output : bytes;
  create_address : bytes
}.

Inductive evmc_storage_status :=
  | EVMC_STORAGE_ASSIGNED
  | EVMC_STORAGE_ADDED
  | EVMC_STORAGE_DELETED
  | EVMC_STORAGE_MODIFIED
  | EVMC_STORAGE_DELETED_ADDED
  | EVMC_STORAGE_MODIFIED_DELETED
  | EVMC_STORAGE_DELETED_RESTORED
  | EVMC_STORAGE_ADDED_DELETED
  | EVMC_STORAGE_MODIFIED_RESTORED.
Inductive evmc_access_status := EVMC_ACCESS_COLD | EVMC_ACCESS_WARM.

Record evmc_tx_context := mkTxContext {
  tx_gas_price : bytes;
  tx_origin : bytes;
  block_coinbase : bytes;
  block_number : Z;
  block_timestamp : Z;
  block_gas_limit : Z;
  block_prev_randao : bytes;
  chain_id : bytes;
  block_base_fee : bytes
}.

Definition zero32 : bytes := replicate 32 x00.
Definition zero20 : bytes := replicate 20 x00.
Definition is_zero32 (b : bytes) : bool := forallb (λ x, bool_decide (x = x00)) b.
Definition int64_max : Z := 2 ^ 63 - 1.
(** [evmc_make_result]. *)
Definition evmc_make_result (status gas_left gas_refund : Z) (output_data : bytes) : Result :=
  mkResult status gas_left gas_refund output_data zero20.

(** ** Machines *)
Inductive VmProg (A : Type) :=
  | VmDone (a : A)
  | VmUB (why : string)
  | VmAccountExists (a : bytes) (k : bool → VmProg A)
  | VmGetStorage (a key : bytes) (k : bytes → VmProg A)
  | VmSetStorage (a key v : bytes) (k : evmc_storage_status → VmProg A)
  | VmGetBalance (a : bytes) (k : bytes → VmProg A)
  | VmGetCodeSize (a : bytes) (k : Z → VmProg A)
  | VmGetCodeHash (a : bytes) (k : bytes → VmProg A)
  | VmCopyCode (a : bytes) (code_offset buffer_size : Z) (k : bytes → VmProg A)
  | VmSelfdestruct (a beneficiary : bytes) (k : bool → VmProg A)
  | VmCall (msg : evmc_message) (k : Result → VmProg A)
  | VmGetTxContext (k : evmc_tx_context → VmProg A)
  | VmGetBlockHash (n : Z) (k : bytes → VmProg A)
  | VmEmitLog (a data : bytes) (topics : list bytes) (k : VmProg A)
  | VmAccessAccount (a : bytes) (k : evmc_access_status → VmProg A)
  | VmAccessStorage (a key : bytes) (k : evmc_access_status → VmProg A).
Arguments VmDone {A} a.
Arguments VmUB {A} why.
Arguments VmAccountExists {A} a k.
Arguments VmGetStorage {A} a key k.
Arguments VmSetStorage {A} a key v k.
Arguments VmGetBalance {A} a k.
Arguments VmGetCodeSize {A} a k.
Arguments VmGetCodeHash {A} a k.
Arguments VmCopyCode {A} a code_offset buffer_size k.
Arguments VmSelfdestruct {A} a beneficiary k.
Arguments VmCall {A} msg k.
Arguments VmGetTxContext {A} k.
Arguments VmGetBlockHash {A} n k.
Arguments VmEmitLog {A} a data topics k.
Arguments VmAccessAccount {A} a k.
Arguments VmAccessStorage {A} a key k.

#[global] Instance VmProg_ret : MRet VmProg := λ A a, VmDone a.
#[global] Instance VmProg_bind : MBind VmProg := λ A B f,
  fix go (p : VmProg A) : VmProg B :=
  match p with
  | VmDone a => f a
  | VmUB why => VmUB why
  | VmAccountExists a k => VmAccountExists a (λ x, go (k x))
  | VmGetStorage a key k => VmGetStorage a key (λ x, go (k x))
  | VmSetStorage a key v k => VmSetStorage a key v (λ x, go (k x))
  | VmGetBalance a k => VmGetBalance a (λ x, go (k x))
  | VmGetCodeSize a k => VmGetCodeSize a (λ x, go (k x))
  | VmGetCodeHash a k => VmGetCodeHash a (λ x, go (k x))
  | VmCopyCode a o n k => VmCopyCode a o n (λ x, go (k x))
  | VmSelfdestruct a b k => VmSelfdestruct a b (λ x, go (k x))
  | VmCall msg k => VmCall msg (λ x, go (k x))
  | VmGetTxContext k => VmGetTxContext (λ x, go (k x))
  | VmGetBlockHash n k => VmGetBlockHash n (λ x, go (k x))
  | VmEmitLog a d t k => VmEmitLog a d t (go k)
  | VmAccessAccount a k => VmAccessAccount a (λ x, go (k x))
  | VmAccessStorage a key k => VmAccessStorage a key (λ x, go (k x))
  end.

(** ** Contracts

    Which code may be copied, which calls may be made and what their results
    promise; the rest is common: words have 32 bytes, addresses 20, sizes and
    numbers fit their C types. *)
Record Contract := mkContract {
  may_copy : Prop;
  may_call : evmc_message → Prop;
  call_promise : evmc_message → Result → Prop
}.
Definition tx_context_ok (c : evmc_tx_context) : Prop :=
  length (tx_gas_price c) = 32%nat ∧ length (tx_origin c) = 20%nat ∧ length (block_coinbase c) = 20%nat
  ∧ 0 <= block_number c < 2 ^ 63 ∧ is_i64 (block_timestamp c) ∧ is_i64 (block_gas_limit c)
  ∧ length (block_prev_randao c) = 32%nat ∧ length (chain_id c) = 32%nat ∧ length (block_base_fee c) = 32%nat.

Fixpoint prog_ok {A} (C : Contract) (Q : A → Prop) (p : VmProg A) : Prop :=
  match p with
  | VmDone a => Q a
  | VmUB _ => False
  | VmAccountExists a k => ∀ x, prog_ok C Q (k x)
  | VmGetStorage a key k => length key = 32%nat ∧ ∀ x, length x = 32%nat → prog_ok C Q (k x)
  | VmSetStorage a key v k => length key = 32%nat ∧ length v = 32%nat ∧ ∀ x, prog_ok C Q (k x)
  | VmGetBalance a k => ∀ x, length x = 32%nat → prog_ok C Q (k x)
  | VmGetCodeSize a k => ∀ x, is_u64 x → prog_ok C Q (k x)
  | VmGetCodeHash a k => ∀ x, length x = 32%nat → prog_ok C Q (k x)
  | VmCopyCode a o n k => may_copy C ∧ ∀ x, Z.of_nat (length x) <= n → prog_ok C Q (k x)
  | VmSelfdestruct a b k => ∀ x, prog_ok C Q (k x)
  | VmCall msg k => may_call C msg ∧ ∀ x, call_promise C msg x → prog_ok C Q (k x)
  | VmGetTxContext k => ∀ x, tx_context_ok x → prog_ok C Q (k x)
  | VmGetBlockHash n k => ∀ x, length x = 32%nat → prog_ok C Q (k x)
  | VmEmitLog a d t k => prog_ok C Q k
  | VmAccessAccount a k => ∀ x, prog_ok C Q (k x)
  | VmAccessStorage a key k => ∀ x, prog_ok C Q (k x)
  end.

Lemma prog_ok_mono {A} C (Q R : A → Prop) p :
  (∀ a, Q a → R a) → prog_ok C Q p → prog_ok C R p.
Proof. intros HQ. induction p; cbn; naive_solver. Qed.
Lemma prog_ok_bind {A B} C (Q : A → Prop) (R : B → Prop) p (f : A → VmProg B) :
  prog_ok C Q p → (∀ a, Q a → prog_ok C R (f a)) → prog_ok C R (p ≫= f).
Proof. intros Hp Hf. revert Hp. induction p; cbn; naive_solver. Qed.
(** A contract that allows less and promises more is harder to keep. *)
Lemma prog_ok_contract {A} (C D : Contract) (Q : A → Prop) p :
  (may_copy C → may_copy D) → (∀ m, may_call C m → may_call D m) →
  (∀ m r, may_call C m → call_promise D m r → call_promise C m r) → prog_ok C Q p → prog_ok D Q p.
Proof. intros H1 H2 H3. induction p; cbn; naive_solver. Qed.
