(* ===== verification/Words.v ===== *)
(** * 256-bit words

    pkgs/intx-0.10.0, as far as the EVM interpreter uses it: [intx::uint256] is
    a number in [[0, 2^256)]; its four 64-bit words, least significant first,
    are [limb x 0] .. [limb x 3].  Ring operations are arithmetic modulo
    2^256; what intx builds on them - signed division, exponentiation,
    comparison of signed numbers, shifts by a word, the count of significant
    bytes - is translated, and equals its mathematical meaning.  [IntxOps.v]
    shows that intx on words computes these numbers. *)
From Stdlib Require Import ZArith Strings.Byte Lia.
From stdpp Require Import base tactics numbers list.
From S2P Require Import Prelude.

Local Open Scope Z_scope.

Definition u256 (z : Z) : Z := z mod 2 ^ 256.
Arguments u256 : simpl never.
Definition is_u256 (z : Z) : Prop := 0 <= z < 2 ^ 256.

Definition limb (x i : Z) : Z := Z.land (Z.shiftr x (64 * i)) (2 ^ 64 - 1).
(** [x[i] = w]. *)
Definition set_limb (x i w : Z) : Z :=
  Z.lor (Z.ldiff x (Z.shiftl (2 ^ 64 - 1) (64 * i))) (Z.shiftl w (64 * i)).

Definition bool_word (b : bool) : Z := if b then 1 else 0.
(** [~x]. *)
Definition unot (x : Z) : Z := Z.lxor x (2 ^ 256 - 1).
(** [-x]. *)
Definition uneg (x : Z) : Z := u256 (unot x + 1).
(** [x << s] and [x >> s] by a [uint64_t]. *)
Definition shl64 (x s : Z) : Z := if 256 <=? s then 0 else u256 (Z.shiftl x s).
Definition shr64 (x s : Z) : Z := if 256 <=? s then 0 else Z.shiftr x s.
Definition high_words_fold (s : Z) : Z := Z.lor (Z.lor (limb s 1) (limb s 2)) (limb s 3).
Definition ushl (x s : Z) : Z := if negb (high_words_fold s =? 0) then 0 else shl64 x (limb s 0).
Definition ushr (x s : Z) : Z := if negb (high_words_fold s =? 0) then 0 else shr64 x (limb s 0).

(** [static_cast<int64_t>(w) < 0]. *)
Definition neg64 (w : Z) : bool := i64 w <? 0.
Definition slt (x y : Z) : bool :=
  let x_neg := neg64 (limb x 3) in
  let y_neg := neg64 (limb y 3) in
  if xorb x_neg y_neg then x_neg else x <? y.

(** [udivrem]: quotient and remainder, of numbers of any size. *)
Definition udivrem (u v : Z) : Z * Z := Z.div_eucl u v.
(** [sdivrem]: signed quotient and remainder. *)
Definition sdivrem (u v : Z) : Z * Z :=
  let sign_mask := shl64 1 255 in
  let u_is_neg := negb (Z.land u sign_mask =? 0) in
  let v_is_neg := negb (Z.land v sign_mask =? 0) in
  let u_abs := if u_is_neg then uneg u else u in
  let v_abs := if v_is_neg then uneg v else v in
  let q_is_neg := xorb u_is_neg v_is_neg in
  let '(q, r) := udivrem u_abs v_abs in
  (if q_is_neg then uneg q else q, if u_is_neg then uneg r else r).

(** [exp]: the loop ends because the exponent has 256 bits. *)
Fixpoint exp_loop (bits : nat) (base exponent result : Z) : Z :=
  match bits with
  | O => result
  | S bits =>
      if exponent =? 0 then result
      else exp_loop bits (u256 (base * base)) (shr64 exponent 1)
             (if negb (Z.land exponent 1 =? 0) then u256 (result * base) else result)
  end.
Definition uexp (base exponent : Z) : Z :=
  if base =? 2 then ushl 1 exponent else exp_loop 256 base exponent 1.

Definition count_significant_words (x : Z) : Z :=
  if negb (limb x 3 =? 0) then 4 else if negb (limb x 2 =? 0) then 3
  else if negb (limb x 1 =? 0) then 2 else if negb (limb x 0 =? 0) then 1 else 0.
Definition clz64 (w : Z) : Z := if w =? 0 then 64 else 63 - Z.log2 w.
Definition count_significant_bytes64 (w : Z) : Z := (64 - clz64 w + 7) / 8.
Definition count_significant_bytes (x : Z) : Z :=
  let w := count_significant_words x in
  if negb (w =? 0) then count_significant_bytes64 (limb x (w - 1)) + (w - 1) * 8 else 0.

(** [addc], [subc]: the value, and the carry or borrow; [umul]: the whole
    product. *)
Definition addc (x y : Z) : Z * bool := (u256 (x + y), 2 ^ 256 <=? x + y).
Definition subc (x y : Z) : Z * bool := (u256 (x - y), x <? y).
Definition umul (x y : Z) : Z := x * y.
(** [addmod] of a modulus that is not zero, with its fast path for large moduli. *)
Definition addmod (x y m : Z) : Z :=
  if negb (limb m 3 =? 0) && (limb x 3 <=? limb m 3) && (limb y 3 <=? limb m 3) then
    let xd := subc x m in
    let xn := if negb xd.2 then xd.1 else x in
    let yd := subc y m in
    let yn := if negb yd.2 then yd.1 else y in
    let a := addc xn yn in
    let av := a.1 in
    let b := subc av m in
    let bv := b.1 in
    if (a.2 : bool) || negb b.2 then bv else av
  else
    let s := addc x y in
    let n := s.1 + 2 ^ 256 * bool_word s.2 in
    (udivrem n m).2.
Definition mulmod (x y m : Z) : Z := (udivrem (umul x y) m).2.

(** ** Ranges *)
Lemma u256_range z : is_u256 (u256 z).
Proof. apply Z.mod_pos_bound. lia. Qed.
Lemma u256_small z : is_u256 z → u256 z = z.
Proof. apply Z.mod_small. Qed.
Lemma is_u256_0 : is_u256 0.
Proof. done. Qed.
Lemma is_u256_lt z : 0 <= z < 2 ^ 64 → is_u256 z.
Proof. unfold is_u256. lia. Qed.
Lemma bool_word_range b : is_u256 (bool_word b).
Proof. by destruct b. Qed.
Lemma is_u256_testbit z : 0 <= z → (∀ i, 256 <= i → Z.testbit z i = false) → is_u256 z.
Proof.
  intros Hz Hb. split; [done|]. assert (z = z mod 2 ^ 256) as ->; [|apply Z.mod_pos_bound; lia].
  apply Z.bits_inj'. intros i Hi. destruct (Z.lt_ge_cases i 256).
  - by rewrite Z.mod_pow2_bits_low.
  - by rewrite Z.mod_pow2_bits_high, Hb by lia.
Qed.
Lemma is_u256_high z i : is_u256 z → 256 <= i → Z.testbit z i = false.
Proof.
  intros [H0 H1] Hi. destruct (Z.eq_dec z 0) as [->|Hz]; [apply Z.bits_0|].
  apply Z.bits_above_log2; [done|]. apply Z.log2_lt_pow2; [lia|].
  eapply Z.lt_le_trans; [exact H1|]. apply Z.pow_le_mono_r; lia.
Qed.
Lemma land_range x y : is_u256 x → is_u256 y → is_u256 (Z.land x y).
Proof.
  intros Hx Hy. apply is_u256_testbit; [apply Z.land_nonneg; left; apply Hx|].
  intros i Hi. by rewrite Z.land_spec, (is_u256_high x).
Qed.
Lemma lor_range x y : is_u256 x → is_u256 y → is_u256 (Z.lor x y).
Proof.
  intros Hx Hy. apply is_u256_testbit; [apply Z.lor_nonneg; split; [apply Hx|apply Hy]|].
  intros i Hi. by rewrite Z.lor_spec, (is_u256_high x), (is_u256_high y).
Qed.
Lemma lxor_range x y : is_u256 x → is_u256 y → is_u256 (Z.lxor x y).
Proof.
  intros Hx Hy. apply is_u256_testbit; [apply Z.lxor_nonneg; split; intros; [apply Hy|apply Hx]|].
  intros i Hi. by rewrite Z.lxor_spec, (is_u256_high x), (is_u256_high y).
Qed.
Lemma unot_range x : is_u256 x → is_u256 (unot x).
Proof. intros Hx. by apply lxor_range. Qed.
Lemma uneg_range x : is_u256 (uneg x).
Proof. apply u256_range. Qed.
Lemma shr64_range x s : is_u256 x → 0 <= s → is_u256 (shr64 x s).
Proof.
  intros [H0 H1] Hs. unfold shr64. destruct (256 <=? s); [done|]. rewrite Z.shiftr_div_pow2 by done.
  pose proof (Z.pow_pos_nonneg 2 s ltac:(lia) Hs). split; [by apply Z.div_pos|].
  eapply Z.le_lt_trans; [|exact H1]. apply Z.div_le_upper_bound; nia.
Qed.
Lemma shl64_range x s : is_u256 (shl64 x s).
Proof. unfold shl64. destruct (_ <=? _); [done|apply u256_range]. Qed.
Lemma limb_mod x i : 0 <= i → limb x i = x / 2 ^ (64 * i) mod 2 ^ 64.
Proof.
  intros Hi. unfold limb. change (2 ^ 64 - 1) with (Z.ones 64).
  by rewrite Z.land_ones, Z.shiftr_div_pow2 by lia.
Qed.
Lemma limb_range x i : is_u64 (limb x i).
Proof. unfold limb. change (2 ^ 64 - 1) with (Z.ones 64). rewrite Z.land_ones by lia. apply Z.mod_pos_bound. lia. Qed.
Lemma ushl_range x s : is_u256 (ushl x s).
Proof. unfold ushl. destruct (negb _); [done|apply shl64_range]. Qed.
Lemma ushr_range x s : is_u256 x → is_u256 (ushr x s).
Proof. intros. unfold ushr. destruct (negb _); [done|]. apply shr64_range; [done|]. apply (limb_range s 0). Qed.

(** ** Meanings *)
Lemma limbs_eq x : is_u256 x →
  x = limb x 0 + 2 ^ 64 * limb x 1 + 2 ^ 128 * limb x 2 + 2 ^ 192 * limb x 3 ∧ limb x 3 = x / 2 ^ 192.
Proof.
  intros Hx. unfold is_u256 in Hx. rewrite !limb_mod by lia. change (64 * 0) with 0. change (64 * 1) with 64.
  change (64 * 2) with 128. change (64 * 3) with 192. rewrite Z.pow_0_r, Z.div_1_r.
  assert (x / 2 ^ 192 mod 2 ^ 64 = x / 2 ^ 192) as ->.
  { apply Z.mod_small. split; [apply Z.div_pos; lia|]. apply Z.div_lt_upper_bound; lia. }
  split; [|done]. change (2 ^ 192) with (2 ^ 128 * 2 ^ 64). change (2 ^ 128) with (2 ^ 64 * 2 ^ 64).
  rewrite <-!Z.div_div by lia. set (a := x / 2 ^ 64). set (b := a / 2 ^ 64).
  pose proof (Z.div_mod x (2 ^ 64) ltac:(lia)). pose proof (Z.div_mod a (2 ^ 64) ltac:(lia)).
  pose proof (Z.div_mod b (2 ^ 64) ltac:(lia)). fold a in H. fold b in H0. lia.
Qed.
Lemma lor_zero a b : Z.lor a b = 0 ↔ a = 0 ∧ b = 0.
Proof. apply Z.lor_eq_0_iff. Qed.
Lemma high_words_fold_spec x : is_u256 x → high_words_fold x = 0 ↔ x < 2 ^ 64.
Proof.
  intros Hx. unfold high_words_fold. rewrite !lor_zero. destruct (limbs_eq x Hx) as [E _].
  pose proof (limb_range x 0) as H0. pose proof (limb_range x 1) as H1. pose proof (limb_range x 2) as H2.
  pose proof (limb_range x 3) as H3. unfold is_u64 in *. lia.
Qed.
Lemma limb0_small x : is_u256 x → x < 2 ^ 64 → limb x 0 = x.
Proof.
  intros [H0 _] Hx. rewrite limb_mod by lia. change (64 * 0) with 0. rewrite Z.pow_0_r, Z.div_1_r. by apply Z.mod_small.
Qed.
(** Shifts by any word. *)
Lemma ushl_spec x s : is_u256 x → is_u256 s → ushl x s = u256 (Z.shiftl x s).
Proof.
  intros Hx Hs. unfold ushl. destruct (Z.eqb_spec (high_words_fold s) 0) as [E|E]; cbn.
  - apply high_words_fold_spec in E; [|done]. rewrite limb0_small by done. unfold shl64.
    destruct (Z.leb_spec 256 s) as [H|H]; [|done]. symmetry. apply Z.mod_divide; [done|].
    rewrite Z.shiftl_mul_pow2 by lia. exists (x * 2 ^ (s - 256)). rewrite <-Z.mul_assoc, <-Z.pow_add_r by lia. f_equal. f_equal. lia.
  - rewrite high_words_fold_spec in E by done. symmetry. apply Z.mod_divide; [done|].
    rewrite Z.shiftl_mul_pow2 by lia. exists (x * 2 ^ (s - 256)). rewrite <-Z.mul_assoc, <-Z.pow_add_r by lia. f_equal. f_equal. lia.
Qed.
Lemma ushr_spec x s : is_u256 x → is_u256 s → ushr x s = Z.shiftr x s.
Proof.
  intros Hx Hs. assert (256 <= s → Z.shiftr x s = 0) as Hz.
  { intros H. rewrite Z.shiftr_div_pow2 by lia. apply Z.div_small. split; [apply Hx|].
    eapply Z.lt_le_trans; [apply Hx|]. apply Z.pow_le_mono_r; lia. }
  unfold ushr. destruct (Z.eqb_spec (high_words_fold s) 0) as [E|E]; cbn.
  - apply high_words_fold_spec in E; [|done]. rewrite limb0_small by done. unfold shr64.
    destruct (Z.leb_spec 256 s) as [H|H]; [|done]. by rewrite Hz.
  - rewrite high_words_fold_spec in E by done. rewrite Hz by lia. done.
Qed.

(** A word as a signed number. *)
Definition s256 (x : Z) : Z := wraps 256 x.
Lemma s256_eq x : is_u256 x → s256 x = if x <? 2 ^ 255 then x else x - 2 ^ 256.
Proof.
  unfold is_u256, s256, wraps. intros Hx. change (256 - 1) with 255. destruct (Z.ltb_spec x (2 ^ 255)).
  - rewrite Z.mod_small; lia.
  - replace (x + 2 ^ 255) with (x - 2 ^ 255 + 1 * 2 ^ 256) by lia. rewrite Z.mod_add, Z.mod_small; lia.
Qed.
Lemma s256_range x : - 2 ^ 255 <= s256 x < 2 ^ 255.
Proof. unfold s256, wraps. pose proof (Z.mod_pos_bound (x + 2 ^ 255) (2 ^ 256) ltac:(lia)). change (256 - 1) with 255. lia. Qed.
Lemma u256_s256 x : is_u256 x → u256 (s256 x) = x.
Proof.
  intros Hx. rewrite s256_eq by done. unfold is_u256, u256 in *. destruct (_ <? _); [by apply Z.mod_small|].
  replace (x - 2 ^ 256) with (x + (-1) * 2 ^ 256) by lia. rewrite Z.mod_add by lia. by apply Z.mod_small.
Qed.
Lemma top_bit x : is_u256 x → neg64 (limb x 3) = (2 ^ 255 <=? x).
Proof.
  intros Hx. destruct (limbs_eq x Hx) as [_ E]. unfold neg64, i64, wraps. change (64 - 1) with 63.
  pose proof (limb_range x 3) as Hr. unfold is_u64 in Hr. rewrite E in *.
  pose proof (Z.div_mod x (2 ^ 192) ltac:(lia)). pose proof (Z.mod_pos_bound x (2 ^ 192) ltac:(lia)).
  set (w := x / 2 ^ 192) in *. destruct (Z.leb_spec (2 ^ 255) x).
  - assert (2 ^ 63 <= w) by lia. apply Z.ltb_lt.
    replace (w + 2 ^ 63) with (w - 2 ^ 63 + 1 * 2 ^ 64) by lia. rewrite Z.mod_add, Z.mod_small; lia.
  - assert (w < 2 ^ 63) by lia. apply Z.ltb_ge. rewrite Z.mod_small; lia.
Qed.
Lemma slt_spec x y : is_u256 x → is_u256 y → slt x y = (s256 x <? s256 y).
Proof.
  intros Hx Hy. unfold slt. rewrite !top_bit, !s256_eq by done. unfold is_u256 in *.
  destruct (Z.leb_spec (2 ^ 255) x), (Z.leb_spec (2 ^ 255) y), (Z.ltb_spec x (2 ^ 255)), (Z.ltb_spec y (2 ^ 255)),
    (Z.ltb_spec x y); cbn; try lia; symmetry; first [apply Z.ltb_lt; lia|apply Z.ltb_ge; lia].
Qed.
Lemma unot_spec x : is_u256 x → unot x = 2 ^ 256 - 1 - x.
Proof.
  intros Hx. unfold unot. change (2 ^ 256 - 1) with (Z.ones 256).
  assert (Z.land x (Z.lxor x (Z.ones 256)) = 0) as Hl.
  { apply Z.bits_inj'. intros i Hi. rewrite Z.land_spec, Z.lxor_spec, Z.bits_0, Z.testbit_ones_nonneg by lia.
    destruct (Z.ltb_spec i 256); [by destruct (Z.testbit x i)|]. by rewrite (is_u256_high x). }
  assert (x + Z.lxor x (Z.ones 256) = Z.ones 256); [|lia].
  rewrite Z.add_nocarry_lxor by done. by rewrite <-Z.lxor_assoc, Z.lxor_nilpotent, Z.lxor_0_l.
Qed.
Lemma uneg_spec x : is_u256 x → uneg x = u256 (- x).
Proof.
  intros Hx. unfold uneg. rewrite unot_spec by done. unfold u256.
  replace (2 ^ 256 - 1 - x + 1) with (- x + 1 * 2 ^ 256) by lia. by rewrite Z.mod_add by lia.
Qed.
Lemma sign_bit x : is_u256 x → negb (Z.land x (shl64 1 255) =? 0) = (2 ^ 255 <=? x).
Proof.
  intros Hx. change (shl64 1 255) with (2 ^ 255). destruct (Z.eqb_spec (Z.land x (2 ^ 255)) 0) as [E|E]; cbn; symmetry.
  - apply Z.leb_gt. apply (f_equal (λ z, Z.testbit z 255)) in E. rewrite Z.land_spec, Z.pow2_bits_true, Z.bits_0, andb_true_r in E by lia.
    apply Z.testbit_false in E; [|lia]. unfold is_u256 in Hx.
    destruct (Z.lt_ge_cases x (2 ^ 255)); [done|]. assert (x / 2 ^ 255 = 1) as Hd; [|by rewrite Hd in E].
    symmetry. apply (Z.div_unique_pos x (2 ^ 255) 1 (x - 2 ^ 255)); lia.
  - apply Z.leb_le. destruct (Z.lt_ge_cases x (2 ^ 255)); [|done]. destruct E. apply Z.bits_inj'. intros i Hi.
    rewrite Z.land_spec, Z.bits_0, Z.pow2_bits_eqb by lia. destruct (Z.eqb_spec 255 i) as [<-|]; [|by rewrite andb_false_r].
    rewrite andb_true_r. apply Z.testbit_false; [lia|]. rewrite Z.div_small; [done|]. unfold is_u256 in Hx. lia.
Qed.
Lemma s256_abs x : is_u256 x → (if 2 ^ 255 <=? x then uneg x else x) = Z.abs (s256 x).
Proof.
  intros Hx. rewrite s256_eq by done. rewrite uneg_spec by done. unfold is_u256, u256 in *.
  destruct (Z.leb_spec (2 ^ 255) x), (Z.ltb_spec x (2 ^ 255)); try lia.
  replace (- x) with (2 ^ 256 - x + (-1) * 2 ^ 256) by lia. rewrite Z.mod_add, Z.mod_small; lia.
Qed.
(** Division rounds to zero, the remainder has the sign of the dividend. *)
Lemma sdivrem_spec u v : is_u256 u → is_u256 v → v ≠ 0 →
  sdivrem u v = (u256 (Z.quot (s256 u) (s256 v)), u256 (Z.rem (s256 u) (s256 v))).
Proof.
  intros Hu Hv Hz. unfold sdivrem, udivrem. rewrite !sign_bit, !s256_abs by done.
  pose proof (s256_eq u Hu) as Eu. pose proof (s256_eq v Hv) as Ev.
  pose proof (s256_range u) as Ru. pose proof (s256_range v) as Rv.
  set (a := s256 u) in *. set (b := s256 v) in *.
  assert (b ≠ 0) as Hb. { rewrite Ev. unfold is_u256 in Hv. destruct (Z.ltb_spec v (2 ^ 255)); lia. }
  pose proof (Z.quot_div a b Hb) as Eq. pose proof (Z.rem_mod a b Hb) as Er. unfold Z.div, Z.modulo in Eq, Er.
  pose proof (Z_div_mod (Z.abs a) (Z.abs b) ltac:(lia)) as Hd.
  destruct (Z.div_eucl (Z.abs a) (Z.abs b)) as [q r]. destruct Hd as [Hd Hr].
  assert (0 <= q <= 2 ^ 255) as Hq by nia.
  assert (is_u256 q) as Wq by (unfold is_u256; lia). assert (is_u256 r) as Wr by (unfold is_u256; lia).
  assert ((2 ^ 255 <=? u) = (a <? 0)) as Su.
  { rewrite Eu. unfold is_u256 in Hu. destruct (Z.leb_spec (2 ^ 255) u), (Z.ltb_spec u (2 ^ 255)); symmetry; try lia;
      first [apply Z.ltb_lt; lia|apply Z.ltb_ge; lia]. }
  assert ((2 ^ 255 <=? v) = (b <? 0)) as Sv.
  { rewrite Ev. unfold is_u256 in Hv. destruct (Z.leb_spec (2 ^ 255) v), (Z.ltb_spec v (2 ^ 255)); symmetry; try lia;
      first [apply Z.ltb_lt; lia|apply Z.ltb_ge; lia]. }
  rewrite Su, Sv, !uneg_spec by done. clear Su Sv Eu Ev.
  assert (Z.quot a b = if xorb (a <? 0) (b <? 0) then - q else q) as ->.
  { rewrite Eq. destruct (Z.ltb_spec a 0), (Z.ltb_spec b 0); cbn [xorb];
      rewrite ?(Z.sgn_neg a), ?(Z.sgn_neg b), ?(Z.sgn_pos b) by lia; [lia..| |];
      (destruct (Z.eq_dec a 0) as [->|Ha]; [cbn in Hd |- *; nia|rewrite (Z.sgn_pos a) by lia; lia]). }
  assert (Z.rem a b = if a <? 0 then - r else r) as ->.
  { rewrite Er. destruct (Z.ltb_spec a 0); [rewrite (Z.sgn_neg a) by lia; lia|].
    destruct (Z.eq_dec a 0) as [->|Ha]; [cbn in Hd |- *; nia|rewrite (Z.sgn_pos a) by lia; lia]. }
  f_equal; case_match; try done; by rewrite u256_small.
Qed.

Lemma exp_loop_spec n b e r : is_u256 e → e < 2 ^ Z.of_nat n →
  u256 (exp_loop n b e r) = u256 (r * b ^ e).
Proof.
  revert b e r. induction n as [|n IH]; intros b e r He Hn.
  { assert (e = 0) as -> by (unfold is_u256 in He; lia). cbn. by rewrite Z.pow_0_r, Z.mul_1_r. }
  cbn [exp_loop]. destruct (Z.eqb_spec e 0) as [->|He0]; [by rewrite Z.pow_0_r, Z.mul_1_r|].
  assert (shr64 e 1 = e / 2) as Eh by (unfold shr64; cbn; by rewrite <-Z.div2_div, Z.div2_spec).
  rewrite Nat2Z.inj_succ, Z.pow_succ_r in Hn by lia. unfold is_u256 in He.
  rewrite IH, Eh by (rewrite ?Eh; unfold is_u256; (split || idtac); try apply Z.div_pos; try apply Z.div_lt_upper_bound; lia).
  change 1 with (Z.ones 1). rewrite Z.land_ones by lia. change (2 ^ 1) with 2.
  pose proof (Z.div_mod e 2 ltac:(lia)) as Hd. pose proof (Z.mod_pos_bound e 2 ltac:(lia)) as Hm.
  pose proof (Z.div_pos e 2 ltac:(lia) ltac:(lia)) as Hq.
  assert (u256 (u256 (b * b) ^ (e / 2)) = u256 (b ^ (2 * (e / 2)))) as Ep.
  { unfold u256. rewrite Z.mod_pow_l. f_equal. rewrite Z.pow_mul_r by lia. f_equal. lia. }
  unfold u256 in *. rewrite Zmult_mod, Ep, <-Zmult_mod. destruct (Z.eqb_spec (e mod 2) 0) as [E|E]; cbn [negb].
  - do 2 f_equal. f_equal. lia.
  - rewrite Zmult_mod_idemp_l, <-Z.mul_assoc. do 2 f_equal. replace e with (Z.succ (2 * (e / 2))) at 2 by lia.
    by rewrite Z.pow_succ_r by lia.
Qed.
Lemma exp_loop_range n b e r : is_u256 r → is_u256 (exp_loop n b e r).
Proof.
  revert b e r. induction n as [|n IH]; intros b e r Hr; [done|]. cbn [exp_loop].
  destruct (e =? 0); [done|]. apply IH. destruct (negb _); [apply u256_range|done].
Qed.
Lemma uexp_spec b e : is_u256 b → is_u256 e → uexp b e = u256 (b ^ e).
Proof.
  intros Hb He. unfold uexp. destruct (Z.eqb_spec b 2) as [->|Hb2].
  - rewrite ushl_spec by done. unfold is_u256 in He. by rewrite Z.shiftl_mul_pow2, Z.mul_1_l by lia.
  - rewrite <-(u256_small (exp_loop _ _ _ _)) by (by apply exp_loop_range).
    rewrite exp_loop_spec by (try done; apply He). by rewrite Z.mul_1_l.
Qed.

(** The least number of bytes that hold [x]. *)
Lemma count64_spec w k : is_u64 w → 0 <= k <= 8 → count_significant_bytes64 w <= k ↔ w < 2 ^ (8 * k).
Proof.
  unfold is_u64, count_significant_bytes64, clz64. intros Hw Hk. destruct (Z.eqb_spec w 0) as [->|H0].
  - pose proof (Z.pow_pos_nonneg 2 (8 * k) ltac:(lia) ltac:(lia)). change ((64 - 64 + 7) / 8) with 0. lia.
  - rewrite Z.log2_lt_pow2 by lia.
    replace (64 - (63 - Z.log2 w) + 7) with (Z.log2 w + 1 * 8) by lia. rewrite Z.div_add by lia.
    pose proof (Z.div_mod (Z.log2 w) 8 ltac:(lia)). pose proof (Z.mod_pos_bound (Z.log2 w) 8 ltac:(lia)). lia.
Qed.
Lemma count64_nonneg w : is_u64 w → 0 <= count_significant_bytes64 w <= 8.
Proof.
  intros Hw. split; [|apply count64_spec; [done|lia|apply Hw]]. unfold count_significant_bytes64, clz64.
  destruct (w =? 0); [done|]. pose proof (Z.log2_nonneg w). apply Z.div_pos; lia.
Qed.
Lemma count_significant_bytes_range x : is_u256 x → 0 <= count_significant_bytes x <= 32.
Proof.
  intros Hx. unfold count_significant_bytes, count_significant_words.
  repeat case_match; try done; try lia;
    match goal with |- context [count_significant_bytes64 (limb x ?i)] =>
      pose proof (count64_nonneg (limb x i) (limb_range x i)); lia end.
Qed.
Lemma count_significant_bytes_spec x k :
  is_u256 x → 0 <= k <= 32 → count_significant_bytes x <= k ↔ x < 2 ^ (8 * k).
Proof.
  intros Hx Hk. destruct (limbs_eq x Hx) as [E _]. unfold count_significant_bytes, count_significant_words.
  pose proof (limb_range x 0) as R0. pose proof (limb_range x 1) as R1.
  pose proof (limb_range x 2) as R2. pose proof (limb_range x 3) as R3.
  pose proof (count64_nonneg _ R0). pose proof (count64_nonneg _ R1).
  pose proof (count64_nonneg _ R2). pose proof (count64_nonneg _ R3).
  assert (∀ w j lo, is_u64 w → 0 <= j <= 3 → 0 <= lo < 2 ^ (64 * j) → 0 < w →
            count_significant_bytes64 w + j * 8 <= k ↔ lo + 2 ^ (64 * j) * w < 2 ^ (8 * k)) as Hkey.
  { intros w j lo Hw Hj Hlo Hw0. destruct (Z.le_gt_cases (8 * j) k) as [Hjk|Hjk].
    - destruct (Z.le_gt_cases (k - 8 * j) 8) as [H8|H8].
      + pose proof (count64_spec w (k - 8 * j) Hw ltac:(lia)) as Hc.
        replace (8 * k) with (64 * j + 8 * (k - 8 * j)) by lia. rewrite Z.pow_add_r by lia.
        assert (count_significant_bytes64 w + j * 8 <= k ↔ count_significant_bytes64 w <= k - 8 * j) as -> by lia.
        rewrite Hc. split; intros; nia.
      + pose proof (count64_nonneg w Hw). split; intros _; [|lia].
        replace (8 * k) with (64 * j + 64 + (8 * k - 64 * j - 64)) by lia. rewrite !Z.pow_add_r by lia.
        pose proof (Z.pow_pos_nonneg 2 (8 * k - 64 * j - 64) ltac:(lia) ltac:(lia)). unfold is_u64 in Hw. nia.
    - pose proof (count64_nonneg w Hw). split; intros Hc; [lia|exfalso].
      assert (2 ^ (8 * k) <= 2 ^ (64 * j)) by (apply Z.pow_le_mono_r; lia). nia. }
  unfold is_u64 in *.
  destruct (Z.eqb_spec (limb x 3) 0) as [E3|N3]; cbn [negb].
  2: { change (4 =? 0) with false. cbn [negb]. change (4 - 1) with 3. rewrite E at 2.
       apply (Hkey (limb x 3) 3 _ R3 ltac:(lia)); lia. }
  destruct (Z.eqb_spec (limb x 2) 0) as [E2|N2]; cbn [negb].
  2: { change (3 =? 0) with false. cbn [negb]. change (3 - 1) with 2. rewrite E at 2. rewrite E3, Z.mul_0_r, Z.add_0_r.
       apply (Hkey (limb x 2) 2 _ R2 ltac:(lia)); lia. }
  destruct (Z.eqb_spec (limb x 1) 0) as [E1|N1]; cbn [negb].
  2: { change (2 =? 0) with false. cbn [negb]. change (2 - 1) with 1. rewrite E at 2. rewrite E3, E2, !Z.mul_0_r, !Z.add_0_r.
       apply (Hkey (limb x 1) 1 _ R1 ltac:(lia)); lia. }
  destruct (Z.eqb_spec (limb x 0) 0) as [E0|N0]; cbn [negb].
  - change (0 =? 0) with true. cbn [negb]. pose proof (Z.pow_pos_nonneg 2 (8 * k) ltac:(lia) ltac:(lia)). lia.
  - change (1 =? 0) with false. cbn [negb]. change (1 - 1) with 0. rewrite E at 2. rewrite E3, E2, E1, !Z.mul_0_r, !Z.add_0_r.
    pose proof (Hkey (limb x 0) 0 0 R0 ltac:(lia) ltac:(done) ltac:(lia)) as Hk0. change (2 ^ (64 * 0)) with 1 in Hk0. lia.
Qed.

(** ** Modular arithmetic *)
Lemma udivrem_spec u v : v ≠ 0 → udivrem u v = (u / v, u mod v).
Proof. intros _. unfold udivrem, Z.div, Z.modulo. by destruct (Z.div_eucl u v). Qed.
Lemma mulmod_spec x y m : m ≠ 0 → mulmod x y m = (x * y) mod m.
Proof. intros Hm. unfold mulmod. by rewrite udivrem_spec. Qed.
Lemma top_limb_le x m : is_u256 x → is_u256 m → limb x 3 <= limb m 3 → x < m + 2 ^ 192.
Proof.
  intros Hx Hm. rewrite (proj2 (limbs_eq x Hx)), (proj2 (limbs_eq m Hm)). intros H.
  pose proof (Z.div_mod x (2 ^ 192) ltac:(lia)). pose proof (Z.mod_pos_bound x (2 ^ 192) ltac:(lia)).
  pose proof (Z.div_mod m (2 ^ 192) ltac:(lia)). pose proof (Z.mod_pos_bound m (2 ^ 192) ltac:(lia)). lia.
Qed.
(** One subtraction reduces a number that is at most slightly bigger. *)
Lemma reduce_once x m : is_u256 x → is_u256 m → x < 2 * m →
  (if negb (subc x m).2 then (subc x m).1 else x) = x mod m.
Proof.
  unfold is_u256. intros Hx Hm H. unfold subc. cbn [fst snd]. destruct (Z.ltb_spec x m); cbn [negb].
  - symmetry. apply Z.mod_small. lia.
  - rewrite u256_small by (unfold is_u256; lia). apply (Z.mod_unique_pos _ _ 1); lia.
Qed.
Lemma addmod_spec x y m : is_u256 x → is_u256 y → is_u256 m → m ≠ 0 → addmod x y m = (x + y) mod m.
Proof.
  intros Hx Hy Hm Hz. unfold addmod. destruct (negb _ && _ && _) eqn:E.
  - apply andb_true_iff in E as [[E1%negb_true_iff%Z.eqb_neq E2%Z.leb_le]%andb_true_iff E3%Z.leb_le].
    apply top_limb_le in E2; [|done..]. apply top_limb_le in E3; [|done..].
    rewrite (proj2 (limbs_eq m Hm)) in E1. assert (2 ^ 192 <= m).
    { pose proof (Z.div_mod m (2 ^ 192) ltac:(lia)). pose proof (Z.mod_pos_bound m (2 ^ 192) ltac:(lia)).
      unfold is_u256 in Hm. pose proof (Z.div_pos m (2 ^ 192) ltac:(lia) ltac:(lia)). lia. }
    cbv zeta. rewrite !reduce_once by (done || lia). rewrite (Z.add_mod x y) by done.
    unfold is_u256 in Hm. pose proof (Z.mod_pos_bound x m ltac:(lia)) as Hxm. pose proof (Z.mod_pos_bound y m ltac:(lia)) as Hym.
    set (a := x mod m) in *. set (b := y mod m) in *. unfold addc, subc. cbn [fst snd].
    destruct (Z.leb_spec (2 ^ 256) (a + b)); cbn [orb].
    + unfold u256. rewrite Zminus_mod_idemp_l. rewrite (Z.mod_small (a + b - m)) by lia.
      apply (Z.mod_unique_pos _ _ 1); lia.
    + rewrite u256_small by (unfold is_u256; lia). destruct (Z.ltb_spec (a + b) m); cbn [negb].
      * symmetry. apply Z.mod_small. lia.
      * rewrite u256_small by (unfold is_u256; lia). apply (Z.mod_unique_pos _ _ 1); lia.
  - cbv zeta. rewrite udivrem_spec by done. cbn [snd]. f_equal. unfold addc, u256, is_u256 in *. cbn [fst snd].
    destruct (Z.leb_spec (2 ^ 256) (x + y)); cbn [bool_word].
    + rewrite <-(Z.mod_unique_pos (x + y) (2 ^ 256) 1 (x + y - 2 ^ 256)); lia.
    + rewrite Z.mod_small; lia.
Qed.
