(* ===== verification/Intx.v ===== *)
(** * intx: words and linear operations

    pkgs/intx-0.10.0/include/intx/intx.hpp.  A [uint<N>] is the list of its
    [N/64] words, the least significant first; [uint128] is a list of two.
    Every operation on a machine word is modulo 2^64 ([u64]).  The value of a
    list of words is [val]; the theorems say what each operation does to it. *)
From Stdlib Require Import ZArith Lia.
From stdpp Require Import base tactics numbers list.
From S2P Require Import Prelude.

Local Open Scope Z_scope.

(** ** Representation *)
Abbreviation words := (list Z).
Definition word (x : words) (i : nat) : Z := nth i x 0.
Fixpoint val (x : words) : Z :=
  match x with [] => 0 | w :: x => w + 2 ^ 64 * val x end.
Definition is_words (n : nat) (x : words) : Prop := length x = n ∧ Forall is_u64 x.
Arguments val : simpl nomatch.

(** [uint<N>(x)]: conversion of a machine word, and to a wider type. *)
Definition uint_of (n : nat) (x : Z) : words := x :: replicate (n - 1) 0.
Definition uint_extend (n : nat) (x : words) : words := x ++ replicate (n - length x) 0.
(** [static_cast<uint<M>>]: to a narrower type. *)
Definition uint_trunc (n : nat) (x : words) : words := take n x.

(** ** Machine words *)
(** [addc] and [subc] of words: the portable definitions, which the
    compilers' primitives implement. *)
Definition addc64 (x y : Z) (carry : bool) : Z * bool :=
  let s := u64 (x + y) in
  let carry1 := s <? x in
  let t := u64 (s + Z.b2z carry) in
  let carry2 := t <? s in
  (t, carry1 || carry2).
Definition subc64 (x y : Z) (carry : bool) : Z * bool :=
  let d := u64 (x - y) in
  let carry1 := x <? y in
  let e := u64 (d - Z.b2z carry) in
  let carry2 := d <? Z.b2z carry in
  (e, carry1 || carry2).

(** [unsigned __int128], to and from [uint128]. *)
Definition u128 : Z → Z := wrapu 128.
Definition of_builtin (x : Z) : words := [u64 x; u64 (Z.shiftr x 64)].
Definition to_builtin (x : words) : Z := Z.lor (u128 (Z.shiftl (word x 1) 64)) (word x 0).
Arguments u128 : simpl never.

(** [umul]: 64 x 64 -> 128, with the compiler's type, and the portable one. *)
Definition umul64 (x y : Z) : words := of_builtin (u128 (x * y)).
Definition umul64_portable (x y : Z) : words :=
  let xl := Z.land x 0xffffffff in
  let xh := Z.shiftr x 32 in
  let yl := Z.land y 0xffffffff in
  let yh := Z.shiftr y 32 in
  let t0 := u64 (xl * yl) in
  let t1 := u64 (xh * yl) in
  let t2 := u64 (xl * yh) in
  let t3 := u64 (xh * yh) in
  let u1 := u64 (t1 + Z.shiftr t0 32) in
  let u2 := u64 (t2 + Z.land u1 0xffffffff) in
  let lo := Z.lor (u64 (Z.shiftl u2 32)) (Z.land t0 0xffffffff) in
  let hi := u64 (u64 (t3 + Z.shiftr u2 32) + Z.shiftr u1 32) in
  [lo; hi].

(** [std::countl_zero]. *)
Definition clz (x : Z) : Z := if x =? 0 then 64 else 63 - Z.log2 x.

(** ** Sums, differences *)
Fixpoint uint_addc (x y : words) (k : bool) : words * bool :=
  match x, y with
  | xi :: x, yi :: y =>
      let '(t, k) := addc64 xi yi k in
      let '(s, k) := uint_addc x y k in (t :: s, k)
  | _, _ => ([], k)
  end.
Fixpoint uint_subc (x y : words) (k : bool) : words * bool :=
  match x, y with
  | xi :: x, yi :: y =>
      let '(t, k) := subc64 xi yi k in
      let '(z, k) := uint_subc x y k in (t :: z, k)
  | _, _ => ([], k)
  end.
Definition uint_add (x y : words) : words := (uint_addc x y false).1.
Definition uint_sub (x y : words) : words := (uint_subc x y false).1.
(** [fast_add] of two [uint128]. *)
Definition fast_add (x y : words) : words := of_builtin (u128 (to_builtin x + to_builtin y)).

(** ** Bitwise operations *)
Definition not64 (x : Z) : Z := Z.lxor x (2 ^ 64 - 1).
Definition uint_not (x : words) : words := not64 <$> x.
Definition uint_or (x y : words) : words := zip_with Z.lor x y.
Definition uint_and (x y : words) : words := zip_with Z.land x y.
Definition uint_xor (x y : words) : words := zip_with Z.lxor x y.
(** [-x]. *)
Definition uint_neg (x : words) : words := uint_add (uint_not x) (uint_of (length x) 1).

(** ** Comparisons *)
Definition uint_eq (x y : words) : bool :=
  foldl (λ folded p, Z.lor folded (Z.lxor p.1 p.2)) 0 (zip x y) =? 0.
Definition lt128 (x y : words) : bool := to_builtin x <? to_builtin y.
(** The overload for [uint256], and the general one. *)
Definition lt256 (x y : words) : bool :=
  let xp := [word x 2; word x 3] in
  let yp := [word y 2; word y 3] in
  if uint_eq xp yp then lt128 [word x 0; word x 1] [word y 0; word y 1]
  else lt128 xp yp.
Definition uint_lt (x y : words) : bool := (uint_subc x y false).2.
(** ** Shifts by a machine word *)
Definition shl128 (x : words) (shift : Z) : words :=
  if shift <? 64 then
    [u64 (Z.shiftl (word x 0) shift);
     Z.lor (u64 (Z.shiftl (word x 1) shift)) (Z.shiftr (Z.shiftr (word x 0) 1) (63 - shift))]
  else if shift <? 128 then [0; u64 (Z.shiftl (word x 0) (shift - 64))]
  else uint_of 2 0.
Definition shr128 (x : words) (shift : Z) : words :=
  if shift <? 64 then
    [Z.lor (Z.shiftr (word x 0) shift) (u64 (Z.shiftl (u64 (Z.shiftl (word x 1) 1)) (63 - shift)));
     Z.shiftr (word x 1) shift]
  else if shift <? 128 then uint_of 2 (Z.shiftr (word x 1) (shift - 64))
  else uint_of 2 0.
(** The overloads for [uint256]. *)
Definition shl256 (x : words) (shift : Z) : words :=
  if 256 <=? shift then uint_of 4 0
  else
    let xlo := [word x 0; word x 1] in
    if shift <? 128 then
      let lo := shl128 xlo shift in
      let xhi := [word x 2; word x 3] in
      let rshift := 128 - shift in
      let lo_overflow := shr128 (shr128 xlo (rshift - 1)) 1 in
      let hi := uint_or (shl128 xhi shift) lo_overflow in
      [word lo 0; word lo 1; word hi 0; word hi 1]
    else
      let hi := shl128 xlo (shift - 128) in
      [0; 0; word hi 0; word hi 1].
Definition shr256 (x : words) (shift : Z) : words :=
  if 256 <=? shift then uint_of 4 0
  else
    let xhi := [word x 2; word x 3] in
    if shift <? 128 then
      let hi := shr128 xhi shift in
      let xlo := [word x 0; word x 1] in
      let lshift := 128 - shift in
      let hi_overflow := shl128 (shl128 xhi (lshift - 1)) 1 in
      let lo := uint_or (shr128 xlo shift) hi_overflow in
      [word lo 0; word lo 1; word hi 0; word hi 1]
    else
      let lo := shr128 xhi (shift - 128) in
      [word lo 0; word lo 1; 0; 0].
(** The general ones: the words that are left, with the carry between them,
    up from the lowest for [<<], down from the highest for [>>]. *)
Fixpoint shl_loop (s carry : Z) (x : words) : words :=
  match x with
  | [] => []
  | xi :: x => Z.lor (u64 (Z.shiftl xi s)) carry :: shl_loop s (Z.shiftr (Z.shiftr xi (63 - s)) 1) x
  end.
Definition uint_shl (x : words) (shift : Z) : words :=
  let num_words := length x in
  if 64 * Z.of_nat num_words <=? shift then uint_of num_words 0
  else
    let s := shift mod 64 in
    let skip := Z.to_nat (shift / 64) in
    replicate skip 0 ++ shl_loop s 0 (take (num_words - skip) x).
Fixpoint shr_loop (s carry : Z) (x : words) : words :=
  match x with
  | [] => []
  | xi :: x => Z.lor (Z.shiftr xi s) carry :: shr_loop s (u64 (Z.shiftl (u64 (Z.shiftl xi (63 - s))) 1)) x
  end.
Definition uint_shr (x : words) (shift : Z) : words :=
  let num_words := length x in
  if 64 * Z.of_nat num_words <=? shift then uint_of num_words 0
  else
    let s := shift mod 64 in
    let skip := Z.to_nat (shift / 64) in
    reverse (shr_loop s 0 (take (num_words - skip) (reverse x))) ++ replicate skip 0.
(** Shifts by a [uint256]. *)
Definition high_words_fold (shift : words) : Z := foldl Z.lor 0 (drop 1 shift).
Definition shl256_by (x shift : words) : words :=
  if negb (high_words_fold shift =? 0) then uint_of 4 0 else shl256 x (word shift 0).
Definition shr256_by (x shift : words) : words :=
  if negb (high_words_fold shift =? 0) then uint_of 4 0 else shr256 x (word shift 0).

(** ** Products *)
(** [umul(x[i], y[j]) + uint128{a.value, a.carry}] with [a = addc(p[i + j], k)]. *)
Definition mul_step (p xi yj k : Z) : words :=
  let a := addc64 p k false in
  uint_add (umul64 xi yj) [a.1; Z.b2z a.2].
(** The inner loop over [x]: the words [p[j]], [p[j + 1]], .. and the carry. *)
Fixpoint mul_row (p x : words) (yj k : Z) : words * Z :=
  match p, x with
  | p0 :: p, xi :: x =>
      let t := mul_step p0 xi yj k in
      let '(r, k) := mul_row p x yj (word t 1) in (word t 0 :: r, k)
  | _, _ => ([], k)
  end.
(** [umul]: round [j] of the outer loop on [p], whose words below [j] are done. *)
Fixpoint umul_loop (p x y : words) : words :=
  match y with
  | [] => p
  | yj :: y =>
      let n := length x in
      let '(r, k) := mul_row (take n p) x yj 0 in
      match r ++ k :: drop (n + 1) p with
      | p0 :: p => p0 :: umul_loop p x y
      | [] => []
      end
  end.
Definition uint_umul (x y : words) : words := umul_loop (replicate (2 * length x) 0) x y.
(** [operator*]: the same, less the words from [num_words] on; the highest
    word needs no carry. *)
Fixpoint mul_loop (p x y : words) : words :=
  match y with
  | [] => []
  | yj :: y =>
      let n := (length p - 1)%nat in
      let '(r, k) := mul_row (take n p) (take n x) yj 0 in
      let top := u64 (word p n + u64 (u64 (word x n * yj) + k)) in
      match r ++ [top] with
      | p0 :: p => p0 :: mul_loop p x y
      | [] => []
      end
  end.
Definition uint_mul (x y : words) : words := mul_loop (replicate (length x) 0) x y.
Definition mul128 (x y : words) : words :=
  let p := umul64 (word x 0) (word y 0) in
  [word p 0; u64 (word p 1 + u64 (u64 (word x 0 * word y 1) + u64 (word x 1 * word y 0)))].

(** ** Significant words *)
Fixpoint count_loop (x : words) (i : nat) : nat :=
  match i with
  | O => 0
  | S i' => if negb (word x i' =? 0) then i else count_loop x i'
  end.
Definition count_significant_words (x : words) : nat := count_loop x (length x).
Definition count_significant_bytes64 (x : Z) : Z := (64 - clz x + 7) / 8.
Definition count_significant_bytes (x : words) : Z :=
  let w := count_significant_words x in
  if negb (w =? 0)%nat then count_significant_bytes64 (word x (w - 1)) + (Z.of_nat w - 1) * 8 else 0.

(** ** Arithmetic modulo 2^64 *)
Lemma u64_u64 a : u64 (u64 a) = u64 a.
Proof. apply Zmod_mod. Qed.
Lemma u64_add_l a b : u64 (u64 a + b) = u64 (a + b).
Proof. apply Zplus_mod_idemp_l. Qed.
Lemma u64_add_r a b : u64 (a + u64 b) = u64 (a + b).
Proof. apply Zplus_mod_idemp_r. Qed.
Lemma u64_sub_l a b : u64 (u64 a - b) = u64 (a - b).
Proof. apply Zminus_mod_idemp_l. Qed.
Lemma u64_sub_r a b : u64 (a - u64 b) = u64 (a - b).
Proof. apply Zminus_mod_idemp_r. Qed.
Lemma u64_mul_l a b : u64 (u64 a * b) = u64 (a * b).
Proof. apply Zmult_mod_idemp_l. Qed.
Lemma u64_mul_r a b : u64 (a * u64 b) = u64 (a * b).
Proof. apply Zmult_mod_idemp_r. Qed.
Lemma u64_add_mid a b c : u64 (a + (u64 b + c)) = u64 (a + (b + c)).
Proof. by rewrite <-u64_add_r, u64_add_l, u64_add_r. Qed.
Lemma u64_add_mid_r a b c : u64 (a + (b + u64 c)) = u64 (a + (b + c)).
Proof. by rewrite !Z.add_assoc, u64_add_r. Qed.
Create Rewrite HintDb u64_pull.
#[export] Hint Rewrite u64_u64 u64_add_l u64_add_r u64_add_mid u64_add_mid_r u64_sub_l u64_sub_r u64_mul_l u64_mul_r : u64_pull.
Lemma u64_unique k v a : is_u64 v → a = v + 2 ^ 64 * k → u64 a = v.
Proof. intros Hv ->. unfold u64, wrapu. rewrite Z.mul_comm, Z.mod_add by lia. by apply Z.mod_small. Qed.
Lemma u64_mod a k : u64 (a + 2 ^ 64 * k) = u64 a.
Proof. unfold u64, wrapu. by rewrite Z.mul_comm, Z.mod_add by lia. Qed.
Lemma u64_split a : a = u64 a + 2 ^ 64 * (a / 2 ^ 64).
Proof. unfold u64, wrapu. pose proof (Z.div_mod a (2 ^ 64) ltac:(lia)). lia. Qed.
Lemma u64_div a b k : is_u64 b → a = b + 2 ^ 64 * k → u64 a = b ∧ a / 2 ^ 64 = k.
Proof.
  intros Hb ->. split; [by apply (u64_unique k)|].
  rewrite Z.mul_comm, Z.div_add by lia. rewrite Z.div_small by done. lia.
Qed.

(** ** Values *)
Lemma val_nil : val [] = 0.
Proof. done. Qed.
Lemma val_cons w x : val (w :: x) = w + 2 ^ 64 * val x.
Proof. done. Qed.
Lemma pow64_S n : 2 ^ (64 * Z.of_nat (S n)) = 2 ^ 64 * 2 ^ (64 * Z.of_nat n).
Proof. rewrite <-Z.pow_add_r by lia. f_equal. lia. Qed.
Lemma pow64_pos n : 0 < 2 ^ (64 * Z.of_nat n).
Proof. apply Z.pow_pos_nonneg; lia. Qed.
Lemma val_app x y : val (x ++ y) = val x + 2 ^ (64 * Z.of_nat (length x)) * val y.
Proof.
  induction x as [|w x IH]; [by rewrite Z.mul_0_r, Z.pow_0_r, Z.mul_1_l|].
  cbn [app length]. rewrite !val_cons, IH, pow64_S. lia.
Qed.
Lemma val_zeros n : val (replicate n 0) = 0.
Proof. induction n as [|n IH]; [done|]. cbn [replicate]. by rewrite val_cons, IH. Qed.
Lemma val_range x : Forall is_u64 x → 0 <= val x < 2 ^ (64 * Z.of_nat (length x)).
Proof.
  induction 1 as [|w x Hw Hx IH]; [done|]. cbn [length]. rewrite val_cons, pow64_S. unfold is_u64 in Hw. lia.
Qed.
Lemma is_words_range n x : is_words n x → 0 <= val x < 2 ^ (64 * Z.of_nat n).
Proof. intros [<- Hx]. by apply val_range. Qed.
Lemma is_words_cons n w x : is_words (S n) (w :: x) ↔ is_u64 w ∧ is_words n x.
Proof. unfold is_words. cbn [length]. rewrite Forall_cons. naive_solver lia. Qed.
Lemma is_words_nil : is_words 0 [].
Proof. by split. Qed.
Lemma is_words_2 a b : is_words 2 [a; b] ↔ is_u64 a ∧ is_u64 b.
Proof. rewrite !is_words_cons. pose proof is_words_nil. naive_solver. Qed.
Lemma is_words_app n m x y : is_words n x → is_words m y → is_words (n + m) (x ++ y).
Proof. intros [<- Hx] [<- Hy]. split; [apply length_app|by apply Forall_app]. Qed.
Lemma is_words_zeros n : is_words n (replicate n 0).
Proof. split; [apply length_replicate|]. apply Forall_replicate. done. Qed.
Lemma is_words_S n x : is_words (S n) x → ∃ w x', x = w :: x' ∧ is_u64 w ∧ is_words n x'.
Proof. intros Hx. destruct x as [|w x]; [by destruct Hx|]. exists w, x. by apply is_words_cons in Hx as [??]. Qed.
Lemma is_words_0 x : is_words 0 x → x = [].
Proof. intros [H _]. by destruct x. Qed.
Lemma is_words_2_inv x : is_words 2 x → ∃ a b, x = [a; b] ∧ is_u64 a ∧ is_u64 b.
Proof.
  intros (a & x1 & -> & Ha & (b & x2 & -> & Hb & ->%is_words_0)%is_words_S)%is_words_S. by exists a, b.
Qed.
Lemma is_words_4_inv x : is_words 4 x →
  ∃ a b c d, x = [a; b; c; d] ∧ is_u64 a ∧ is_u64 b ∧ is_u64 c ∧ is_u64 d.
Proof.
  intros (a & x1 & -> & Ha & (b & x2 & -> & Hb & (c & d & -> & ?)%is_words_2_inv)%is_words_S)%is_words_S.
  by exists a, b, c, d.
Qed.
Lemma val_2 a b : val [a; b] = a + 2 ^ 64 * b.
Proof. cbn [val]. lia. Qed.
Lemma val_inj n x y : is_words n x → is_words n y → val x = val y → x = y.
Proof.
  revert x y. induction n as [|n IH]; intros x y; [by intros ->%is_words_0 ->%is_words_0|].
  intros (w & x' & -> & Hw & Hx)%is_words_S (v & y' & -> & Hv & Hy)%is_words_S. rewrite !val_cons. intros E.
  unfold is_u64 in *. assert (w = v) as -> by lia. f_equal. apply IH; [done..|lia].
Qed.
Lemma val_lt_top n x w : is_words n x → is_u64 w → w < 2 ^ 64.
Proof. intros _ [_ H]. done. Qed.

(** ** Machine words *)
Lemma b2z_range k : 0 <= Z.b2z k <= 1.
Proof. by destruct k. Qed.
Lemma addc64_spec x y k : is_u64 x → is_u64 y →
  let '(t, k') := addc64 x y k in is_u64 t ∧ t + 2 ^ 64 * Z.b2z k' = x + y + Z.b2z k.
Proof.
  unfold is_u64, addc64. intros Hx Hy. pose proof (b2z_range k) as Hk. set (c := Z.b2z k) in *.
  pose proof (u64_range (x + y)) as Hs. pose proof (u64_split (x + y)) as Es.
  pose proof (u64_range (u64 (x + y) + c)) as Ht. pose proof (u64_split (u64 (x + y) + c)) as Et.
  unfold is_u64 in *. set (s := u64 (x + y)) in *. set (t := u64 (s + c)) in *. split; [done|].
  destruct (Z.ltb_spec s x), (Z.ltb_spec t s); cbn; lia.
Qed.
Lemma subc64_spec x y k : is_u64 x → is_u64 y →
  let '(t, k') := subc64 x y k in is_u64 t ∧ t - 2 ^ 64 * Z.b2z k' = x - y - Z.b2z k.
Proof.
  unfold is_u64, subc64. intros Hx Hy. pose proof (b2z_range k) as Hk. set (c := Z.b2z k) in *.
  pose proof (u64_range (x - y)) as Hs. pose proof (u64_split (x - y)) as Es.
  pose proof (u64_range (u64 (x - y) - c)) as Ht. pose proof (u64_split (u64 (x - y) - c)) as Et.
  unfold is_u64 in *. set (s := u64 (x - y)) in *. set (t := u64 (s - c)) in *. split; [done|].
  destruct (Z.ltb_spec x y), (Z.ltb_spec s c); cbn; lia.
Qed.

Lemma u128_small z : 0 <= z < 2 ^ 128 → u128 z = z.
Proof. apply Z.mod_small. Qed.
Lemma of_builtin_spec z : 0 <= z < 2 ^ 128 → is_words 2 (of_builtin z) ∧ val (of_builtin z) = z.
Proof.
  intros Hz. unfold of_builtin. rewrite Z.shiftr_div_pow2 by lia. rewrite val_2. split.
  - apply is_words_2. split; apply u64_range.
  - rewrite (u64_small (z / 2 ^ 64)); [pose proof (u64_split z); lia|].
    split; [apply Z.div_pos; lia|]. apply Z.div_lt_upper_bound; lia.
Qed.
Lemma lor_disjoint a b s : 0 <= s → a mod 2 ^ s = 0 → 0 <= b < 2 ^ s → Z.lor a b = a + b.
Proof.
  intros Hs Ha Hb. assert (Z.land a b = 0) as Hl; [|by rewrite Z.add_nocarry_lxor, Z.lxor_lor].
  apply Z.bits_inj'. intros i Hi.
  rewrite Z.land_spec, Z.bits_0. destruct (Z.lt_ge_cases i s).
  - assert (Z.testbit a i = false) as ->; [|done]. rewrite <-(Z.mod_pow2_bits_low a s) by lia. by rewrite Ha, Z.bits_0.
  - assert (Z.testbit b i = false) as ->; [|apply andb_false_r]. rewrite <-(Z.mod_small b (2 ^ s)) by done.
    apply Z.mod_pow2_bits_high. lia.
Qed.

Lemma shl_high_bits w s : 0 <= s → (w * 2 ^ s) mod 2 ^ s = 0.
Proof. intros Hs. apply Z.mod_mul. pose proof (Z.pow_pos_nonneg 2 s). lia. Qed.
Lemma u64_mod_pow w s : 0 <= s <= 64 → u64 (w * 2 ^ s) mod 2 ^ s = 0.
Proof.
  intros Hs. pose proof (u64_split (w * 2 ^ s)) as E. pose proof (Z.pow_pos_nonneg 2 s ltac:(lia) ltac:(lia)).
  replace (2 ^ 64) with (2 ^ (64 - s) * 2 ^ s) in E at 1 by (rewrite <-Z.pow_add_r by lia; f_equal; lia).
  apply Z.mod_divide; [lia|]. exists (w - 2 ^ (64 - s) * (w * 2 ^ s / 2 ^ 64)). lia.
Qed.
(** The bits that a left shift moves to the next word, and that a right shift
    moves to the one before. *)
Lemma shl_split w s : 0 <= s <= 64 → is_u64 w → w * 2 ^ s = u64 (w * 2 ^ s) + 2 ^ 64 * (w / 2 ^ (64 - s)).
Proof.
  intros Hs Hw. rewrite (u64_split (w * 2 ^ s)) at 1. do 2 f_equal.
  replace (2 ^ 64) with (2 ^ (64 - s) * 2 ^ s) by (rewrite <-Z.pow_add_r by lia; f_equal; lia).
  pose proof (Z.pow_pos_nonneg 2 s ltac:(lia) ltac:(lia)). pose proof (Z.pow_pos_nonneg 2 (64 - s) ltac:(lia) ltac:(lia)).
  by rewrite Z.div_mul_cancel_r by lia.
Qed.
Lemma shr_bound w s : 0 <= s <= 64 → is_u64 w → 0 <= w / 2 ^ s < 2 ^ (64 - s).
Proof.
  intros Hs Hw. unfold is_u64 in Hw. pose proof (Z.pow_pos_nonneg 2 s ltac:(lia) ltac:(lia)). split; [apply Z.div_pos; lia|].
  apply Z.div_lt_upper_bound; [lia|]. rewrite <-Z.pow_add_r by lia. replace (s + (64 - s)) with 64 by lia. lia.
Qed.
(** [(x << s) | c] and [(w >> (63 - s)) >> 1]. *)
Lemma shl_lor w s c : 0 <= s <= 64 → 0 <= c < 2 ^ s → Z.lor (u64 (Z.shiftl w s)) c = u64 (w * 2 ^ s) + c.
Proof. intros Hs Hc. rewrite Z.shiftl_mul_pow2 by lia. apply (lor_disjoint _ _ s); [lia|by apply u64_mod_pow|done]. Qed.
Lemma shr_carry w s : 0 <= s < 64 → Z.shiftr (Z.shiftr w (63 - s)) 1 = w / 2 ^ (64 - s).
Proof. intros Hs. rewrite Z.shiftr_shiftr, Z.shiftr_div_pow2 by lia. do 2 f_equal. lia. Qed.
Lemma shl_carry w s : 0 <= s < 64 → u64 (Z.shiftl (u64 (Z.shiftl w (63 - s))) 1) = u64 (w * 2 ^ (64 - s)).
Proof.
  intros Hs. rewrite !Z.shiftl_mul_pow2 by lia. autorewrite with u64_pull. f_equal.
  rewrite <-Z.mul_assoc, <-Z.pow_add_r by lia. do 2 f_equal. lia.
Qed.

Lemma to_builtin_spec x : is_words 2 x → to_builtin x = val x.
Proof.
  intros (a & b & -> & Ha & Hb)%is_words_2_inv. unfold to_builtin, word. cbn [nth]. unfold is_u64 in *.
  rewrite Z.shiftl_mul_pow2 by lia. rewrite u128_small by (change (2 ^ 128) with (2 ^ 64 * 2 ^ 64); lia). rewrite val_2.
  rewrite (lor_disjoint _ _ 64); [lia|lia|by apply shl_high_bits|done].
Qed.
Lemma umul64_spec x y : is_u64 x → is_u64 y → is_words 2 (umul64 x y) ∧ val (umul64 x y) = x * y.
Proof.
  unfold is_u64, umul64. intros. assert (0 <= x * y < 2 ^ 128) by nia. rewrite u128_small by done. by apply of_builtin_spec.
Qed.
Lemma fast_add_spec x y : is_words 2 x → is_words 2 y → val x + val y < 2 ^ 128 →
  is_words 2 (fast_add x y) ∧ val (fast_add x y) = val x + val y.
Proof.
  intros Hx Hy H. unfold fast_add. rewrite !to_builtin_spec by done. pose proof (is_words_range _ _ Hx).
  pose proof (is_words_range _ _ Hy). rewrite u128_small by lia. apply of_builtin_spec. lia.
Qed.
Lemma land_low x : Z.land x 0xffffffff = x mod 2 ^ 32.
Proof. change 0xffffffff with (Z.ones 32). by apply Z.land_ones. Qed.
Lemma halves x : is_u64 x → x = 2 ^ 32 * (x / 2 ^ 32) + x mod 2 ^ 32 ∧ 0 <= x mod 2 ^ 32 < 2 ^ 32 ∧ 0 <= x / 2 ^ 32 < 2 ^ 32.
Proof.
  unfold is_u64. intros Hx. pose proof (Z.div_mod x (2 ^ 32) ltac:(lia)). pose proof (Z.mod_pos_bound x (2 ^ 32) ltac:(lia)). lia.
Qed.
(** The portable product is the compiler's. *)
Lemma umul64_portable_spec x y : is_u64 x → is_u64 y → umul64_portable x y = umul64 x y.
Proof.
  intros Hx Hy. unfold umul64_portable. cbv zeta. rewrite !land_low, !Z.shiftr_div_pow2 by lia. unfold is_u64 in *.
  destruct (halves x Hx) as (Ex & Rx & Qx). destruct (halves y Hy) as (Ey & Ry & Qy).
  assert (x * y = (2 ^ 32 * (x / 2 ^ 32) + x mod 2 ^ 32) * (2 ^ 32 * (y / 2 ^ 32) + y mod 2 ^ 32)) as E by congruence.
  set (xh := x / 2 ^ 32) in *. set (xl := x mod 2 ^ 32) in *. set (yh := y / 2 ^ 32) in *. set (yl := y mod 2 ^ 32) in *.
  clearbody xh xl yh yl. clear Ex Ey.
  set (m := (2 ^ 32 - 1) * (2 ^ 32 - 1)).
  assert (0 <= xl * yl <= m) by (subst m; nia). assert (0 <= xh * yl <= m) by (subst m; nia).
  assert (0 <= xl * yh <= m) by (subst m; nia). assert (0 <= xh * yh <= m) by (subst m; nia).
  rewrite !(u64_small (_ * _)) by (unfold is_u64; subst m; lia).
  assert (x * y = xl * yl + 2 ^ 32 * (xh * yl + xl * yh) + 2 ^ 64 * (xh * yh)) as E2 by (rewrite E; ring).
  set (t0 := xl * yl) in *. set (t1 := xh * yl) in *. set (t2 := xl * yh) in *. set (t3 := xh * yh) in *. clearbody t0 t1 t2 t3.
  pose proof (Z.div_mod t0 (2 ^ 32) ltac:(lia)) as E0. pose proof (Z.mod_pos_bound t0 (2 ^ 32) ltac:(lia)) as R0.
  set (h0 := t0 / 2 ^ 32) in *. rewrite (u64_small (t1 + h0)) by (unfold is_u64; subst m; lia).
  set (u1 := t1 + h0). pose proof (Z.div_mod u1 (2 ^ 32) ltac:(lia)) as E1. pose proof (Z.mod_pos_bound u1 (2 ^ 32) ltac:(lia)) as R1.
  rewrite (u64_small (t2 + _)) by (unfold is_u64; subst m; lia).
  set (u2 := t2 + u1 mod 2 ^ 32). pose proof (Z.div_mod u2 (2 ^ 32) ltac:(lia)) as E3. pose proof (Z.mod_pos_bound u2 (2 ^ 32) ltac:(lia)) as R3.
  rewrite shl_lor by lia. autorewrite with u64_pull.
  assert (x * y = (2 ^ 32 * (u2 mod 2 ^ 32) + t0 mod 2 ^ 32) + 2 ^ 64 * (t3 + u2 / 2 ^ 32 + u1 / 2 ^ 32)) as E4 by lia.
  assert (0 <= x * y < 2 ^ 128) as Hxy by nia. unfold umul64, of_builtin. rewrite Z.shiftr_div_pow2 by lia. rewrite (u128_small (x * y)) by done.
  assert (is_u64 (2 ^ 32 * (u2 mod 2 ^ 32) + t0 mod 2 ^ 32)) as Hlo by (unfold is_u64; lia).
  destruct (u64_div _ _ _ Hlo E4) as [-> ->]. f_equal.
  rewrite (u64_unique (u2 / 2 ^ 32) (2 ^ 32 * (u2 mod 2 ^ 32))); [done|unfold is_u64; lia|lia].
Qed.

(** ** Sums, differences, comparisons *)
Lemma uint_addc_spec n x y k : is_words n x → is_words n y →
  let '(s, k') := uint_addc x y k in
  is_words n s ∧ val s + 2 ^ (64 * Z.of_nat n) * Z.b2z k' = val x + val y + Z.b2z k.
Proof.
  revert x y k. induction n as [|n IH]; intros x y k.
  { intros ->%is_words_0 ->%is_words_0. cbn [uint_addc val]. split; [apply is_words_nil|]. lia. }
  intros (w & x' & -> & Hw & Hx)%is_words_S (v & y' & -> & Hv & Hy)%is_words_S. cbn [uint_addc].
  pose proof (addc64_spec w v k Hw Hv) as H. destruct (addc64 w v k) as [t k1]. destruct H as [Ht E].
  specialize (IH x' y' k1 Hx Hy). destruct (uint_addc x' y' k1) as [s k2]. destruct IH as [Hs E2].
  rewrite is_words_cons, !val_cons, pow64_S. split; [done|]. lia.
Qed.
Lemma uint_subc_spec n x y k : is_words n x → is_words n y →
  let '(z, k') := uint_subc x y k in
  is_words n z ∧ val z - 2 ^ (64 * Z.of_nat n) * Z.b2z k' = val x - val y - Z.b2z k.
Proof.
  revert x y k. induction n as [|n IH]; intros x y k.
  { intros ->%is_words_0 ->%is_words_0. cbn [uint_subc val]. split; [apply is_words_nil|]. lia. }
  intros (w & x' & -> & Hw & Hx)%is_words_S (v & y' & -> & Hv & Hy)%is_words_S. cbn [uint_subc].
  pose proof (subc64_spec w v k Hw Hv) as H. destruct (subc64 w v k) as [t k1]. destruct H as [Ht E].
  specialize (IH x' y' k1 Hx Hy). destruct (uint_subc x' y' k1) as [s k2]. destruct IH as [Hs E2].
  rewrite is_words_cons, !val_cons, pow64_S. split; [done|]. lia.
Qed.
Lemma uint_add_spec n x y : is_words n x → is_words n y →
  is_words n (uint_add x y) ∧ val (uint_add x y) = (val x + val y) mod 2 ^ (64 * Z.of_nat n).
Proof.
  intros Hx Hy. unfold uint_add. pose proof (uint_addc_spec n x y false Hx Hy) as H.
  destruct (uint_addc x y false) as [s k]. destruct H as [Hs E]. split; [done|]. cbn [fst].
  apply (Z.mod_unique_pos _ _ (Z.b2z k)); [by apply is_words_range|]. cbn [Z.b2z] in E. lia.
Qed.
Lemma uint_sub_spec n x y : is_words n x → is_words n y →
  is_words n (uint_sub x y) ∧ val (uint_sub x y) = (val x - val y) mod 2 ^ (64 * Z.of_nat n).
Proof.
  intros Hx Hy. unfold uint_sub. pose proof (uint_subc_spec n x y false Hx Hy) as H.
  destruct (uint_subc x y false) as [s k]. destruct H as [Hs E]. split; [done|]. cbn [fst].
  apply (Z.mod_unique_pos _ _ (- Z.b2z k)); [by apply is_words_range|]. cbn [Z.b2z] in E. lia.
Qed.
Lemma uint_lt_spec n x y : is_words n x → is_words n y → uint_lt x y = (val x <? val y).
Proof.
  intros Hx Hy. unfold uint_lt. pose proof (uint_subc_spec n x y false Hx Hy) as H.
  destruct (uint_subc x y false) as [s k]. destruct H as [Hs E]. cbn [snd].
  pose proof (is_words_range _ _ Hs). pose proof (is_words_range _ _ Hx). pose proof (is_words_range _ _ Hy).
  destruct k, (Z.ltb_spec (val x) (val y)); cbn [Z.b2z] in E; try done; exfalso; lia.
Qed.
Lemma foldl_lor_zero (l : list (Z * Z)) a :
  foldl (λ folded p, Z.lor folded (Z.lxor p.1 p.2)) a l = 0 ↔ a = 0 ∧ Forall (λ p, p.1 = p.2) l.
Proof.
  revert a. induction l as [|[w v] l IH]; intros a; cbn [foldl fst snd]; [naive_solver|].
  rewrite IH, Z.lor_eq_0_iff, Z.lxor_eq_0_iff, Forall_cons. naive_solver.
Qed.
Lemma uint_eq_spec n x y : is_words n x → is_words n y → uint_eq x y = (val x =? val y).
Proof.
  intros Hx Hy. unfold uint_eq. destruct (Z.eqb_spec (val x) (val y)) as [E|E].
  - apply (val_inj n) in E as <-; [|done..]. apply Z.eqb_eq, foldl_lor_zero. split; [done|].
    clear. induction x as [|w x IH]; cbn [zip zip_with]; constructor; done.
  - apply Z.eqb_neq. intros [_ H]%foldl_lor_zero. destruct E. f_equal. destruct Hx as [<- _], Hy as [Hl _].
    revert y Hl H. induction x as [|w x IH]; intros [|v y] Hl; try done. cbn [zip zip_with]. rewrite Forall_cons.
    cbn [fst snd]. intros [-> H]. f_equal. by apply IH; [injection Hl|].
Qed.
Lemma lt128_spec x y : is_words 2 x → is_words 2 y → lt128 x y = (val x <? val y).
Proof. intros Hx Hy. unfold lt128. by rewrite !to_builtin_spec. Qed.
Lemma lt256_spec x y : is_words 4 x → is_words 4 y → lt256 x y = (val x <? val y).
Proof.
  intros (a & b & c & d & -> & Ha & Hb & Hc & Hd)%is_words_4_inv (a' & b' & c' & d' & -> & Ha' & Hb' & Hc' & Hd')%is_words_4_inv.
  unfold lt256, word. cbn [nth]. rewrite (uint_eq_spec 2), !lt128_spec by (by apply is_words_2). rewrite !val_2.
  unfold is_u64 in *. cbn [val]. destruct (Z.eqb_spec (c + 2 ^ 64 * d) (c' + 2 ^ 64 * d')) as [E|E];
    repeat match goal with |- context [?u <? ?v] => destruct (Z.ltb_spec u v) end; try done; exfalso; lia.
Qed.

(** ** Bitwise operations *)
Lemma not64_spec w : is_u64 w → not64 w = 2 ^ 64 - 1 - w.
Proof.
  intros Hw. unfold not64. change (2 ^ 64 - 1) with (Z.ones 64).
  assert (Z.land w (Z.lxor w (Z.ones 64)) = 0) as Hl.
  { apply Z.bits_inj'. intros i Hi. rewrite Z.land_spec, Z.lxor_spec, Z.bits_0, Z.testbit_ones_nonneg by lia.
    destruct (Z.ltb_spec i 64); [by destruct (Z.testbit w i)|].
    rewrite <-(Z.mod_small w (2 ^ 64)), Z.mod_pow2_bits_high by (done || lia). done. }
  assert (w + Z.lxor w (Z.ones 64) = Z.ones 64); [|lia].
  rewrite Z.add_nocarry_lxor by done. by rewrite <-Z.lxor_assoc, Z.lxor_nilpotent, Z.lxor_0_l.
Qed.
Lemma uint_not_spec n x : is_words n x → is_words n (uint_not x) ∧ val (uint_not x) = 2 ^ (64 * Z.of_nat n) - 1 - val x.
Proof.
  revert x. induction n as [|n IH]; intros x; [intros ->%is_words_0; split; [apply is_words_nil|done]|].
  intros (w & x' & -> & Hw & Hx)%is_words_S. destruct (IH x' Hx) as [H E]. unfold uint_not in *. cbn [fmap list_fmap].
  rewrite is_words_cons, not64_spec, !val_cons, pow64_S, E by done. unfold is_u64 in *. split; [split; [lia|done]|]. lia.
Qed.
Lemma uint_of_spec n w : is_u64 w → is_words (S n) (uint_of (S n) w) ∧ val (uint_of (S n) w) = w.
Proof.
  intros Hw. unfold uint_of. cbn [Nat.sub]. rewrite Nat.sub_0_r. rewrite is_words_cons, val_cons, val_zeros.
  split; [split; [done|apply is_words_zeros]|lia].
Qed.
Lemma uint_neg_spec n x : is_words (S n) x →
  is_words (S n) (uint_neg x) ∧ val (uint_neg x) = (- val x) mod 2 ^ (64 * Z.of_nat (S n)).
Proof.
  intros Hx. unfold uint_neg. rewrite (proj1 Hx). destruct (uint_not_spec _ _ Hx) as [Hn En].
  destruct (uint_of_spec n 1 ltac:(done)) as [H1 E1]. destruct (uint_add_spec _ _ _ Hn H1) as [H E].
  split; [done|]. rewrite E, En, E1. set (m := 2 ^ _).
  replace (m - 1 - val x + 1) with (- val x + 1 * m) by lia. apply Z.mod_add. pose proof (pow64_pos (S n)). subst m. lia.
Qed.
Lemma testbit_cons w v i : is_u64 w → 0 <= i →
  Z.testbit (w + 2 ^ 64 * v) i = if i <? 64 then Z.testbit w i else Z.testbit v (i - 64).
Proof.
  intros Hw Hi. destruct (Z.ltb_spec i 64) as [H|H].
  - rewrite <-(Z.mod_pow2_bits_low _ 64) by done. rewrite Z.mul_comm, Z.mod_add, Z.mod_small by (done || lia). done.
  - replace i with ((i - 64) + 64) at 1 by lia. rewrite <-Z.div_pow2_bits by lia. f_equal.
    rewrite Z.mul_comm, Z.div_add, Z.div_small by (done || lia). lia.
Qed.
Section Bitwise.
Context (f : Z → Z → Z) (g : bool → bool → bool).
Hypothesis f_spec : ∀ a b i, 0 <= i → Z.testbit (f a b) i = g (Z.testbit a i) (Z.testbit b i).
Hypothesis f_nonneg : ∀ a b, 0 <= a → 0 <= b → 0 <= f a b.
Hypothesis g_false : g false false = false.
Lemma f_zero : f 0 0 = 0.
Proof using f_spec g_false. apply Z.bits_inj'. intros i Hi. by rewrite f_spec, Z.bits_0, g_false. Qed.
Lemma f_u64 a b : is_u64 a → is_u64 b → is_u64 (f a b).
Proof using f_spec f_nonneg g_false.
  intros Ha Hb. assert (f a b = f a b mod 2 ^ 64) as ->; [|apply Z.mod_pos_bound; lia].
  apply Z.bits_inj'. intros i Hi. destruct (Z.lt_ge_cases i 64); [by rewrite Z.mod_pow2_bits_low|].
  rewrite Z.mod_pow2_bits_high, f_spec by lia.
  rewrite <-(Z.mod_small a (2 ^ 64)), <-(Z.mod_small b (2 ^ 64)), !Z.mod_pow2_bits_high by (done || lia). done.
Qed.
Lemma zip_spec n x y : is_words n x → is_words n y →
  is_words n (zip_with f x y) ∧ val (zip_with f x y) = f (val x) (val y).
Proof using f_spec f_nonneg g_false.
  revert x y. induction n as [|n IH]; intros x y.
  { intros ->%is_words_0 ->%is_words_0. split; [apply is_words_nil|]. symmetry. apply f_zero. }
  intros (w & x' & -> & Hw & Hx)%is_words_S (v & y' & -> & Hv & Hy)%is_words_S. cbn [zip_with].
  destruct (IH _ _ Hx Hy) as [H E]. rewrite is_words_cons, !val_cons, E. pose proof (f_u64 _ _ Hw Hv).
  split; [done|]. apply Z.bits_inj'. intros i Hi. rewrite f_spec, !testbit_cons by done.
  destruct (Z.ltb_spec i 64); by rewrite f_spec by lia.
Qed.
End Bitwise.
Lemma uint_or_spec n x y : is_words n x → is_words n y → is_words n (uint_or x y) ∧ val (uint_or x y) = Z.lor (val x) (val y).
Proof.
  apply (zip_spec Z.lor orb); [intros; apply Z.lor_spec|intros; by apply Z.lor_nonneg|done].
Qed.
Lemma uint_and_spec n x y : is_words n x → is_words n y → is_words n (uint_and x y) ∧ val (uint_and x y) = Z.land (val x) (val y).
Proof.
  apply (zip_spec Z.land andb); [intros; apply Z.land_spec|intros; apply Z.land_nonneg; by left|done].
Qed.
Lemma uint_xor_spec n x y : is_words n x → is_words n y → is_words n (uint_xor x y) ∧ val (uint_xor x y) = Z.lxor (val x) (val y).
Proof.
  apply (zip_spec Z.lxor xorb); [intros; apply Z.lxor_spec|intros; by apply Z.lxor_nonneg|done].
Qed.

(** ** Shifts *)
Lemma shr_word w s : 0 <= s → is_u64 w → is_u64 (Z.shiftr w s).
Proof.
  intros Hs Hw. rewrite Z.shiftr_div_pow2 by done. unfold is_u64 in *. pose proof (Z.pow_pos_nonneg 2 s ltac:(lia) Hs).
  split; [apply Z.div_pos; lia|]. apply Z.div_lt_upper_bound; nia.
Qed.
Lemma lor_word64 a b : is_u64 a → is_u64 b → is_u64 (Z.lor a b).
Proof. apply (f_u64 Z.lor orb); [intros; apply Z.lor_spec|intros; by apply Z.lor_nonneg|done]. Qed.
(** One word of a shifted number: what is kept, and what goes to the next. *)
Lemma shl_word_spec w s c : 0 <= s < 64 → is_u64 w → 0 <= c < 2 ^ s →
  let r := Z.lor (u64 (Z.shiftl w s)) c in
  let c' := Z.shiftr (Z.shiftr w (63 - s)) 1 in
  is_u64 r ∧ 0 <= c' < 2 ^ s ∧ r + 2 ^ 64 * c' = w * 2 ^ s + c.
Proof.
  intros Hs Hw Hc r c'. assert (c' = w / 2 ^ (64 - s)) as Ec by (by apply shr_carry).
  assert (r = u64 (w * 2 ^ s) + c) as Er by (apply shl_lor; [lia|done]).
  pose proof (shl_split w s ltac:(lia) Hw) as E. pose proof (shr_bound w (64 - s) ltac:(lia) Hw) as B.
  replace (64 - (64 - s)) with s in B by lia. rewrite <-Ec in E, B. split_and!; [|lia..].
  apply lor_word64; [apply u64_range|]. split; [lia|]. eapply Z.lt_trans; [apply Hc|]. apply Z.pow_lt_mono_r; lia.
Qed.
(** The carry of a right shift is a multiple of [2 ^ (64 - s)]. *)
Lemma shr_word_spec w s q : 0 <= s < 64 → is_u64 w → 0 <= q < 2 ^ s →
  let r := Z.lor (Z.shiftr w s) (2 ^ (64 - s) * q) in
  is_u64 r ∧ r = w / 2 ^ s + 2 ^ (64 - s) * q.
Proof.
  intros Hs Hw Hq r. pose proof (shr_bound w s ltac:(lia) Hw) as B.
  assert (r = w / 2 ^ s + 2 ^ (64 - s) * q) as E.
  { subst r. rewrite Z.lor_comm, Z.shiftr_div_pow2 by lia.
    rewrite (lor_disjoint _ _ (64 - s)); [lia|lia| |done]. rewrite Z.mul_comm. apply shl_high_bits. lia. }
  split; [|done]. rewrite E. pose proof (Z.pow_pos_nonneg 2 (64 - s) ltac:(lia) ltac:(lia)).
  assert (2 ^ (64 - s) * 2 ^ s = 2 ^ 64) as Ep by (rewrite <-Z.pow_add_r by lia; f_equal; lia).
  unfold is_u64. nia.
Qed.
Lemma shl_carry_spec w s : 0 <= s < 64 → is_u64 w →
  let c := u64 (Z.shiftl (u64 (Z.shiftl w (63 - s))) 1) in
  c = 2 ^ (64 - s) * (w mod 2 ^ s) ∧ 0 <= w mod 2 ^ s < 2 ^ s.
Proof.
  intros Hs Hw c. pose proof (Z.pow_pos_nonneg 2 s ltac:(lia) ltac:(lia)) as Hp.
  pose proof (Z.mod_pos_bound w (2 ^ s) Hp) as Hm. split; [|done]. subst c. rewrite shl_carry by done.
  assert (2 ^ (64 - s) * 2 ^ s = 2 ^ 64) as Ep by (rewrite <-Z.pow_add_r by lia; f_equal; lia).
  pose proof (Z.pow_pos_nonneg 2 (64 - s) ltac:(lia) ltac:(lia)).
  apply (u64_unique (w / 2 ^ s)); [unfold is_u64; nia|]. rewrite (Z.div_mod w (2 ^ s)) at 1 by lia. rewrite <-Ep. ring.
Qed.

(** The general shifts. *)
Lemma shl_loop_spec n s c x : 0 <= s < 64 → is_words n x → 0 <= c < 2 ^ s →
  is_words n (shl_loop s c x) ∧ ∃ c', 0 <= c' < 2 ^ s ∧ val (shl_loop s c x) + 2 ^ (64 * Z.of_nat n) * c' = val x * 2 ^ s + c.
Proof.
  intros Hs. revert c x. induction n as [|n IH]; intros c x.
  { intros ->%is_words_0 Hc. split; [apply is_words_nil|]. exists c. cbn [shl_loop val]. lia. }
  intros (w & x' & -> & Hw & Hx)%is_words_S Hc. cbn [shl_loop].
  destruct (shl_word_spec w s c Hs Hw Hc) as (Hr & Hc' & E). set (c1 := Z.shiftr (Z.shiftr w (63 - s)) 1) in *.
  destruct (IH c1 x' Hx Hc') as (Hl & c' & Hc2 & E2). rewrite is_words_cons. split; [done|]. exists c'. split; [done|].
  rewrite !val_cons, pow64_S. lia.
Qed.
Lemma is_words_take n m x : is_words n x → (m <= n)%nat → is_words m (take m x).
Proof. intros [H1 H2] Hm. split; [rewrite length_take; lia|by apply Forall_take]. Qed.
Lemma is_words_drop n m x : is_words n x → is_words (n - m) (drop m x).
Proof. intros [H1 H2]. split; [rewrite length_drop; lia|by apply Forall_drop]. Qed.
Lemma val_take_drop m x : (m <= length x)%nat → val x = val (take m x) + 2 ^ (64 * Z.of_nat m) * val (drop m x).
Proof. intros Hm. rewrite <-(take_drop m x) at 1. by rewrite val_app, length_take, Nat.min_l by lia. Qed.
Lemma skip_bounds n shift : 0 <= shift < 64 * Z.of_nat n →
  0 <= shift mod 64 < 64 ∧ (Z.to_nat (shift / 64) < n)%nat ∧ shift = shift mod 64 + 64 * Z.of_nat (Z.to_nat (shift / 64)).
Proof.
  intros H. pose proof (Z.mod_pos_bound shift 64 ltac:(lia)). pose proof (Z.div_mod shift 64 ltac:(lia)).
  pose proof (Z.div_pos shift 64 ltac:(lia) ltac:(lia)). lia.
Qed.
Lemma shift_out n v shift : 64 * Z.of_nat n <= shift → (v * 2 ^ shift) mod 2 ^ (64 * Z.of_nat n) = 0.
Proof.
  intros H. pose proof (pow64_pos n). apply Z.mod_divide; [lia|]. exists (v * 2 ^ (shift - 64 * Z.of_nat n)).
  rewrite <-Z.mul_assoc, <-Z.pow_add_r by lia. do 2 f_equal. lia.
Qed.
Lemma uint_shl_spec n x shift : is_words (S n) x → 0 <= shift →
  is_words (S n) (uint_shl x shift) ∧ val (uint_shl x shift) = (val x * 2 ^ shift) mod 2 ^ (64 * Z.of_nat (S n)).
Proof.
  intros Hx Hs. unfold uint_shl. rewrite (proj1 Hx). destruct (Z.leb_spec (64 * Z.of_nat (S n)) shift) as [H|H].
  { rewrite shift_out by done. by apply uint_of_spec. }
  destruct (skip_bounds (S n) shift) as (Hb & Hk & E); [done|]. set (s := shift mod 64) in *. set (k := Z.to_nat (shift / 64)) in *.
  pose proof (is_words_take _ (S n - k) _ Hx ltac:(lia)) as Ht. pose proof (Z.pow_pos_nonneg 2 s ltac:(lia) ltac:(lia)).
  destruct (shl_loop_spec _ s 0 _ Hb Ht ltac:(lia)) as (Hl & c' & Hc' & E2).
  pose proof (is_words_app _ _ _ _ (is_words_zeros k) Hl) as Hr. replace (k + (S n - k))%nat with (S n) in Hr by lia.
  split; [done|]. pose proof (is_words_range _ _ Hr) as Rr. rewrite val_app, val_zeros, length_replicate in *.
  apply (Z.mod_unique_pos _ _ (c' + val (drop (S n - k) x) * 2 ^ s)); [done|].
  rewrite (val_take_drop (S n - k) x) by (rewrite (proj1 Hx); lia). rewrite E, Z.pow_add_r by lia.
  replace (64 * Z.of_nat (S n)) with (64 * Z.of_nat k + 64 * Z.of_nat (S n - k)) by lia. rewrite Z.pow_add_r by lia.
  set (a := 2 ^ (64 * Z.of_nat k)) in *. set (b := 2 ^ (64 * Z.of_nat (S n - k))) in *.
  replace ((val (take (S n - k) x) + b * val (drop (S n - k) x)) * (2 ^ s * a))
    with (a * (val (take (S n - k) x) * 2 ^ s + 0) + a * b * (val (drop (S n - k) x) * 2 ^ s)) by ring. rewrite <-E2. ring.
Qed.
(** [>>] walks down: its argument is reversed. *)
Lemma shr_loop_spec n s q x : 0 <= s < 64 → is_words n x → 0 <= q < 2 ^ s →
  let r := reverse (shr_loop s (2 ^ (64 - s) * q) (reverse x)) in
  is_words n r ∧ val r = (val x + 2 ^ (64 * Z.of_nat n) * q) / 2 ^ s.
Proof.
  intros Hs Hx. pose proof (Z.pow_pos_nonneg 2 s ltac:(lia) ltac:(lia)) as Hp. revert q x Hx. induction n as [|n IH]; intros q x Hx Hq.
  { apply is_words_0 in Hx as ->. split; [apply is_words_nil|]. change (64 * Z.of_nat 0) with 0. cbn [reverse rev_append shr_loop val].
    symmetry. apply Z.div_small. lia. }
  destruct x as [|w x _] using rev_ind; [by destruct Hx|]. assert (is_words n x ∧ is_u64 w) as [Hx' Hw].
  { destruct Hx as [H1 H2]. rewrite length_app in H1. cbn [length] in H1. apply Forall_app in H2 as [H2 H3].
    apply Forall_cons in H3 as [H3 _]. split; [split; [lia|done]|done]. }
  rewrite reverse_snoc. cbn [shr_loop]. cbv zeta. rewrite reverse_cons.
  destruct (shl_carry_spec w s Hs Hw) as [-> Hq']. destruct (IH (w mod 2 ^ s) x Hx' Hq') as [Hr Er].
  destruct (shr_word_spec w s q Hs Hw Hq) as [Hu Eu]. split.
  { replace (S n) with (n + 1)%nat by lia. apply is_words_app; [done|]. apply is_words_cons. split; [done|apply is_words_nil]. }
  rewrite !val_app, Er, Eu, (proj1 Hr), (proj1 Hx'), pow64_S. cbn [val]. set (b := 2 ^ (64 * Z.of_nat n)).
  assert (2 ^ (64 - s) * 2 ^ s = 2 ^ 64) as Ep by (rewrite <-Z.pow_add_r by lia; f_equal; lia). rewrite <-Ep.
  rewrite (Z.div_mod w (2 ^ s)) at 3 by lia.
  replace (val x + b * (2 ^ s * (w / 2 ^ s) + w mod 2 ^ s + 2 ^ (64 - s) * 2 ^ s * 0) + 2 ^ (64 - s) * 2 ^ s * b * q)
    with (val x + b * (w mod 2 ^ s) + (b * (w / 2 ^ s + 2 ^ (64 - s) * q)) * 2 ^ s) by ring. rewrite Z.div_add by lia. ring.
Qed.
Lemma shr_nothing n v shift : 0 <= v < 2 ^ (64 * Z.of_nat n) → 64 * Z.of_nat n <= shift → v / 2 ^ shift = 0.
Proof.
  intros Hv Hs. apply Z.div_small. split; [lia|]. eapply Z.lt_le_trans; [apply Hv|]. apply Z.pow_le_mono_r; lia.
Qed.
Lemma div_pow_add a b s : 0 <= a → 0 <= s → b / 2 ^ (s + a) = b / 2 ^ a / 2 ^ s.
Proof.
  intros Ha Hs. rewrite Z.add_comm, Z.pow_add_r by done. pose proof (Z.pow_pos_nonneg 2 a ltac:(lia) Ha).
  pose proof (Z.pow_pos_nonneg 2 s ltac:(lia) Hs). by rewrite Z.div_div by lia.
Qed.
Lemma uint_shr_spec n x shift : is_words (S n) x → 0 <= shift →
  is_words (S n) (uint_shr x shift) ∧ val (uint_shr x shift) = val x / 2 ^ shift.
Proof.
  intros Hx Hs. unfold uint_shr. rewrite (proj1 Hx). pose proof (is_words_range _ _ Hx) as Rx.
  destruct (Z.leb_spec (64 * Z.of_nat (S n)) shift) as [H|H].
  { rewrite (shr_nothing (S n)) by done. by apply uint_of_spec. }
  destruct (skip_bounds (S n) shift) as (Hb & Hk & E); [done|]. set (s := shift mod 64) in *. set (k := Z.to_nat (shift / 64)) in *.
  rewrite take_reverse, (proj1 Hx). replace (S n - (S n - k))%nat with k by lia.
  pose proof (is_words_drop _ k _ Hx) as Hd. pose proof (Z.pow_pos_nonneg 2 s ltac:(lia) ltac:(lia)).
  destruct (shr_loop_spec _ s 0 _ Hb Hd ltac:(lia)) as [Hl El]. rewrite Z.mul_0_r in Hl, El.
  pose proof (is_words_app _ _ _ _ Hl (is_words_zeros k)) as Hr. replace (S n - k + k)%nat with (S n) in Hr by lia.
  split; [done|]. rewrite val_app, val_zeros, El, !Z.mul_0_r, !Z.add_0_r, E, div_pow_add by lia. f_equal.
  rewrite (val_take_drop k x) at 1 by (rewrite (proj1 Hx); lia). pose proof (pow64_pos k).
  rewrite Z.mul_comm, Z.div_add by lia. rewrite Z.div_small; [lia|]. apply is_words_range, (is_words_take (S n)); [done|lia].
Qed.

(** The overloads for [uint128] and [uint256]. *)
Lemma shl128_spec x s : is_words 2 x → 0 <= s → is_words 2 (shl128 x s) ∧ val (shl128 x s) = (val x * 2 ^ s) mod 2 ^ 128.
Proof.
  intros (a & b & -> & Ha & Hb)%is_words_2_inv Hs. unfold shl128, word. cbn [nth]. rewrite val_2.
  destruct (Z.ltb_spec s 64) as [H|H]; [|destruct (Z.ltb_spec s 128) as [H2|H2]].
  - assert (0 <= 0 < 2 ^ s) as H0 by (pose proof (Z.pow_pos_nonneg 2 s ltac:(lia) Hs); lia).
    destruct (shl_word_spec a s 0 ltac:(lia) Ha H0) as (Hr & Hc & E). rewrite Z.lor_0_r in Hr, E.
    set (c := Z.shiftr (Z.shiftr a (63 - s)) 1) in *.
    replace (Z.shiftr (Z.shiftr a 1) (63 - s)) with c by (subst c; rewrite !Z.shiftr_shiftr by lia; f_equal; lia).
    destruct (shl_word_spec b s c ltac:(lia) Hb Hc) as (Hr2 & Hc2 & E2). split; [by apply is_words_2|]. rewrite val_2.
    set (c2 := Z.shiftr (Z.shiftr b (63 - s)) 1) in *. unfold is_u64 in *.
    apply (Z.mod_unique_pos _ _ c2); [change (2 ^ 128) with (2 ^ 64 * 2 ^ 64); lia|].
    replace ((a + 2 ^ 64 * b) * 2 ^ s) with (a * 2 ^ s + 0 + 2 ^ 64 * (b * 2 ^ s + c) - 2 ^ 64 * c) by ring. rewrite <-E, <-E2. ring.
  - split; [apply is_words_2; split; [done|apply u64_range]|]. rewrite val_2, Z.shiftl_mul_pow2 by lia.
    pose proof (u64_range (a * 2 ^ (s - 64))) as Hr. pose proof (u64_split (a * 2 ^ (s - 64))) as E. unfold is_u64 in *.
    apply (Z.mod_unique_pos _ _ (a * 2 ^ (s - 64) / 2 ^ 64 + b * 2 ^ (s - 64))); [change (2 ^ 128) with (2 ^ 64 * 2 ^ 64); lia|].
    replace s with (64 + (s - 64)) at 1 by lia. rewrite Z.pow_add_r by lia. 
    replace ((a + 2 ^ 64 * b) * (2 ^ 64 * 2 ^ (s - 64))) with (2 ^ 64 * (a * 2 ^ (s - 64)) + 2 ^ 128 * (b * 2 ^ (s - 64))) by ring.
    rewrite E at 1. ring.
  - split; [by apply uint_of_spec|]. symmetry. apply (shift_out 2). lia.
Qed.
Lemma shr128_spec x s : is_words 2 x → 0 <= s → is_words 2 (shr128 x s) ∧ val (shr128 x s) = val x / 2 ^ s.
Proof.
  intros (a & b & -> & Ha & Hb)%is_words_2_inv Hs. unfold shr128, word. cbn [nth].
  destruct (Z.ltb_spec s 64) as [H|H]; [|destruct (Z.ltb_spec s 128) as [H2|H2]].
  - pose proof (Z.pow_pos_nonneg 2 s ltac:(lia) Hs) as Hp.
    replace (u64 (Z.shiftl (u64 (Z.shiftl b 1)) (63 - s))) with (u64 (Z.shiftl (u64 (Z.shiftl b (63 - s))) 1)).
    2: { rewrite !Z.shiftl_mul_pow2 by lia. autorewrite with u64_pull. f_equal. ring. }
    destruct (shl_carry_spec b s ltac:(lia) Hb) as [-> Hq]. destruct (shr_word_spec a s _ ltac:(lia) Ha Hq) as [Hu Eu].
    split; [apply is_words_2; split; [done|by apply shr_word; [lia|]]|]. rewrite !val_2, Eu, Z.shiftr_div_pow2 by lia.
    assert (2 ^ (64 - s) * 2 ^ s = 2 ^ 64) as Ep by (rewrite <-Z.pow_add_r by lia; f_equal; lia). rewrite <-Ep.
    rewrite (Z.div_mod b (2 ^ s)) at 3 by lia.
    replace (a + 2 ^ (64 - s) * 2 ^ s * (2 ^ s * (b / 2 ^ s) + b mod 2 ^ s))
      with (a + (2 ^ (64 - s) * (2 ^ s * (b / 2 ^ s) + b mod 2 ^ s)) * 2 ^ s) by ring. rewrite Z.div_add by lia. ring.
  - rewrite val_2, Z.shiftr_div_pow2 by lia. replace s with ((s - 64) + 64) at 3 by lia. rewrite div_pow_add by lia.
    rewrite (Z.mul_comm (2 ^ 64) b), Z.div_add, (Z.div_small a) by (done || lia). rewrite Z.add_0_l.
    rewrite <-Z.shiftr_div_pow2 by lia. apply uint_of_spec, shr_word; [lia|done].
  - rewrite (shr_nothing 2); [by apply uint_of_spec|apply is_words_range, is_words_2; done|lia].
Qed.
Lemma val_4 a b c d : val [a; b; c; d] = val [a; b] + 2 ^ 128 * val [c; d].
Proof. cbn [val]. ring. Qed.
Lemma is_words_4 a b c d : is_words 2 [a; b] → is_words 2 [c; d] → is_words 4 [a; b; c; d].
Proof. apply (is_words_app 2 2 [a; b] [c; d]). Qed.
(** A number of two halves, shifted: what leaves the low half enters the high one. *)
Lemma halves_shl lo hi s : 0 <= lo < 2 ^ 128 → 0 <= s < 128 →
  let over := lo / 2 ^ (128 - s) in
  (hi * 2 ^ s) mod 2 ^ 128 mod 2 ^ s = 0 ∧ 0 <= over < 2 ^ s ∧
  lo * 2 ^ s = (lo * 2 ^ s) mod 2 ^ 128 + 2 ^ 128 * over.
Proof.
  intros Hlo Hs over. assert (2 ^ (128 - s) * 2 ^ s = 2 ^ 128) as Ep by (rewrite <-Z.pow_add_r by lia; f_equal; lia).
  pose proof (Z.pow_pos_nonneg 2 s ltac:(lia) ltac:(lia)). pose proof (Z.pow_pos_nonneg 2 (128 - s) ltac:(lia) ltac:(lia)).
  split_and!.
  - pose proof (Z.div_mod (hi * 2 ^ s) (2 ^ 128) ltac:(lia)) as E. rewrite <-Ep in E at 1.
    apply Z.mod_divide; [lia|]. exists (hi - 2 ^ (128 - s) * (hi * 2 ^ s / 2 ^ 128)). lia.
  - apply Z.div_pos; lia.
  - apply Z.div_lt_upper_bound; lia.
  - assert (over = lo * 2 ^ s / 2 ^ 128) as -> by (rewrite <-Ep; symmetry; apply Z.div_mul_cancel_r; lia).
    pose proof (Z.div_mod (lo * 2 ^ s) (2 ^ 128) ltac:(lia)). lia.
Qed.
Lemma shl256_spec x s : is_words 4 x → 0 <= s → is_words 4 (shl256 x s) ∧ val (shl256 x s) = (val x * 2 ^ s) mod 2 ^ 256.
Proof.
  intros (a & b & c & d & -> & Ha & Hb & Hc & Hd)%is_words_4_inv Hs. unfold shl256, word. cbn [nth].
  assert (is_words 2 [a; b]) as Hl by (by apply is_words_2). assert (is_words 2 [c; d]) as Hh by (by apply is_words_2).
  pose proof (is_words_range _ _ Hl) as Rl. pose proof (is_words_range _ _ Hh) as Rh. rewrite val_4.
  set (lo := val [a; b]) in *. set (hi := val [c; d]) in *. change (64 * Z.of_nat 2) with 128 in *.
  change (2 ^ 256) with (2 ^ 128 * 2 ^ 128).
  destruct (Z.leb_spec 256 s) as [H|H]; [|destruct (Z.ltb_spec s 128) as [H2|H2]].
  - split; [by apply uint_of_spec|]. symmetry. apply (shift_out 4). lia.
  - destruct (shl128_spec [a; b] s Hl Hs) as [H3 E3]. destruct (shl128_spec [c; d] s Hh Hs) as [H4 E4].
    destruct (shr128_spec [a; b] (128 - s - 1) Hl ltac:(lia)) as [H5 E5]. destruct (shr128_spec _ 1 H5 ltac:(lia)) as [H6 E6].
    destruct (uint_or_spec _ _ _ H4 H6) as [H7 E7]. fold lo in E3, E5. fold hi in E4.
    destruct (halves_shl lo hi s Rl ltac:(lia)) as (Z1 & Z2 & Z3).
    rewrite E6, E5, E4, <-div_pow_add in E7 by lia. replace (1 + (128 - s - 1)) with (128 - s) in E7 by lia.
    rewrite (lor_disjoint _ _ s) in E7 by (done || lia). pose proof (is_words_range _ _ H7) as R7. rewrite E7 in R7.
    destruct (is_words_2_inv _ H3) as (a' & b' & Es & _). rewrite Es in *.
    destruct (is_words_2_inv _ H7) as (c' & d' & Es' & _). rewrite Es' in *. cbn [nth].
    split; [by apply is_words_4|]. rewrite val_4, E3, E7. pose proof (Z.mod_pos_bound (lo * 2 ^ s) (2 ^ 128) ltac:(lia)).
    pose proof (Z.div_mod (hi * 2 ^ s) (2 ^ 128) ltac:(lia)) as Eh. change (64 * Z.of_nat 2) with 128 in *.
    apply (Z.mod_unique_pos _ _ (hi * 2 ^ s / 2 ^ 128)); [lia|].
    replace ((lo + 2 ^ 128 * hi) * 2 ^ s) with (lo * 2 ^ s + 2 ^ 128 * (hi * 2 ^ s)) by ring. lia.
  - destruct (shl128_spec [a; b] (s - 128) Hl ltac:(lia)) as [H3 E3]. fold lo in E3.
    destruct (is_words_2_inv _ H3) as (a' & b' & Es & _). rewrite Es in *. cbn [nth].
    split; [by apply is_words_4; [apply is_words_2|]|].
    rewrite val_4, E3. change (val [0; 0]) with 0. rewrite Z.add_0_l.
    replace s with (128 + (s - 128)) at 2 by lia. rewrite Z.pow_add_r by lia.
    replace ((lo + 2 ^ 128 * hi) * (2 ^ 128 * 2 ^ (s - 128))) with (2 ^ 128 * (lo * 2 ^ (s - 128)) + (hi * 2 ^ (s - 128)) * (2 ^ 128 * 2 ^ 128)) by ring.
    rewrite Z.mod_add, Z.mul_mod_distr_l by lia. done.
Qed.
Lemma shr256_spec x s : is_words 4 x → 0 <= s → is_words 4 (shr256 x s) ∧ val (shr256 x s) = val x / 2 ^ s.
Proof.
  intros Hx4 Hs. pose proof (is_words_range _ _ Hx4) as R4. revert Hx4 R4.
  intros (a & b & c & d & -> & Ha & Hb & Hc & Hd)%is_words_4_inv R4. unfold shr256, word. cbn [nth].
  assert (is_words 2 [a; b]) as Hl by (by apply is_words_2). assert (is_words 2 [c; d]) as Hh by (by apply is_words_2).
  pose proof (is_words_range _ _ Hl) as Rl. pose proof (is_words_range _ _ Hh) as Rh. rewrite val_4 in *.
  set (lo := val [a; b]) in *. set (hi := val [c; d]) in *. change (64 * Z.of_nat 2) with 128 in *.
  destruct (Z.leb_spec 256 s) as [H|H]; [|destruct (Z.ltb_spec s 128) as [H2|H2]].
  - split; [by apply uint_of_spec|]. symmetry. apply (shr_nothing 4); [done|lia].
  - destruct (shr128_spec [a; b] s Hl Hs) as [H3 E3]. destruct (shr128_spec [c; d] s Hh Hs) as [H4 E4].
    destruct (shl128_spec [c; d] (128 - s - 1) Hh ltac:(lia)) as [H5 E5]. destruct (shl128_spec _ 1 H5 ltac:(lia)) as [H6 E6].
    destruct (uint_or_spec _ _ _ H3 H6) as [H7 E7]. fold lo in E3. fold hi in E4, E5.
    assert (2 ^ (128 - s) * 2 ^ s = 2 ^ 128) as Ep by (rewrite <-Z.pow_add_r by lia; f_equal; lia).
    pose proof (Z.pow_pos_nonneg 2 s ltac:(lia) ltac:(lia)). pose proof (Z.pow_pos_nonneg 2 (128 - s) ltac:(lia) ltac:(lia)).
    assert ((hi * 2 ^ (128 - s - 1)) mod 2 ^ 128 * 2 ^ 1 mod 2 ^ 128 = 2 ^ (128 - s) * (hi mod 2 ^ s)) as Eo.
    { rewrite Z.mul_mod_idemp_l by lia. replace (hi * 2 ^ (128 - s - 1) * 2 ^ 1) with (2 ^ (128 - s) * hi).
      - rewrite <-Ep. by rewrite Z.mul_mod_distr_l by lia.
      - rewrite <-Z.mul_assoc, <-Z.pow_add_r by lia. rewrite Z.mul_comm. do 2 f_equal. lia. }
    rewrite E3, E6, E5, Eo, Z.lor_comm in E7. rewrite (lor_disjoint _ _ (128 - s)) in E7.
    2: lia.
    2: { rewrite Z.mul_comm. apply shl_high_bits. lia. }
    2: { split; [apply Z.div_pos; lia|]. apply Z.div_lt_upper_bound; lia. }
    destruct (is_words_2_inv _ H4) as (a' & b' & Es & _). rewrite Es in *.
    destruct (is_words_2_inv _ H7) as (c' & d' & Es' & _). rewrite Es' in *. cbn [nth].
    split; [by apply is_words_4|]. rewrite val_4, E7, E4, <-Ep.
    rewrite (Z.div_mod hi (2 ^ s)) at 3 by lia.
    replace (lo + 2 ^ (128 - s) * 2 ^ s * (2 ^ s * (hi / 2 ^ s) + hi mod 2 ^ s))
      with (lo + (2 ^ (128 - s) * (2 ^ s * (hi / 2 ^ s) + hi mod 2 ^ s)) * 2 ^ s) by ring. rewrite Z.div_add by lia. ring.
  - destruct (shr128_spec [c; d] (s - 128) Hh ltac:(lia)) as [H3 E3]. fold hi in E3.
    destruct (is_words_2_inv _ H3) as (a' & b' & Es & _). rewrite Es in *. cbn [nth].
    split; [apply is_words_4; [done|by apply is_words_2]|].
    rewrite val_4, E3. change (val [0; 0]) with 0. rewrite Z.mul_0_r, Z.add_0_r.
    replace s with ((s - 128) + 128) at 2 by lia. rewrite div_pow_add by lia.
    rewrite (Z.mul_comm (2 ^ 128) hi), Z.div_add, (Z.div_small lo) by (done || lia). done.
Qed.

(** ** Words of a number *)
Lemma word_zero_val x : (∀ j, (j < length x)%nat → word x j = 0) → val x = 0.
Proof.
  induction x as [|w x IH]; [done|]. intros H. rewrite val_cons. pose proof (H 0%nat ltac:(cbn; lia)) as H0. unfold word in H0. cbn in H0.
  rewrite IH; [lia|]. intros j Hj. apply (H (S j)). cbn. lia.
Qed.
Lemma word_u64 x i : Forall is_u64 x → is_u64 (word x i).
Proof. intros H. revert i. induction H as [|w x Hw H IH]; intros [|i]; unfold word; cbn [nth]; [done..|apply IH]. Qed.
Lemma word_drop x i j : word (drop i x) j = word x (i + j).
Proof. revert x. induction i as [|i IH]; intros [|w x]; cbn; [done..| |apply IH]. unfold word. by destruct j. Qed.
Lemma word_take x i j : (j < i)%nat → word (take i x) j = word x j.
Proof. revert i j. induction x as [|w x IH]; intros [|i] [|j] H; cbn; try done; try lia. apply IH. lia. Qed.
Lemma word_app_l x y i : (i < length x)%nat → word (x ++ y) i = word x i.
Proof. intros. by apply app_nth1. Qed.
Lemma word_app_r x y i : word (x ++ y) (length x + i) = word y i.
Proof. unfold word. rewrite app_nth2 by lia. f_equal. lia. Qed.
(** The value up to and including a word. *)
Lemma val_take_S x i : (i < length x)%nat → val (take (S i) x) = val (take i x) + 2 ^ (64 * Z.of_nat i) * word x i.
Proof.
  revert i. induction x as [|w x IH]; intros [|i] Hi; cbn [length] in Hi; try lia.
  - cbn [take]. rewrite val_cons. unfold word. cbn [nth take val]. rewrite take_0. change (2 ^ (64 * Z.of_nat 0)) with 1. cbn [val]. lia.
  - cbn [take]. rewrite !val_cons, pow64_S. rewrite (IH i) by lia. cbn [take]. 
    change (word (w :: x) (S i)) with (word x i). ring.
Qed.

(** ** Products *)
Lemma mul_step_spec p xi yj k : is_u64 p → is_u64 xi → is_u64 yj → is_u64 k →
  ∃ t0 t1, mul_step p xi yj k = [t0; t1] ∧ is_u64 t0 ∧ is_u64 t1 ∧ t0 + 2 ^ 64 * t1 = p + xi * yj + k.
Proof.
  intros Hp Hx Hy Hk. unfold mul_step. pose proof (addc64_spec p k false Hp Hk) as Ha.
  destruct (addc64 p k false) as [a c]. destruct Ha as [Ha Ea]. cbn [fst snd Z.b2z] in *.
  destruct (umul64_spec xi yj Hx Hy) as [Hu Eu]. assert (is_words 2 [a; Z.b2z c]) as Hac.
  { apply is_words_2. split; [done|]. pose proof (b2z_range c). unfold is_u64. lia. }
  destruct (uint_add_spec 2 _ _ Hu Hac) as [Ht Et]. destruct (is_words_2_inv _ Ht) as (t0 & t1 & E & H0 & H1).
  exists t0, t1. split_and!; [done..|]. rewrite E, !val_2, Eu in Et. change (64 * Z.of_nat 2) with 128 in Et. rewrite Et.
  unfold is_u64 in *. rewrite Z.mod_small; [lia|]. assert (0 <= xi * yj <= (2 ^ 64 - 1) * (2 ^ 64 - 1)) by nia. lia.
Qed.
Lemma mul_row_spec n p x yj k : is_words n p → is_words n x → is_u64 yj → is_u64 k →
  let '(r, k') := mul_row p x yj k in
  is_words n r ∧ is_u64 k' ∧ val r + 2 ^ (64 * Z.of_nat n) * k' = val p + val x * yj + k.
Proof.
  intros Hp Hx Hy. revert p x k Hp Hx. induction n as [|n IH]; intros p x k.
  { intros ->%is_words_0 ->%is_words_0 Hk. cbn [mul_row val]. split_and!; [apply is_words_nil|done|]. lia. }
  intros (p0 & p' & -> & Hp0 & Hp)%is_words_S (w & x' & -> & Hw & Hx)%is_words_S Hk. cbn [mul_row].
  destruct (mul_step_spec p0 w yj k Hp0 Hw Hy Hk) as (t0 & t1 & E & H0 & H1 & Et). rewrite E. unfold word. cbn [nth].
  specialize (IH p' x' t1 Hp Hx H1). destruct (mul_row p' x' yj t1) as [r k']. destruct IH as (Hr & Hk' & Er).
  rewrite is_words_cons, !val_cons, pow64_S. split_and!; [done..|]. 
  replace (t0 + 2 ^ 64 * val r + 2 ^ 64 * 2 ^ (64 * Z.of_nat n) * k') with (t0 + 2 ^ 64 * (val r + 2 ^ (64 * Z.of_nat n) * k')) by ring.
  rewrite Er. replace (p0 + 2 ^ 64 * val p' + (w + 2 ^ 64 * val x') * yj + k) with (p0 + w * yj + k + 2 ^ 64 * (val p' + val x' * yj)) by ring.
  rewrite <-Et. ring.
Qed.
(** [umul]: the product of a number of [n] words by one of [m], in [n + m] words. *)
Lemma umul_loop_spec n m p x y : (0 < n)%nat → is_words n p → is_words n x → is_words m y →
  is_words (n + m) (umul_loop (p ++ replicate m 0) x y) ∧
  val (umul_loop (p ++ replicate m 0) x y) = val p + val x * val y.
Proof.
  intros Hn Hp Hx. revert p Hp y. induction m as [|m IH]; intros p Hp y.
  { intros ->%is_words_0. cbn [replicate umul_loop val]. rewrite app_nil_r, Nat.add_0_r, Z.mul_0_r, Z.add_0_r. done. }
  intros (yj & y' & -> & Hyj & Hy)%is_words_S. cbn [umul_loop]. rewrite (proj1 Hx), take_app_le, take_ge by (rewrite (proj1 Hp); lia).
  pose proof (mul_row_spec n p x yj 0 Hp Hx Hyj ltac:(done)) as Hr. destruct (mul_row p x yj 0) as [r k]. destruct Hr as (Hr & Hk & Er).
  replace (drop (n + 1) (p ++ replicate (S m) 0)) with (replicate m 0).
  2: { rewrite drop_app_ge by (rewrite (proj1 Hp); lia). rewrite (proj1 Hp). by replace (n + 1 - n)%nat with 1%nat by lia. }
  destruct n as [|n]; [lia|]. destruct (is_words_S _ _ Hr) as (p0 & r' & -> & Hp0 & Hr'). cbn [app].
  assert (is_words (S n) (r' ++ [k])) as Hrk.
  { replace (S n) with (n + 1)%nat by lia. apply is_words_app; [done|]. apply is_words_cons. split; [done|apply is_words_nil]. }
  destruct (IH _ Hrk y' Hy) as [H E]. rewrite <-app_assoc in H, E. cbn [app] in H, E.
  replace (S n + S m)%nat with (S (S n + m)) by lia. rewrite is_words_cons. split; [done|].
  rewrite !val_cons, E, val_app, (proj1 Hr'). rewrite val_cons, pow64_S in Er. cbn [val].
  replace (p0 + 2 ^ 64 * (val r' + 2 ^ (64 * Z.of_nat n) * (k + 2 ^ 64 * 0) + val x * val y'))
    with (p0 + 2 ^ 64 * val r' + 2 ^ 64 * 2 ^ (64 * Z.of_nat n) * k + 2 ^ 64 * (val x * val y')) by ring. rewrite Er. ring.
Qed.
Lemma uint_umul_spec n x y : is_words (S n) x → is_words (S n) y →
  is_words (2 * S n) (uint_umul x y) ∧ val (uint_umul x y) = val x * val y.
Proof.
  intros Hx Hy. unfold uint_umul. rewrite (proj1 Hx). replace (2 * S n)%nat with (S n + S n)%nat by lia.
  rewrite replicate_add. destruct (umul_loop_spec (S n) (S n) _ x y ltac:(lia) (is_words_zeros (S n)) Hx Hy) as [H E].
  split; [done|]. rewrite E, val_zeros. lia.
Qed.
(** [operator*]: the product modulo 2^N. *)
Lemma mod_cons a w b m : 0 <= a < w → 0 < m → (a + w * b) mod (w * m) = a + w * (b mod m).
Proof.
  intros Ha Hm. pose proof (Z.div_mod b m ltac:(lia)) as E. pose proof (Z.mod_pos_bound b m Hm) as R.
  symmetry. apply (Z.mod_unique_pos _ _ (b / m)); [nia|]. rewrite E at 1. ring.
Qed.
Lemma mul_loop_spec m p x y : is_words m p → is_words m y → Forall is_u64 x → (m <= length x)%nat →
  is_words m (mul_loop p x y) ∧ val (mul_loop p x y) = (val p + val x * val y) mod 2 ^ (64 * Z.of_nat m).
Proof.
  intros Hp Hy Hx. revert p Hp y Hy. induction m as [|m IH]; intros p Hp y Hy Hm.
  { apply is_words_0 in Hp as ->. apply is_words_0 in Hy as ->. split; [apply is_words_nil|]. by rewrite Z.mod_1_r. }
  destruct (is_words_S _ _ Hy) as (yj & y' & -> & Hyj & Hy'). cbn [mul_loop]. rewrite (proj1 Hp). replace (S m - 1)%nat with m by lia.
  assert (is_words (length x) x) as Hx' by (by split). pose proof (is_words_take _ m _ Hx' ltac:(lia)) as Htx.
  pose proof (is_words_take _ m _ Hp ltac:(lia)) as Htp.
  pose proof (mul_row_spec m _ _ yj 0 Htp Htx Hyj ltac:(done)) as Hr. destruct (mul_row (take m p) (take m x) yj 0) as [r k].
  destruct Hr as (Hr & Hk & Er). set (top := u64 _). assert (is_u64 top) as Htop by apply u64_range.
  assert (is_words (S m) (r ++ [top])) as Hrt.
  { replace (S m) with (m + 1)%nat by lia. apply is_words_app; [done|]. apply is_words_cons. split; [done|apply is_words_nil]. }
  assert (∃ q, val (r ++ [top]) = val p + val x * yj + 2 ^ (64 * Z.of_nat (S m)) * q) as [q Eq].
  { rewrite val_app, (proj1 Hr). cbn [val]. subst top. autorewrite with u64_pull.
    assert (val p = val (take m p) + 2 ^ (64 * Z.of_nat m) * word p m) as ->.
    { rewrite <-val_take_S by (rewrite (proj1 Hp); lia). by rewrite take_ge by (rewrite (proj1 Hp); lia). }
    rewrite (val_take_drop (S m) x), val_take_S by lia.
    rewrite pow64_S. set (b := 2 ^ (64 * Z.of_nat m)) in *. set (s := word p m + _). pose proof (u64_split s) as Es.
    exists (- (s / 2 ^ 64) - val (drop (S m) x) * yj).
    replace (u64 s) with (s - 2 ^ 64 * (s / 2 ^ 64)) by lia.
    replace (val r) with (val (take m p) + val (take m x) * yj + 0 - b * k) by lia. subst s. ring. }
  destruct (is_words_S _ _ Hrt) as (p0 & p' & E & Hp0 & Hp'). rewrite E in Eq |- *.
  destruct (IH p' Hp' y' Hy' ltac:(lia)) as [H El]. rewrite is_words_cons. split; [done|].
  rewrite val_cons, El, pow64_S. rewrite <-mod_cons by (done || apply pow64_pos). rewrite <-pow64_S.
  rewrite (val_cons p0), pow64_S in Eq. rewrite val_cons.
  replace (p0 + 2 ^ 64 * (val p' + val x * val y')) with (p0 + 2 ^ 64 * val p' + 2 ^ 64 * (val x * val y')) by ring.
  rewrite Eq. rewrite pow64_S. set (b := 2 ^ (64 * Z.of_nat m)) in *. pose proof (pow64_pos m).
  replace (val p + val x * yj + 2 ^ 64 * b * q + 2 ^ 64 * (val x * val y')) with (val p + val x * (yj + 2 ^ 64 * val y') + q * (2 ^ 64 * b)) by ring.
  apply Z.mod_add. subst b. lia.
Qed.
Lemma uint_mul_spec n x y : is_words n x → is_words n y →
  is_words n (uint_mul x y) ∧ val (uint_mul x y) = (val x * val y) mod 2 ^ (64 * Z.of_nat n).
Proof.
  intros Hx Hy. unfold uint_mul. rewrite (proj1 Hx).
  destruct (mul_loop_spec n _ x y (is_words_zeros n) Hy (proj2 Hx)) as [H E]; [rewrite (proj1 Hx); lia|].
  split; [done|]. by rewrite E, val_zeros.
Qed.
Lemma mul128_spec x y : is_words 2 x → is_words 2 y → is_words 2 (mul128 x y) ∧ val (mul128 x y) = (val x * val y) mod 2 ^ 128.
Proof.
  intros (a & b & -> & Ha & Hb)%is_words_2_inv (c & d & -> & Hc & Hd)%is_words_2_inv. unfold mul128, word. cbn [nth].
  destruct (umul64_spec a c Ha Hc) as [Hu Eu]. destruct (is_words_2_inv _ Hu) as (lo & hi & E & Hlo & Hhi). rewrite E in *. cbn [nth].
  autorewrite with u64_pull. set (s := hi + _). split; [apply is_words_2; split; [done|apply u64_range]|]. rewrite !val_2 in *.
  pose proof (u64_range s) as Rs. pose proof (u64_split s) as Es. unfold is_u64 in *.
  apply (Z.mod_unique_pos _ _ (s / 2 ^ 64 + b * d)); [change (2 ^ 128) with (2 ^ 64 * 2 ^ 64); lia|].
  replace ((a + 2 ^ 64 * b) * (c + 2 ^ 64 * d)) with (a * c + 2 ^ 64 * (a * d + b * c) + 2 ^ 128 * (b * d)) by ring. rewrite <-Eu.
  replace (u64 s) with (s - 2 ^ 64 * (s / 2 ^ 64)) by lia. subst s. ring.
Qed.

(** ** Significant words *)
Lemma count_loop_spec x i : (count_loop x i <= i)%nat ∧
  (∀ j, (count_loop x i <= j < i)%nat → word x j = 0) ∧
  ((0 < count_loop x i)%nat → word x (count_loop x i - 1) ≠ 0).
Proof.
  induction i as [|i IH]; cbn [count_loop]; [split_and!; intros; lia|].
  destruct (Z.eqb_spec (word x i) 0) as [E|E]; cbn [negb].
  - destruct IH as (H1 & H2 & H3). split_and!; [lia| |done]. intros j Hj. destruct (decide (j = i)) as [->|]; [done|]. apply H2. lia.
  - split_and!; [lia|intros; lia|]. intros _. by replace (S i - 1)%nat with i by lia.
Qed.
Lemma count_significant_words_spec n x : is_words n x →
  let w := count_significant_words x in
  (w <= n)%nat ∧ (∀ j, (w <= j)%nat → word x j = 0) ∧ val x = val (take w x) ∧
  ((0 < w)%nat → 0 < word x (w - 1) ∧ 2 ^ (64 * Z.of_nat (w - 1)) <= val x).
Proof.
  intros Hx w. destruct (count_loop_spec x (length x)) as (H1 & H2 & H3). fold (count_significant_words x) in *. fold w in H1, H2, H3.
  rewrite (proj1 Hx) in *. assert (∀ j, (w <= j)%nat → word x j = 0) as Hz.
  { intros j Hj. destruct (decide (j < n)%nat); [apply H2; lia|]. unfold word. apply nth_overflow. rewrite (proj1 Hx). lia. }
  assert (val x = val (take w x)) as Ev.
  { rewrite (val_take_drop w x) by (rewrite (proj1 Hx); lia). rewrite (word_zero_val (drop w x)); [lia|].
    intros j Hj. rewrite word_drop. apply Hz. lia. }
  split_and!; [done..|]. intros Hw. pose proof (word_u64 x (w - 1) (proj2 Hx)) as Hu. unfold is_u64 in Hu.
  assert (0 < word x (w - 1)) as Hpos by (specialize (H3 Hw); lia). split; [done|]. rewrite Ev.
  replace w with (S (w - 1)) at 2 by lia. rewrite val_take_S by (rewrite (proj1 Hx); lia).
  pose proof (is_words_range _ _ (is_words_take _ (w - 1) _ Hx ltac:(lia))). pose proof (pow64_pos (w - 1)). nia.
Qed.
