(* ===== verification/IntxDiv.v ===== *)
(** * intx: division of two and three words

    pkgs/intx-0.10.0/include/intx/intx.hpp: division by a word or by two words
    without a division instruction, by a reciprocal that is computed once
    (Moller and Granlund, Improved division by invariant integers).  The
    reciprocals are exact, and so are the quotients and remainders. *)
From Stdlib Require Import ZArith Lia.
From stdpp Require Import base tactics numbers list.
From S2P Require Import Prelude Intx.

Local Open Scope Z_scope.

Definition u32 : Z → Z := wrapu 32.
Arguments u32 : simpl never.

Definition reciprocal_table_item (d9 : Z) : Z := wrapu 16 (0x7fd00 / Z.lor 0x100 d9).
Definition reciprocal_table : list Z := reciprocal_table_item <$> seqZ 0 256.

(** [(2^128 - 1) / d - 2^64] of a normalized [d].  [v0] has 32 bits, and so
    have the products and differences from which [v1] is made. *)
Definition reciprocal_2by1 (d : Z) : Z :=
  let d9 := Z.shiftr d 55 in
  let v0 := nth (Z.to_nat (u64 (d9 - 256))) reciprocal_table 0 in
  let d40 := u64 (Z.shiftr d 24 + 1) in
  let v1 := u32 (u32 (u32 (Z.shiftl v0 11) - u32 (Z.shiftr (u64 (u32 (v0 * v0) * d40)) 40)) - 1) in
  let v2 := u64 (u64 (Z.shiftl v1 13) + Z.shiftr (u64 (v1 * u64 (0x1000000000000000 - u64 (v1 * d40)))) 47) in
  let d0 := Z.land d 1 in
  let d63 := u64 (Z.shiftr d 1 + d0) in
  let e := u64 (Z.land (Z.shiftr v2 1) (u64 (0 - d0)) - u64 (v2 * d63)) in
  let v3 := u64 (Z.shiftr (word (umul64 v2 e) 1) 1 + u64 (Z.shiftl v2 31)) in
  u64 (u64 (v3 - word (uint_add (umul64 v3 d) (uint_of 2 d)) 1) - d).

(** [(2^192 - 1) / d - 2^64] of a normalized [d]. *)
Definition reciprocal_3by2 (d : words) : Z :=
  let d0 := word d 0 in
  let d1 := word d 1 in
  let v := reciprocal_2by1 d1 in
  let p := u64 (d1 * v) in
  let p := u64 (p + d0) in
  let '(v, p) :=
    if p <? d0 then
      let v := u64 (v - 1) in
      let '(v, p) := if d1 <=? p then (u64 (v - 1), u64 (p - d1)) else (v, p) in
      (v, u64 (p - d1))
    else (v, p) in
  let t := umul64 v d0 in
  let p := u64 (p + word t 1) in
  if p <? word t 1 then
    let v := u64 (v - 1) in
    if d1 <=? p then
      if (d1 <? p) || (d0 <=? word t 0) then u64 (v - 1) else v
    else v
  else v.

(** Quotient and remainder of two words by one, by its reciprocal [v]. *)
Definition udivrem_2by1 (u : words) (d v : Z) : Z * Z :=
  let q := umul64 v (word u 1) in
  let q := fast_add q u in
  let q0 := word q 0 in
  let q1 := u64 (word q 1 + 1) in
  let r := u64 (word u 0 - u64 (q1 * d)) in
  let '(q1, r) := if q0 <? r then (u64 (q1 - 1), u64 (r + d)) else (q1, r) in
  if d <=? r then (u64 (q1 + 1), u64 (r - d)) else (q1, r).

(** Quotient and remainder of three words by two, by their reciprocal [v]. *)
Definition udivrem_3by2 (u2 u1 u0 : Z) (d : words) (v : Z) : Z * words :=
  let q := umul64 v u2 in
  let q := fast_add q [u1; u2] in
  let q0 := word q 0 in
  let q1 := word q 1 in
  let r1 := u64 (u1 - u64 (q1 * word d 1)) in
  let t := umul64 (word d 0) q1 in
  let r := uint_sub (uint_sub [u0; r1] t) d in
  let r1 := word r 1 in
  let q1 := u64 (q1 + 1) in
  let '(q1, r) := if q0 <=? r1 then (u64 (q1 - 1), uint_add r d) else (q1, r) in
  if negb (lt128 r d) then (u64 (q1 + 1), uint_sub r d) else (q1, r).

Lemma sq_le a b : 0 <= a <= b → a * a <= b * b.
Proof. intros. apply Z.mul_le_mono_nonneg; lia. Qed.

Lemma mul_bounds a b m : 0 <= a <= m → 0 <= b → 0 <= a * b <= m * b.
Proof. intros. split; [apply Z.mul_nonneg_nonneg; lia|apply Z.mul_le_mono_nonneg_r; lia]. Qed.

Section Newton.
Context (d40 v0 : Z).
Context (Hd40 : 2 ^ 39 < d40 <= 2 ^ 40) (Hx : - (2 ^ 31 * 1279) <= 2 ^ 50 - v0 * d40 <= 2 ^ 31 * 1279).

Let v1 := 2 ^ 11 * v0 - v0 * v0 * d40 / 2 ^ 40 - 1.
Let e1 := 2 ^ 60 - v1 * d40.
Lemma newton1 : 0 < e1 <= 2 ^ 22 * 1279 * 1279 + d40.
Proof using Hd40 Hx.
  pose proof (Z.div_mod (v0 * v0 * d40) (2 ^ 40) ltac:(lia)) as Hq.
  pose proof (Z.mod_pos_bound (v0 * v0 * d40) (2 ^ 40) ltac:(lia)) as Hr.
  assert (2 ^ 40 * e1 = (2 ^ 50 - v0 * d40) * (2 ^ 50 - v0 * d40) + (2 ^ 40 - (v0 * v0 * d40) mod 2 ^ 40) * d40) as E.
  { subst e1 v1. set (q := v0 * v0 * d40 / 2 ^ 40) in *. set (r := (v0 * v0 * d40) mod 2 ^ 40) in *.
    replace r with (v0 * v0 * d40 - 2 ^ 40 * q) by lia. ring. }
  set (x := 2 ^ 50 - v0 * d40) in *. set (r := (v0 * v0 * d40) mod 2 ^ 40) in *.
  assert (0 <= x * x <= (2 ^ 31 * 1279) * (2 ^ 31 * 1279)) by nia.
  assert (0 < (2 ^ 40 - r) * d40 <= 2 ^ 40 * d40) by nia. lia.
Qed.
Lemma newton1_range : 0 < v1 < 2 ^ 21.
Proof using Hd40 Hx. pose proof newton1. subst e1. nia. Qed.

Let v2 := 2 ^ 13 * v1 + v1 * e1 / 2 ^ 47.
Lemma newton2 : 0 < 2 ^ 73 - v2 * d40 ∧ 2 ^ 47 * (2 ^ 73 - v2 * d40) <= e1 * e1 + 2 ^ 47 * d40.
Proof using Hd40 Hx.
  pose proof newton1 as H1. pose proof (Z.div_mod (v1 * e1) (2 ^ 47) ltac:(lia)) as Hq.
  pose proof (Z.mod_pos_bound (v1 * e1) (2 ^ 47) ltac:(lia)) as Hr.
  assert (2 ^ 47 * (2 ^ 73 - v2 * d40) = e1 * e1 + (v1 * e1) mod 2 ^ 47 * d40) as E.
  { subst v2. set (q := v1 * e1 / 2 ^ 47) in *. set (r := (v1 * e1) mod 2 ^ 47) in *.
    replace r with (v1 * e1 - 2 ^ 47 * q) by lia. subst e1. ring. }
  set (r := (v1 * e1) mod 2 ^ 47) in *. assert (0 < e1 * e1) by nia. assert (0 <= r * d40 <= 2 ^ 47 * d40) by nia. lia.
Qed.
Lemma newton2_range : 0 < v2 < 2 ^ 34.
Proof using Hd40 Hx.
  pose proof newton1_range as H1. pose proof newton1 as H2. pose proof newton2 as [H3 _].
  assert (0 <= v1 * e1 / 2 ^ 47) by (apply Z.div_pos; nia). split; [subst v2; lia|]. nia.
Qed.

Context (d : Z) (Hd : 2 ^ 24 * (d40 - 1) <= d < 2 ^ 24 * d40).
Let e2 := 2 ^ 97 - v2 * d.
Lemma newton2_bound : 0 < e2 ∧ e2 < 2 ^ 65 ∧ e2 * e2 <= (2 ^ 66 - 2 ^ 34) * d.
Proof using Hd40 Hx Hd.
  pose proof newton1 as H1. pose proof newton2 as [H2 H3]. pose proof newton2_range as H4.
  assert (e2 = 2 ^ 24 * (2 ^ 73 - v2 * d40) + v2 * (2 ^ 24 * d40 - d)) as E by (subst e2; ring).
  set (e2' := 2 ^ 73 - v2 * d40) in *. 
  pose proof (mul_bounds v2 (2 ^ 24 * d40 - d) (2 ^ 34) ltac:(lia) ltac:(lia)) as H5.
  clearbody e2' e2 v2 e1. clear Hx.
  destruct (Z.le_gt_cases d40 ((2 ^ 39 + 2 ^ 36 + 2 ^ 35))) as [Hs|Hs].
  - set (b := 2 ^ 22 * 1279 * 1279 + (2 ^ 39 + 2 ^ 36 + 2 ^ 35)). assert (e1 * e1 <= b * b) by (apply sq_le; subst b; lia).
    set (c := 2 ^ 64 - 2 ^ 57). assert (e2 <= c) by (subst b c; lia).
    assert (e2 * e2 <= c * c) by (apply sq_le; lia). subst b c. lia.
  - set (b := 2 ^ 22 * 1279 * 1279 + 2 ^ 40). assert (e1 * e1 <= b * b) by (apply sq_le; subst b; lia).
    set (c := 2 ^ 64 + 2 ^ 63 - 2 ^ 60). assert (e2 <= c) by (subst b c; lia).
    assert (e2 * e2 <= c * c) by (apply sq_le; lia). subst b c. lia.
Qed.

Context (e p : Z) (Hp : 0 <= p <= 1) (He : 2 * e = e2 - p).
Let v3 := 2 ^ 31 * v2 + v2 * e / 2 ^ 65.
Lemma newton3 : 0 < 2 ^ 128 - v3 * d <= 2 * d.
Proof using Hd40 Hx Hd Hp He.
  pose proof newton2_bound as (H1 & _ & H2). pose proof newton2_range as H3.
  pose proof (Z.div_mod (v2 * e) (2 ^ 65) ltac:(lia)) as Hq.
  pose proof (Z.mod_pos_bound (v2 * e) (2 ^ 65) ltac:(lia)) as Hr.
  assert (2 ^ 66 * (2 ^ 128 - v3 * d) = e2 * e2 + p * (v2 * d) + 2 * ((v2 * e) mod 2 ^ 65 * d)) as E.
  { subst v3. set (q := v2 * e / 2 ^ 65) in *. set (r := (v2 * e) mod 2 ^ 65) in *.
    replace r with (v2 * e - 2 ^ 65 * q) by lia. replace p with (e2 - 2 * e) by lia. subst e2. ring. }
  set (r := (v2 * e) mod 2 ^ 65) in *. assert (0 < d) by lia.
  pose proof (mul_bounds v2 d (2 ^ 34) ltac:(lia) ltac:(lia)). pose proof (mul_bounds p (v2 * d) 1 ltac:(lia) ltac:(lia)). pose proof (mul_bounds r d (2 ^ 65 - 1) ltac:(lia) ltac:(lia)).
  assert (0 < e2 * e2) by nia. lia.
Qed.
End Newton.

Lemma u32_small z : 0 <= z < 2 ^ 32 → u32 z = z.
Proof. apply Z.mod_small. Qed.
Lemma reciprocal_table_spec i : 0 <= i < 256 → nth (Z.to_nat i) reciprocal_table 0 = 523520 / (256 + i).
Proof.
  intros Hi. rewrite nth_lookup. unfold reciprocal_table. rewrite list_lookup_fmap, (proj2 (lookup_seqZ 0 256 (Z.to_nat i) i)) by lia.
  cbn [fmap option_fmap option_map default]. unfold reciprocal_table_item.
  rewrite (lor_disjoint 256 i 8) by (done || lia). unfold wrapu. apply Z.mod_small.
  split; [apply Z.div_pos; lia|]. apply Z.div_lt_upper_bound; lia.
Qed.
(** The first approximation: nine bits of [d], and forty. *)
Lemma first_approximation d : 2 ^ 63 <= d < 2 ^ 64 →
  let v0 := 523520 / (d / 2 ^ 55) in
  let d40 := d / 2 ^ 24 + 1 in
  2 ^ 39 < d40 <= 2 ^ 40 ∧ 0 < v0 < 2 ^ 11 ∧ - (2 ^ 31 * 1279) <= 2 ^ 50 - v0 * d40 <= 2 ^ 31 * 1279.
Proof.
  intros Hd. cbv zeta. pose proof (Z.div_mod d (2 ^ 55) ltac:(lia)) as E9. pose proof (Z.mod_pos_bound d (2 ^ 55) ltac:(lia)) as R9.
  pose proof (Z.div_mod d (2 ^ 24) ltac:(lia)) as E40. pose proof (Z.mod_pos_bound d (2 ^ 24) ltac:(lia)) as R40.
  set (d9 := d / 2 ^ 55) in *. set (d40 := d / 2 ^ 24) in *. assert (256 <= d9 < 512) by lia.
  pose proof (Z.div_mod 523520 d9 ltac:(lia)) as Ev. pose proof (Z.mod_pos_bound 523520 d9 ltac:(lia)) as Rv.
  set (v0 := 523520 / d9) in *. split; [lia|]. assert (0 < v0 <= 2045) by nia. split; [lia|].
  assert (2 ^ 31 * d9 + 1 <= d40 + 1 <= 2 ^ 31 * (d9 + 1)) as Hb by lia.
  assert (v0 * (2 ^ 31 * d9 + 1) <= v0 * (d40 + 1) <= v0 * (2 ^ 31 * (d9 + 1))) as Hb2 by nia. lia.
Qed.
(** [e] is half of the error of [v2]. *)
Lemma half_error v2 d e2 : 0 < v2 < 2 ^ 34 → 2 ^ 63 <= d < 2 ^ 64 → e2 = 2 ^ 97 - v2 * d → 0 < e2 < 2 ^ 65 →
  let d0 := Z.land d 1 in
  ∃ p, 0 <= p <= 1 ∧
  2 * u64 (Z.land (Z.shiftr v2 1) (u64 (0 - d0)) - u64 (v2 * u64 (Z.shiftr d 1 + d0))) = e2 - p.
Proof.
  intros Hv Hd He Hb d0. assert (d0 = d mod 2) as Ed by (subst d0; change 1 with (Z.ones 1); by rewrite Z.land_ones by lia).
  clearbody d0. rewrite !Z.shiftr_div_pow2 by lia. change (2 ^ 1) with 2.
  pose proof (Z.div_mod d 2 ltac:(lia)) as E. pose proof (Z.mod_pos_bound d 2 ltac:(lia)) as R. rewrite <-Ed in *.
  pose proof (Z.div_mod v2 2 ltac:(lia)) as E2. pose proof (Z.mod_pos_bound v2 2 ltac:(lia)) as R2.
  rewrite (u64_small (d / 2 + d0)) by (unfold is_u64; lia). rewrite u64_sub_r.
  set (h := d / 2) in *. set (v' := v2 / 2) in *. set (b := v2 mod 2) in *. clearbody h v' b. clear Ed.
  assert (d0 = 0 ∨ d0 = 1) as [->| ->] by lia.
  - change (u64 (0 - 0)) with 0. rewrite Z.land_0_r. exists 0. split; [lia|].
    rewrite (u64_unique (- (2 ^ 32)) (2 ^ 96 - v2 * h)); [nia|unfold is_u64; nia|nia].
  - change (u64 (0 - 1)) with (Z.ones 64). rewrite Z.land_ones, Z.mod_small by lia. exists b. split; [lia|].
    assert (e2 - b = 2 * (2 ^ 96 - v2 * (h + 1) + v')) as Eb by nia.
    rewrite (u64_unique (- (2 ^ 32)) (2 ^ 96 - v2 * (h + 1) + v')); [lia|unfold is_u64; lia|lia].
Qed.
(** The last step corrects an approximation that is too small by less than two. *)
Lemma last_correction d v3 v3' : 2 ^ 63 <= d < 2 ^ 64 → is_u64 v3 → v3' = v3 + 2 ^ 64 →
  0 < 2 ^ 128 - v3' * d <= 2 * d →
  u64 (u64 (v3 - word (uint_add (umul64 v3 d) (uint_of 2 d)) 1) - d) = (2 ^ 128 - 1) / d - 2 ^ 64.
Proof.
  intros Hd Hv Ev He. assert (is_u64 d) as Hd64 by (unfold is_u64; lia).
  destruct (umul64_spec v3 d Hv Hd64) as [Hu Eu]. destruct (uint_of_spec 1 d Hd64) as [Ho Eo].
  destruct (uint_add_spec 2 _ _ Hu Ho) as [Ha Ea]. rewrite Eu, Eo in Ea.
  destruct (is_words_2_inv _ Ha) as (lo & hi & E & Hlo & Hhi). rewrite E in *. rewrite val_2 in Ea. unfold word. cbn [nth].
  change (64 * Z.of_nat 2) with 128 in Ea. unfold is_u64 in *. rewrite Z.mod_small in Ea by nia.
  set (e := 2 ^ 128 - v3' * d) in *. autorewrite with u64_pull.
  assert (lo + 2 ^ 64 * (hi - (2 ^ 64 - d)) = d - e) as Eh by (subst e v3'; lia).
  destruct (Z.le_gt_cases e d) as [Hc|Hc].
  - assert (hi = 2 ^ 64 - d) as -> by lia. replace ((2 ^ 128 - 1) / d) with v3'.
    + apply (u64_unique (- 1)); [unfold is_u64; lia|lia].
    + apply (Z.div_unique_pos _ _ _ (e - 1)); [lia|]. subst e. lia.
  - assert (hi = 2 ^ 64 - d - 1) as -> by lia. replace ((2 ^ 128 - 1) / d) with (v3' + 1).
    + apply (u64_unique (- 1)); [|lia]. unfold is_u64. split; [lia|]. subst v3'. clear - He Hd Hc Hv Ea. subst e. nia.
    + apply (Z.div_unique_pos _ _ _ (e - d - 1)); [lia|]. subst e. lia.
Qed.
Lemma third_approximation v2 e v3 : is_u64 v2 → is_u64 e → v3 = 2 ^ 31 * v2 + v2 * e / 2 ^ 65 → 2 ^ 64 <= v3 < 2 ^ 65 →
  u64 (Z.shiftr (word (umul64 v2 e) 1) 1 + u64 (Z.shiftl v2 31)) = v3 - 2 ^ 64.
Proof.
  intros Hv He E3 H3. destruct (umul64_spec v2 e Hv He) as [Hu Eu]. destruct (is_words_2_inv _ Hu) as (lo & hi & E & Hlo & Hhi).
  rewrite E in *. rewrite val_2 in Eu. unfold word. cbn [nth]. rewrite u64_add_r, Z.shiftl_mul_pow2, Z.shiftr_div_pow2 by lia.
  change (2 ^ 1) with 2. assert (hi / 2 = v2 * e / 2 ^ 65) as ->.
  { rewrite <-Eu. change (2 ^ 65) with (2 ^ 64 * 2). rewrite <-Z.div_div by lia. f_equal.
    rewrite Z.mul_comm, Z.div_add, Z.div_small by (done || lia). lia. }
  apply (u64_unique 1); [unfold is_u64; lia|lia].
Qed.
Theorem reciprocal_2by1_spec d : 2 ^ 63 <= d < 2 ^ 64 → reciprocal_2by1 d = (2 ^ 128 - 1) / d - 2 ^ 64.
Proof.
  intros Hd. unfold reciprocal_2by1. cbv zeta. destruct (first_approximation d Hd) as (H40 & Hv0 & Hx).
  pose proof (Z.div_mod d (2 ^ 24) ltac:(lia)) as E40. pose proof (Z.mod_pos_bound d (2 ^ 24) ltac:(lia)) as R40.
  pose proof (Z.div_mod d (2 ^ 55) ltac:(lia)) as E9. pose proof (Z.mod_pos_bound d (2 ^ 55) ltac:(lia)) as R9.
  rewrite (Z.shiftr_div_pow2 d 55), (Z.shiftr_div_pow2 d 24) by lia.
  rewrite (u64_small (d / 2 ^ 55 - 256)), reciprocal_table_spec by (unfold is_u64; lia).
  replace (256 + (d / 2 ^ 55 - 256)) with (d / 2 ^ 55) by lia. rewrite (u64_small (d / 2 ^ 24 + 1)) by (unfold is_u64; lia).
  set (v0 := 523520 / (d / 2 ^ 55)) in *. set (d40 := d / 2 ^ 24 + 1) in *. 
  assert (2 ^ 24 * (d40 - 1) <= d < 2 ^ 24 * d40) as Hd40 by (subst d40; lia). clearbody v0 d40. clear E40 R40 E9 R9.
  pose proof (newton1 _ _ H40 Hx) as N1. pose proof (newton1_range _ _ H40 Hx) as N1r. pose proof (newton2_range _ _ H40 Hx) as N2.
  pose proof (newton2_bound _ _ H40 Hx _ Hd40) as (Nb1 & Nb2 & _).
  assert (0 <= v0 * v0 * d40 < 2 ^ 62) as Hp by nia.
  rewrite (u32_small (v0 * v0)), (u64_small (v0 * v0 * d40)) by (unfold is_u64; nia).
  rewrite (Z.shiftr_div_pow2 _ 40), (Z.shiftl_mul_pow2 v0) by lia. rewrite (Z.mul_comm v0 (2 ^ 11)).
  assert (0 <= v0 * v0 * d40 / 2 ^ 40 < 2 ^ 22) as Hp2 by (split; [apply Z.div_pos; lia|apply Z.div_lt_upper_bound; lia]).
  rewrite (u32_small (2 ^ 11 * v0)), (u32_small (_ / 2 ^ 40)), (u32_small (2 ^ 11 * v0 - _)), (u32_small (_ - 1)) by lia.
  set (v1 := 2 ^ 11 * v0 - v0 * v0 * d40 / 2 ^ 40 - 1) in *.
  rewrite (u64_small (v1 * d40)) by (unfold is_u64; nia). change 0x1000000000000000 with (2 ^ 60).
  set (e1 := 2 ^ 60 - v1 * d40) in *. rewrite (u64_small e1), (u64_small (v1 * e1)) by (unfold is_u64; nia).
  rewrite (Z.shiftr_div_pow2 _ 47), (Z.shiftl_mul_pow2 v1) by lia. rewrite (Z.mul_comm v1 (2 ^ 13)).
  rewrite (u64_small (2 ^ 13 * v1)) by (unfold is_u64; lia). set (v2 := 2 ^ 13 * v1 + v1 * e1 / 2 ^ 47) in *.
  rewrite (u64_small v2) by (unfold is_u64; lia).
  destruct (half_error v2 d _ N2 Hd eq_refl (conj Nb1 Nb2)) as (p & Hp1 & Ee). set (e := u64 (Z.land (Z.shiftr v2 1) _ - _)) in *.
  pose proof (newton3 _ _ H40 Hx _ Hd40 e p Hp1 Ee) as N3.
  fold v1 in N3. fold e1 in N3. fold v2 in N3. assert (is_u64 e) as He by apply u64_range. clearbody v2 e. clear v1 e1 N1 N1r Hp Hp2.
  set (v3 := 2 ^ 31 * v2 + v2 * e / 2 ^ 65) in *. assert (2 ^ 64 <= v3 < 2 ^ 65) as H3 by nia.
  rewrite (third_approximation v2 e v3) by (done || (unfold is_u64; lia)).
  apply (last_correction d (v3 - 2 ^ 64) v3); [done|unfold is_u64; lia|lia|done].
Qed.

(** A reciprocal, by its defining property. *)
Lemma reciprocal_unique b D v : 0 < D → 0 < b - (2 ^ 64 + v) * D <= D → (b - 1) / D - 2 ^ 64 = v.
Proof.
  intros HD Hr. assert (2 ^ 64 + v = (b - 1) / D); [|lia].
  apply (Z.div_unique_pos _ _ _ (b - (2 ^ 64 + v) * D - 1)); lia.
Qed.
Lemma reciprocal_2by1_range d : 2 ^ 63 <= d < 2 ^ 64 →
  is_u64 (reciprocal_2by1 d) ∧ 0 < 2 ^ 128 - (2 ^ 64 + reciprocal_2by1 d) * d <= d.
Proof.
  intros Hd. rewrite reciprocal_2by1_spec by done. pose proof (Z.div_mod (2 ^ 128 - 1) d ltac:(lia)) as E.
  pose proof (Z.mod_pos_bound (2 ^ 128 - 1) d ltac:(lia)) as R. set (q := (2 ^ 128 - 1) / d) in *. unfold is_u64. 
  assert (2 ^ 64 <= q < 2 ^ 65) by nia. lia.
Qed.
(** The two halves of [reciprocal_3by2]: the high word of [d], then the low one. *)
Section ThreeByTwo.
Context (d0 d1 : Z) (Hd0 : is_u64 d0) (Hd1 : 2 ^ 63 <= d1 < 2 ^ 64).
Context (v r : Z) (Hv : is_u64 v) (Hr : 2 ^ 128 - (2 ^ 64 + v) * d1 = r) (Hr1 : 0 < r <= d1).

Lemma first_half :
  let p := u64 (u64 (d1 * v) + d0) in
  ∃ v' r', is_u64 v' ∧ 0 < r' <= d1 ∧ 2 ^ 128 - (2 ^ 64 + v') * d1 - d0 = r' ∧
    (if p <? d0 then
       let v := u64 (v - 1) in
       let '(v, p) := if d1 <=? p then (u64 (v - 1), u64 (p - d1)) else (v, p) in
       (v, u64 (p - d1))
     else (v, p)) = (v', 2 ^ 64 - r').
Proof using Hd0 Hd1 Hv Hr Hr1.
  unfold is_u64 in *. cbv zeta. rewrite (u64_unique (2 ^ 64 - d1 - 1) (2 ^ 64 - r) (d1 * v)) by (unfold is_u64; lia).
  destruct (Z.lt_ge_cases d0 r) as [H|H].
  - rewrite (u64_small (_ + d0)) by (unfold is_u64; lia). destruct (Z.ltb_spec (2 ^ 64 - r + d0) d0); [lia|].
    exists v, (r - d0). split_and!; try lia. f_equal. lia.
  - assert (0 < v) by nia. rewrite (u64_unique 1 (d0 - r)) by (unfold is_u64; lia). destruct (Z.ltb_spec (d0 - r) d0); [|lia].
    rewrite (u64_small (v - 1)) by (unfold is_u64; lia). cbv zeta. destruct (Z.leb_spec d1 (d0 - r)).
    + assert (1 < v) by nia. rewrite (u64_small (v - 1 - 1)), (u64_small (d0 - r - d1)) by (unfold is_u64; lia).
      exists (v - 2), (2 * d1 - (d0 - r)). split_and!; try lia. f_equal; [lia|]. apply (u64_unique (- 1)); unfold is_u64; lia.
    + exists (v - 1), (d1 - (d0 - r)). split_and!; try lia. f_equal. apply (u64_unique (- 1)); unfold is_u64; lia.
Qed.
End ThreeByTwo.
Section SecondHalf.
Context (d0 d1 : Z) (Hd0 : is_u64 d0) (Hd1 : 2 ^ 63 <= d1 < 2 ^ 64).
Context (v r : Z) (Hv : is_u64 v) (Hr : 2 ^ 128 - (2 ^ 64 + v) * d1 - d0 = r) (Hr1 : 0 < r <= d1).
Lemma second_half :
  let D := d0 + 2 ^ 64 * d1 in
  let t := umul64 v d0 in
  let p := u64 (2 ^ 64 - r + word t 1) in
  ∃ v', is_u64 v' ∧ 0 < 2 ^ 192 - (2 ^ 64 + v') * D <= D ∧
    (if p <? word t 1 then
       let v := u64 (v - 1) in
       if d1 <=? p then
         if (d1 <? p) || (d0 <=? word t 0) then u64 (v - 1) else v
       else v
     else v) = v'.
Proof using Hd0 Hd1 Hv Hr Hr1.
  intros D t. destruct (umul64_spec v d0 Hv Hd0) as [Ht Et]. fold t in Ht, Et.
  destruct (is_words_2_inv _ Ht) as (t0 & t1 & E & H0 & H1). rewrite E in *. unfold word. cbn [nth]. cbv zeta.
  rewrite val_2 in Et. unfold is_u64 in *. assert (0 < D < 2 ^ 128) as HD by (subst D; lia).
  assert (2 ^ 192 - (2 ^ 64 + v) * D = 2 ^ 64 * (r - t1) - t0) as ER.
  { subst D r. replace (2 ^ 64 * (2 ^ 128 - (2 ^ 64 + v) * d1 - d0 - t1) - t0) with (2 ^ 192 - (2 ^ 64 + v) * d1 * 2 ^ 64 - 2 ^ 64 * d0 - (t0 + 2 ^ 64 * t1)) by ring.
    rewrite Et. ring. }
  pose proof (mul_bounds d0 v (2 ^ 64) ltac:(lia) ltac:(lia)) as Hm.
  assert (t1 <= v) as Htv by lia.
  destruct (Z.lt_ge_cases t1 r) as [H|H].
  - rewrite (u64_small (_ + t1)) by (unfold is_u64; lia). destruct (Z.ltb_spec (2 ^ 64 - r + t1) t1); [lia|].
    exists v. subst D. split_and!; lia.
  - rewrite (u64_unique 1 (t1 - r)) by (unfold is_u64; lia). destruct (Z.ltb_spec (t1 - r) t1); [|lia].
    rewrite (u64_small (v - 1)) by (unfold is_u64; lia).
    assert (2 ^ 192 - (2 ^ 64 + (v - 1)) * D = D + 2 ^ 64 * (r - t1) - t0) as ER1 by lia.
    assert (2 ^ 192 - (2 ^ 64 + (v - 2)) * D = 2 * D + 2 ^ 64 * (r - t1) - t0) as ER2 by lia.
    destruct (Z.leb_spec d1 (t1 - r)), (Z.ltb_spec d1 (t1 - r)), (Z.leb_spec d0 t0); cbn [orb];
      rewrite ?(u64_small (v - 1 - 1)) by (unfold is_u64; lia);
      [exists (v - 2)|exists (v - 2)|exists (v - 2)|exists (v - 1)..]; subst D; split_and!; lia.
Qed.
End SecondHalf.
Theorem reciprocal_3by2_spec d : is_words 2 d → 2 ^ 127 <= val d →
  is_u64 (reciprocal_3by2 d) ∧ reciprocal_3by2 d = (2 ^ 192 - 1) / val d - 2 ^ 64.
Proof.
  intros (d0 & d1 & -> & Hd0 & Hd1)%is_words_2_inv Hn. rewrite val_2 in *. unfold is_u64 in Hd0, Hd1. 
  assert (2 ^ 63 <= d1 < 2 ^ 64) as Hd by lia. unfold reciprocal_3by2.
  change (word [d0; d1] 0) with d0. change (word [d0; d1] 1) with d1. cbv zeta.
  destruct (reciprocal_2by1_range d1 Hd) as [Hv Hr]. set (v := reciprocal_2by1 d1) in *.
  destruct (first_half d0 d1 Hd0 Hd v _ Hv eq_refl Hr) as (v' & r' & Hv' & Hr' & E & E1). cbv zeta in E1. rewrite E1.
  destruct (second_half d0 d1 Hd0 Hd v' r' Hv' E Hr') as (w & Hw & HR & E2). cbv zeta in E2. rewrite E2.
  split; [done|]. symmetry. apply reciprocal_unique; [lia|done].
Qed.

(** ** Quotients *)
(** The choice that both divisions make: [q] is too large by at most one, and
    the remainder by less than two divisors.  [m] is the modulus of the remainder,
    [q0] the part of the estimate that decides. *)
Lemma adjusted U D q r : 0 <= U - q * D < D → r = U - q * D → q = U / D ∧ r = U mod D.
Proof. intros H ->. split; [apply (Z.div_unique_pos _ _ _ (U - q * D)); lia|apply (Z.mod_unique_pos _ _ q); lia]. Qed.

Section Div2by1.
Context (d v : Z) (Hd : 2 ^ 63 <= d < 2 ^ 64) (Hv : is_u64 v) (Hk : 0 < 2 ^ 128 - (2 ^ 64 + v) * d <= d).
Context (u0 u1 : Z) (H0 : is_u64 u0) (H1 : 0 <= u1 < d).
(** The estimate of the quotient, less one, and the error that it leaves. *)
Lemma estimate_2by1 q0 q1 : q0 + 2 ^ 64 * q1 = (2 ^ 64 + v) * u1 + u0 → is_u64 q0 → 
  let e := u0 + 2 ^ 64 * u1 - (q1 + 1) * d in
  - d <= e ∧ q0 - 2 ^ 64 < e ∧ (e < 2 ^ 64 - d ∨ e < q0).
Proof using Hd Hv Hk H0 H1.
  intros Eq Hq0 e. unfold is_u64 in *. set (k := 2 ^ 128 - (2 ^ 64 + v) * d) in *.
  assert (2 ^ 64 * e = u1 * k + u0 * (2 ^ 64 - d) + q0 * d - 2 ^ 64 * d) as E.
  { subst e k. replace (2 ^ 64 * (u0 + 2 ^ 64 * u1 - (q1 + 1) * d)) with (2 ^ 64 * u0 + 2 ^ 128 * u1 - (2 ^ 64 * q1) * d - 2 ^ 64 * d) by ring.
    replace (2 ^ 64 * q1) with ((2 ^ 64 + v) * u1 + u0 - q0) by lia. ring. }
  pose proof (mul_bounds u1 k (d - 1) ltac:(lia) ltac:(lia)). pose proof (Z.mul_le_mono_nonneg_l k d (d - 1) ltac:(lia) ltac:(lia)).
  pose proof (mul_bounds u0 (2 ^ 64 - d) (2 ^ 64 - 1) ltac:(lia) ltac:(lia)). pose proof (Z.mul_nonneg_nonneg q0 d ltac:(lia) ltac:(lia)). clearbody k e. split; [lia|]. split.
  - pose proof (Z.mul_lt_mono_pos_l (2 ^ 64 - q0) d (2 ^ 64) ltac:(lia)). lia.
  - destruct (Z.le_gt_cases (2 ^ 64 - d) q0).
    + right. pose proof (mul_bounds (2 ^ 64 - d) (2 ^ 64 - d) q0 ltac:(lia) ltac:(lia)). lia.
    + left. pose proof (mul_bounds q0 d (2 ^ 64 - d) ltac:(lia) ltac:(lia)). lia.
Qed.
Lemma udivrem_2by1_lem : udivrem_2by1 [u0; u1] d v = ((u0 + 2 ^ 64 * u1) / d, (u0 + 2 ^ 64 * u1) mod d).
Proof using Hd Hv Hk H0 H1.
  unfold udivrem_2by1. change (word [u0; u1] 0) with u0. change (word [u0; u1] 1) with u1. cbv zeta.
  assert (is_u64 u1) as H1' by (unfold is_u64; lia). destruct (umul64_spec v u1 Hv H1') as [Hm Em].
  assert (is_words 2 [u0; u1]) as Hu by (by apply is_words_2). unfold is_u64 in *.
  destruct (fast_add_spec _ _ Hm Hu) as [Hq Eq]; [rewrite Em, val_2; nia|]. rewrite Em, val_2 in Eq.
  destruct (is_words_2_inv _ Hq) as (q0 & q1 & E & Hq0 & Hq1). rewrite E in *. unfold word. cbn [nth]. rewrite val_2 in Eq.
  destruct (estimate_2by1 q0 q1 ltac:(lia) Hq0) as (A & B & C). set (U := u0 + 2 ^ 64 * u1) in *. set (e := U - (q1 + 1) * d) in *.
  unfold is_u64 in *. assert (0 <= U < 2 ^ 64 * d) by (subst U; lia).
  assert (u64 (u0 - u64 (u64 (q1 + 1) * d)) = u64 e) as ->.
  { autorewrite with u64_pull. rewrite <-(u64_mod (u0 - (q1 + 1) * d) u1). f_equal. subst e U. ring. }
  assert (0 <= U / d < 2 ^ 64 ∧ U = d * (U / d) + U mod d ∧ 0 <= U mod d < d) as (Q1 & Q2 & Q3).
  { split; [split; [apply Z.div_pos; lia|apply Z.div_lt_upper_bound; lia]|]. split; [apply Z.div_mod; lia|apply Z.mod_pos_bound; lia]. }
  (* the quotient is below 2^64 in every case: computing modulo 2^64 loses nothing *)
  assert (∀ q r, 0 <= U - q * d < d → r = U - q * d → (u64 q, u64 r) = (U / d, U mod d)) as Hfin.
  { intros q r Hr Er. destruct (adjusted U d q r Hr Er) as [-> ->]. rewrite !u64_small by (unfold is_u64; lia). done. }
  destruct (Z.lt_ge_cases e 0) as [Hneg|Hpos].
  - rewrite (u64_unique (- 1) (e + 2 ^ 64)) by (unfold is_u64; lia). destruct (Z.ltb_spec q0 (e + 2 ^ 64)); [|lia].
    autorewrite with u64_pull. rewrite (u64_unique 1 (e + d) (e + 2 ^ 64 + d)) by (unfold is_u64; lia).
    destruct (Z.leb_spec d (e + d)); [lia|]. rewrite <-(u64_small (e + d)) by (unfold is_u64; lia). apply Hfin; subst e; lia.
  - rewrite (u64_small e) by (unfold is_u64; lia). destruct (Z.ltb_spec q0 e).
    + autorewrite with u64_pull. rewrite (u64_small (e + d)) by (unfold is_u64; lia).
      destruct (Z.leb_spec d (e + d)); [|lia]. apply Hfin; subst e; lia.
    + destruct (Z.leb_spec d e); [autorewrite with u64_pull; apply Hfin; subst e; lia|].
      rewrite <-(u64_small e) by (unfold is_u64; lia). apply Hfin; subst e; lia.
Qed.
End Div2by1.
(** The case of a divisor within 2^64 of 2^128. *)
Lemma small_divisor_gap u0 x s D : 0 <= u0 < 2 ^ 64 → D = 2 ^ 128 - s → 0 < s → 2 ^ 64 * s < D →
  x <= 2 ^ 64 * s * (D - 1) → x + 2 ^ 128 * u0 < 2 ^ 128 * D + s * s.
Proof.
  intros H0 -> Hs Hc Hx. remember (2 ^ 64 - 1 - s) as t eqn:Et. assert (s = 2 ^ 64 - 1 - t) as -> by lia.
  pose proof (Z.mul_nonneg_nonneg t t ltac:(lia) ltac:(lia)). lia.
Qed.
Section Div3by2.
Context (d0 d1 v : Z) (Hd0 : is_u64 d0) (Hd1 : 2 ^ 63 <= d1 < 2 ^ 64) (Hv : is_u64 v).
Let D := d0 + 2 ^ 64 * d1.
Context (Hk : 0 < 2 ^ 192 - (2 ^ 64 + v) * D <= D).
Context (u0 u1 u2 : Z) (H0 : is_u64 u0) (H1 : is_u64 u1) (H2 : is_u64 u2) (HU : u1 + 2 ^ 64 * u2 < D).
Lemma D_range : 2 ^ 127 <= D < 2 ^ 128.
Proof using Hd0 Hd1. clear Hk HU Hv. subst D. unfold is_u64 in *. lia. Qed.
(** What the error of the estimate comes to, at most. *)
Lemma error_3by2 : let k := 2 ^ 192 - (2 ^ 64 + v) * D in let s := 2 ^ 128 - D in
  2 ^ 64 * (u2 * k + u1 * s + 2 ^ 64 * u0) < 2 ^ 128 * D + s * s.
Proof using Hd0 Hd1 Hv Hk H0 H1 H2 HU.
  intros k s. pose proof D_range as RD. unfold is_u64 in *. assert (0 < k <= D) as Rk by done.
  assert (D = 2 ^ 128 - s) as ED by (subst s; lia). assert (0 < s <= 2 ^ 127) as Rs by lia.
  destruct (Z.le_gt_cases D (2 ^ 64 * s)) as [Hc|Hc].
  - clearbody k. pose proof (Z.mul_le_mono_nonneg_l k D u2 ltac:(lia) ltac:(lia)) as A.
    pose proof (Z.mul_le_mono_nonneg_r (2 ^ 64 * u2) (D - 1 - u1) D ltac:(lia) ltac:(lia)) as B.
    pose proof (Z.mul_le_mono_nonneg_r u1 (2 ^ 64 - 1) (2 ^ 64 * s - D) ltac:(lia) ltac:(lia)) as C.
    assert (D * D = 2 ^ 128 * D - s * D) as E1 by (rewrite ED at 1; ring).
    assert (s * s = 2 ^ 128 * s - s * D) as E2 by (rewrite ED; ring). lia.
  - assert (v = 0) as Ev.
    { assert ((2 ^ 64 + v) * D < (2 ^ 64 + 1) * D) as H by (subst k; lia). apply Z.mul_lt_mono_pos_r in H; lia. }
    assert (k = 2 ^ 64 * s) as Ek by (subst k; rewrite Ev, ED; ring).
    pose proof (Z.mul_le_mono_nonneg_l (u1 + 2 ^ 64 * u2) (D - 1) (2 ^ 64 * s) ltac:(lia) ltac:(lia)) as A.
    assert (2 ^ 64 * (u2 * k + u1 * s + 2 ^ 64 * u0) = 2 ^ 64 * s * (u1 + 2 ^ 64 * u2) + 2 ^ 128 * u0) as -> by (rewrite Ek; ring).
    apply (small_divisor_gap u0 _ s D); [lia..|]. by apply A.
Qed.
Lemma estimate_3by2 q0 q1 : q0 + 2 ^ 64 * q1 = (2 ^ 64 + v) * u2 + u1 → is_u64 q0 →
  let e := u0 + 2 ^ 64 * u1 + 2 ^ 128 * u2 - (q1 + 1) * D in
  - D <= e ∧ 2 ^ 64 * q0 - 2 ^ 128 < e ∧ (e < 2 ^ 128 - D ∨ e < 2 ^ 64 * q0).
Proof using Hd0 Hd1 Hv Hk H0 H1 H2 HU.
  intros Eq Hq0 e. pose proof error_3by2 as HX. cbv zeta in HX. pose proof D_range as RD. unfold is_u64 in *.
  set (k := 2 ^ 192 - (2 ^ 64 + v) * D) in *. set (s := 2 ^ 128 - D) in *. set (X := u2 * k + u1 * s + 2 ^ 64 * u0) in *.
  assert (2 ^ 64 * e = X + q0 * D - 2 ^ 64 * D) as E.
  { subst e X k s. replace (2 ^ 64 * (u0 + 2 ^ 64 * u1 + 2 ^ 128 * u2 - (q1 + 1) * D))
      with (2 ^ 64 * u0 + 2 ^ 128 * u1 + 2 ^ 192 * u2 - (2 ^ 64 * q1) * D - 2 ^ 64 * D) by ring.
    replace (2 ^ 64 * q1) with ((2 ^ 64 + v) * u2 + u1 - q0) by lia. ring. }
  assert (0 <= X) as RX.
  { subst X. pose proof (Z.mul_nonneg_nonneg u2 k ltac:(lia) ltac:(lia)). pose proof (Z.mul_nonneg_nonneg u1 s ltac:(lia) ltac:(subst s; lia)). lia. }
  pose proof (Z.mul_nonneg_nonneg q0 D ltac:(lia) ltac:(lia)). assert (D = 2 ^ 128 - s) as ED by (subst s; lia).
  clearbody e X k s. split; [lia|]. split.
  - pose proof (Z.mul_lt_mono_pos_l (2 ^ 64 - q0) D (2 ^ 128) ltac:(lia)). lia.
  - destruct (Z.le_gt_cases s (2 ^ 64 * q0)).
    + right. pose proof (Z.mul_le_mono_nonneg_r s (2 ^ 64 * q0) s ltac:(lia) ltac:(lia)).
      replace (q0 * D) with (2 ^ 128 * q0 - q0 * s) in E by (rewrite ED; ring). lia.
    + left. pose proof (Z.mul_le_mono_nonneg_r (2 ^ 64 * q0) s D ltac:(lia) ltac:(lia)).
      replace (s * D) with (2 ^ 128 * s - s * s) in * by (rewrite ED; ring). lia.
Qed.
(** The remainder that the program computes is the error modulo 2^128. *)
Lemma remainder_3by2 q1 : is_u64 q1 → let d := [d0; d1] in
  let r := uint_sub (uint_sub [u0; u64 (u1 - u64 (q1 * d1))] (umul64 d0 q1)) d in
  is_words 2 r ∧ val r = (u0 + 2 ^ 64 * u1 + 2 ^ 128 * u2 - (q1 + 1) * D) mod 2 ^ 128.
Proof using Hd0 Hd1 H0.
  intros Hq1 d r. assert (is_words 2 d) as Hd by (apply is_words_2; unfold is_u64 in *; lia).
  destruct (umul64_spec d0 q1 Hd0 Hq1) as [Ht Et]. set (r1 := u64 (u1 - _)) in *.
  assert (is_words 2 [u0; r1]) as Hr1 by (apply is_words_2; split; [done|apply u64_range]).
  destruct (uint_sub_spec 2 _ _ Hr1 Ht) as [Ha Ea]. destruct (uint_sub_spec 2 _ _ Ha Hd) as [Hb Eb].
  split; [done|]. subst r. rewrite Eb, Ea, Et. change (64 * Z.of_nat 2) with 128. rewrite Zminus_mod_idemp_l.
  subst d. rewrite !val_2. fold D. pose proof (u64_split (u1 - u64 (q1 * d1))) as E1. fold r1 in E1.
  pose proof (u64_split (q1 * d1)) as E2. 
  replace (u0 + 2 ^ 64 * u1 + 2 ^ 128 * u2 - (q1 + 1) * D)
    with (u0 + 2 ^ 64 * r1 - d0 * q1 - D + ((u1 - u64 (q1 * d1)) / 2 ^ 64 + u2 - q1 * d1 / 2 ^ 64) * 2 ^ 128).
  - by rewrite Z.mod_add by lia.
  - subst D. replace r1 with (u1 - u64 (q1 * d1) - 2 ^ 64 * ((u1 - u64 (q1 * d1)) / 2 ^ 64)) by lia.
    set (a := (u1 - u64 (q1 * d1)) / 2 ^ 64). replace (u64 (q1 * d1)) with (q1 * d1 - 2 ^ 64 * (q1 * d1 / 2 ^ 64)) by lia. ring.
Qed.
Lemma udivrem_3by2_lem : let U := u0 + 2 ^ 64 * u1 + 2 ^ 128 * u2 in
  let '(q, r) := udivrem_3by2 u2 u1 u0 [d0; d1] v in
  q = U / D ∧ is_u64 q ∧ is_words 2 r ∧ val r = U mod D.
Proof using Hd0 Hd1 Hv Hk H0 H1 H2 HU.
  intros U. unfold udivrem_3by2. change (word [d0; d1] 0) with d0. change (word [d0; d1] 1) with d1. cbv zeta.
  pose proof D_range as RD. assert (is_words 2 [d0; d1]) as Hd by (apply is_words_2; unfold is_u64 in *; lia).
  destruct (umul64_spec v u2 Hv H2) as [Hm Em]. assert (is_words 2 [u1; u2]) as Hu by (by apply is_words_2).
  destruct (fast_add_spec _ _ Hm Hu) as [Hq Eq].
  { rewrite Em, val_2. unfold is_u64 in *. pose proof (Z.mul_le_mono_nonneg_l (u1 + 2 ^ 64 * u2) (D - 1) (2 ^ 64 + v) ltac:(lia) ltac:(lia)).
    pose proof (mul_bounds v u1 (2 ^ 64 * v) ltac:(lia) ltac:(lia)). lia. }
  rewrite Em, val_2 in Eq. destruct (is_words_2_inv _ Hq) as (q0 & q1 & E & Hq0 & Hq1). rewrite E in *.
  change (word [q0; q1] 0) with q0. change (word [q0; q1] 1) with q1. rewrite val_2 in Eq.
  destruct (estimate_3by2 q0 q1 ltac:(lia) Hq0) as (A & B & C). destruct (remainder_3by2 q1 Hq1) as [Hr Er]. cbv zeta in Hr, Er. fold U in A, B, C, Er.
  set (r := uint_sub _ [d0; d1]) in *. set (e := U - (q1 + 1) * D) in *. clearbody r.
  destruct (is_words_2_inv _ Hr) as (r0 & r1 & -> & Hr0 & Hr1). change (word [r0; r1] 1) with r1. rewrite val_2 in Er.
  destruct (uint_add_spec 2 _ _ Hr Hd) as [Ha Ea]. destruct (uint_sub_spec 2 _ _ Hr Hd) as [Hs Es].
  destruct (uint_sub_spec 2 _ _ Ha Hd) as [Has Eas]. rewrite Ea, !val_2 in *. fold D in Ea, Es, Eas. change (64 * Z.of_nat 2) with 128 in *.
  unfold is_u64 in *. 
  assert (0 <= U < 2 ^ 64 * D) as RU by (subst U; lia).
  assert (0 <= U / D < 2 ^ 64) as RQ by (split; [apply Z.div_pos; lia|apply Z.div_lt_upper_bound; lia]).
  assert (∀ q r, 0 <= U - q * D < D → r = U - q * D → u64 q = U / D ∧ 0 <= u64 q < 2 ^ 64 ∧ r = U mod D) as Hfin.
  { intros q r Hre Ere. destruct (adjusted U D q r Hre Ere) as [-> ->]. rewrite !u64_small by (unfold is_u64; lia). done. }
  destruct (Z.lt_ge_cases e 0) as [Hneg|Hpos].
  - rewrite <-(Z.mod_unique_pos e (2 ^ 128) (- 1) (e + 2 ^ 128)) in Er by lia.
    destruct (Z.leb_spec q0 r1); [|lia]. rewrite Er in Ea. 
    rewrite <-(Z.mod_unique_pos (e + 2 ^ 128 + D) (2 ^ 128) 1 (e + D)) in Ea by lia.
    rewrite lt128_spec, Ea, val_2 by done. fold D. destruct (Z.ltb_spec (e + D) D); [|lia]. cbn [negb].
    autorewrite with u64_pull. destruct (Hfin (q1 + 1 - 1) (e + D)) as (F1 & F2 & F3); [subst e; lia..|].
    rewrite Ea. done.
  - rewrite (Z.mod_small e) in Er by lia. rewrite Er in *. destruct (Z.leb_spec q0 r1).
    + rewrite (Z.mod_small (e + D)) in Ea, Eas by lia. rewrite lt128_spec, Ea, val_2 by done. fold D.
      destruct (Z.ltb_spec (e + D) D); [lia|]. cbn [negb]. autorewrite with u64_pull.
      rewrite Z.mod_small in Eas by lia. rewrite Eas.
      destruct (Hfin (q1 + 1 - 1 + 1) (e + D - D)) as (F1 & F2 & F3); [subst e; lia..|]. done.
    + rewrite lt128_spec, !val_2, Er by done. fold D. destruct (Z.ltb_spec e D); cbn [negb].
      * rewrite val_2, Er. destruct (Hfin (q1 + 1) e) as (F1 & F2 & F3); [subst e; lia..|]. done.
      * autorewrite with u64_pull. rewrite Es, Z.mod_small by lia. destruct (Hfin (q1 + 1 + 1) (e - D)) as (F1 & F2 & F3); [subst e; lia..|]. done.
Qed.
End Div3by2.

(** ** Two words by one and three words by two, with their reciprocals *)
Theorem udivrem_2by1_spec u d : is_words 2 u → 2 ^ 63 <= d < 2 ^ 64 → word u 1 < d →
  udivrem_2by1 u d (reciprocal_2by1 d) = (val u / d, val u mod d).
Proof.
  intros (u0 & u1 & -> & H0 & H1)%is_words_2_inv Hd. change (word [u0; u1] 1) with u1. intros Hu.
  rewrite val_2. destruct (reciprocal_2by1_range d Hd) as [Hv Hk]. unfold is_u64 in H1. apply udivrem_2by1_lem; [done..|lia].
Qed.
Theorem udivrem_3by2_spec u0 u1 u2 d : is_u64 u0 → is_u64 u1 → is_u64 u2 → is_words 2 d → 2 ^ 127 <= val d → val [u1; u2] < val d →
  let '(q, r) := udivrem_3by2 u2 u1 u0 d (reciprocal_3by2 d) in
  q = val [u0; u1; u2] / val d ∧ is_u64 q ∧ is_words 2 r ∧ val r = val [u0; u1; u2] mod val d.
Proof.
  intros H0 H1 H2 Hd Hn Hu. destruct (reciprocal_3by2_spec d Hd Hn) as [Hv Ev].
  destruct (is_words_2_inv _ Hd) as (d0 & d1 & -> & Hd0 & Hd1). set (v := reciprocal_3by2 [d0; d1]) in *. clearbody v.
  rewrite val_2 in *. rewrite val_2 in Hu. cbn [val]. replace (u0 + 2 ^ 64 * (u1 + 2 ^ 64 * (u2 + 2 ^ 64 * 0))) with (u0 + 2 ^ 64 * u1 + 2 ^ 128 * u2) by ring.
  pose proof (Z.div_mod (2 ^ 192 - 1) (d0 + 2 ^ 64 * d1) ltac:(lia)) as E. pose proof (Z.mod_pos_bound (2 ^ 192 - 1) (d0 + 2 ^ 64 * d1) ltac:(lia)) as R.
  unfold is_u64 in Hd0, Hd1. apply udivrem_3by2_lem; try done; lia.
Qed.

(** C20: The reciprocals that division multiplies by are exact: for a
    normalized divisor of two words [d] with the high word [d1] they are the
    whole parts of (2^128 - 1) / d1 and of (2^192 - 1) / d, less 2^64, and fit a
    word. *)
Theorem reciprocals_exact d : is_words 2 d → 2 ^ 127 <= val d →
  reciprocal_2by1 (word d 1) = (2 ^ 128 - 1) / word d 1 - 2 ^ 64 ∧ is_u64 (reciprocal_2by1 (word d 1)) ∧
  reciprocal_3by2 d = (2 ^ 192 - 1) / val d - 2 ^ 64 ∧ is_u64 (reciprocal_3by2 d).
Proof.
  intros Hd Hn. destruct (reciprocal_3by2_spec d Hd Hn) as [Hv Ev].
  destruct (is_words_2_inv _ Hd) as (d0 & d1 & -> & Hd0 & Hd1). change (word [d0; d1] 1) with d1.
  rewrite val_2 in Hn. unfold is_u64 in Hd0, Hd1. assert (2 ^ 63 <= d1 < 2 ^ 64) as Hd1' by lia.
  split_and!; [by apply reciprocal_2by1_spec|by apply reciprocal_2by1_range|done|done].
Qed.
Lemma reciprocals_exact_witness : let d := [5; 2 ^ 63 + 3] in
  (is_words 2 d ∧ 2 ^ 127 <= val d) ∧ reciprocal_3by2 d = (2 ^ 192 - 1) / val d - 2 ^ 64.
Proof.
  cbv zeta. assert (is_words 2 [5; 2 ^ 63 + 3]) as Hd by (by apply is_words_2).
  assert (2 ^ 127 <= val [5; 2 ^ 63 + 3]) as Hn by (by rewrite val_2). split; [done|]. apply (reciprocals_exact _ Hd Hn).
Defined.
