(* ===== verification/IntxUdivrem.v ===== *)
(** * intx: division of numbers of any size

    pkgs/intx-0.10.0/include/intx/intx.hpp: [udivrem] normalizes its arguments
    and then divides by one word, by two, or by Knuth's algorithm D.  The arrays
    that the program changes in place are passed along.  [uint_udivrem_spec]: the
    result is the quotient and the remainder. *)
From Stdlib Require Import ZArith Lia.
From stdpp Require Import base tactics numbers list.
From S2P Require Import Prelude Intx IntxDiv.

Local Open Scope Z_scope.

(** ** Normalization *)
Record normalized_div_args := mkNormalized {
  divisor : words;
  numerator : words;
  num_divisor_words : nat;
  num_numerator_words : nat;
  shift : Z;
}.
(** [(x[i] << s) | (x[i - 1] >> (64 - s))], for [s] that is not zero. *)
Fixpoint shl_words (s prev : Z) (x : words) : words :=
  match x with
  | [] => []
  | xi :: x => Z.lor (u64 (Z.shiftl xi s)) (Z.shiftr prev (64 - s)) :: shl_words s xi x
  end.
Definition normalize_words (s : Z) (x : words) : words :=
  match x with
  | [] => []
  | x0 :: x => u64 (Z.shiftl x0 s) :: shl_words s x0 x
  end.
(** [before] is the word of memory before the numerator, which is read as
    [un[m - 1]] when the numerator is zero. *)
Definition normalize (before : Z) (u v : words) : normalized_div_args :=
  let m := count_significant_words u in
  let n := count_significant_words v in
  let s := clz (word v (n - 1)) in
  let '(un, vn) :=
    if negb (s =? 0) then
      (normalize_words s u ++ [Z.shiftr (word u (length u - 1)) (64 - s)], normalize_words s v)
    else (uint_extend (length u + 1) u, v) in
  let last := if (m =? 0)%nat then before else word un (m - 1) in
  let m := if negb (word un m =? 0) || (word vn (n - 1) <=? last) then (m + 1)%nat else m in
  mkNormalized vn un n m s.

(** ** One word, two words *)
(** The loops walk down; [i] words of the numerator are left. *)
Fixpoint by1_loop (reciprocal d : Z) (u : words) (rem : Z) (i : nat) : words * Z :=
  match i with
  | O => (u, rem)
  | S i =>
      let '(q, rem) := udivrem_2by1 [word u i; rem] d reciprocal in
      by1_loop reciprocal d (<[i := q]> u) rem i
  end.
Definition udivrem_by1 (u : words) (len : nat) (d : Z) : words * Z :=
  let reciprocal := reciprocal_2by1 d in
  let rem := word u (len - 1) in
  let u := <[(len - 1)%nat := 0]> u in
  by1_loop reciprocal d u rem (len - 1).
Fixpoint by2_loop (reciprocal : Z) (d u rem : words) (i : nat) : words * words :=
  match i with
  | O => (u, rem)
  | S i =>
      let '(q, rem) := udivrem_3by2 (word rem 1) (word rem 0) (word u i) d reciprocal in
      by2_loop reciprocal d (<[i := q]> u) rem i
  end.
Definition udivrem_by2 (u : words) (len : nat) (d : words) : words * words :=
  let reciprocal := reciprocal_3by2 d in
  let rem := [word u (len - 2); word u (len - 1)] in
  let u := <[(len - 2)%nat := 0]> (<[(len - 1)%nat := 0]> u) in
  by2_loop reciprocal d u rem (len - 2).

(** ** Knuth's algorithm D *)
(** [add], [submul]: on the words of two arrays; [&u[j]] is a part of [u]. *)
Definition add_words (x y : words) : words * bool := uint_addc x y false.
Fixpoint submul_loop (multiplier borrow : Z) (x y : words) : words * Z :=
  match x, y with
  | xi :: x, yi :: y =>
      let s := u64 (xi - borrow) in
      let p := umul64 yi multiplier in
      let borrow := u64 (word p 1 + Z.b2z (xi <? s)) in
      let ri := u64 (s - word p 0) in
      let borrow := u64 (borrow + Z.b2z (s <? ri)) in
      let '(r, borrow) := submul_loop multiplier borrow x y in
      (ri :: r, borrow)
  | _, _ => ([], borrow)
  end.
Definition submul (x y : words) (multiplier : Z) : words * Z := submul_loop multiplier 0 x y.
Definition slice (u : words) (j len : nat) : words := take len (drop j u).
Definition write (u : words) (j : nat) (r : words) : words := take j u ++ r ++ drop (j + length r) u.

(** Digit [j] of the quotient; the numerator without its multiple of [d]. *)
Definition knuth_step (reciprocal : Z) (d : words) (dlen : nat) (u : words) (j : nat) : Z * words :=
  let divisor := [word d (dlen - 2); word d (dlen - 1)] in
  let u2 := word u (j + dlen) in
  let u1 := word u (j + dlen - 1) in
  let u0 := word u (j + dlen - 2) in
  if uint_eq [u1; u2] divisor then
    let qhat := not64 0 in
    let '(r, borrow) := submul (slice u j dlen) (take dlen d) qhat in
    let u := write u j r in
    (qhat, <[(j + dlen)%nat := u64 (u2 - borrow)]> u)
  else
    let '(qhat, rhat) := udivrem_3by2 u2 u1 u0 divisor reciprocal in
    let '(r, overflow) := submul (slice u j (dlen - 2)) (take (dlen - 2) d) qhat in
    let u := write u j r in
    let '(w, carry) := subc64 (word rhat 0) overflow false in
    let u := <[(j + dlen - 2)%nat := w]> u in
    let '(w, carry) := subc64 (word rhat 1) (Z.b2z carry) false in
    let u := <[(j + dlen - 1)%nat := w]> u in
    if (carry : bool) then
      let '(r, c) := add_words (slice u j (dlen - 1)) (take (dlen - 1) d) in
      let u := write u j r in
      (u64 (qhat - 1),
       <[(j + dlen - 1)%nat := u64 (word u (j + dlen - 1) + u64 (word divisor 1 + Z.b2z c))]> u)
    else (qhat, u).
Fixpoint knuth_loop (reciprocal : Z) (d : words) (dlen : nat) (q u : words) (j : nat) : words * words :=
  match j with
  | O => (q, u)
  | S j =>
      let '(qhat, u) := knuth_step reciprocal d dlen u j in
      knuth_loop reciprocal d dlen (<[j := qhat]> q) u j
  end.
Definition udivrem_knuth (q u : words) (ulen : nat) (d : words) (dlen : nat) : words * words :=
  let divisor := [word d (dlen - 2); word d (dlen - 1)] in
  let reciprocal := reciprocal_3by2 divisor in
  knuth_loop reciprocal d dlen q u (ulen - dlen).

(** ** [udivrem] *)
(** The remainder, shifted back. *)
Fixpoint shr_words (s : Z) (x : words) : words :=
  match x with
  | [] => []
  | [xi] => [Z.shiftr xi s]
  | xi :: (next :: _) as x =>
      (if negb (s =? 0) then Z.lor (Z.shiftr xi s) (u64 (Z.shiftl next (64 - s))) else xi) :: shr_words s x
  end.
(** A number in another type: extended or truncated. *)
Definition uint_cast (n : nat) (x : words) : words := take n x ++ replicate (n - length x) 0.
Definition udivrem_from (before : Z) (u v : words) : words * words :=
  let na := normalize before u v in
  let m := num_numerator_words na in
  let n := num_divisor_words na in
  if (m <=? n)%nat then (uint_of (length u) 0, uint_cast (length v) u)
  else if (n =? 1)%nat then
    let '(un, r) := udivrem_by1 (numerator na) m (word (divisor na) 0) in
    (uint_trunc (length u) un, uint_of (length v) (Z.shiftr r (shift na)))
  else if (n =? 2)%nat then
    let '(un, r) := udivrem_by2 (numerator na) m [word (divisor na) 0; word (divisor na) 1] in
    (uint_trunc (length u) un, uint_cast (length v) (shr128 r (shift na)))
  else
    let '(q, un) := udivrem_knuth (replicate (length u) 0) (numerator na) m (divisor na) n in
    (q, shr_words (shift na) (take n un) ++ replicate (length v - n) 0).
(** In the record the divisor lies before the numerator: the word that is read
    there is its last. *)
Definition udivrem (u v : words) : words * words :=
  udivrem_from (word (divisor (normalize 0 u v)) (length v - 1)) u v.

(** ** Words, changed *)
Lemma word_lookup x i w : x !! i = Some w → word x i = w.
Proof. intros H. unfold word. by rewrite nth_lookup, H. Qed.
Lemma word_insert x i w : (i < length x)%nat → word (<[i:=w]> x) i = w.
Proof. intros H. apply word_lookup. by apply list_lookup_insert_eq. Qed.
Lemma word_insert_ne x i j w : i ≠ j → word (<[i:=w]> x) j = word x j.
Proof. intros H. unfold word. rewrite !nth_lookup. by rewrite list_lookup_insert_ne. Qed.
Lemma is_words_insert n x i w : is_words n x → is_u64 w → is_words n (<[i:=w]> x).
Proof. intros [H1 H2] Hw. split; [by rewrite length_insert|by apply Forall_insert]. Qed.
Lemma is_words_word n x i : is_words n x → is_u64 (word x i).
Proof. intros [_ H]. by apply word_u64. Qed.
Lemma take_insert_word (x : words) i w : (i < length x)%nat → take (S i) (<[i:=w]> x) = take i x ++ [w].
Proof.
  intros H. rewrite (take_S_r _ _ w) by (by apply list_lookup_insert_eq). by rewrite take_insert_ge by lia.
Qed.

(** ** Division by one word *)
Lemma by1_loop_spec d n u rem i : 2 ^ 63 <= d < 2 ^ 64 → is_words n u → (i <= n)%nat → 0 <= rem < d →
  let '(u', rem') := by1_loop (reciprocal_2by1 d) d u rem i in
  is_words n u' ∧ drop i u' = drop i u ∧ 0 <= rem' < d ∧
  val (take i u') * d + rem' = val (take i u) + 2 ^ (64 * Z.of_nat i) * rem.
Proof.
  intros Hd. revert u rem. induction i as [|i IH]; intros u rem Hu Hi Hr; cbn [by1_loop].
  { split_and!; [done|done|lia..|]. rewrite take_0. change (2 ^ (64 * Z.of_nat 0)) with 1. cbn [val]. lia. }
  pose proof (is_words_word _ _ i Hu) as Hw. assert (is_words 2 [word u i; rem]) as H2 by (apply is_words_2; split; [done|unfold is_u64; lia]).
  rewrite udivrem_2by1_spec by (done || apply Hr). rewrite val_2. set (a := word u i + 2 ^ 64 * rem).
  pose proof (Z.div_mod a d ltac:(lia)) as Ea. pose proof (Z.mod_pos_bound a d ltac:(lia)) as Ra.
  set (q := a / d) in *. set (r := a mod d) in *. unfold is_u64 in Hw.
  assert (is_u64 q) as Hq.
  { unfold is_u64. subst q. split; [apply Z.div_pos; lia|]. apply Z.div_lt_upper_bound; lia. }
  pose proof (is_words_insert _ _ i _ Hu Hq) as Hu'. specialize (IH (<[i:=q]> u) r Hu' ltac:(lia) Ra).
  destruct (by1_loop _ d (<[i:=q]> u) r i) as [u' rem']. destruct IH as (I1 & I2 & I3 & I4).
  assert (i < length u)%nat as Hl by (rewrite (proj1 Hu); lia). assert (i < length u')%nat as Hl' by (rewrite (proj1 I1); lia).
  split_and!; [done| |lia..|].
  - replace (S i) with (i + 1)%nat by lia. rewrite <-!drop_drop, I2, !drop_drop. by apply drop_insert_lt; lia.
  - rewrite !val_take_S by done. assert (word u' i = q) as ->.
    { rewrite <-(Nat.add_0_r i), <-word_drop, I2, word_drop, Nat.add_0_r. by apply word_insert. }
    rewrite take_insert_ge in I4 by lia. rewrite pow64_S. set (b := 2 ^ (64 * Z.of_nat i)) in *.
    replace ((val (take i u') + b * q) * d + rem') with (val (take i u') * d + rem' + b * (d * q)) by ring. rewrite I4.
    replace (d * q) with (a - r) by lia. subst a. ring.
Qed.
Lemma val_zeros_from n x i : is_words n x → (∀ j, (i <= j)%nat → word x j = 0) → val x = val (take i x).
Proof.
  intros Hx Hz. destruct (decide (i <= n)%nat) as [Hi|Hi].
  - rewrite (val_take_drop i x) by (rewrite (proj1 Hx); lia). rewrite (word_zero_val (drop i x)); [lia|].
    intros j Hj. rewrite word_drop. apply Hz. lia.
  - by rewrite take_ge by (rewrite (proj1 Hx); lia).
Qed.
Lemma word_drop_eq x y i j : drop i x = drop i y → (i <= j)%nat → word x j = word y j.
Proof. intros E H. replace j with (i + (j - i))%nat by lia. by rewrite <-!word_drop, E. Qed.
Lemma udivrem_by1_spec n u len d : 2 ^ 63 <= d < 2 ^ 64 → is_words n u → (0 < len <= n)%nat →
  (∀ j, (len <= j)%nat → word u j = 0) → word u (len - 1) < d →
  let '(u', r) := udivrem_by1 u len d in
  is_words n u' ∧ (∀ j, (len - 1 <= j)%nat → word u' j = 0) ∧ 0 <= r < d ∧ val u = val u' * d + r.
Proof.
  intros Hd Hu Hlen Hz Ht. unfold udivrem_by1. set (i := (len - 1)%nat) in *. pose proof (is_words_word _ _ i Hu) as Hw.
  set (u1 := <[i:=0]> u). assert (is_words n u1) as Hu1 by (by apply is_words_insert).
  assert (i < length u)%nat as Hl by (rewrite (proj1 Hu); lia). unfold is_u64 in Hw.
  pose proof (by1_loop_spec d n u1 (word u i) i Hd Hu1 ltac:(lia) ltac:(lia)) as H.
  destruct (by1_loop _ d u1 (word u i) i) as [u' r]. destruct H as (H1 & H2 & H3 & H4).
  assert (∀ j, (i <= j)%nat → word u' j = 0) as Hz'.
  { intros j Hj. rewrite (word_drop_eq _ _ i j H2 Hj). subst u1. destruct (decide (i = j)) as [<-|Hne]; [by apply word_insert|].
    rewrite word_insert_ne by done. apply Hz. lia. }
  split_and!; [done|done|lia..|]. rewrite (val_zeros_from n u' i H1 Hz'), H4. subst u1. rewrite take_insert_ge by lia.
  rewrite (val_zeros_from n u len Hu Hz). replace len with (S i) by lia. by rewrite val_take_S.
Qed.

(** ** Division by two words *)
Lemma by2_loop_spec d n u rem i : is_words 2 d → 2 ^ 127 <= val d → is_words n u → (i <= n)%nat → is_words 2 rem → val rem < val d →
  let '(u', rem') := by2_loop (reciprocal_3by2 d) d u rem i in
  is_words n u' ∧ drop i u' = drop i u ∧ is_words 2 rem' ∧ val rem' < val d ∧
  val (take i u') * val d + val rem' = val (take i u) + 2 ^ (64 * Z.of_nat i) * val rem.
Proof.
  intros Hd Hn. revert u rem. induction i as [|i IH]; intros u rem Hu Hi Hr Hlt; cbn [by2_loop].
  { split_and!; [done..|]. rewrite take_0. change (2 ^ (64 * Z.of_nat 0)) with 1. cbn [val]. lia. }
  pose proof (is_words_word _ _ i Hu) as Hw. destruct (is_words_2_inv _ Hr) as (r0 & r1 & -> & Hr0 & Hr1).
  change (word [r0; r1] 0) with r0. change (word [r0; r1] 1) with r1.
  pose proof (udivrem_3by2_spec (word u i) r0 r1 d Hw Hr0 Hr1 Hd Hn Hlt) as Hdiv.
  destruct (udivrem_3by2 r1 r0 (word u i) d _) as [q r]. destruct Hdiv as (Eq & Hq & Hr' & Er). rewrite val_cons in Eq, Er.
  set (a := word u i + 2 ^ 64 * val [r0; r1]) in *.
  pose proof (Z.div_mod a (val d) ltac:(lia)) as Ea. pose proof (Z.mod_pos_bound a (val d) ltac:(lia)) as Ra. rewrite <-Eq, <-Er in Ea. rewrite <-Er in Ra.
  pose proof (is_words_insert _ _ i _ Hu Hq) as Hu'. specialize (IH (<[i:=q]> u) r Hu' ltac:(lia) Hr' ltac:(lia)).
  destruct (by2_loop _ d (<[i:=q]> u) r i) as [u' rem']. destruct IH as (I1 & I2 & I3 & I4 & I5).
  assert (i < length u)%nat as Hl by (rewrite (proj1 Hu); lia). assert (i < length u')%nat as Hl' by (rewrite (proj1 I1); lia).
  split_and!; [done| |done|done|].
  - replace (S i) with (i + 1)%nat by lia. rewrite <-!drop_drop, I2, !drop_drop. apply drop_insert_lt; lia.
  - rewrite !val_take_S by done. assert (word u' i = q) as ->.
    { rewrite <-(Nat.add_0_r i), <-word_drop, I2, word_drop, Nat.add_0_r. by apply word_insert. }
    rewrite take_insert_ge in I5 by lia. rewrite pow64_S. set (b := 2 ^ (64 * Z.of_nat i)) in *.
    replace ((val (take i u') + b * q) * val d + val rem') with (val (take i u') * val d + val rem' + b * (val d * q)) by ring. rewrite I5.
    replace (val d * q) with (a - val r) by lia. subst a. ring.
Qed.
Lemma udivrem_by2_spec n u len d : is_words 2 d → 2 ^ 127 <= val d → is_words n u → (2 <= len <= n)%nat →
  (∀ j, (len <= j)%nat → word u j = 0) → val [word u (len - 2); word u (len - 1)] < val d →
  let '(u', r) := udivrem_by2 u len d in
  is_words n u' ∧ (∀ j, (len - 2 <= j)%nat → word u' j = 0) ∧ is_words 2 r ∧ val r < val d ∧ val u = val u' * val d + val r.
Proof.
  intros Hd Hn Hu Hlen Hz Ht. unfold udivrem_by2. set (i := (len - 2)%nat) in *. replace (len - 1)%nat with (S i) in * by lia.
  set (u1 := <[i:=0]> (<[S i:=0]> u)). assert (is_words n u1) as Hu1 by (by repeat apply is_words_insert).
  assert (S i < length u)%nat as Hl by (rewrite (proj1 Hu); lia).
  assert (is_words 2 [word u i; word u (S i)]) as Hr by (apply is_words_2; split; by eapply is_words_word).
  pose proof (by2_loop_spec d n u1 _ i Hd Hn Hu1 ltac:(lia) Hr Ht) as H.
  destruct (by2_loop _ d u1 _ i) as [u' r]. destruct H as (H1 & H2 & H3 & H4 & H5).
  assert (∀ j, (i <= j)%nat → word u' j = 0) as Hz'.
  { intros j Hj. rewrite (word_drop_eq _ _ i j H2 Hj). subst u1. destruct (decide (i = j)) as [<-|Hne].
    - apply word_insert. rewrite length_insert. lia.
    - rewrite word_insert_ne by done. destruct (decide (S i = j)) as [<-|Hne2]; [by apply word_insert|].
      rewrite word_insert_ne by done. apply Hz. lia. }
  split_and!; [done..|]. rewrite (val_zeros_from n u' i H1 Hz'), H5. subst u1. rewrite !take_insert_ge by lia.
  rewrite (val_zeros_from n u len Hu Hz). replace len with (S (S i)) by lia. rewrite !val_take_S by lia. rewrite val_2, pow64_S. ring.
Qed.

(** ** Knuth's algorithm *)
Lemma submul_loop_spec n x y m b : is_u64 m → is_words n x → is_words n y → is_u64 b →
  let '(r, b') := submul_loop m b x y in
  is_words n r ∧ is_u64 b' ∧ val r - 2 ^ (64 * Z.of_nat n) * b' = val x - val y * m - b.
Proof.
  intros Hm. revert x y b. induction n as [|n IH]; intros x y b.
  { intros ->%is_words_0 ->%is_words_0 Hb. cbn [submul_loop val]. split_and!; [apply is_words_nil|done|].
    change (2 ^ (64 * Z.of_nat 0)) with 1. lia. }
  intros (xi & x' & -> & Hxi & Hx)%is_words_S (yi & y' & -> & Hyi & Hy)%is_words_S Hb. cbn [submul_loop].
  destruct (umul64_spec yi m Hyi Hm) as [Hp Ep]. destruct (is_words_2_inv _ Hp) as (p0 & p1 & E & Hp0 & Hp1). rewrite E in *.
  change (word [p0; p1] 0) with p0. change (word [p0; p1] 1) with p1. rewrite val_2 in Ep.
  set (s := u64 (xi - b)). set (ri := u64 (s - p0)). pose proof (u64_range (xi - b)) as Rs. fold s in Rs. pose proof (u64_range (s - p0)) as Rr. fold ri in Rr.
  assert (s - 2 ^ 64 * Z.b2z (xi <? s) = xi - b) as Es.
  { pose proof (u64_split (xi - b)) as Eu. fold s in Eu. unfold is_u64 in *. destruct (Z.ltb_spec xi s); cbn [Z.b2z]; lia. }
  assert (ri - 2 ^ 64 * Z.b2z (s <? ri) = s - p0) as Er.
  { pose proof (u64_split (s - p0)) as Eu. fold ri in Eu. unfold is_u64 in *. destruct (Z.ltb_spec s ri); cbn [Z.b2z]; lia. }
  autorewrite with u64_pull. pose proof (b2z_range (xi <? s)) as B1. pose proof (b2z_range (s <? ri)) as B2.
  set (c1 := Z.b2z (xi <? s)) in *. set (c2 := Z.b2z (s <? ri)) in *. clearbody s ri c1 c2.
  assert (is_u64 (p1 + c1 + c2)) as Hb1.
  { unfold is_u64 in *. pose proof (mul_bounds yi m (2 ^ 64 - 1) ltac:(lia) ltac:(lia)). lia. }
  rewrite (u64_small _ Hb1). specialize (IH x' y' (p1 + c1 + c2) Hx Hy Hb1).
  destruct (submul_loop m (p1 + c1 + c2) x' y') as [r b']. destruct IH as (I1 & I2 & I3). rewrite is_words_cons, !val_cons, pow64_S.
  split_and!; [done..|]. replace (ri + 2 ^ 64 * val r - 2 ^ 64 * 2 ^ (64 * Z.of_nat n) * b') with (ri + 2 ^ 64 * (val r - 2 ^ (64 * Z.of_nat n) * b')) by ring.
  rewrite I3. replace ((yi + 2 ^ 64 * val y') * m) with (yi * m + 2 ^ 64 * (val y' * m)) by ring. lia.
Qed.
Lemma submul_spec n x y m : is_u64 m → is_words n x → is_words n y →
  let '(r, b) := submul x y m in is_words n r ∧ is_u64 b ∧ val r - 2 ^ (64 * Z.of_nat n) * b = val x - val y * m.
Proof.
  intros Hm Hx Hy. pose proof (submul_loop_spec n x y m 0 Hm Hx Hy ltac:(done)) as H. unfold submul.
  destruct (submul_loop m 0 x y) as [r b]. destruct H as (? & ? & ?). split_and!; [done..|]. lia.
Qed.
(** Parts of an array. *)
Lemma is_words_slice n u j k : is_words n u → (j + k <= n)%nat → is_words k (slice u j k).
Proof. intros Hu H. eapply is_words_take; [by apply is_words_drop|lia]. Qed.
Lemma word_slice u j k i : (i < k)%nat → word (slice u j k) i = word u (j + i).
Proof. intros H. unfold slice. by rewrite word_take, word_drop. Qed.
Lemma word_ext n x y : length x = n → length y = n → (∀ i, (i < n)%nat → word x i = word y i) → x = y.
Proof.
  revert x y. induction n as [|n IH]; intros [|w x] [|v y] Hx Hy H; try done. f_equal.
  - by apply (H 0%nat); lia.
  - apply IH; [by injection Hx|by injection Hy|]. intros i Hi. apply (H (S i)). lia.
Qed.
Lemma slice_ext n u u' j k : is_words n u → is_words n u' → (j + k <= n)%nat →
  (∀ i, (i < k)%nat → word u' (j + i) = word u (j + i)) → slice u' j k = slice u j k.
Proof.
  intros Hu Hu' H Hw. apply (word_ext k); [apply (is_words_slice n u' j k); done|apply (is_words_slice n u j k); done|].
  intros i Hi. rewrite !word_slice by done. by apply Hw.
Qed.
Lemma val_slice_S u j k : (j + k < length u)%nat → val (slice u j (S k)) = val (slice u j k) + 2 ^ (64 * Z.of_nat k) * word u (j + k).
Proof. intros H. unfold slice. rewrite val_take_S by (rewrite length_drop; lia). by rewrite word_drop. Qed.
Lemma val_slice_cons u j k : (j + k < length u)%nat → val (slice u j (S k)) = word u j + 2 ^ 64 * val (slice u (S j) k).
Proof.
  intros H. unfold slice. replace (S j) with (j + 1)%nat by lia. rewrite <-drop_drop.
  destruct (drop j u) as [|w x] eqn:E; [apply (f_equal length) in E; rewrite length_drop in E; cbn in E; lia|].
  cbn [take drop]. rewrite drop_0, val_cons. do 2 f_equal. rewrite <-(Nat.add_0_r j), <-word_drop, E. done.
Qed.
Lemma val_take_slice u j k : (j + k <= length u)%nat → val (take (j + k) u) = val (take j u) + 2 ^ (64 * Z.of_nat j) * val (slice u j k).
Proof.
  intros H. unfold slice. rewrite (val_take_drop j (take (j + k) u)) by (rewrite length_take; lia).
  rewrite take_take, Nat.min_l by lia. by rewrite skipn_firstn_comm, Nat.add_comm, Nat.add_sub.
Qed.
Section Write.
Context (n k j : nat) (u r : words) (Hu : is_words n u) (Hr : is_words k r) (Hj : (j + k <= n)%nat).
Lemma is_words_write : is_words n (write u j r).
Proof using Hu Hr Hj.
  unfold write. rewrite (proj1 Hr). replace n with (j + (k + (n - (j + k))))%nat by lia.
  apply is_words_app; [apply (is_words_take n); [done|lia]|]. apply is_words_app; [done|]. by apply is_words_drop.
Qed.
Lemma word_write i : word (write u j r) i = if (decide (j <= i < j + k)%nat) then word r (i - j) else word u i.
Proof using Hu Hr Hj.
  unfold write. rewrite (proj1 Hr). assert (length (take j u) = j) as Hlt by (rewrite length_take, (proj1 Hu); lia).
  case_decide as Hd.
  - replace i with (length (take j u) + (i - j))%nat by lia. rewrite word_app_r.
    rewrite word_app_l by (rewrite (proj1 Hr); lia). f_equal. lia.
  - destruct (decide (i < j)%nat) as [Hi|Hi].
    + rewrite word_app_l by lia. by apply word_take.
    + replace i with (length (take j u) + (length r + (i - j - k)))%nat at 1 by (rewrite (proj1 Hr); lia).
      rewrite !word_app_r, word_drop. f_equal. lia.
Qed.
Lemma slice_write : slice (write u j r) j k = r.
Proof using Hu Hr Hj.
  apply (word_ext k); [by apply (is_words_slice n); [apply is_words_write|]|apply Hr|].
  intros i Hi. rewrite word_slice, word_write by done. rewrite decide_True by lia. f_equal. lia.
Qed.
End Write.
Lemma take_ext n u u' j : is_words n u → is_words n u' → (∀ i, (i < j)%nat → word u' i = word u i) → take j u' = take j u.
Proof.
  intros Hu Hu' H. apply (word_ext (j `min` n)); [by rewrite length_take, (proj1 Hu')|by rewrite length_take, (proj1 Hu)|].
  intros i Hi. rewrite !word_take by lia. apply H. lia.
Qed.

Section Step.
Context (N L k j : nat) (d u : words) (Hd : is_words N d) (HN : (S (S k) <= N)%nat).
Context (Hu : is_words L u) (Hj : (j + S (S k) < L)%nat) (Htop : 2 ^ 63 <= word d (S k)).
Let D := val (take (S (S k)) d).
Let D2 := val [word d k; word d (S k)].
Let W := val (slice u j (S (S (S k)))).
Let b := 2 ^ (64 * Z.of_nat k).
Context (Hlt : val (slice u (S j) (S (S k))) < D).

Lemma step_facts :
  0 < b ∧ is_words 2 [word d k; word d (S k)] ∧ 2 ^ 127 <= D2 ∧
  D = val (take k d) + b * D2 ∧ 0 <= val (take k d) < b ∧
  W = val (slice u j k) + b * val [word u (j + k); word u (j + S k); word u (j + S (S k))] ∧
  0 <= val (slice u j k) < b ∧ 0 <= W < 2 ^ 64 * D ∧
  val [word u (j + S k); word u (j + S (S k))] <= D2.
Proof using Hd HN Hu Hj Htop Hlt.
  pose proof (pow64_pos k) as Hb. fold b in Hb. pose proof (is_words_word _ _ k Hd) as W0. pose proof (is_words_word _ _ (S k) Hd) as W1.
  pose proof (is_words_range _ _ (is_words_take _ k _ Hd ltac:(lia))) as R1. fold b in R1.
  pose proof (is_words_range _ _ (is_words_slice _ _ j k Hu ltac:(lia))) as R2. fold b in R2.
  pose proof (is_words_range _ _ (is_words_slice _ _ (S j) k Hu ltac:(lia))) as R3. fold b in R3.
  pose proof (is_words_word _ _ j Hu) as Wj. unfold is_u64 in W0, W1, Wj.
  assert (D = val (take k d) + b * D2) as ED.
  { subst D D2. rewrite !val_take_S by (rewrite (proj1 Hd); lia). rewrite val_2, pow64_S. fold b. ring. }
  assert (W = word u j + 2 ^ 64 * val (slice u (S j) (S (S k)))) as EW1.
  { subst W. apply val_slice_cons. rewrite (proj1 Hu). lia. }
  assert (val (slice u (S j) (S (S k))) = val (slice u (S j) k) + b * val [word u (j + S k); word u (j + S (S k))]) as EW2.
  { rewrite !val_slice_S by (rewrite (proj1 Hu); lia). rewrite val_2, pow64_S. fold b.
    replace (S j + k)%nat with (j + S k)%nat by lia. replace (S j + S k)%nat with (j + S (S k))%nat by lia. ring. }
  pose proof (is_words_range _ _ (is_words_slice _ _ j (S (S (S k))) Hu ltac:(lia))) as RW. fold W in RW.
  split_and!; try done; try lia.
  - apply is_words_2. split; by eapply is_words_word.
  - subst D2. rewrite val_2. lia.
  - subst W. rewrite !val_slice_S by (rewrite (proj1 Hu); lia). cbn [val]. rewrite !pow64_S. fold b. ring.
  - rewrite EW2, ED in Hlt. set (h := val [word u (j + S k); _]) in *. clear - Hlt R1 R3 Hb. nia.
Qed.

Let n := S (S k).
Definition step_ok (qhat : Z) (u' : words) : Prop :=
  is_words L u' ∧ is_u64 qhat ∧ take j u' = take j u ∧ W = qhat * D + val (slice u' j n) ∧ val (slice u' j n) < D.

(** The quotient digit would overflow: it is 2^64 - 1. *)
Lemma step_overflow : val [word u (j + S k); word u (j + S (S k))] = D2 →
  let '(r, borrow) := submul (slice u j n) (take n d) (not64 0) in
  step_ok (not64 0) (<[(j + n)%nat := u64 (word u (j + n) - borrow)]> (write u j r)).
Proof using Hd HN Hu Hj Htop Hlt.
  intros Eq. destruct step_facts as (Hb & H2 & HD2 & ED & Rd & EW & Ru & RW & _).
  pose proof (is_words_slice _ _ j n Hu ltac:(lia)) as Hs. pose proof (is_words_take _ n _ Hd HN) as Ht.
  pose proof (submul_spec n _ _ (not64 0) ltac:(done) Hs Ht) as H. destruct (submul _ _ _) as [r bo]. destruct H as (Hr & Hbo & Er).
  change (val (take n d)) with D in Er. change (not64 0) with (2 ^ 64 - 1) in *. assert (is_words L (write u j r)) as Hw by (apply (is_words_write _ n); [done|done|lia]).
  assert (W = val (slice u j n) + 2 ^ 64 * 2 ^ 64 * b * word u (j + n)) as EW2.
  { subst W n. rewrite val_slice_S by (rewrite (proj1 Hu); lia). rewrite !pow64_S. fold b. ring. }
  assert (2 ^ (64 * Z.of_nat n) = 2 ^ 64 * 2 ^ 64 * b) as En by (subst n b; rewrite !pow64_S; ring). rewrite En in Er.
  pose proof (is_words_range _ _ Hr) as Rr. rewrite En in Rr.
  assert (0 <= W - (2 ^ 64 - 1) * D < D) as RR.
  { split; [|lia]. rewrite EW, val_cons, Eq, ED. pose proof (is_words_word _ _ (j + k) Hu) as Hwk. unfold is_u64 in Hwk. clear - Hb HD2 Rd Ru Hwk. nia. }
  assert (word u (j + n) = bo) as Ebo.
  { assert (W - (2 ^ 64 - 1) * D = val r + 2 ^ 64 * 2 ^ 64 * b * (word u (j + n) - bo)) as E by lia.
    assert (D < 2 ^ 64 * 2 ^ 64 * b) as RD by (rewrite <-En; apply is_words_range in Ht; apply Ht). clear - E RR Rr RD Hb. nia. }
  rewrite Ebo, Z.sub_diag. change (u64 0) with 0. unfold step_ok.
  assert (slice (<[(j + n)%nat:=0]> (write u j r)) j n = r) as ->.
  { rewrite <-(slice_write L n j u r Hu Hr) at 2 by lia.
    apply (slice_ext L); [done|by apply is_words_insert|lia|]. intros i Hi. by rewrite word_insert_ne by lia. }
  split_and!; [by apply is_words_insert|unfold is_u64; lia..| |rewrite EW2 in *; lia|lia].
  apply (take_ext L); [done|by apply is_words_insert|]. intros i Hi. rewrite word_insert_ne by lia.
  rewrite (word_write L n) by (done || lia). by rewrite decide_False by lia.
Qed.

(** The usual case: the two top words are divided, [d] is subtracted below
    them, and added back when the digit was too large by one. *)
Lemma step_digit qhat rhat r overflow w0 w1 c0 c1 : is_u64 qhat → is_words 2 rhat → val rhat < D2 →
  val [word u (j + k); word u (j + S k); word u (j + S (S k))] = D2 * qhat + val rhat →
  is_words k r → val r - b * overflow = val (slice u j k) - val (take k d) * qhat →
  is_u64 w0 → w0 - 2 ^ 64 * Z.b2z c0 = word rhat 0 - overflow →
  is_u64 w1 → w1 - 2 ^ 64 * Z.b2z c1 = word rhat 1 - Z.b2z c0 →
  let R := val r + b * val [w0; w1] in
  R = W - qhat * D + 2 ^ 64 * 2 ^ 64 * b * Z.b2z c1 ∧ 0 <= R < 2 ^ 64 * 2 ^ 64 * b ∧ W - qhat * D < D ∧ - D < W - qhat * D.
Proof using Hd HN Hu Hj Htop Hlt.
  intros Hq Hrh Hrlt EU Hr Er H0 E0 H1 E1 R. destruct step_facts as (Hb & H2 & HD2 & ED & Rd & EW & Ru & RW & _).
  destruct (is_words_2_inv _ Hrh) as (r0 & r1 & -> & _). change (word [r0; r1] 0) with r0 in E0. change (word [r0; r1] 1) with r1 in E1.
  assert (val [w0; w1] = val [r0; r1] - overflow + 2 ^ 64 * 2 ^ 64 * Z.b2z c1) as Ew by (rewrite !val_2; lia).
  assert (R = W - qhat * D + 2 ^ 64 * 2 ^ 64 * b * Z.b2z c1) as ER.
  { subst R. rewrite Ew, EW, ED, EU. replace (val r) with (b * overflow + (val (slice u j k) - val (take k d) * qhat)) by lia. ring. }
  pose proof (is_words_range _ _ Hr) as Rr. fold b in Rr. split; [done|]. split.
  { subst R. rewrite val_2. unfold is_u64 in *. clear - Rr H0 H1 Hb. nia. }
  unfold is_u64 in Hq. assert (W - qhat * D = val (slice u j k) - val (take k d) * qhat + b * val [r0; r1]) as EWD by (rewrite EW, ED, EU; ring).
  pose proof (is_words_range _ _ Hrh) as Rrh. pose proof (mul_bounds (val (take k d)) qhat b ltac:(lia) ltac:(lia)) as M.
  pose proof (Z.mul_le_mono_nonneg_l (val [r0; r1] + 1) D2 b ltac:(lia) ltac:(lia)) as M2.
  pose proof (Z.mul_le_mono_nonneg_l (2 ^ 127) D2 b ltac:(lia) ltac:(lia)) as M3. 
  pose proof (Z.mul_nonneg_nonneg b (val [r0; r1]) ltac:(lia) ltac:(lia)) as M4.
  pose proof (Z.mul_le_mono_nonneg_l qhat (2 ^ 64) b ltac:(lia) ltac:(lia)) as M5. lia.
Qed.

(** The words that the usual case writes. *)
Lemma step_write r w0 w1 : is_words k r → is_u64 w0 → is_u64 w1 →
  let u' := <[(j + S k)%nat := w1]> (<[(j + k)%nat := w0]> (write u j r)) in
  is_words L u' ∧ take j u' = take j u ∧ slice u' j (S k) = r ++ [w0] ∧ word u' (j + S k) = w1 ∧ slice u' j n = r ++ [w0; w1].
Proof using All.
  intros Hr H0 H1 u'. assert (is_words L (write u j r)) as Hw by (apply (is_words_write _ k); [done|done|lia]).
  assert (is_words L u') as Hu' by (subst u'; by repeat apply is_words_insert).
  assert (∀ i, word u' i = if decide (i = j + S k)%nat then w1 else if decide (i = j + k)%nat then w0
                          else if decide (j <= i < j + k)%nat then word r (i - j) else word u i) as Hword.
  { intros i. subst u'. destruct (decide (i = j + S k)%nat) as [->|N1].
    { apply word_insert. rewrite length_insert, (proj1 Hw). lia. }
    rewrite word_insert_ne by done. destruct (decide (i = j + k)%nat) as [->|N2].
    { apply word_insert. rewrite (proj1 Hw). lia. }
    rewrite word_insert_ne by done. by rewrite (word_write L k) by (done || lia). }
  assert (is_words n (r ++ [w0; w1])) as Hrw.
  { replace n with (k + 2)%nat by (subst n; lia). apply is_words_app; [done|by apply is_words_2]. }
  assert (slice u' j n = r ++ [w0; w1]) as Es.
  { apply (word_ext n); [apply (is_words_slice L); [done|lia]|apply Hrw|]. intros i Hi. rewrite word_slice, Hword by done.
    destruct (decide (i < k)%nat) as [Hk|Hk].
    - rewrite !decide_False, decide_True by lia. rewrite word_app_l by (rewrite (proj1 Hr); lia). f_equal. lia.
    - replace i with (length r + (i - k))%nat at 3 by (rewrite (proj1 Hr); lia). rewrite word_app_r.
      destruct (decide (i = k)) as [->|Hk2]; [rewrite decide_False, decide_True by lia; by rewrite Nat.sub_diag|].
      rewrite decide_True by (subst n; lia). replace (i - k)%nat with 1%nat by (subst n; lia). done. }
  split_and!; [done| | | |done].
  - apply (take_ext L); [done..|]. intros i Hi. rewrite Hword. by rewrite !decide_False by lia.
  - replace (slice u' j (S k)) with (take (S k) (slice u' j n)) by (unfold slice; rewrite take_take; f_equal; subst n; lia).
    rewrite Es. change [w0; w1] with ([w0] ++ [w1]). rewrite app_assoc. apply take_app_length'. rewrite length_app, (proj1 Hr). cbn. lia.
  - rewrite Hword. by rewrite decide_True.
Qed.
Lemma step_ok_split qhat u' : is_words L u' → is_u64 qhat → take j u' = take j u → 0 <= W - qhat * D < D →
  val (slice u' j n) = W - qhat * D → step_ok qhat u'.
Proof using All. intros. unfold step_ok. split_and!; [done..|lia|lia]. Qed.
(** Adding [d] back. *)
Lemma step_add_back u1 x w1 : is_words L u1 → is_words (S k) x → slice u1 j (S k) = x → word u1 (j + S k) = w1 → take j u1 = take j u →
  let R := val x + 2 ^ 64 * b * w1 in - D < R - 2 ^ 64 * 2 ^ 64 * b < 0 →
  let '(r, c) := add_words (slice u1 j (S k)) (take (S k) d) in
  let u2 := write u1 j r in
  let u' := <[(j + S k)%nat := u64 (word u2 (j + S k) + u64 (word [word d k; word d (S k)] 1 + Z.b2z c))]> u2 in
  is_words L u' ∧ take j u' = take j u ∧ val (slice u' j n) = R + D - 2 ^ 64 * 2 ^ 64 * b.
Proof using All.
  intros Hu1 Hx Ex Ew Et R HR. rewrite Ex. pose proof (is_words_take _ (S k) _ Hd ltac:(lia)) as Htd.
  pose proof (uint_addc_spec (S k) x _ false Hx Htd) as Ha. unfold add_words. destruct (uint_addc x _ false) as [r c]. destruct Ha as [Hr Er].
  cbv zeta. set (u2 := write u1 j r). assert (is_words L u2) as Hu2 by (apply (is_words_write _ (S k)); [done|done|lia]).
  assert (word u2 (j + S k) = w1) as E2.
  { subst u2. rewrite (word_write L (S k)) by (done || lia). by rewrite decide_False by lia. }
  rewrite E2. change (word [word d k; word d (S k)] 1) with (word d (S k)). autorewrite with u64_pull.
  set (top := u64 (w1 + (word d (S k) + Z.b2z c))) in *. assert (is_u64 top) as Htop' by apply u64_range.
  set (u' := <[(j + S k)%nat := top]> u2).
  assert (is_words L u') as Hu' by (by apply is_words_insert). split_and!; [done| |].
  { rewrite <-Et. apply (take_ext L); [done..|]. intros i Hi. subst u'. rewrite word_insert_ne by lia. subst u2.
    rewrite (word_write L (S k)) by (done || lia). by rewrite decide_False by lia. }
  assert (val (slice u' j n) = val r + 2 ^ 64 * b * top) as Es.
  { subst n. rewrite val_slice_S by (rewrite (proj1 Hu'); lia). rewrite pow64_S. fold b. f_equal.
    - f_equal. rewrite <-(slice_write L (S k) j u1 r Hu1 Hr) by lia. apply (slice_ext L); [done..|lia|].
      intros i Hi. subst u'. by rewrite word_insert_ne by lia.
    - f_equal. subst u'. apply word_insert. rewrite (proj1 Hu2). lia. }
  assert (D = val (take (S k) d) + 2 ^ 64 * b * word d (S k)) as ED.
  { subst D. rewrite val_take_S by (rewrite (proj1 Hd); lia). rewrite pow64_S. fold b. ring. }
  pose proof (u64_split (w1 + (word d (S k) + Z.b2z c))) as Eu. fold top in Eu. set (q := _ / 2 ^ 64) in *. clearbody q top.
  cbn [Z.b2z] in Er. rewrite pow64_S in Er. fold b in Er.
  assert (val (slice u' j n) = R + D - 2 ^ 64 * 2 ^ 64 * b * q) as E.
  { rewrite Es, ED. subst R. replace top with (w1 + (word d (S k) + Z.b2z c) - 2 ^ 64 * q) by lia. 
    replace (val r) with (val x + val (take (S k) d) + 0 - 2 ^ 64 * b * Z.b2z c) by lia. ring. }
  pose proof (is_words_range _ _ (is_words_slice _ _ j n Hu' ltac:(lia))) as Rs. pose proof (is_words_range _ _ (is_words_take _ n _ Hd HN)) as RD.
  change (val (take n d)) with D in RD. replace (2 ^ (64 * Z.of_nat n)) with (2 ^ 64 * 2 ^ 64 * b) in Rs, RD by (subst n b; rewrite !pow64_S; ring).
  rewrite E in Rs |- *. assert (q = 1) as ->; [|lia]. clear - Rs RD HR. set (m := 2 ^ 64 * 2 ^ 64 * b) in *. nia.
Qed.
Lemma knuth_step_spec :
  let '(qhat, u') := knuth_step (reciprocal_3by2 [word d k; word d (S k)]) d n u j in step_ok qhat u'.
Proof using Hd HN Hu Hj Htop Hlt.
  destruct step_facts as (Hb & H2 & HD2 & ED & Rd & EW & Ru & RW & Hle). unfold knuth_step.
  replace (n - 2)%nat with k by (subst n; lia). replace (n - 1)%nat with (S k) by (subst n; lia).
  replace (j + n - 2)%nat with (j + k)%nat by (subst n; lia). replace (j + n - 1)%nat with (j + S k)%nat by (subst n; lia). cbv zeta.
  pose proof (is_words_word _ _ (j + k) Hu) as U0. pose proof (is_words_word _ _ (j + S k) Hu) as U1. pose proof (is_words_word _ _ (j + n) Hu) as U2.
  rewrite (uint_eq_spec 2) by (done || by apply is_words_2). fold D2. change (word u (j + n)) with (word u (j + S (S k))) in *.
  destruct (Z.eqb_spec (val [word u (j + S k); word u (j + S (S k))]) D2) as [E|E].
  { pose proof (step_overflow E) as H. destruct (submul (slice u j n) (take n d) (not64 0)) as [r bo]. exact H. }
  pose proof (udivrem_3by2_spec (word u (j + k)) (word u (j + S k)) (word u (j + S (S k))) _ U0 U1 U2 H2 HD2 ltac:(fold D2; lia)) as Hdiv.
  destruct (udivrem_3by2 _ _ _ _ _) as [qhat rhat]. destruct Hdiv as (Eq & Hq & Hrh & Erh). fold D2 in Eq, Erh.
  pose proof (submul_spec k _ _ qhat Hq (is_words_slice _ _ j k Hu ltac:(lia)) (is_words_take _ k _ Hd ltac:(lia))) as Hsub.
  destruct (submul (slice u j k) (take k d) qhat) as [r ov]. destruct Hsub as (Hr & Hov & Er). fold b in Er.
  pose proof (subc64_spec (word rhat 0) ov false (is_words_word _ _ 0 Hrh) Hov) as Hw0. destruct (subc64 (word rhat 0) ov false) as [w0 c0]. destruct Hw0 as [Hw0 E0].
  assert (is_u64 (Z.b2z c0)) as Hc0 by (pose proof (b2z_range c0); unfold is_u64; lia).
  pose proof (subc64_spec (word rhat 1) (Z.b2z c0) false (is_words_word _ _ 1 Hrh) Hc0) as Hw1. destruct (subc64 (word rhat 1) (Z.b2z c0) false) as [w1 c1]. destruct Hw1 as [Hw1 E1].
  cbn [Z.b2z] in E0, E1. rewrite Z.sub_0_r in E0, E1.
  set (U := val [word u (j + k); word u (j + S k); word u (j + S (S k))]) in *.
  pose proof (Z.div_mod U D2 ltac:(lia)) as EU. pose proof (Z.mod_pos_bound U D2 ltac:(lia)) as RU. rewrite <-Eq, <-Erh in EU. rewrite <-Erh in RU.
  destruct (step_digit qhat rhat r ov w0 w1 c0 c1 Hq Hrh (proj2 RU) EU Hr Er Hw0 E0 Hw1 E1) as (ER & RR & Hup & Hlow).
  destruct (step_write r w0 w1 Hr Hw0 Hw1) as (S1 & S2 & S3 & S4 & S5). set (u1 := <[(j + S k)%nat := w1]> _) in *.
      destruct c1; cbn [Z.b2z] in ER.
  - assert (0 < qhat) as Hq0. { destruct (Z.le_gt_cases qhat 0); [|done]. unfold is_u64 in Hq. assert (qhat = 0) as -> by lia. lia. }
    assert (is_words (S k) (r ++ [w0])) as Hr0.
    { replace (S k) with (k + 1)%nat by lia. apply is_words_app; [done|]. apply is_words_cons. split; [done|apply is_words_nil]. }
    assert (val r + b * val [w0; w1] = val (r ++ [w0]) + 2 ^ 64 * b * w1) as EX.
    { rewrite val_app, (proj1 Hr), val_2. fold b. cbn [val]. ring. }
    rewrite EX in ER, RR. pose proof (step_add_back u1 (r ++ [w0]) w1 S1 Hr0 S3 S4 S2 ltac:(lia)) as Hadd.
    destruct (add_words _ _) as [r2 c]. destruct Hadd as (A1 & A2 & A3). rewrite u64_small by (unfold is_u64 in *; lia).
    apply step_ok_split; [done|unfold is_u64 in *; lia|done|lia|lia].
  - apply step_ok_split; [done..|lia|]. rewrite S5, val_app, (proj1 Hr). fold b. lia.
Qed.
End Step.

Lemma knuth_loop_spec N L k d q u j : is_words N d → (S (S k) <= N)%nat → 2 ^ 63 <= word d (S k) →
  is_words L u → (j + S (S k) <= L)%nat → is_words (length q) q → (j <= length q)%nat →
  val (slice u j (S (S k))) < val (take (S (S k)) d) →
  let '(q', u') := knuth_loop (reciprocal_3by2 [word d k; word d (S k)]) d (S (S k)) q u j in
  is_words L u' ∧ is_words (length q) q' ∧ drop j q' = drop j q ∧
  val (take (S (S k)) u') < val (take (S (S k)) d) ∧
  val (take (j + S (S k)) u) = val (take j q') * val (take (S (S k)) d) + val (take (S (S k)) u').
Proof.
  intros Hd HN Ht. revert q u. induction j as [|j IH]; intros q u Hu Hj Hq Hjq Hlt; cbn [knuth_loop].
  { rewrite take_0. split_and!; [done..|]. cbn [val Nat.add]. lia. }
  pose proof (knuth_step_spec N L k j d u Hd HN Hu ltac:(lia) Ht Hlt) as Hs.
  destruct (knuth_step _ d (S (S k)) u j) as [qhat u1]. destruct Hs as (Hu1 & Hqh & Et & EW & Hlt1).
  pose proof (is_words_insert _ _ j _ Hq Hqh) as Hq1. set (q1 := <[j := qhat]> q) in *.
  assert (length q1 = length q) as Hlq by apply length_insert. rewrite <-Hlq in Hq1.
  specialize (IH q1 u1 Hu1 ltac:(lia) Hq1 ltac:(lia) Hlt1). destruct (knuth_loop _ d (S (S k)) q1 u1 j) as [q' u'].
  destruct IH as (I1 & I2 & I3 & I4 & I5). rewrite Hlq in I2. split_and!; [done|done| |done|].
  - replace (S j) with (j + 1)%nat by lia. rewrite <-!drop_drop, I3, !drop_drop. apply drop_insert_lt; lia.
  - rewrite val_take_S by (rewrite (proj1 I2); lia).
    assert (word q' j = qhat) as ->.
    { rewrite <-(Nat.add_0_r j), <-word_drop, I3, word_drop, Nat.add_0_r. apply word_insert. lia. }
    replace (S j + S (S k))%nat with (j + S (S (S k)))%nat by lia. rewrite val_take_slice, EW by (rewrite (proj1 Hu); lia).
    rewrite val_take_slice, Et in I5 by (rewrite (proj1 Hu1); lia). set (b := 2 ^ (64 * Z.of_nat j)) in *.
    replace ((val (take j q') + b * qhat) * val (take (S (S k)) d) + val (take (S (S k)) u'))
      with (val (take j q') * val (take (S (S k)) d) + val (take (S (S k)) u') + b * (qhat * val (take (S (S k)) d))) by ring.
    rewrite <-I5. ring.
Qed.
Lemma udivrem_knuth_spec N L k d u ulen M : is_words N d → (S (S k) <= N)%nat → 2 ^ 63 <= word d (S k) → (∀ i, (S (S k) <= i)%nat → word d i = 0) →
  is_words L u → (S (S k) <= ulen <= L)%nat → (ulen - S (S k) <= M)%nat → (∀ i, (ulen <= i)%nat → word u i = 0) →
  word u (ulen - 1) < word d (S k) →
  let '(q, u') := udivrem_knuth (replicate M 0) u ulen d (S (S k)) in
  is_words L u' ∧ is_words M q ∧ val (take (S (S k)) u') < val d ∧ val u = val q * val d + val (take (S (S k)) u').
Proof.
  intros Hd HN Ht Hzd Hu Hul HM Hz Htop. unfold udivrem_knuth. set (j := (ulen - S (S k))%nat).
  replace (S (S k) - 2)%nat with k by lia. replace (S (S k) - 1)%nat with (S k) by lia. rewrite (val_zeros_from N d (S (S k)) Hd Hzd).
  assert (val (slice u j (S (S k))) < val (take (S (S k)) d)) as Hlt.
  { rewrite val_slice_S by (rewrite (proj1 Hu); lia). rewrite val_take_S by (rewrite (proj1 Hd); lia).
    replace (j + S k)%nat with (ulen - 1)%nat by lia. pose proof (is_words_range _ _ (is_words_slice _ _ j (S k) Hu ltac:(lia))) as R1.
    pose proof (is_words_range _ _ (is_words_take _ (S k) _ Hd ltac:(lia))) as R2. set (b := 2 ^ (64 * Z.of_nat (S k))) in *. nia. }
  pose proof (is_words_zeros M) as HM0. assert (length (replicate M 0) = M) as HlM by apply length_replicate.
  pose proof (knuth_loop_spec N L k d (replicate M 0) u j Hd HN Ht Hu ltac:(lia) ltac:(by rewrite HlM) ltac:(lia) Hlt) as H.
  destruct (knuth_loop _ d (S (S k)) _ u j) as [q u']. destruct H as (H1 & H2 & H3 & H4 & H5). rewrite HlM in H2.
  split_and!; [done..|]. rewrite (val_zeros_from L u ulen Hu Hz). replace (j + S (S k))%nat with ulen in H5 by lia. rewrite H5.
  rewrite (val_zeros_from M q j H2); [done|]. intros i Hi. rewrite (word_drop_eq _ _ j i H3 Hi). unfold word. rewrite nth_lookup.
  destruct (replicate M 0 !! i) eqn:E; [|done]. by apply lookup_replicate in E as [-> _].
Qed.

(** ** Normalization *)
Lemma clz_spec w : 0 < w < 2 ^ 64 → 0 <= clz w < 64 ∧ 2 ^ 63 <= w * 2 ^ clz w ∧ w + 1 <= 2 ^ (64 - clz w).
Proof.
  intros Hw. unfold clz. destruct (Z.eqb_spec w 0) as [->|_]; [lia|]. pose proof (Z.log2_spec w ltac:(lia)) as [L1 L2].
  pose proof (Z.log2_nonneg w) as L0. assert (Z.log2 w < 64) as L3 by (apply Z.log2_lt_pow2; lia). split; [lia|].
  assert (2 ^ Z.log2 w * 2 ^ (63 - Z.log2 w) = 2 ^ 63) as E1 by (rewrite <-Z.pow_add_r by lia; f_equal; lia).
  replace (64 - (63 - Z.log2 w)) with (Z.succ (Z.log2 w)) by lia.
  pose proof (Z.pow_pos_nonneg 2 (63 - Z.log2 w) ltac:(lia) ltac:(lia)). split; [nia|lia].
Qed.
Lemma val_zero_words x i : Forall is_u64 x → val x = 0 → word x i = 0.
Proof.
  intros H. revert i. induction H as [|w x Hw Hx IH]; intros i; [by destruct i|]. rewrite val_cons. intros E.
  pose proof (val_range _ Hx). unfold is_u64 in Hw. destruct i as [|i]; [unfold word; cbn [nth]; lia|]. apply (IH i). lia.
Qed.
(** The words of a number, by its size. *)
Lemma words_above n x i j : is_words n x → val x < 2 ^ (64 * Z.of_nat i) → (i <= j)%nat → word x j = 0.
Proof.
  intros Hx Hv Hj. destruct (decide (j < n)%nat) as [Hn|Hn]; [|unfold word; apply nth_overflow; rewrite (proj1 Hx); lia].
  rewrite (val_take_drop i x) in Hv by (rewrite (proj1 Hx); lia). pose proof (is_words_range _ _ (is_words_take _ i _ Hx ltac:(lia))) as R1.
  pose proof (is_words_range _ _ (is_words_drop _ i _ Hx)) as R2. pose proof (pow64_pos i) as Hb. set (b := 2 ^ (64 * Z.of_nat i)) in *.
  replace j with (i + (j - i))%nat by lia. rewrite <-word_drop. apply val_zero_words; [apply (is_words_drop n); done|]. nia.
Qed.
Lemma top_word n x i lo : is_words n x → (i < n)%nat → val x < 2 ^ (64 * Z.of_nat (S i)) →
  2 ^ (64 * Z.of_nat i) * lo <= val x → lo <= word x i.
Proof.
  intros Hx Hi Hv Hlo. rewrite (val_zeros_from n x (S i) Hx) in Hlo by (intros; by eapply words_above).
  rewrite val_take_S in Hlo by (rewrite (proj1 Hx); lia).
  pose proof (is_words_range _ _ (is_words_take _ i _ Hx ltac:(lia))) as R1. set (b := 2 ^ (64 * Z.of_nat i)) in *. nia.
Qed.
Lemma top_word_lt n x i hi : is_words n x → (i < n)%nat → val x < 2 ^ (64 * Z.of_nat i) * hi → word x i < hi.
Proof.
  intros Hx Hi Hv. rewrite (val_take_drop (S i) x), val_take_S in Hv by (rewrite (proj1 Hx); lia).
  pose proof (is_words_range _ _ (is_words_take _ i _ Hx ltac:(lia))) as R1. pose proof (is_words_range _ _ (is_words_drop _ (S i) _ Hx)) as R2.
  pose proof (pow64_pos i). pose proof (pow64_pos (S i)). pose proof (is_words_word _ _ i Hx). set (b := 2 ^ (64 * Z.of_nat i)) in *. nia.
Qed.
Lemma shl_words_spec n s prev x : 0 < s < 64 → is_u64 prev → is_words n x →
  is_words n (shl_words s prev x) ∧
  val (shl_words s prev x) + 2 ^ (64 * Z.of_nat n) * (word (prev :: x) n / 2 ^ (64 - s)) = val x * 2 ^ s + prev / 2 ^ (64 - s).
Proof.
  intros Hs. revert prev x. induction n as [|n IH]; intros prev x Hp.
  { intros ->%is_words_0. cbn [shl_words val]. split; [apply is_words_nil|]. change (2 ^ (64 * Z.of_nat 0)) with 1. unfold word. cbn [nth]. lia. }
  intros (w & x' & -> & Hw & Hx)%is_words_S. cbn [shl_words]. destruct (IH w x' Hw Hx) as [I1 I2].
  pose proof (shr_bound prev (64 - s) ltac:(lia) Hp) as Rp. replace (64 - (64 - s)) with s in Rp by lia.
  rewrite Z.shiftr_div_pow2 by lia. pose proof (shl_split w s ltac:(lia) Hw) as Es.
  pose proof (shl_word_spec w s (prev / 2 ^ (64 - s)) ltac:(lia) Hw Rp) as (Hr & _ & _).
  rewrite shl_lor in * by lia. rewrite is_words_cons, !val_cons, pow64_S. split; [done|].
  change (word (prev :: w :: x') (S n)) with (word (w :: x') n). set (c := word (w :: x') n / _) in *. set (b := 2 ^ (64 * Z.of_nat n)) in *.
  replace (u64 (w * 2 ^ s) + prev / 2 ^ (64 - s) + 2 ^ 64 * val (shl_words s w x') + 2 ^ 64 * b * c)
    with (u64 (w * 2 ^ s) + prev / 2 ^ (64 - s) + 2 ^ 64 * (val (shl_words s w x') + b * c)) by ring. rewrite I2. lia.
Qed.
Lemma normalize_words_spec n s x : 0 < s < 64 → is_words (S n) x →
  is_words (S n) (normalize_words s x) ∧
  val (normalize_words s x) + 2 ^ (64 * Z.of_nat (S n)) * (word x n / 2 ^ (64 - s)) = val x * 2 ^ s.
Proof.
  intros Hs (w & x' & -> & Hw & Hx)%is_words_S. cbn [normalize_words]. destruct (shl_words_spec n s w x' Hs Hw Hx) as [H E].
  rewrite is_words_cons, !val_cons, pow64_S, Z.shiftl_mul_pow2 by lia. split; [split; [apply u64_range|done]|].
  pose proof (shl_split w s ltac:(lia) Hw) as Es. set (c := word (w :: x') n / _) in *. set (b := 2 ^ (64 * Z.of_nat n)) in *.
  replace (u64 (w * 2 ^ s) + 2 ^ 64 * val (shl_words s w x') + 2 ^ 64 * b * c) with (u64 (w * 2 ^ s) + 2 ^ 64 * (val (shl_words s w x') + b * c)) by ring.
  rewrite E. lia.
Qed.

(** What division needs of normalized arguments. *)
Record normalized (M N : nat) (u v : words) (na : normalized_div_args) : Prop := mkIsNormalized {
  norm_shift : 0 <= shift na < 64;
  norm_n : (0 < num_divisor_words na <= N)%nat;
  norm_m : (num_numerator_words na <= S M)%nat;
  norm_divisor : is_words N (divisor na);
  norm_numerator : is_words (S M) (numerator na);
  norm_divisor_val : val (divisor na) = val v * 2 ^ shift na;
  norm_numerator_val : val (numerator na) = val u * 2 ^ shift na;
  norm_divisor_zero : ∀ i, (num_divisor_words na <= i)%nat → word (divisor na) i = 0;
  norm_divisor_top : 2 ^ 63 <= word (divisor na) (num_divisor_words na - 1);
  norm_numerator_zero : ∀ i, (num_numerator_words na <= i)%nat → word (numerator na) i = 0;
  norm_numerator_top : (0 < num_numerator_words na)%nat →
    word (numerator na) (num_numerator_words na - 1) < word (divisor na) (num_divisor_words na - 1);
}.
(** The size of the normalized divisor. *)
Lemma divisor_size N v : is_words (S N) v → val v ≠ 0 →
  let n := count_significant_words v in
  let s := clz (word v (n - 1)) in
  (0 < n <= S N)%nat ∧ 0 <= s < 64 ∧ 2 ^ (64 * Z.of_nat (n - 1)) * 2 ^ 63 <= val v * 2 ^ s < 2 ^ (64 * Z.of_nat n).
Proof.
  intros Hv Hz n s. destruct (count_significant_words_spec _ _ Hv) as (C1 & C2 & C3 & C4). fold n in C1, C2, C3, C4.
  assert (0 < n)%nat as Hn. { destruct n; [|lia]. by rewrite take_0 in C3. }
  destruct (C4 Hn) as [Hw _]. subst s. set (w := word v (n - 1)) in *. pose proof (is_words_word _ _ (n - 1) Hv) as Hw64. fold w in Hw64. unfold is_u64 in Hw64.
  destruct (clz_spec w ltac:(lia)) as (S1 & S2 & S3). set (s := clz w) in *. split_and!; [lia..| |].
  - assert (val v = val (take (n - 1) v) + 2 ^ (64 * Z.of_nat (n - 1)) * w) as Ev.
    { rewrite C3. replace n with (S (n - 1)) at 1 by lia. apply val_take_S. rewrite (proj1 Hv). lia. }
    pose proof (is_words_range _ _ (is_words_take _ (n - 1) _ Hv ltac:(lia))). pose proof (pow64_pos (n - 1)).
    pose proof (Z.pow_pos_nonneg 2 s ltac:(lia) ltac:(lia)). rewrite Ev. set (b := 2 ^ (64 * Z.of_nat (n - 1))) in *.
    assert (b * (w * 2 ^ s) <= (val (take (n - 1) v) + b * w) * 2 ^ s) by nia. nia.
  - pose proof (pow64_S (n - 1)) as Hb. replace (S (n - 1)) with n in Hb by lia. rewrite C3. replace n with (S (n - 1)) at 1 by lia.
    rewrite val_take_S by (rewrite (proj1 Hv); lia). fold w. pose proof (is_words_range _ _ (is_words_take _ (n - 1) _ Hv ltac:(lia))).
    pose proof (Z.pow_pos_nonneg 2 s ltac:(lia) ltac:(lia)). pose proof (pow64_pos (n - 1)). rewrite Hb.
    replace (2 ^ 64) with (2 ^ (64 - s) * 2 ^ s) by (rewrite <-Z.pow_add_r by lia; f_equal; lia). set (b := 2 ^ (64 * Z.of_nat (n - 1))) in *. nia.
Qed.
(** The shifted arrays. *)
Lemma normalize_arrays M N u v s : is_words (S M) u → is_words (S N) v → 0 <= s < 64 → val v * 2 ^ s < 2 ^ (64 * Z.of_nat (S N)) →
  ∃ un vn, (if negb (s =? 0) then (normalize_words s u ++ [Z.shiftr (word u (length u - 1)) (64 - s)], normalize_words s v)
            else (uint_extend (length u + 1) u, v)) = (un, vn) ∧
    is_words (S (S M)) un ∧ is_words (S N) vn ∧ val un = val u * 2 ^ s ∧ val vn = val v * 2 ^ s.
Proof.
  intros Hu Hv Hs Hlt. destruct (Z.eqb_spec s 0) as [Es|Es]; cbn [negb].
  - exists (u ++ [0]), v. rewrite Es. unfold uint_extend. rewrite (proj1 Hu). replace (S M + 1 - S M)%nat with 1%nat by lia.
    split; [done|]. split; [replace (S (S M)) with (S M + 1)%nat by lia; apply is_words_app; [done|apply (is_words_zeros 1)]|].
    rewrite val_app. cbn [val]. split_and!; [done|lia|lia].
  - destruct (normalize_words_spec M s u ltac:(lia) Hu) as [H1 E1]. destruct (normalize_words_spec N s v ltac:(lia) Hv) as [H2 E2].
    eexists _, _. split; [done|]. rewrite (proj1 Hu), Z.shiftr_div_pow2 by lia. replace (S M - 1)%nat with M by lia.
    pose proof (shr_bound (word u M) (64 - s) ltac:(lia) (is_words_word _ _ M Hu)) as Rt.
    pose proof (shr_bound (word v N) (64 - s) ltac:(lia) (is_words_word _ _ N Hv)) as Rt2.
    assert (2 ^ (64 - (64 - s)) < 2 ^ 64) as Hp by (apply Z.pow_lt_mono_r; lia).
    split; [replace (S (S M)) with (S M + 1)%nat by lia; apply is_words_app; [done|]; apply is_words_cons; split; [unfold is_u64; lia|apply is_words_nil]|].
    split; [done|]. rewrite val_app, (proj1 H1). cbn [val]. split; [lia|]. pose proof (is_words_range _ _ H2) as R2.
    set (c := word v N / 2 ^ (64 - s)) in *. pose proof (pow64_pos (S N)) as Hb. set (b := 2 ^ (64 * Z.of_nat (S N))) in *.
    assert (c = 0) as E0 by (clear - E2 R2 Rt2 Hb Hlt; nia). rewrite E0 in E2. lia.
Qed.
Lemma normalize_spec before M N u v : is_words (S M) u → is_words (S N) v → val v ≠ 0 → normalized (S M) (S N) u v (normalize before u v).
Proof.
  intros Hu Hv Hz. destruct (count_significant_words_spec _ _ Hu) as (Cu1 & Cu2 & Cu3 & _).
  destruct (divisor_size N v Hv Hz) as (Hn & S1 & RV). unfold normalize.
  set (m := count_significant_words u) in *. set (n := count_significant_words v) in *. set (s := clz (word v (n - 1))) in *. cbv zeta.
  pose proof (Z.pow_pos_nonneg 2 s ltac:(lia) ltac:(lia)) as Hp.
  assert (2 ^ (64 * Z.of_nat n) <= 2 ^ (64 * Z.of_nat (S N))) as Hnb by (apply Z.pow_le_mono_r; lia).
  destruct (normalize_arrays M N u v s Hu Hv S1 ltac:(lia)) as (un & vn & -> & Hun & Hvn & Eun & Evn).
  assert (val un < 2 ^ (64 * Z.of_nat m) * 2 ^ s) as Run.
  { rewrite Eun, Cu3. pose proof (is_words_range _ _ (is_words_take _ m _ Hu Cu1)). nia. }
  assert (2 ^ s <= 2 ^ 63) as Hs63 by (apply Z.pow_le_mono_r; lia).
  assert (2 ^ 63 <= word vn (n - 1)) as Htop.
  { apply (top_word (S N)); [done|lia| |lia]. replace (S (n - 1)) with n by lia. lia. }
  assert (∀ i, (S m <= i)%nat → word un i = 0) as Hzero.
  { intros i Hi. apply (words_above (S (S M)) un (S m) i Hun); [|done]. rewrite pow64_S. pose proof (pow64_pos m). nia. }
  assert (word un m < 2 ^ s) as Hm by (apply (top_word_lt (S (S M))); [done|lia|done]).
  set (last := if (m =? 0)%nat then before else word un (m - 1)).
  assert (∀ m', m' = S m ∨ m' = m ∧ word un m = 0 ∧ ((0 < m)%nat → word un (m - 1) < word vn (n - 1)) →
    normalized (S M) (S N) u v (mkNormalized vn un n m' s)) as Hfin.
  { intros m' Hm'. constructor; cbn [divisor numerator num_divisor_words num_numerator_words shift]; [done|lia|lia|done|done|done|done| |done| |].
    - intros i Hi. apply (words_above (S N) vn n); [done|lia|done].
    - intros i Hi. destruct Hm' as [->|(-> & E & _)]; [by apply Hzero|]. destruct (decide (i = m)) as [->|]; [done|]. apply Hzero. lia.
    - intros Hpos. destruct Hm' as [->|(-> & _ & E)]; [|by apply E]. replace (S m - 1)%nat with m by lia. lia. }
  destruct (Z.eqb_spec (word un m) 0) as [E|E]; cbn [negb orb]; [|apply Hfin; left; lia].
  destruct (Z.leb_spec (word vn (n - 1)) last) as [Hl|Hl]; [apply Hfin; left; lia|].
  apply Hfin. right. split_and!; [done..|]. intros Hpos. subst last. destruct (Nat.eqb_spec m 0); [lia|done].
Qed.

(** ** The quotient and the remainder *)
Lemma shr_words_spec n s x : 0 <= s < 64 → is_words n x → is_words n (shr_words s x) ∧ val (shr_words s x) = val x / 2 ^ s.
Proof.
  intros Hs. pose proof (Z.pow_pos_nonneg 2 s ltac:(lia) ltac:(lia)) as Hp.
  assert (2 ^ (64 - s) * 2 ^ s = 2 ^ 64) as Ep by (rewrite <-Z.pow_add_r by lia; f_equal; lia).
  revert x. induction n as [|n IH]; intros x; [intros ->%is_words_0; split; [apply is_words_nil|]; by rewrite Z.div_0_l by lia|].
  intros (w & x' & -> & Hw & Hx)%is_words_S. destruct n as [|n].
  { apply is_words_0 in Hx as ->. cbn [shr_words]. rewrite is_words_cons, !val_cons, Z.shiftr_div_pow2 by lia. cbn [val].
    split; [split; [rewrite <-Z.shiftr_div_pow2 by lia; by apply shr_word; [lia|]|apply is_words_nil]|]. rewrite Z.mul_0_r, !Z.add_0_r. done. }
  destruct (IH x' Hx) as [H E]. destruct (is_words_S _ _ Hx) as (next & x'' & -> & Hnext & _).
  change (shr_words s (w :: next :: x'')) with
    ((if negb (s =? 0) then Z.lor (Z.shiftr w s) (u64 (Z.shiftl next (64 - s))) else w) :: shr_words s (next :: x'')).
  set (V := val (next :: x'')) in *. assert (V mod 2 ^ s = next mod 2 ^ s) as Em.
  { subst V. rewrite val_cons, <-Ep. replace (next + 2 ^ (64 - s) * 2 ^ s * val x'') with (next + (2 ^ (64 - s) * val x'') * 2 ^ s) by ring. apply Z.mod_add. lia. }
  assert ((if negb (s =? 0) then Z.lor (Z.shiftr w s) (u64 (Z.shiftl next (64 - s))) else w) = w / 2 ^ s + 2 ^ (64 - s) * (V mod 2 ^ s) ∧
          is_u64 (w / 2 ^ s + 2 ^ (64 - s) * (V mod 2 ^ s))) as [-> Hr].
  { rewrite Em. destruct (shr_word_spec w s (next mod 2 ^ s) Hs Hw (Z.mod_pos_bound _ _ Hp)) as [Hu Eu]. rewrite Eu in Hu. split; [|done].
    destruct (Z.eqb_spec s 0) as [->|Hs0]; cbn [negb].
    - rewrite Z.pow_0_r, Z.div_1_r, Z.mod_1_r. lia.
    - rewrite <-Eu. f_equal. rewrite Z.shiftl_mul_pow2 by lia. 
      destruct (shl_carry_spec next s Hs Hnext) as [Ec _]. by rewrite <-Ec, shl_carry by lia. }
  rewrite is_words_cons, val_cons, E, (val_cons w). split; [done|]. fold V.
  rewrite (Z.div_mod V (2 ^ s)) at 3 by lia. rewrite <-Ep.
  replace (w + 2 ^ (64 - s) * 2 ^ s * (2 ^ s * (V / 2 ^ s) + V mod 2 ^ s))
    with (w + (2 ^ (64 - s) * (2 ^ s * (V / 2 ^ s) + V mod 2 ^ s)) * 2 ^ s) by ring. rewrite Z.div_add by lia. ring.
Qed.
Lemma uint_cast_spec n m x : is_words n x → val x < 2 ^ (64 * Z.of_nat m) → is_words m (uint_cast m x) ∧ val (uint_cast m x) = val x.
Proof.
  intros Hx Hv. unfold uint_cast. rewrite val_app, val_zeros, (proj1 Hx). split.
  - replace m with (m `min` n + (m - n))%nat at 1 by lia. apply is_words_app; [|apply is_words_zeros].
    split; [by rewrite length_take, (proj1 Hx)|apply Forall_take, Hx].
  - rewrite <-(val_zeros_from n x m Hx); [lia|]. intros j Hj. by eapply words_above.
Qed.
Lemma uint_trunc_spec n m x : is_words n x → (m <= n)%nat → (∀ j, (m <= j)%nat → word x j = 0) → is_words m (uint_trunc m x) ∧ val (uint_trunc m x) = val x.
Proof. intros Hx Hm Hz. split; [by eapply is_words_take|]. symmetry. by eapply val_zeros_from. Qed.
(** Dividing shifted numbers. *)
Lemma shifted_division a d q r p : 0 < p → 0 < d → a * p = q * (d * p) + r → 0 <= r < d * p → q = a / d ∧ r / p = a mod d.
Proof.
  intros Hp Hd E Hr. pose proof (Z.div_mod r p ltac:(lia)) as Er. pose proof (Z.mod_pos_bound r p Hp) as Rr.
  assert (r mod p = 0) as E0.
  { replace r with ((a - q * d) * p) by lia. by apply Z.mod_mul; lia. }
  assert (a = q * d + r / p) as Ea by nia. assert (0 <= r / p < d) as Rd by nia.
  split; [apply (Z.div_unique_pos _ _ _ (r / p))|apply (Z.mod_unique_pos _ _ q)]; lia.
Qed.
Lemma smaller_numerator M N u v na : normalized (S M) (S N) u v na → is_words (S M) u → 0 < val v →
  (num_numerator_words na <= num_divisor_words na)%nat → 0 <= val u < val v.
Proof.
  intros [[Hs _] Hn Hm Hd Hu Ed Eu Zd Td Zu Tu] Hu0 Hv Hle. pose proof (is_words_range _ _ Hu0) as Ru. split; [lia|].
  pose proof (Z.pow_pos_nonneg 2 (shift na) ltac:(lia) Hs) as Hp. set (m := num_numerator_words na) in *. set (n := num_divisor_words na) in *.
  assert (val (numerator na) < val (divisor na)) as Hlt; [|rewrite Ed, Eu in Hlt; nia].
  rewrite (val_zeros_from _ _ m Hu Zu), (val_zeros_from _ _ n Hd Zd). destruct m as [|m].
  { rewrite take_0. change (val []) with 0. rewrite <-(val_zeros_from _ _ n Hd Zd), Ed. nia. }
  specialize (Tu ltac:(lia)). replace (S m - 1)%nat with m in Tu by lia. destruct n as [|n]; [lia|]. replace (S n - 1)%nat with n in * by lia.
  rewrite !val_take_S by (rewrite ?(proj1 Hu), ?(proj1 Hd); lia).
  pose proof (is_words_range _ _ (is_words_take _ m _ Hu ltac:(lia))) as R1. pose proof (is_words_range _ _ (is_words_take _ n _ Hd ltac:(lia))) as R2.
  assert (2 ^ (64 * Z.of_nat m) <= 2 ^ (64 * Z.of_nat n)) by (apply Z.pow_le_mono_r; lia). pose proof (pow64_pos m).
  set (b := 2 ^ (64 * Z.of_nat m)) in *. set (b' := 2 ^ (64 * Z.of_nat n)) in *. set (t := word (numerator na) m) in *. set (t' := word (divisor na) n) in *.
  assert (b * (t + 1) <= b' * t') by nia. lia.
Qed.
Definition divides (M N : nat) (u v : words) (res : words * words) : Prop :=
  is_words M res.1 ∧ is_words N res.2 ∧ val res.1 = val u / val v ∧ val res.2 = val u mod val v.
Section Cases.
Context (M N : nat) (u v : words) (vn un : words) (n m : nat) (s : Z).
Context (Hna : normalized (S M) (S N) u v (mkNormalized vn un n m s)) (Hv : is_words (S N) v) (Hv0 : 0 < val v).
Context (Hmn : (n < m)%nat).
Lemma case_facts : 0 < 2 ^ s ∧ 0 < val v * 2 ^ s ∧ val vn = val (take n vn) ∧ val v < 2 ^ (64 * Z.of_nat (S N)).
Proof using All.
  destruct Hna as [[Hs _] Hn Hm Hd Hu Ed Eu Zd Td Zu Tu].
  cbn [divisor numerator num_divisor_words num_numerator_words shift] in *. pose proof (Z.pow_pos_nonneg 2 s ltac:(lia) Hs) as Hp.
  split; [done|]. split; [nia|]. split; [by apply (val_zeros_from (S N))|]. by apply is_words_range.
Qed.
Lemma by1_case : n = 1%nat → let '(un', r) := udivrem_by1 un m (word vn 0) in
  divides (S M) (S N) u v (uint_trunc (S M) un', uint_of (S N) (Z.shiftr r s)).
Proof using All.
  intros Hn1. destruct case_facts as (Hp & Hvp & Ed1 & RN). destruct Hna as [[Hs Hs64] Hn Hm Hd Hu Ed Eu Zd Td Zu Tu]. cbn [divisor numerator num_divisor_words num_numerator_words shift] in *.
  clear Hna. subst n. change (1 - 1)%nat with 0%nat in *. rewrite val_take_S in Ed1 by (rewrite (proj1 Hd); lia).
  rewrite take_0 in Ed1. change (2 ^ (64 * Z.of_nat 0)) with 1 in Ed1. cbn [val] in Ed1. rewrite Z.mul_1_l, Z.add_0_l in Ed1.
  pose proof (is_words_word _ _ 0 Hd) as Hd0. unfold is_u64 in Hd0.
  pose proof (udivrem_by1_spec (S (S M)) un m (word vn 0) ltac:(lia) Hu ltac:(lia) Zu (Tu ltac:(lia))) as H.
  destruct (udivrem_by1 _ _ _) as [un' r]. destruct H as (H1 & H2 & H3 & H4). rewrite Eu, <-Ed1, Ed in H4. rewrite <-Ed1, Ed in H3.
  destruct (shifted_division _ _ _ _ _ Hp Hv0 H4 H3) as [Eq Er].
  destruct (uint_trunc_spec (S (S M)) (S M) un' H1 ltac:(lia)) as [T1 T2]; [intros; apply H2; lia|].
  rewrite Z.shiftr_div_pow2 by lia. assert (is_u64 (r / 2 ^ s)) as Hr.
  { unfold is_u64. split; [apply Z.div_pos; lia|]. apply Z.div_lt_upper_bound; [lia|]. rewrite Ed in Ed1. nia. }
  destruct (uint_of_spec N _ Hr) as [O1 O2]. unfold divides. cbn [fst snd]. split_and!; [done|done|by rewrite T2|by rewrite O2].
Qed.
Lemma by2_case : n = 2%nat → let '(un', r) := udivrem_by2 un m [word vn 0; word vn 1] in
  divides (S M) (S N) u v (uint_trunc (S M) un', uint_cast (S N) (shr128 r s)).
Proof using All.
  intros Hn2. destruct case_facts as (Hp & Hvp & Ed1 & RN). destruct Hna as [[Hs Hs64] Hn Hm Hd Hu Ed Eu Zd Td Zu Tu]. cbn [divisor numerator num_divisor_words num_numerator_words shift] in *.
  clear Hna. subst n. change (2 - 1)%nat with 1%nat in *. rewrite !val_take_S in Ed1 by (rewrite (proj1 Hd); lia).
  rewrite take_0 in Ed1. change (2 ^ (64 * Z.of_nat 0)) with 1 in Ed1. change (2 ^ (64 * Z.of_nat 1)) with (2 ^ 64) in Ed1. cbn [val] in Ed1.
  rewrite Z.mul_1_l, Z.add_0_l, <-val_2 in Ed1. set (d := [word vn 0; word vn 1]) in *.
  pose proof (is_words_word _ _ 0 Hd) as Hd0. assert (is_words 2 d) as Hdw by (apply is_words_2; split; by eapply is_words_word).
  assert (2 ^ 127 <= val d) as Hd127 by (subst d; rewrite val_2; unfold is_u64 in Hd0; lia).
  pose proof (udivrem_by2_spec (S (S M)) un m d Hdw Hd127 Hu ltac:(lia) Zu) as H.
  assert (val [word un (m - 2); word un (m - 1)] < val d) as Hlt.
  { specialize (Tu ltac:(lia)). pose proof (is_words_word _ _ (m - 2) Hu) as Hw. unfold is_u64 in *. subst d. rewrite !val_2. lia. }
  specialize (H Hlt). destruct (udivrem_by2 _ _ _) as [un' r]. destruct H as (H1 & H2 & H3 & H4 & H5). rewrite Eu, <-Ed1, Ed in H5. rewrite <-Ed1, Ed in H4.
  pose proof (is_words_range _ _ H3) as Rr. destruct (shifted_division _ _ _ _ _ Hp Hv0 H5 ltac:(lia)) as [Eq Er].
  destruct (uint_trunc_spec (S (S M)) (S M) un' H1 ltac:(lia)) as [T1 T2]; [intros; apply H2; lia|].
  destruct (shr128_spec r s H3 Hs) as [S1 S2]. rewrite Er in S2. pose proof (Z.mod_pos_bound (val u) (val v) Hv0) as Rm.
  destruct (uint_cast_spec 2 (S N) (shr128 r s) S1 ltac:(lia)) as [C1 C2].
  unfold divides. cbn [fst snd]. split_and!; [done|done|by rewrite T2|by rewrite C2].
Qed.
Lemma knuth_case : (2 < n)%nat → let '(q, un') := udivrem_knuth (replicate (S M) 0) un m vn n in
  divides (S M) (S N) u v (q, shr_words s (take n un') ++ replicate (S N - n) 0).
Proof using All.
  intros Hn3. destruct case_facts as (Hp & Hvp & Ed1 & RN). destruct Hna as [[Hs Hs64] Hn Hm Hd Hu Ed Eu Zd Td Zu Tu]. cbn [divisor numerator num_divisor_words num_numerator_words shift] in *.
  destruct n as [|[|k]]; [lia..|]. clear Hna. replace (S (S k) - 1)%nat with (S k) in * by lia.
  pose proof (udivrem_knuth_spec (S N) (S (S M)) k vn un m (S M) Hd ltac:(lia) Td Zd Hu ltac:(lia) ltac:(lia) Zu (Tu ltac:(lia))) as H.
  destruct (udivrem_knuth _ _ _ _ _) as [q un']. destruct H as (H1 & H2 & H3 & H4). rewrite Ed in H3, H4. rewrite Eu in H4.
  pose proof (is_words_take _ (S (S k)) _ H1 ltac:(lia)) as Ht. pose proof (is_words_range _ _ Ht) as Rt.
  destruct (shifted_division _ _ _ _ _ Hp Hv0 H4 ltac:(lia)) as [Eq Er].
  destruct (shr_words_spec _ s _ (conj Hs Hs64) Ht) as [S1 S2]. unfold divides. cbn [fst snd].
  split_and!; [done| |done|].
  - replace (S N) with (S (S k) + (S N - S (S k)))%nat at 1 by lia. apply is_words_app; [done|apply is_words_zeros].
  - rewrite val_app, val_zeros, S2, Er. lia.
Qed.
End Cases.
Lemma udivrem_from_spec before M N u v : is_words (S M) u → is_words (S N) v → val v ≠ 0 → divides (S M) (S N) u v (udivrem_from before u v).
Proof.
  intros Hu Hv Hv0. pose proof (normalize_spec before M N u v Hu Hv Hv0) as Hna. unfold udivrem_from. cbv zeta.
  rewrite (proj1 Hu), (proj1 Hv). destruct (normalize before u v) as [vn un n m s]. cbn [divisor numerator num_divisor_words num_numerator_words shift] in *. pose proof (is_words_range _ _ Hv) as Rv. assert (0 < val v) as Hpos by lia.
  destruct (Nat.leb_spec m n) as [Hle|Hlt].
  { pose proof (smaller_numerator M N u v _ Hna Hu Hpos Hle) as Hsm. destruct (uint_of_spec M 0 ltac:(done)) as [O1 O2].
    destruct (uint_cast_spec (S M) (S N) u Hu ltac:(lia)) as [C1 C2]. unfold divides. cbn [fst snd].
    rewrite O2, C2, Z.div_small, Z.mod_small by lia. done. }
  destruct (Nat.eqb_spec n 1) as [E1|E1].
  { pose proof (by1_case M N u v vn un n m s Hna Hv Hpos Hlt E1) as H. destruct (udivrem_by1 _ _ _). exact H. }
  destruct (Nat.eqb_spec n 2) as [E2|E2].
  { pose proof (by2_case M N u v vn un n m s Hna Hv Hpos Hlt E2) as H. destruct (udivrem_by2 _ _ _). exact H. }
  pose proof (norm_n _ _ _ _ _ Hna) as Hn0. cbn [num_divisor_words] in Hn0. pose proof (knuth_case M N u v vn un n m s Hna Hv Hpos Hlt ltac:(lia)) as H. destruct (udivrem_knuth _ _ _ _ _). exact H.
Qed.
(** The quotient and the remainder, whatever word lies before the numerator. *)
Theorem uint_udivrem_spec M N u v : is_words (S M) u → is_words (S N) v → val v ≠ 0 →
  let '(q, r) := udivrem u v in
  is_words (S M) q ∧ is_words (S N) r ∧ val q = val u / val v ∧ val r = val u mod val v.
Proof.
  intros Hu Hv Hv0. pose proof (udivrem_from_spec (word (divisor (normalize 0 u v)) (length v - 1)) M N u v Hu Hv Hv0) as H.
  unfold udivrem. destruct (udivrem_from _ u v) as [q r]. exact H.
Qed.

(** C19: [udivrem] of numbers of any sizes - by one word, by two, or by Knuth's
    algorithm D with its normalization, estimates and corrections - gives the
    quotient and a remainder smaller than the divisor, whatever word lies in
    memory before the numerator. *)
Theorem udivrem_correct before M N u v : is_words (S M) u → is_words (S N) v → val v ≠ 0 →
  let '(q, r) := udivrem_from before u v in
  is_words (S M) q ∧ is_words (S N) r ∧ val u = val q * val v + val r ∧ 0 <= val r < val v.
Proof.
  intros Hu Hv Hv0. pose proof (udivrem_from_spec before M N u v Hu Hv Hv0) as (Hq & Hr & Eq & Er).
  destruct (udivrem_from before u v) as [q r]. cbn [fst snd] in *. pose proof (is_words_range _ _ Hv) as Rv.
  pose proof (Z.div_mod (val u) (val v) Hv0). pose proof (Z.mod_pos_bound (val u) (val v) ltac:(lia)).
  split_and!; [done|done|lia..].
Qed.
(** A divisor of three words, for which the first estimate is one too large. *)
Lemma udivrem_correct_witness :
  let u := [0; 0; 2 ^ 63; 2 ^ 63] in
  let v := [2 ^ 64 - 1; 0; 2 ^ 63; 0] in
  (is_words 4 u ∧ is_words 4 v ∧ val v ≠ 0) ∧
  let '(q, r) := udivrem_from 0 u v in
  is_words 4 q ∧ is_words 4 r ∧ val u = val q * val v + val r ∧ 0 <= val r < val v.
Proof.
  cbv zeta. assert (is_words 4 [0; 0; 2 ^ 63; 2 ^ 63]) as Hu by (by split; [|repeat constructor]).
  assert (is_words 4 [2 ^ 64 - 1; 0; 2 ^ 63; 0]) as Hv by (by split; [|repeat constructor]).
  split; [by split_and!|]. by apply (udivrem_correct 0 3 3).
Defined.
