(* ===== verification/IntxOps.v ===== *)
(** * intx: the 256-bit operations of the interpreter, on words

    pkgs/intx-0.10.0/include/intx/intx.hpp: what is built on sums, products,
    shifts and [udivrem], for [uint256].  [Uint256] is the interface that the
    interpreter uses; its instances are numbers ([Words.v], on which the
    instructions are defined) and words (here).  [intx_refines_words]: the words
    compute the numbers. *)
From Stdlib Require Import ZArith Lia.
From stdpp Require Import base tactics numbers list.
From S2P Require Import Prelude Intx IntxDiv IntxUdivrem.
From S2P Require Words.

Local Open Scope Z_scope.

(** ** Operations on four words *)
Definition uint256 (x : Z) : words := uint_of 4 x.
Definition uint_slt (x y : words) : bool :=
  let top_word_idx := (length x - 1)%nat in
  let x_neg := i64 (word x top_word_idx) <? 0 in
  let y_neg := i64 (word y top_word_idx) <? 0 in
  if xorb x_neg y_neg then x_neg else lt256 x y.
Definition sdivrem (u v : words) : words * words :=
  let sign_mask := shl256 (uint256 1) 255 in
  let u_is_neg := negb (uint_eq (uint_and u sign_mask) (uint256 0)) in
  let v_is_neg := negb (uint_eq (uint_and v sign_mask) (uint256 0)) in
  let u_abs := if u_is_neg then uint_neg u else u in
  let v_abs := if v_is_neg then uint_neg v else v in
  let q_is_neg := xorb u_is_neg v_is_neg in
  let '(quot, rem) := udivrem u_abs v_abs in
  (if q_is_neg then uint_neg quot else quot, if u_is_neg then uint_neg rem else rem).
Definition addmod (x y mod_ : words) : words :=
  if negb (word mod_ 3 =? 0) && (word x 3 <=? word mod_ 3) && (word y 3 <=? word mod_ 3) then
    let xd := uint_subc x mod_ false in
    let xn := if negb xd.2 then xd.1 else x in
    let yd := uint_subc y mod_ false in
    let yn := if negb yd.2 then yd.1 else y in
    let a := uint_addc xn yn false in
    let av := a.1 in
    let b := uint_subc av mod_ false in
    let bv := b.1 in
    if (a.2 : bool) || negb b.2 then bv else av
  else
    let s := uint_addc x y false in
    let n := s.1 ++ [Z.b2z s.2] in
    (udivrem n mod_).2.
Definition mulmod (x y mod_ : words) : words := (udivrem (uint_umul x y) mod_).2.
(** [exp]: one round per bit of the exponent that is left. *)
Fixpoint exp_loop (bits : nat) (base exponent result : words) : words :=
  match bits with
  | O => result
  | S bits =>
      if uint_eq exponent (uint256 0) then result
      else exp_loop bits (uint_mul base base) (shr256 exponent 1)
             (if negb (uint_eq (uint_and exponent (uint256 1)) (uint256 0)) then uint_mul result base else result)
  end.
Definition uint_exp (base exponent : words) : words :=
  if uint_eq base (uint256 2) then shl256_by (uint256 1) exponent else exp_loop 256 base exponent (uint256 1).

(** ** The interface *)
Class Uint256 (A : Type) := {
  of_word : Z → A;
  get_word : A → nat → Z;
  set_word : A → nat → Z → A;
  op_add : A → A → A; op_sub : A → A → A; op_mul : A → A → A; op_neg : A → A;
  op_not : A → A; op_and : A → A → A; op_or : A → A → A; op_xor : A → A → A;
  op_eq : A → A → bool; op_lt : A → A → bool; op_slt : A → A → bool;
  op_shl : A → A → A; op_shr : A → A → A; op_shl64 : A → Z → A; op_shr64 : A → Z → A;
  op_udivrem : A → A → A * A; op_sdivrem : A → A → A * A;
  op_addmod : A → A → A → A; op_mulmod : A → A → A → A; op_exp : A → A → A;
  op_significant_bytes : A → Z;
}.
#[export] Instance uint256_words : Uint256 words := {
  of_word := uint256; get_word := word; set_word x i w := <[i := w]> x;
  op_add := uint_add; op_sub := uint_sub; op_mul := uint_mul; op_neg := uint_neg;
  op_not := uint_not; op_and := uint_and; op_or := uint_or; op_xor := uint_xor;
  op_eq := uint_eq; op_lt := lt256; op_slt := uint_slt;
  op_shl := shl256_by; op_shr := shr256_by; op_shl64 := shl256; op_shr64 := shr256;
  op_udivrem := udivrem; op_sdivrem := sdivrem;
  op_addmod := addmod; op_mulmod := mulmod; op_exp := uint_exp;
  op_significant_bytes := count_significant_bytes;
}.
#[export] Instance uint256_numbers : Uint256 Z := {
  of_word x := x; get_word x i := Words.limb x (Z.of_nat i); set_word x i w := Words.set_limb x (Z.of_nat i) w;
  op_add x y := Words.u256 (x + y); op_sub x y := Words.u256 (x - y); op_mul x y := Words.u256 (x * y); op_neg := Words.uneg;
  op_not := Words.unot; op_and := Z.land; op_or := Z.lor; op_xor := Z.lxor;
  op_eq := Z.eqb; op_lt := Z.ltb; op_slt := Words.slt;
  op_shl := Words.ushl; op_shr := Words.ushr; op_shl64 := Words.shl64; op_shr64 := Words.shr64;
  op_udivrem := Words.udivrem; op_sdivrem := Words.sdivrem;
  op_addmod := Words.addmod; op_mulmod := Words.mulmod; op_exp := Words.uexp;
  op_significant_bytes := Words.count_significant_bytes;
}.
(** Four words represent a number. *)
Definition represents (x : words) (z : Z) : Prop := is_words 4 x ∧ val x = z.
(** An implementation computes what a specification says, operation by
    operation; divisors are not zero, word indices and shifts are in range. *)
Record refines {A B} (R : A → B → Prop) (I : Uint256 A) (S : Uint256 B) (nonzero : B → Prop) : Prop := {
  refines_of_word w : is_u64 w → R (of_word w) (of_word w);
  refines_get x z i : R x z → (i < 4)%nat → get_word x i = get_word z i;
  refines_set x z i w : R x z → (i < 4)%nat → is_u64 w → R (set_word x i w) (set_word z i w);
  refines_add x y a b : R x a → R y b → R (op_add x y) (op_add a b);
  refines_sub x y a b : R x a → R y b → R (op_sub x y) (op_sub a b);
  refines_mul x y a b : R x a → R y b → R (op_mul x y) (op_mul a b);
  refines_neg x a : R x a → R (op_neg x) (op_neg a);
  refines_not x a : R x a → R (op_not x) (op_not a);
  refines_and x y a b : R x a → R y b → R (op_and x y) (op_and a b);
  refines_or x y a b : R x a → R y b → R (op_or x y) (op_or a b);
  refines_xor x y a b : R x a → R y b → R (op_xor x y) (op_xor a b);
  refines_eq x y a b : R x a → R y b → op_eq x y = op_eq a b;
  refines_lt x y a b : R x a → R y b → op_lt x y = op_lt a b;
  refines_slt x y a b : R x a → R y b → op_slt x y = op_slt a b;
  refines_shl x y a b : R x a → R y b → R (op_shl x y) (op_shl a b);
  refines_shr x y a b : R x a → R y b → R (op_shr x y) (op_shr a b);
  refines_shl64 x a s : R x a → is_u64 s → R (op_shl64 x s) (op_shl64 a s);
  refines_shr64 x a s : R x a → is_u64 s → R (op_shr64 x s) (op_shr64 a s);
  refines_udivrem x y a b : R x a → R y b → nonzero b →
    R (op_udivrem x y).1 (op_udivrem a b).1 ∧ R (op_udivrem x y).2 (op_udivrem a b).2;
  refines_sdivrem x y a b : R x a → R y b → nonzero b →
    R (op_sdivrem x y).1 (op_sdivrem a b).1 ∧ R (op_sdivrem x y).2 (op_sdivrem a b).2;
  refines_addmod x y m a b c : R x a → R y b → R m c → nonzero c → R (op_addmod x y m) (op_addmod a b c);
  refines_mulmod x y m a b c : R x a → R y b → R m c → nonzero c → R (op_mulmod x y m) (op_mulmod a b c);
  refines_exp x y a b : R x a → R y b → R (op_exp x y) (op_exp a b);
  refines_significant_bytes x a : R x a → op_significant_bytes x = op_significant_bytes a;
}.

(** ** Words and limbs *)
Lemma testbit_val n x k : is_words n x → 0 <= k → Z.testbit (val x) k = Z.testbit (word x (Z.to_nat (k / 64))) (k mod 64).
Proof.
  revert x k. induction n as [|n IH]; intros x k.
  { intros ->%is_words_0 Hk. change (val []) with 0. unfold word. destruct (Z.to_nat (k / 64)); cbn [nth]; by rewrite !Z.bits_0. }
  intros (w & x' & -> & Hw & Hx)%is_words_S Hk. rewrite val_cons, testbit_cons by done. destruct (Z.ltb_spec k 64).
  - rewrite Z.div_small, Z.mod_small by lia. done.
  - rewrite IH by (done || lia). replace k with ((k - 64) + 1 * 64) at 3 4 by lia. rewrite Z.div_add, Z.mod_add by lia.
    pose proof (Z.div_pos (k - 64) 64 ltac:(lia) ltac:(lia)). replace (Z.to_nat ((k - 64) / 64 + 1)) with (S (Z.to_nat ((k - 64) / 64))) by lia. done.
Qed.
Lemma limb_of_word n x i : is_words n x → Words.limb (val x) (Z.of_nat i) = word x i.
Proof.
  intros Hx. pose proof (is_words_word _ _ i Hx) as Hw. unfold Words.limb. change (2 ^ 64 - 1) with (Z.ones 64).
  rewrite Z.land_ones by lia. apply Z.bits_inj'. intros k Hk. destruct (Z.lt_ge_cases k 64).
  - rewrite Z.mod_pow2_bits_low, Z.shiftr_spec, (testbit_val n) by (done || lia).
    replace (k + 64 * Z.of_nat i) with (k + Z.of_nat i * 64) by lia. rewrite Z.div_add, Z.mod_add, Z.div_small, Z.mod_small by lia.
    do 2 f_equal. lia.
  - rewrite Z.mod_pow2_bits_high by lia. rewrite <-(Z.mod_small (word x i) (2 ^ 64)), Z.mod_pow2_bits_high by (done || lia). done.
Qed.
Lemma is_u256_val x : is_words 4 x → Words.is_u256 (val x).
Proof. intros Hx. apply (is_words_range _ _ Hx). Qed.
Lemma set_limb_word x i w : is_words 4 x → (i < 4)%nat → is_u64 w → Words.set_limb (val x) (Z.of_nat i) w = val (<[i:=w]> x).
Proof.
  intros Hx Hi Hw. pose proof (is_words_insert _ _ i _ Hx Hw) as Hx'. unfold Words.set_limb. change (2 ^ 64 - 1) with (Z.ones 64).
  apply Z.bits_inj'. intros k Hk. rewrite Z.lor_spec, Z.ldiff_spec, !Z.shiftl_spec, (testbit_val 4), (testbit_val 4 (<[i:=w]> x)) by done.
  pose proof (Z.div_mod k 64 ltac:(lia)) as E. pose proof (Z.mod_pos_bound k 64 ltac:(lia)) as R. pose proof (Z.div_pos k 64 ltac:(lia) ltac:(lia)) as P.
  destruct (decide (Z.to_nat (k / 64) = i)) as [Ei|Ei].
  - rewrite Ei, word_insert by (rewrite (proj1 Hx); lia). replace (k - 64 * Z.of_nat i) with (k mod 64) by lia.
    rewrite Z.testbit_ones_nonneg by lia. destruct (Z.ltb_spec (k mod 64) 64); [|lia]. by rewrite andb_false_r.
  - rewrite word_insert_ne by done. assert (k - 64 * Z.of_nat i < 0 ∨ 64 <= k - 64 * Z.of_nat i) as [Ho|Ho] by lia.
    + rewrite (Z.testbit_neg_r _ (k - _)), (Z.testbit_neg_r w) by lia. by rewrite andb_true_r, orb_false_r.
    + rewrite Z.testbit_ones_nonneg by lia. destruct (Z.ltb_spec (k - 64 * Z.of_nat i) 64); [lia|]. rewrite andb_true_r.
      rewrite <-(Z.mod_small w (2 ^ 64)), Z.mod_pow2_bits_high by (done || lia). apply orb_false_r.
Qed.

(** ** The refinement, operation by operation *)
Lemma represents_range x z : represents x z → Words.is_u256 z.
Proof. intros [Hx <-]. by apply is_u256_val. Qed.
Lemma represents_if (k : bool) x y a b : represents x a → represents y b → represents (if k then x else y) (if k then a else b).
Proof. by destruct k. Qed.
Lemma uint256_spec w : is_u64 w → represents (uint256 w) w.
Proof. apply uint_of_spec. Qed.
Lemma shl256_refines x z s : represents x z → 0 <= s → represents (shl256 x s) (Words.shl64 z s).
Proof.
  intros [Hx <-] Hs. destruct (shl256_spec x s Hx Hs) as [H E]. split; [done|]. rewrite E. unfold Words.shl64, Words.u256.
  destruct (Z.leb_spec 256 s); [by apply (shift_out 4)|]. by rewrite Z.shiftl_mul_pow2.
Qed.
Lemma shr256_refines x z s : represents x z → 0 <= s → represents (shr256 x s) (Words.shr64 z s).
Proof.
  intros [Hx <-] Hs. destruct (shr256_spec x s Hx Hs) as [H E]. split; [done|]. rewrite E. unfold Words.shr64.
  destruct (Z.leb_spec 256 s); [apply (shr_nothing 4); [by apply is_words_range|lia]|]. by rewrite Z.shiftr_div_pow2.
Qed.
Lemma high_words_fold_refines x : is_words 4 x → high_words_fold x = Words.high_words_fold (val x).
Proof.
  intros Hx. unfold Words.high_words_fold. rewrite (limb_of_word 4 x 1 Hx : Words.limb (val x) 1 = _), (limb_of_word 4 x 2 Hx : Words.limb (val x) 2 = _), (limb_of_word 4 x 3 Hx : Words.limb (val x) 3 = _).
  apply is_words_4_inv in Hx as (a & b & c & d & -> & _). unfold high_words_fold. cbn [drop foldl]. by rewrite Z.lor_0_l.
Qed.
Lemma word0_refines x z : represents x z → word x 0 = Words.limb z 0.
Proof. intros [Hx <-]. symmetry. apply (limb_of_word 4 x 0 Hx). Qed.
Lemma shl256_by_refines x y a b : represents x a → represents y b → represents (shl256_by x y) (Words.ushl a b).
Proof.
  intros Hx Hy. unfold shl256_by, Words.ushl. rewrite (word0_refines y b Hy), high_words_fold_refines, (proj2 Hy) by apply Hy.
  destruct (negb _); [by apply uint_of_spec|]. apply shl256_refines; [done|]. apply Words.limb_range.
Qed.
Lemma shr256_by_refines x y a b : represents x a → represents y b → represents (shr256_by x y) (Words.ushr a b).
Proof.
  intros Hx Hy. unfold shr256_by, Words.ushr. rewrite (word0_refines y b Hy), high_words_fold_refines, (proj2 Hy) by apply Hy.
  destruct (negb _); [by apply uint_of_spec|]. apply shr256_refines; [done|]. apply Words.limb_range.
Qed.
Lemma neg_refines x z : represents x z → represents (uint_neg x) (Words.uneg z).
Proof.
  intros Hx. pose proof (represents_range _ _ Hx) as Hr. destruct Hx as [Hx <-]. destruct (uint_neg_spec 3 x Hx) as [H E].
  split; [done|]. by rewrite E, Words.uneg_spec.
Qed.
Lemma mul_refines x y a b : represents x a → represents y b → represents (uint_mul x y) (Words.u256 (a * b)).
Proof. intros [Hx <-] [Hy <-]. apply (uint_mul_spec 4 x y Hx Hy). Qed.
Lemma and_refines x y a b : represents x a → represents y b → represents (uint_and x y) (Z.land a b).
Proof. intros [Hx <-] [Hy <-]. by apply (uint_and_spec 4). Qed.
Lemma eq_refines x y a b : represents x a → represents y b → uint_eq x y = (a =? b).
Proof. intros [Hx <-] [Hy <-]. by apply (uint_eq_spec 4). Qed.
Lemma slt_refines x y a b : represents x a → represents y b → uint_slt x y = Words.slt a b.
Proof.
  intros [Hx <-] [Hy <-]. unfold uint_slt, Words.slt, Words.neg64. rewrite (proj1 Hx), lt256_spec by done.
  by rewrite (limb_of_word 4 x 3 Hx : Words.limb (val x) 3 = _), (limb_of_word 4 y 3 Hy : Words.limb (val y) 3 = _).
Qed.
Lemma udivrem_refines x y a b : represents x a → represents y b → b ≠ 0 →
  represents (udivrem x y).1 (Words.udivrem a b).1 ∧ represents (udivrem x y).2 (Words.udivrem a b).2.
Proof.
  intros [Hx <-] [Hy <-] Hz. pose proof (uint_udivrem_spec 3 3 x y Hx Hy Hz) as H. rewrite Words.udivrem_spec by done.
  destruct (udivrem x y) as [q r]. destruct H as (? & ? & ? & ?). by split.
Qed.
Lemma sdivrem_refines x y a b : represents x a → represents y b → b ≠ 0 →
  represents (sdivrem x y).1 (Words.sdivrem a b).1 ∧ represents (sdivrem x y).2 (Words.sdivrem a b).2.
Proof.
  intros Hx Hy Hz. unfold sdivrem, Words.sdivrem. cbv zeta.
  pose proof (shl256_refines _ _ 255 (uint256_spec 1 ltac:(done)) ltac:(lia)) as Hm. pose proof (uint256_spec 0 ltac:(done)) as H0.
  rewrite (eq_refines _ _ _ _ (and_refines _ _ _ _ Hx Hm) H0), (eq_refines _ _ _ _ (and_refines _ _ _ _ Hy Hm) H0).
  set (nx := negb (Z.land a _ =? 0)). set (ny := negb (Z.land b _ =? 0)).
  assert (represents (if nx then uint_neg x else x) (if nx then Words.uneg a else a)) as Hxa by (apply represents_if; [by apply neg_refines|done]).
  assert (represents (if ny then uint_neg y else y) (if ny then Words.uneg b else b)) as Hya by (apply represents_if; [by apply neg_refines|done]).
  assert ((if ny then Words.uneg b else b) ≠ 0) as Hnz.
  { pose proof (represents_range _ _ Hy) as Rb. subst ny. rewrite Words.sign_bit, Words.s256_abs, Words.s256_eq by done.
    unfold Words.is_u256 in Rb. destruct (Z.ltb_spec b (2 ^ 255)); lia. }
  destruct (udivrem_refines _ _ _ _ Hxa Hya Hnz) as [Hq Hr].
  destruct (udivrem _ _) as [q r], (Words.udivrem _ _) as [q' r']. cbn [fst snd] in *.
  split; apply represents_if; [by apply neg_refines|done|by apply neg_refines|done].
Qed.
Lemma addc_refines x y a b : represents x a → represents y b →
  represents (uint_addc x y false).1 (Words.addc a b).1 ∧ (uint_addc x y false).2 = (Words.addc a b).2.
Proof.
  intros [Hx <-] [Hy <-]. pose proof (uint_addc_spec 4 x y false Hx Hy) as H. pose proof (is_words_range _ _ Hx) as Rx. pose proof (is_words_range _ _ Hy) as Ry.
  destruct (uint_addc x y false) as [s k]. destruct H as [Hs E]. pose proof (is_words_range _ _ Hs) as Rs. unfold Words.addc. cbn [fst snd].
  change (64 * Z.of_nat 4) with 256 in *. cbn [Z.b2z] in E. split.
  - split; [done|]. apply (Z.mod_unique_pos _ _ (Z.b2z k)); [done|lia].
  - destruct k; cbn [Z.b2z] in E; symmetry; [apply Z.leb_le|apply Z.leb_gt]; lia.
Qed.
Lemma subc_refines x y a b : represents x a → represents y b →
  represents (uint_subc x y false).1 (Words.subc a b).1 ∧ (uint_subc x y false).2 = (Words.subc a b).2.
Proof.
  intros [Hx <-] [Hy <-]. pose proof (uint_subc_spec 4 x y false Hx Hy) as H. pose proof (is_words_range _ _ Hx) as Rx. pose proof (is_words_range _ _ Hy) as Ry.
  destruct (uint_subc x y false) as [s k]. destruct H as [Hs E]. pose proof (is_words_range _ _ Hs) as Rs. unfold Words.subc. cbn [fst snd].
  change (64 * Z.of_nat 4) with 256 in *. cbn [Z.b2z] in E. split.
  - split; [done|]. apply (Z.mod_unique_pos _ _ (- Z.b2z k)); [done|lia].
  - destruct k; cbn [Z.b2z] in E; symmetry; [apply Z.ltb_lt|apply Z.ltb_ge]; lia.
Qed.
Lemma addmod_refines x y m a b c : represents x a → represents y b → represents m c → c ≠ 0 → represents (addmod x y m) (Words.addmod a b c).
Proof.
  intros Hx Hy Hm Hz. unfold addmod, Words.addmod.
  assert (∀ u z, represents u z → Words.limb z 3 = word u 3) as Hl by (intros u z [Hu <-]; apply (limb_of_word 4 u 3 Hu)).
  rewrite (Hl _ _ Hx), (Hl _ _ Hy), (Hl _ _ Hm). destruct (_ && _); cbv zeta.
  - destruct (subc_refines _ _ _ _ Hx Hm) as [Hxd ->]. destruct (subc_refines _ _ _ _ Hy Hm) as [Hyd ->].
    set (xn := if negb (Words.subc a c).2 then (uint_subc x m false).1 else x). set (yn := if negb (Words.subc b c).2 then (uint_subc y m false).1 else y).
    assert (represents xn (if negb (Words.subc a c).2 then (Words.subc a c).1 else a)) as Hxn by (by apply represents_if).
    assert (represents yn (if negb (Words.subc b c).2 then (Words.subc b c).1 else b)) as Hyn by (by apply represents_if).
    destruct (addc_refines _ _ _ _ Hxn Hyn) as [Ha ->]. destruct (subc_refines _ _ _ _ Ha Hm) as [Hb ->]. by apply represents_if.
  - destruct (addc_refines _ _ _ _ Hx Hy) as [[Hs Es] ->]. set (k := (Words.addc a b).2) in *. destruct Hm as [Hm Em].
    assert (is_words 5 ((uint_addc x y false).1 ++ [Z.b2z k])) as Hn.
    { pose proof (b2z_range k). apply (is_words_app 4 1); [done|]. apply is_words_cons; split; [unfold is_u64; lia|apply is_words_nil]. }
    pose proof (uint_udivrem_spec 4 3 _ m Hn Hm ltac:(by rewrite Em)) as H. destruct (udivrem _ m) as [q r]. destruct H as (_ & Hr & _ & Er).
    split; [done|]. cbn [snd]. rewrite Er, val_app, (proj1 Hs), Es, Em, Words.udivrem_spec by done. cbn [snd val]. f_equal.
    change (64 * Z.of_nat 4) with 256. destruct k; cbn [Z.b2z Words.bool_word]; lia.
Qed.
Lemma mulmod_refines x y m a b c : represents x a → represents y b → represents m c → c ≠ 0 → represents (mulmod x y m) (Words.mulmod a b c).
Proof.
  intros [Hx <-] [Hy <-] [Hm <-] Hz. unfold mulmod, Words.mulmod, Words.umul. destruct (uint_umul_spec 3 x y Hx Hy) as [Hu Eu].
  pose proof (uint_udivrem_spec 7 3 _ m Hu Hm Hz) as H. destruct (udivrem _ m) as [q r]. destruct H as (_ & Hr & _ & Er).
  rewrite Words.udivrem_spec by done. split; [done|]. cbn [snd]. by rewrite Er, Eu.
Qed.
Lemma exp_refines x y a b : represents x a → represents y b → represents (uint_exp x y) (Words.uexp a b).
Proof.
  intros Hx Hy. unfold uint_exp, Words.uexp. pose proof (uint256_spec 0 ltac:(done)) as H0. pose proof (uint256_spec 1 ltac:(done)) as H1.
  rewrite (eq_refines _ _ _ _ Hx (uint256_spec 2 ltac:(done))). destruct (a =? 2); [by apply shl256_by_refines|].
  assert (∀ n x y r a b c, represents x a → represents y b → represents r c → represents (exp_loop n x y r) (Words.exp_loop n a b c)) as Hl.
  { clear - H0 H1. induction n as [|n IH]; intros x y r a b c Hx Hy Hr; cbn [exp_loop Words.exp_loop]; [done|].
    rewrite (eq_refines _ _ _ _ Hy H0). destruct (b =? 0); [done|].
    rewrite (eq_refines _ _ _ _ (and_refines _ _ _ _ Hy H1) H0). apply IH; [by apply mul_refines|by apply shr256_refines|].
    destruct (negb _); [by apply mul_refines|done]. }
  by apply Hl.
Qed.
Lemma significant_bytes_refines x z : represents x z → count_significant_bytes x = Words.count_significant_bytes z.
Proof.
  intros [Hx <-]. unfold Words.count_significant_bytes, Words.count_significant_words.
  pose proof (limb_of_word 4 x 0 Hx : Words.limb (val x) 0 = _) as E0. pose proof (limb_of_word 4 x 1 Hx : Words.limb (val x) 1 = _) as E1.
  pose proof (limb_of_word 4 x 2 Hx : Words.limb (val x) 2 = _) as E2. pose proof (limb_of_word 4 x 3 Hx : Words.limb (val x) 3 = _) as E3.
  rewrite E0, E1, E2, E3. apply is_words_4_inv in Hx as (a & b & c & d & -> & _). unfold word in *. cbn [nth] in *.
  unfold count_significant_bytes, count_significant_words. cbn [length count_loop]. unfold word. cbn [nth].
  destruct (negb (d =? 0)); [change (4 - 1) with 3; by rewrite E3|]. destruct (negb (c =? 0)); [change (3 - 1) with 2; by rewrite E2|].
  destruct (negb (b =? 0)); [change (2 - 1) with 1; by rewrite E1|]. destruct (negb (a =? 0)); [change (1 - 1) with 0; by rewrite E0|]. done.
Qed.

(** C18: The words of intx compute the numbers on which the instructions of the
    interpreter are defined: every operation on four 64-bit words - sums,
    products, comparisons, shifts, both divisions, [addmod], [mulmod], [exp] and
    the count of bytes - gives the words of the operation on the numbers. *)
Theorem intx_refines_words : refines represents uint256_words uint256_numbers (λ z, z ≠ 0).
Proof.
  constructor; cbn.
  - apply uint256_spec.
  - intros x z i [Hx <-] _. symmetry. by apply (limb_of_word 4).
  - intros x z i w [Hx <-] Hi Hw. split; [by apply is_words_insert|]. symmetry. by apply set_limb_word.
  - intros x y a b [Hx <-] [Hy <-]. by apply (uint_add_spec 4).
  - intros x y a b [Hx <-] [Hy <-]. by apply (uint_sub_spec 4).
  - apply mul_refines.
  - apply neg_refines.
  - intros x a Ha. rewrite Words.unot_spec by (by eapply represents_range). destruct Ha as [Hx <-]. by apply (uint_not_spec 4).
  - apply and_refines.
  - intros x y a b [Hx <-] [Hy <-]. by apply (uint_or_spec 4).
  - intros x y a b [Hx <-] [Hy <-]. by apply (uint_xor_spec 4).
  - apply eq_refines.
  - intros x y a b [Hx <-] [Hy <-]. by apply lt256_spec.
  - apply slt_refines.
  - apply shl256_by_refines.
  - apply shr256_by_refines.
  - intros x a s Hx [Hs _]. by apply shl256_refines.
  - intros x a s Hx [Hs _]. by apply shr256_refines.
  - apply udivrem_refines.
  - apply sdivrem_refines.
  - apply addmod_refines.
  - apply mulmod_refines.
  - apply exp_refines.
  - apply significant_bytes_refines.
Qed.
