(* ===== verification/IntxText.v ===== *)
(** * intx: division of 128-bit numbers, and text

    pkgs/intx-0.10.0/include/intx/intx.hpp: [udivrem] of
    [uint128], which does without arrays; [to_string] and [from_string] of
    [uint<N>].  [from_string] reads back what [to_string] writes. *)
From Stdlib Require Import ZArith Strings.String Strings.Ascii Lia.
From stdpp Require Import base tactics numbers list strings.
From S2P Require Import Prelude Text Intx IntxDiv IntxUdivrem.

Local Open Scope Z_scope.

(** ** [uint128] *)
Definition udivrem128 (x y : words) : words * words :=
  if word y 1 =? 0 then
    let lsh := clz (word y 0) in
    let rsh := (64 - lsh) mod 64 in
    let rsh_mask := u64 (Z.b2z (lsh =? 0) - 1) in
    let yn := u64 (Z.shiftl (word y 0) lsh) in
    let xn_lo := u64 (Z.shiftl (word x 0) lsh) in
    let xn_hi := Z.lor (u64 (Z.shiftl (word x 1) lsh)) (Z.land (Z.shiftr (word x 0) rsh) rsh_mask) in
    let xn_ex := Z.land (Z.shiftr (word x 1) rsh) rsh_mask in
    let v := reciprocal_2by1 yn in
    let '(quot1, rem1) := udivrem_2by1 [xn_hi; xn_ex] yn v in
    let '(quot2, rem2) := udivrem_2by1 [xn_lo; rem1] yn v in
    ([quot2; quot1], uint_of 2 (Z.shiftr rem2 lsh))
  else if word x 1 <? word y 1 then (uint_of 2 0, x)
  else
    let lsh := clz (word y 1) in
    if lsh =? 0 then
      let q := Z.lor (Z.b2z (word y 1 <? word x 1)) (Z.b2z (word y 0 <=? word x 0)) in
      (uint_of 2 q, uint_sub x (if negb (q =? 0) then y else uint_of 2 0))
    else
      let rsh := 64 - lsh in
      let yn_lo := u64 (Z.shiftl (word y 0) lsh) in
      let yn_hi := Z.lor (u64 (Z.shiftl (word y 1) lsh)) (Z.shiftr (word y 0) rsh) in
      let xn_lo := u64 (Z.shiftl (word x 0) lsh) in
      let xn_hi := Z.lor (u64 (Z.shiftl (word x 1) lsh)) (Z.shiftr (word x 0) rsh) in
      let xn_ex := Z.shiftr (word x 1) rsh in
      let v := reciprocal_3by2 [yn_lo; yn_hi] in
      let '(quot, rem) := udivrem_3by2 xn_ex xn_hi xn_lo [yn_lo; yn_hi] v in
      (uint_of 2 quot, shr128 rem lsh).

(** ** Text *)
Definition char_of (z : Z) : ascii := ascii_of_N (Z.to_N z).
Definition code_of (c : ascii) : Z := Z.of_N (N_of_ascii c).
(** The loop of [to_string]: it pushes the digits, the last one first. *)
Fixpoint to_string_loop (fuel : nat) (x : words) (base : Z) (s : list ascii) : list ascii :=
  match fuel with
  | O => s
  | S fuel =>
      if uint_eq x (uint_of (length x) 0) then s
      else
        let '(quot, rem) := udivrem x (uint_of (length x) base) in
        let d := word rem 0 in
        let c := if d <? 10 then 48 + d else 97 + d - 10 in
        to_string_loop fuel quot base (s ++ [char_of c])
  end.
(** Every round halves the number at least. *)
Definition to_string (x : words) (base : Z) : outcome string :=
  if (base <? 2) || (36 <? base) then Throw (invalid_argument "invalid base")
  else if uint_eq x (uint_of (length x) 0) then Ret "0"%string
  else Ret (string_of_list_ascii (reverse (to_string_loop (64 * length x) x base []))).

Definition from_dec_digit (c : ascii) : outcome Z :=
  if (code_of c <? 48) || (57 <? code_of c) then Throw (invalid_argument "invalid digit")
  else Ret (code_of c - 48).
Definition from_hex_digit (c : ascii) : outcome Z :=
  if (97 <=? code_of c) && (code_of c <=? 102) then Ret (code_of c - (97 - 10))
  else if (65 <=? code_of c) && (code_of c <=? 70) then Ret (code_of c - (65 - 10))
  else from_dec_digit c.
(** [from_string<uint256>] of a string [str]; [s] is what is left of it. *)
Definition digits10 : Z := 3010299956639812 * 256 / 10 ^ 16.
Fixpoint from_hex_loop (str : string) (num_digits : Z) (x : words) (s : list ascii) : outcome words :=
  match s with
  | [] => Ret x
  | c :: s =>
      let num_digits := num_digits + 1 in
      if 64 <? num_digits then Throw (out_of_range str)
      else d ← from_hex_digit c; from_hex_loop str num_digits (uint_or (shl256 x 4) (uint_of 4 d)) s
  end.
Fixpoint from_dec_loop (str : string) (num_digits : Z) (x : words) (s : list ascii) : outcome words :=
  match s with
  | [] => Ret x
  | c :: s =>
      if digits10 <? num_digits then Throw (out_of_range str)
      else
        d ← from_dec_digit c;
        let x := uint_add (uint_mul x (uint_of 4 10)) (uint_of 4 d) in
        if lt256 x (uint_of 4 d) then Throw (out_of_range str)
        else from_dec_loop str (num_digits + 1) x s
  end.
(** What is read of a string ends at its first NUL. *)
Definition from_string (s : string) : outcome words :=
  let str := c_str s in
  match list_ascii_of_string str with
  | "0"%char :: "x"%char :: s => from_hex_loop str 0 (uint_of 4 0) s
  | s => from_dec_loop str 0 (uint_of 4 0) s
  end.

(** ** [uint128] *)
(** A number of two words, shifted into three. *)
Lemma shl_three x0 x1 s : is_u64 x0 → is_u64 x1 → 0 <= s < 64 →
  let lo := u64 (Z.shiftl x0 s) in
  let hi := Z.lor (u64 (Z.shiftl x1 s)) (x0 / 2 ^ (64 - s)) in
  let ex := x1 / 2 ^ (64 - s) in
  is_u64 lo ∧ is_u64 hi ∧ 0 <= ex < 2 ^ s ∧ val [lo; hi; ex] = val [x0; x1] * 2 ^ s.
Proof.
  intros H0 H1 Hs. cbv zeta. pose proof (shr_bound x0 (64 - s) ltac:(lia) H0) as R0. replace (64 - (64 - s)) with s in R0 by lia.
  pose proof (shr_bound x1 (64 - s) ltac:(lia) H1) as R1. replace (64 - (64 - s)) with s in R1 by lia.
  destruct (shl_word_spec x1 s (x0 / 2 ^ (64 - s)) Hs H1 R0) as (Hr & _ & _). split_and!; [apply u64_range..|done|lia|lia|].
  rewrite shl_lor, Z.shiftl_mul_pow2 by lia. cbn [val]. pose proof (shl_split x0 s ltac:(lia) H0) as E0. pose proof (shl_split x1 s ltac:(lia) H1) as E1. lia.
Qed.
Lemma masked_shift w s : is_u64 w → 0 <= s < 64 →
  Z.land (Z.shiftr w ((64 - s) mod 64)) (u64 (Z.b2z (s =? 0) - 1)) = w / 2 ^ (64 - s).
Proof.
  intros Hw Hs. destruct (Z.eqb_spec s 0) as [->|H].
  - change (u64 (Z.b2z true - 1)) with 0. rewrite Z.land_0_r. symmetry. by apply Z.div_small.
  - change (u64 (Z.b2z false - 1)) with (Z.ones 64). rewrite Z.mod_small, Z.shiftr_div_pow2, Z.land_ones by lia. apply Z.mod_small.
    rewrite <-Z.shiftr_div_pow2 by lia. by apply shr_word; [lia|].
Qed.
Lemma val_3 a b c : val [a; b; c] = a + 2 ^ 64 * b + 2 ^ 128 * c.
Proof. cbn [val]. ring. Qed.
Definition divides128 (x y : words) (res : words * words) : Prop :=
  is_words 2 res.1 ∧ is_words 2 res.2 ∧ val res.1 = val x / val y ∧ val res.2 = val x mod val y.
Section Division128.
Context (x0 x1 y0 y1 : Z) (Hx0 : is_u64 x0) (Hx1 : is_u64 x1) (Hy0 : is_u64 y0) (Hy1 : is_u64 y1).
(** A divisor of one word: two divisions of two words by one. *)
Lemma short_divisor s : 0 <= s < 64 → 2 ^ 63 <= y0 * 2 ^ s < 2 ^ 64 →
  let yn := u64 (Z.shiftl y0 s) in
  let hi := Z.lor (u64 (Z.shiftl x1 s)) (x0 / 2 ^ (64 - s)) in
  let '(q1, r1) := udivrem_2by1 [hi; x1 / 2 ^ (64 - s)] yn (reciprocal_2by1 yn) in
  let '(q2, r2) := udivrem_2by1 [u64 (Z.shiftl x0 s); r1] yn (reciprocal_2by1 yn) in
  divides128 [x0; x1] [y0; 0] ([q2; q1], uint_of 2 (Z.shiftr r2 s)).
Proof using Hx0 Hx1 Hy0.
  intros Hs Hyn. destruct (shl_three x0 x1 s Hx0 Hx1 Hs) as (L & H & X & E). cbv zeta in L, H, X, E |- *. clear Hy1 y1.
  pose proof (Z.pow_pos_nonneg 2 s ltac:(lia) ltac:(lia)) as Hp. assert (2 ^ s <= 2 ^ 63) as Hs63 by (apply Z.pow_le_mono_r; lia).
  rewrite (Z.shiftl_mul_pow2 y0), (u64_small (y0 * 2 ^ s)) by (unfold is_u64; lia). set (yn := y0 * 2 ^ s) in *.
  set (lo := u64 (Z.shiftl x0 s)) in *. set (hi := Z.lor _ _) in *. set (ex := x1 / _) in *.
  rewrite udivrem_2by1_spec; [|apply is_words_2; split; [done|unfold is_u64; lia]|done|change (word [hi; ex] 1) with ex; lia].
  rewrite val_2. pose proof (Z.div_mod (hi + 2 ^ 64 * ex) yn ltac:(lia)) as D1. pose proof (Z.mod_pos_bound (hi + 2 ^ 64 * ex) yn ltac:(lia)) as R1.
  assert (is_u64 ((hi + 2 ^ 64 * ex) / yn)) as Q1 by (unfold is_u64 in *; split; [apply Z.div_pos; lia|apply Z.div_lt_upper_bound; lia]).
  set (q1 := _ / yn) in *. set (r1 := _ mod yn) in *.
  rewrite udivrem_2by1_spec; [|apply is_words_2; split; [done|unfold is_u64; lia]|done|change (word [lo; r1] 1) with r1; lia].
  rewrite val_2. pose proof (Z.div_mod (lo + 2 ^ 64 * r1) yn ltac:(lia)) as D2. pose proof (Z.mod_pos_bound (lo + 2 ^ 64 * r1) yn ltac:(lia)) as R2.
  assert (is_u64 ((lo + 2 ^ 64 * r1) / yn)) as Q2 by (unfold is_u64 in *; split; [apply Z.div_pos; lia|apply Z.div_lt_upper_bound; lia]).
  set (q2 := (lo + 2 ^ 64 * r1) / yn) in *. set (r2 := (lo + 2 ^ 64 * r1) mod yn) in *. rewrite val_3 in E.
  assert (val [y0; 0] = y0) as Ey by (rewrite val_2; lia). assert (0 < y0) as Hy by nia.
  assert (val [x0; x1] * 2 ^ s = val [q2; q1] * (y0 * 2 ^ s) + r2) as EE by (rewrite <-E, val_2; fold yn; lia).
  destruct (shifted_division _ _ _ _ _ Hp Hy EE R2) as [F1 F2]. rewrite Z.shiftr_div_pow2 by lia.
  assert (is_u64 (r2 / 2 ^ s)) as Hr2 by (rewrite F2; pose proof (Z.mod_pos_bound (val [x0; x1]) y0 Hy); unfold is_u64 in *; lia).
  destruct (uint_of_spec 1 _ Hr2) as [O1 O2]. unfold divides128. cbn [fst snd]. rewrite O2, Ey. split_and!; [by apply is_words_2|done..].
Qed.
(** A divisor with the highest bit set: the quotient is zero or one. *)
Lemma long_divisor : 2 ^ 63 <= y1 → y1 <= x1 →
  let q := Z.lor (Z.b2z (y1 <? x1)) (Z.b2z (y0 <=? x0)) in
  divides128 [x0; x1] [y0; y1] (uint_of 2 q, uint_sub [x0; x1] (if negb (q =? 0) then [y0; y1] else uint_of 2 0)).
Proof using Hx0 Hx1 Hy0 Hy1.
  intros Hy Hge. assert (is_words 2 [x0; x1]) as Hx by (by apply is_words_2). assert (is_words 2 [y0; y1]) as Hy2 by (by apply is_words_2).
  unfold is_u64 in *. pose proof (val_2 x0 x1) as Ex. pose proof (val_2 y0 y1) as Ey. cbv zeta.
  assert (Z.lor (Z.b2z (y1 <? x1)) (Z.b2z (y0 <=? x0)) = Z.b2z (val [y0; y1] <=? val [x0; x1])) as ->.
  { rewrite Ex, Ey. destruct (Z.ltb_spec y1 x1), (Z.leb_spec y0 x0), (Z.leb_spec (y0 + 2 ^ 64 * y1) (x0 + 2 ^ 64 * x1)); try done; lia. }
  destruct (uint_of_spec 1 0 ltac:(done)) as [O1 O2]. destruct (uint_sub_spec 2 _ _ Hx Hy2) as [U1 U2]. destruct (uint_sub_spec 2 _ _ Hx O1) as [V1 V2].
  rewrite O2 in V2. change (64 * Z.of_nat 2) with 128 in *. unfold divides128. cbn [fst snd].
  destruct (Z.leb_spec (val [y0; y1]) (val [x0; x1])); cbn [Z.b2z Z.eqb negb].
  - destruct (uint_of_spec 1 1 ltac:(done)) as [W1 W2]. split_and!; [done|done|rewrite W2|rewrite U2, Z.mod_small by lia].
    + apply (Z.div_unique_pos _ _ _ (val [x0; x1] - val [y0; y1])); lia.
    + apply (Z.mod_unique_pos _ _ 1); lia.
  - rewrite Z.div_small, (Z.mod_small (val [x0; x1])) by lia. rewrite Z.mod_small in V2 by lia. split_and!; [done..|]. lia.
Qed.
(** Two words, normalized: one division of three words by two. *)
Lemma two_word_divisor s : 0 < s < 64 → 2 ^ 63 <= y1 * 2 ^ s < 2 ^ 64 →
  let yn := [u64 (Z.shiftl y0 s); Z.lor (u64 (Z.shiftl y1 s)) (y0 / 2 ^ (64 - s))] in
  let '(q, r) := udivrem_3by2 (x1 / 2 ^ (64 - s)) (Z.lor (u64 (Z.shiftl x1 s)) (x0 / 2 ^ (64 - s))) (u64 (Z.shiftl x0 s)) yn (reciprocal_3by2 yn) in
  divides128 [x0; x1] [y0; y1] (uint_of 2 q, shr128 r s).
Proof using Hx0 Hx1 Hy0 Hy1.
  intros Hs Hyn. destruct (shl_three x0 x1 s Hx0 Hx1 ltac:(lia)) as (L & H & X & E).
  destruct (shl_three y0 y1 s Hy0 Hy1 ltac:(lia)) as (LY & HY & _ & EY). cbv zeta in *.
  pose proof (Z.pow_pos_nonneg 2 s ltac:(lia) ltac:(lia)) as Hp. assert (2 ^ s <= 2 ^ 63) as Hs63 by (apply Z.pow_le_mono_r; lia).
  assert (2 ^ (64 - s) * 2 ^ s = 2 ^ 64) as Ep by (rewrite <-Z.pow_add_r by lia; f_equal; lia). unfold is_u64 in Hy0, Hy1.
  rewrite (Z.div_small y1), val_3 in EY by nia. rewrite Z.mul_0_r, Z.add_0_r, <-val_2 in EY.
  set (xlo := u64 (Z.shiftl x0 s)) in *. set (xhi := Z.lor (u64 (Z.shiftl x1 s)) _) in *. set (xex := x1 / _) in *.
  set (yn := [u64 (Z.shiftl y0 s); _]) in *. assert (is_words 2 yn) as Hyw by (by apply is_words_2).
  assert (2 ^ 127 <= val yn) as Hy127 by (rewrite EY, val_2; nia). assert (0 < val [y0; y1]) as Hy' by (rewrite val_2; nia).
  assert (val [xhi; xex] < val yn) as Hlt by (rewrite val_2; unfold is_u64 in H; lia).
  pose proof (udivrem_3by2_spec xlo xhi xex yn L H ltac:(unfold is_u64; lia) Hyw Hy127 Hlt) as HD.
  destruct (udivrem_3by2 _ _ _ _ _) as [q r]. destruct HD as (Eq & Hq & Hr & Er). rewrite E, EY in Eq, Er.
  pose proof (Z.mul_pos_pos _ _ Hy' Hp) as Hyp.
  pose proof (Z.div_mod (val [x0; x1] * 2 ^ s) (val [y0; y1] * 2 ^ s) ltac:(lia)) as D. pose proof (Z.mod_pos_bound (val [x0; x1] * 2 ^ s) (val [y0; y1] * 2 ^ s) Hyp) as R.
  rewrite <-Eq, <-Er in D. rewrite <-Er in R. destruct (shifted_division (val [x0; x1]) (val [y0; y1]) q (val r) (2 ^ s) Hp Hy' ltac:(lia) R) as [F1 F2].
  destruct (shr128_spec r s Hr ltac:(lia)) as [G1 G2]. destruct (uint_of_spec 1 q Hq) as [O1 O2]. unfold divides128. cbn [fst snd].
  split_and!; [done|done|by rewrite O2|by rewrite G2].
Qed.
End Division128.
Lemma clz_bound w : 0 < w < 2 ^ 64 → 0 <= clz w < 64 ∧ 2 ^ 63 <= w * 2 ^ clz w < 2 ^ 64.
Proof.
  intros Hw. destruct (clz_spec w Hw) as (S1 & S2 & S3). split_and!; try lia.
  assert (2 ^ (64 - clz w) * 2 ^ clz w = 2 ^ 64) as Ep by (rewrite <-Z.pow_add_r by lia; f_equal; lia).
  pose proof (Z.pow_pos_nonneg 2 (clz w) ltac:(lia) ltac:(lia)). nia.
Qed.
Theorem udivrem128_spec x y : is_words 2 x → is_words 2 y → val y ≠ 0 → divides128 x y (udivrem128 x y).
Proof.
  intros (x0 & x1 & -> & Hx0 & Hx1)%is_words_2_inv (y0 & y1 & -> & Hy0 & Hy1)%is_words_2_inv Hz. rewrite val_2 in Hz. unfold udivrem128.
  change (word [x0; x1] 0) with x0. change (word [x0; x1] 1) with x1. change (word [y0; y1] 0) with y0. change (word [y0; y1] 1) with y1.
  pose proof Hy0 as Ry0. pose proof Hy1 as Ry1. pose proof Hx0 as Rx0. pose proof Hx1 as Rx1. unfold is_u64 in Ry0, Ry1, Rx0, Rx1.
  destruct (Z.eqb_spec y1 0) as [->|Hy10].
  { destruct (clz_bound y0 ltac:(lia)) as [S1 S2]. cbv zeta. rewrite !masked_shift by done.
    pose proof (short_divisor x0 x1 y0 Hx0 Hx1 Hy0 (clz y0) S1 S2) as H. cbv zeta in H.
    destruct (udivrem_2by1 _ _ _) as [q1 r1]. destruct (udivrem_2by1 _ _ _) as [q2 r2]. exact H. }
  destruct (Z.ltb_spec x1 y1) as [Hlt|Hge].
  { destruct (uint_of_spec 1 0 ltac:(done)) as [O1 O2]. unfold divides128. cbn [fst snd]. rewrite O2, !val_2, Z.div_small, Z.mod_small by lia.
    split_and!; [done|by apply is_words_2|done|done]. }
  destruct (clz_bound y1 ltac:(lia)) as [S1 S2]. cbv zeta. destruct (Z.eqb_spec (clz y1) 0) as [Es|Es].
  { rewrite Es in S2. apply long_divisor; [done..|lia|done]. }
  rewrite !Z.shiftr_div_pow2 by lia. pose proof (two_word_divisor x0 x1 y0 y1 Hx0 Hx1 Hy0 Hy1 (clz y1) ltac:(lia) S2) as H. cbv zeta in H.
  destruct (udivrem_3by2 _ _ _ _ _) as [q r]. exact H.
Qed.

(** ** Text *)
(** The digits of a number, the least significant first. *)
Fixpoint digits (fuel : nat) (b v : Z) : list Z :=
  match fuel with
  | O => []
  | S fuel => if v =? 0 then [] else v mod b :: digits fuel b (v / b)
  end.
Definition digit_char (d : Z) : ascii := char_of (if d <? 10 then 48 + d else 97 + d - 10).
Definition horner (b : Z) (acc : Z) (ds : list Z) : Z := foldl (λ a d, a * b + d) acc ds.
Lemma to_string_loop_spec n fuel x b s : is_words (S n) x → 2 <= b <= 36 →
  to_string_loop fuel x b s = s ++ (digit_char <$> digits fuel b (val x)).
Proof.
  intros Hx Hb. revert x s Hx. induction fuel as [|fuel IH]; intros x s Hx; cbn [to_string_loop digits]; [by rewrite app_nil_r|].
  rewrite (proj1 Hx). destruct (uint_of_spec n 0 ltac:(done)) as [O1 O2]. destruct (uint_of_spec n b ltac:(unfold is_u64; lia)) as [B1 B2].
  rewrite (uint_eq_spec (S n)), O2 by done. destruct (val x =? 0); [by rewrite app_nil_r|].
  pose proof (uint_udivrem_spec n n x _ Hx B1 ltac:(lia)) as H. destruct (udivrem _ _) as [q r]. destruct H as (Hq & Hr & Eq & Er). rewrite B2 in Eq, Er.
  rewrite IH, Eq by done. rewrite <-app_assoc. cbn [fmap list_fmap app]. unfold digit_char at 2. do 3 f_equal.
  destruct (is_words_S _ _ Hr) as (w & r' & -> & Hw & Hr'). change (word (w :: r') 0) with w. rewrite val_cons in Er.
  pose proof (Z.mod_pos_bound (val x) b ltac:(lia)). pose proof (is_words_range _ _ Hr'). unfold is_u64 in Hw.
  by replace w with (val x mod b) by lia.
Qed.
Lemma horner_snoc b acc ds d : horner b acc (ds ++ [d]) = horner b acc ds * b + d.
Proof. unfold horner. by rewrite foldl_app. Qed.
Lemma horner_digits fuel b v : 2 <= b → 0 <= v < 2 ^ Z.of_nat fuel → horner b 0 (reverse (digits fuel b v)) = v.
Proof.
  intros Hb. revert v. induction fuel as [|fuel IH]; intros v Hv; cbn [digits]; [cbn; cbn in Hv; lia|].
  destruct (Z.eqb_spec v 0) as [->|H]; [done|]. rewrite reverse_cons, horner_snoc, IH.
  - pose proof (Z.div_mod v b ltac:(lia)). lia.
  - rewrite Nat2Z.inj_succ, Z.pow_succ_r in Hv by lia. split; [apply Z.div_pos; lia|]. apply Z.div_lt_upper_bound; nia.
Qed.
Lemma digits_range fuel b v : 0 < b → Forall (λ d, 0 <= d < b) (digits fuel b v).
Proof.
  intros Hb. revert v. induction fuel as [|fuel IH]; intros v; cbn [digits]; [constructor|].
  destruct (v =? 0); constructor; [by apply Z.mod_pos_bound|done].
Qed.
Lemma digits_length fuel b v k : 2 <= b → 0 <= v < b ^ Z.of_nat k → (length (digits fuel b v) <= k)%nat.
Proof.
  intros Hb. revert v k. induction fuel as [|fuel IH]; intros v k Hv; cbn [digits]; [cbn; lia|].
  destruct (Z.eqb_spec v 0) as [->|H]; [cbn; lia|]. destruct k as [|k]; [cbn in Hv; lia|]. cbn [length].
  rewrite Nat2Z.inj_succ, Z.pow_succ_r in Hv by lia. apply le_n_S, IH. split; [apply Z.div_pos; lia|]. apply Z.div_lt_upper_bound; lia.
Qed.
Lemma horner_mono b acc ds : 2 <= b → 0 <= acc → Forall (λ d, 0 <= d < b) ds → acc <= horner b acc ds.
Proof.
  intros Hb. revert acc. induction ds as [|d ds IH]; intros acc Ha Hds; cbn; [lia|]. apply Forall_cons in Hds as [Hd Hds].
  specialize (IH (acc * b + d) ltac:(nia) Hds). unfold horner in IH. nia.
Qed.
Lemma small_cases (P : Z → Prop) k d : 0 <= d < Z.of_nat k → Forall P (seqZ 0 (Z.of_nat k)) → P d.
Proof. intros Hd HP. rewrite Forall_forall in HP. apply HP. apply elem_of_seqZ. lia. Qed.
Lemma from_dec_digit_char d : 0 <= d < 10 → from_dec_digit (digit_char d) = Ret d.
Proof. intros Hd. revert d Hd. intros d Hd. apply (small_cases (λ d, from_dec_digit (digit_char d) = Ret d) 10 d Hd). repeat constructor. Qed.
Lemma from_hex_digit_char d : 0 <= d < 16 → from_hex_digit (digit_char d) = Ret d.
Proof. intros Hd. apply (small_cases (λ d, from_hex_digit (digit_char d) = Ret d) 16 d Hd). repeat constructor. Qed.
Lemma from_dec_loop_spec str k x ds : is_words 4 x → Forall (λ d, 0 <= d < 10) ds → k + Z.of_nat (length ds) <= digits10 + 1 →
  horner 10 (val x) ds < 2 ^ 256 → ∃ y, from_dec_loop str k x (digit_char <$> ds) = Ret y ∧ is_words 4 y ∧ val y = horner 10 (val x) ds.
Proof.
  intros Hx Hds. revert k x Hx. induction Hds as [|d ds Hd Hds IH]; intros k x Hx Hk Hh; cbn [fmap list_fmap from_dec_loop]; [by exists x|].
  cbn [length] in Hk. destruct (Z.ltb_spec digits10 k); [lia|]. rewrite from_dec_digit_char by done. cbn [mbind outcome_bind].
  destruct (uint_of_spec 3 10 ltac:(done)) as [T1 T2]. destruct (uint_of_spec 3 d ltac:(unfold is_u64; lia)) as [D1 D2].
  destruct (uint_mul_spec 4 _ _ Hx T1) as [M1 M2]. destruct (uint_add_spec 4 _ _ M1 D1) as [A1 A2]. rewrite M2, T2, D2 in A2.
  pose proof (is_words_range _ _ Hx) as Rx. change (64 * Z.of_nat 4) with 256 in *. cbn [horner foldl] in Hh.
  pose proof (horner_mono 10 (val x * 10 + d) ds ltac:(lia) ltac:(lia) Hds) as Hm. unfold horner in Hm. rewrite Z.mod_small in A2.
  2: { rewrite Z.mod_small by lia. lia. }
  rewrite Z.mod_small in A2 by lia. rewrite lt256_spec, A2, D2 by done. destruct (Z.ltb_spec (val x * 10 + d) d); [lia|].
  destruct (IH (k + 1) _ A1 ltac:(lia)) as (y & E & Hy & Ey); [by rewrite A2|]. exists y. split; [done|]. split; [done|]. by rewrite Ey, A2.
Qed.
Lemma from_hex_loop_spec str k x ds : is_words 4 x → Forall (λ d, 0 <= d < 16) ds → k + Z.of_nat (length ds) <= 64 →
  horner 16 (val x) ds < 2 ^ 256 → ∃ y, from_hex_loop str k x (digit_char <$> ds) = Ret y ∧ is_words 4 y ∧ val y = horner 16 (val x) ds.
Proof.
  intros Hx Hds. revert k x Hx. induction Hds as [|d ds Hd Hds IH]; intros k x Hx Hk Hh; cbn [fmap list_fmap from_hex_loop]; [by exists x|].
  cbn [length] in Hk. cbv zeta. destruct (Z.ltb_spec 64 (k + 1)); [lia|]. rewrite from_hex_digit_char by done. cbn [mbind outcome_bind].
  destruct (uint_of_spec 3 d ltac:(unfold is_u64; lia)) as [D1 D2]. destruct (shl256_spec x 4 Hx ltac:(lia)) as [S1 S2].
  destruct (uint_or_spec 4 _ _ S1 D1) as [A1 A2]. pose proof (is_words_range _ _ Hx) as Rx. change (64 * Z.of_nat 4) with 256 in *. cbn [horner foldl] in Hh.
  pose proof (horner_mono 16 (val x * 16 + d) ds ltac:(lia) ltac:(lia) Hds) as Hm. unfold horner in Hm. change (2 ^ 4) with 16 in S2.
  rewrite Z.mod_small in S2 by lia. rewrite S2, D2, (lor_disjoint _ _ 4) in A2; [|lia|change (2 ^ 4) with 16; by rewrite Z.mod_mul|by change (2 ^ 4) with 16].
  destruct (IH (k + 1) _ A1 ltac:(lia)) as (y & E & Hy & Ey); [by rewrite A2|]. exists y. split; [done|]. split; [done|]. by rewrite Ey, A2.
Qed.
Lemma c_str_digits ds : Forall (λ d, 0 <= d < 16) ds →
  c_str (string_of_list_ascii (digit_char <$> ds)) = string_of_list_ascii (digit_char <$> ds).
Proof.
  induction 1 as [|d ds Hd _ IH]; [done|]. cbn [fmap list_fmap string_of_list_ascii c_str].
  rewrite (small_cases (λ d, Ascii.eqb (digit_char d) "000"%char = false) 16 d Hd) by repeat constructor. by rewrite <-IH at 2.
Qed.
Lemma from_string_digits ds : Forall (λ d, 0 <= d < 10) ds → let str := string_of_list_ascii (digit_char <$> ds) in
  from_string str = from_dec_loop str 0 (uint_of 4 0) (digit_char <$> ds).
Proof.
  intros Hds. cbv zeta. unfold from_string. rewrite c_str_digits by (eapply Forall_impl; [exact Hds|]; cbn; lia).
  cbv zeta. rewrite list_ascii_of_string_of_list_ascii. generalize (string_of_list_ascii (digit_char <$> ds)) as str. intros str.
  destruct ds as [|d1 ds]; [done|]. destruct ds as [|d2 ds].
  { cbn [fmap list_fmap]. destruct (digit_char d1) as [[] [] [] [] [] [] [] []]; done. }
  apply Forall_cons in Hds as [_ [H2 _]%Forall_cons]. cbn [fmap list_fmap].
  assert (digit_char d2 ≠ "x"%char) as Hx.
  { apply (small_cases (λ d, digit_char d ≠ "x"%char) 10 d2 H2). repeat constructor; done. }
  destruct (digit_char d1) as [[] [] [] [] [] [] [] []]; try done. destruct (digit_char d2) as [[] [] [] [] [] [] [] []]; done.
Qed.
(** C21: [from_string] reads back what [to_string] writes of any 256-bit number,
    in base 10, and in base 16 after "0x". *)
Theorem from_string_to_string x : is_words 4 x →
  (∃ s, to_string x 10 = Ret s ∧ from_string s = Ret x) ∧ (∃ s, to_string x 16 = Ret s ∧ from_string ("0x"%string +:+ s) = Ret x).
Proof.
  intros Hx. pose proof (is_words_range _ _ Hx) as Rx. change (64 * Z.of_nat 4) with 256 in Rx. destruct (uint_of_spec 3 0 ltac:(done)) as [O1 O2].
  assert (∀ b, 2 <= b <= 36 → to_string x b = Ret "0"%string ∧ val x = 0 ∨
    to_string x b = Ret (string_of_list_ascii (digit_char <$> reverse (digits 256 b (val x)))) ∧ val x ≠ 0) as Hto.
  { intros b Hb. unfold to_string. destruct (Z.ltb_spec b 2); [lia|]. destruct (Z.ltb_spec 36 b); [lia|]. cbn [orb]. rewrite (proj1 Hx).
    rewrite (uint_eq_spec 4), O2 by done. destruct (Z.eqb_spec (val x) 0); [by left|]. right.
    rewrite (to_string_loop_spec 3) by done. cbn [app]. by rewrite fmap_reverse. }
  assert (∀ y, is_words 4 y → val y = val x → Ret y = Ret x) as Heq by (intros y Hy E; f_equal; by apply (val_inj 4)).
  split.
  - destruct (Hto 10 ltac:(lia)) as [[-> E]|[-> Hnz]]; eexists; (split; [done|]).
    { rewrite <-(Heq (uint_of 4 0)); [done|done|by rewrite O2]. }
    set (ds := reverse (digits 256 10 (val x))). assert (Forall (λ d, 0 <= d < 10) ds) as Hds by (apply Forall_reverse, digits_range; lia).
    rewrite (from_string_digits ds Hds). assert (horner 10 0 ds = val x) as Eh by (apply horner_digits; lia).
    destruct (from_dec_loop_spec (string_of_list_ascii (digit_char <$> ds)) 0 _ ds O1 Hds) as (y & -> & Hy & Ey).
    + pose proof (digits_length 256 10 (val x) 78 ltac:(lia) ltac:(lia)). subst ds. rewrite length_reverse. change digits10 with 77. lia.
    + rewrite O2, Eh. lia.
    + apply Heq; [done|]. by rewrite Ey, O2.
  - destruct (Hto 16 ltac:(lia)) as [[-> E]|[-> Hnz]]; eexists; (split; [done|]).
    { rewrite <-(Heq (uint_of 4 0)); [done|done|by rewrite O2]. }
    set (ds := reverse (digits 256 16 (val x))). assert (Forall (λ d, 0 <= d < 16) ds) as Hds by (apply Forall_reverse, digits_range; lia).
    assert (horner 16 0 ds = val x) as Eh by (apply horner_digits; lia). unfold from_string. set (t := string_of_list_ascii _).
    change (c_str ("0x"%string +:+ t)) with ("0x"%string +:+ c_str t). unfold t at 1. rewrite c_str_digits by done. cbv zeta. fold t.
    change (list_ascii_of_string ("0x"%string +:+ t)) with ("0"%char :: "x"%char :: list_ascii_of_string t). cbn iota.
    subst t. rewrite list_ascii_of_string_of_list_ascii. set (str := "0x"%string +:+ _).
    destruct (from_hex_loop_spec str 0 _ ds O1 Hds) as (y & -> & Hy & Ey).
    + pose proof (digits_length 256 16 (val x) 64 ltac:(lia) ltac:(change (16 ^ Z.of_nat 64) with (2 ^ 256); lia)). subst ds. rewrite length_reverse. lia.
    + rewrite O2, Eh. lia.
    + apply Heq; [done|]. by rewrite Ey, O2.
Qed.
Lemma from_string_to_string_witness : let x := [7; 0; 0; 2 ^ 63] in
  is_words 4 x ∧ ∃ s, to_string x 10 = Ret s ∧ from_string s = Ret x.
Proof.
  cbv zeta. assert (is_words 4 [7; 0; 0; 2 ^ 63]) as Hx by (by split; [|repeat constructor]). split; [done|].
  apply (from_string_to_string _ Hx).
Defined.
(** A decimal number of 78 digits that does not fit is not refused: its value
    modulo 2^256 is returned. *)
Example from_string_wraps :
  let s := string_of_list_ascii (replicate 78 "9"%char) in
  fmap val (from_string s) = Ret ((10 ^ 78 - 1) mod 2 ^ 256) ∧ 2 ^ 256 <= 10 ^ 78 - 1.
Proof. vm_compute. split; [reflexivity|discriminate]. Qed.
