(* ===== verification/IntxBytes.v ===== *)
(** * intx: byte order

    pkgs/intx-0.10.0/include/intx/intx.hpp: [bswap], and the loads and stores
    of the namespace [be], on a machine that keeps words with the least
    significant byte first.  They are [be_store] and [be_load] of the number. *)
From Stdlib Require Import ZArith Strings.Byte Lia.
From stdpp Require Import base tactics numbers list.
From S2P Require Import Prelude Intx.

Local Open Scope Z_scope.

(** The portable [bswap]; the compilers' is the same. *)
Definition bswap64 (x : Z) : Z :=
  let a := Z.lor (Z.land (u64 (Z.shiftl x 8)) 0xFF00FF00FF00FF00) (Z.land (Z.shiftr x 8) 0x00FF00FF00FF00FF) in
  let b := Z.lor (Z.land (u64 (Z.shiftl a 16)) 0xFFFF0000FFFF0000) (Z.land (Z.shiftr a 16) 0x0000FFFF0000FFFF) in
  Z.lor (u64 (Z.shiftl b 32)) (Z.shiftr b 32).
Definition bswap (x : words) : words := bswap64 <$> reverse x.
(** [to_big_endian]. *)
Definition to_big_endian64 : Z → Z := bswap64.
Definition to_big_endian : words → words := bswap.

(** [memcpy] between machine words and memory. *)
Fixpoint word_bytes (n : nat) (w : Z) : bytes :=
  match n with O => [] | S n => byte_of_Z w :: word_bytes n (Z.shiftr w 8) end.
Definition as_bytes (x : words) : bytes := x ≫= word_bytes 8.
Fixpoint bytes_word (b : bytes) : Z :=
  match b with [] => 0 | x :: b => byte_to_Z x + 256 * bytes_word b end.
Fixpoint of_bytes (n : nat) (b : bytes) : words :=
  match n with O => [] | S n => bytes_word (take 8 b) :: of_bytes n (drop 8 b) end.

(** [be::unsafe::load<uint256>], [be::load] of fewer bytes, [be::unsafe::store]
    of [uint256], [be::trunc]. *)
Definition load256 (src : bytes) : words := to_big_endian (of_bytes 4 (take 32 src)).
Definition load_bytes (src : bytes) : words :=
  to_big_endian (of_bytes 4 (replicate (32 - length src) x00 ++ src)).
Definition store256 (x : words) : bytes :=
  let v0 := to_big_endian64 (word x 0) in
  let v1 := to_big_endian64 (word x 1) in
  let v2 := to_big_endian64 (word x 2) in
  let v3 := to_big_endian64 (word x 3) in
  word_bytes 8 v3 ++ word_bytes 8 v2 ++ word_bytes 8 v1 ++ word_bytes 8 v0.
Definition trunc (m : nat) (x : words) : bytes :=
  let d := to_big_endian x in
  drop (8 * length x - m) (as_bytes d).

(** ** Bytes of a word *)
(** The bits of a word, through the operations of [bswap64]. *)
Definition bits := Z → bool.
Definition shl_bits (s : Z) (p : bits) : bits := λ k, (0 <=? k) && (k <? 64) && p (k - s).
Definition shr_bits (s : Z) (p : bits) : bits := λ k, (0 <=? k) && p (k + s).
Definition mask_bits (m : Z) (p : bits) : bits := λ k, p k && Z.testbit m k.
Definition or_bits (p q : bits) : bits := λ k, p k || q k.
Definition bswap_bits (p : bits) : bits :=
  let a := or_bits (mask_bits 0xFF00FF00FF00FF00 (shl_bits 8 p)) (mask_bits 0x00FF00FF00FF00FF (shr_bits 8 p)) in
  let b := or_bits (mask_bits 0xFFFF0000FFFF0000 (shl_bits 16 a)) (mask_bits 0x0000FFFF0000FFFF (shr_bits 16 a)) in
  or_bits (shl_bits 32 b) (shr_bits 32 b).
Lemma shl_bits_spec x s k : 0 <= s → Z.testbit (u64 (Z.shiftl x s)) k = shl_bits s (Z.testbit x) k.
Proof.
  intros Hs. unfold shl_bits, u64, wrapu. destruct (Z.leb_spec 0 k); [|by apply Z.testbit_neg_r].
  destruct (Z.ltb_spec k 64); [|by apply Z.mod_pow2_bits_high]. by rewrite Z.mod_pow2_bits_low, Z.shiftl_spec.
Qed.
Lemma shr_bits_spec x s k : 0 <= s → Z.testbit (Z.shiftr x s) k = shr_bits s (Z.testbit x) k.
Proof. intros Hs. unfold shr_bits. destruct (Z.leb_spec 0 k); [by apply Z.shiftr_spec|by apply Z.testbit_neg_r]. Qed.
Lemma bswap_bits_ext p q k : (∀ i, p i = q i) → bswap_bits p k = bswap_bits q k.
Proof. intros H. unfold bswap_bits, or_bits, mask_bits, shl_bits, shr_bits. by rewrite !H. Qed.
Lemma bswap64_bits x k : Z.testbit (bswap64 x) k = bswap_bits (Z.testbit x) k.
Proof.
  unfold bswap64, bswap_bits, or_bits, mask_bits. cbv zeta.
  rewrite !Z.lor_spec, shl_bits_spec, shr_bits_spec by done. unfold shl_bits at 1, shr_bits at 1.
  rewrite !Z.lor_spec, !Z.land_spec, !shl_bits_spec, !shr_bits_spec by done. unfold shl_bits at 1 2 5 6, shr_bits at 1 2 5 6.
  rewrite !Z.lor_spec, !Z.land_spec, !shl_bits_spec, !shr_bits_spec by done. done.
Qed.
Lemma bswap_bits_spec p k : 0 <= k < 64 → bswap_bits p k = p (8 * (7 - k / 8) + k mod 8).
Proof.
  intros Hk. assert (Forall (λ k, bswap_bits p k = p (8 * (7 - k / 8) + k mod 8)) (seqZ 0 64)) as HF.
  { repeat constructor; vm_compute; by repeat match goal with |- context [p ?c] => destruct (p c) end. }
  rewrite Forall_forall in HF. apply HF. apply elem_of_seqZ. lia.
Qed.
Lemma bswap64_bit x k : 0 <= k < 64 → Z.testbit (bswap64 x) k = Z.testbit x (8 * (7 - k / 8) + k mod 8).
Proof. intros Hk. by rewrite bswap64_bits, bswap_bits_spec. Qed.
Lemma land_word64 a b : is_u64 a → is_u64 b → is_u64 (Z.land a b).
Proof. apply (f_u64 Z.land andb); [intros; apply Z.land_spec|intros; apply Z.land_nonneg; by left|done]. Qed.
Lemma bswap64_u64 x : is_u64 x → is_u64 (bswap64 x).
Proof.
  intros Hx. unfold bswap64. cbv zeta. set (a := Z.lor (Z.land (u64 (Z.shiftl x 8)) _) _).
  assert (is_u64 a) as Ha by (apply lor_word64; apply land_word64; try done; [apply u64_range|by apply shr_word; [lia|]]).
  set (b := Z.lor (Z.land (u64 (Z.shiftl a 16)) _) _).
  assert (is_u64 b) as Hb by (apply lor_word64; apply land_word64; try done; [apply u64_range|by apply shr_word; [lia|]]).
  apply lor_word64; [apply u64_range|by apply shr_word; [lia|]].
Qed.
Lemma u64_eq_bits x y : is_u64 x → is_u64 y → (∀ k, 0 <= k < 64 → Z.testbit x k = Z.testbit y k) → x = y.
Proof.
  intros Hx Hy H. rewrite <-(u64_small x), <-(u64_small y) by done. unfold u64, wrapu. apply Z.bits_inj'. intros k Hk.
  destruct (Z.lt_ge_cases k 64); [|by rewrite !Z.mod_pow2_bits_high by lia]. rewrite !Z.mod_pow2_bits_low by lia. by apply H.
Qed.
Lemma bswap_index k : 0 <= k < 64 → let j := 8 * (7 - k / 8) + k mod 8 in 0 <= j < 64 ∧ 8 * (7 - j / 8) + j mod 8 = k.
Proof.
  intros Hk. assert (Forall (λ k, (0 <= 8 * (7 - k / 8) + k mod 8 ∧ 8 * (7 - k / 8) + k mod 8 < 64) ∧
    8 * (7 - (8 * (7 - k / 8) + k mod 8) / 8) + (8 * (7 - k / 8) + k mod 8) mod 8 = k) (seqZ 0 64)) as HF.
  { apply (bool_decide_unpack _). by vm_compute. }
  rewrite Forall_forall in HF. apply HF. apply elem_of_seqZ. lia.
Qed.
Lemma bswap64_involutive x : is_u64 x → bswap64 (bswap64 x) = x.
Proof.
  intros Hx. apply u64_eq_bits; [by apply bswap64_u64, bswap64_u64|done|]. intros k Hk. destruct (bswap_index k Hk) as [Hj E].
  rewrite (bswap64_bit _ k Hk), (bswap64_bit _ _ Hj). by rewrite E.
Qed.
Lemma byte_of_Z_bits a b : (∀ k, 0 <= k < 8 → Z.testbit a k = Z.testbit b k) → byte_of_Z a = byte_of_Z b.
Proof.
  intros H. apply byte_to_Z_inj. rewrite !byte_to_of_Z. change 256 with (2 ^ 8). apply Z.bits_inj'. intros k Hk.
  destruct (Z.lt_ge_cases k 8); [|by rewrite !Z.mod_pow2_bits_high by lia]. rewrite !Z.mod_pow2_bits_low by lia. by apply H.
Qed.
Lemma bswap64_byte x k i m : 0 <= k < 8 → (m < 8)%nat → i = k + 8 * (7 - Z.of_nat m) →
  Z.testbit (bswap64 x) i = Z.testbit x (k + 8 * Z.of_nat m).
Proof.
  intros Hk Hm ->. rewrite bswap64_bit by lia. f_equal.
  rewrite (Z.mul_comm 8 (7 - Z.of_nat m)), Z.div_add, Z.mod_add, (Z.div_small k), (Z.mod_small k) by lia. lia.
Qed.
Lemma word_bytes_bswap x : word_bytes 8 (bswap64 x) = be_store 8 x.
Proof.
  cbn [word_bytes be_store]. repeat match goal with |- _ :: _ = _ :: _ => f_equal end; apply byte_of_Z_bits; intros k Hk.
  all: rewrite !Z.shiftr_spec by lia; apply bswap64_byte; lia.
Qed.

(** ** Stores *)
Lemma be_store_word n w v : is_u64 w → be_store (n + 8) (w + 2 ^ 64 * v) = be_store n v ++ be_store 8 w.
Proof.
  intros Hw. induction n as [|n IH].
  - change (be_store 0 v ++ be_store 8 w) with (be_store 8 w). apply be_load_inj; [by rewrite !length_be_store|]. rewrite !be_load_store. change (256 ^ Z.of_nat 8) with (2 ^ 64).
    by rewrite Z.mul_comm, Z.mod_add by lia.
  - cbn [Nat.add be_store app]. f_equal; [|exact IH]. f_equal. apply Z.bits_inj'. intros k Hk.
    rewrite !Z.shiftr_spec, testbit_cons by (done || lia). destruct (Z.ltb_spec (k + 8 * Z.of_nat (n + 8)) 64); [lia|]. f_equal. lia.
Qed.
Lemma as_bytes_bswap n x : is_words n x → as_bytes (bswap x) = be_store (8 * n) (val x).
Proof.
  revert x. induction n as [|n IH]; intros x; [by intros ->%is_words_0|]. intros (w & x' & -> & Hw & Hx)%is_words_S.
  replace (8 * S n)%nat with (8 * n + 8)%nat by lia. rewrite val_cons, be_store_word, <-(IH x' Hx) by done.
  unfold as_bytes, bswap. rewrite reverse_cons, fmap_app, bind_app. f_equal. cbn [fmap list_fmap mbind list_bind]. by rewrite app_nil_r, word_bytes_bswap.
Qed.
Theorem store256_spec x : is_words 4 x → store256 x = be_store 32 (val x).
Proof.
  intros Hx. change 32%nat with (8 * 4)%nat. rewrite <-(as_bytes_bswap 4 x Hx). apply is_words_4_inv in Hx as (a & b & c & d & -> & _).
  unfold store256, as_bytes, bswap, to_big_endian64, word. cbn [nth]. change (reverse [a; b; c; d]) with [d; c; b; a].
  cbn [fmap list_fmap mbind list_bind]. by rewrite app_nil_r.
Qed.
Lemma be_store_app n m z : be_store (n + m) z = be_store n (Z.shiftr z (8 * Z.of_nat m)) ++ be_store m z.
Proof.
  induction n as [|n IH]; [done|]. cbn [Nat.add be_store app]. f_equal; [|exact IH]. rewrite Z.shiftr_shiftr by lia. do 2 f_equal. lia.
Qed.
Lemma trunc_spec m x : is_words 4 x → (m <= 32)%nat → trunc m x = be_store m (val x).
Proof.
  intros Hx Hm. unfold trunc, to_big_endian. rewrite (as_bytes_bswap 4 x Hx), (proj1 Hx). change (8 * 4)%nat with 32%nat.
  replace 32%nat with (32 - m + m)%nat at 2 by lia. rewrite be_store_app. apply drop_app_length'. by rewrite length_be_store.
Qed.

(** ** Loads *)
Lemma bytes_word_range b : 0 <= bytes_word b < 256 ^ Z.of_nat (length b).
Proof.
  induction b as [|x b IH]; [done|]. cbn [bytes_word length]. rewrite Nat2Z.inj_succ, Z.pow_succ_r by lia.
  pose proof (byte_to_Z_range x). lia.
Qed.
Lemma word_bytes_word b : word_bytes (length b) (bytes_word b) = b.
Proof.
  induction b as [|x b IH]; [done|]. cbn [bytes_word length word_bytes]. pose proof (byte_to_Z_range x). f_equal.
  - rewrite <-(byte_of_to_Z x) at 2. rewrite <-(byte_of_Z_mod (_ + _)), <-(byte_of_Z_mod (byte_to_Z x)). f_equal.
    by rewrite Z.mul_comm, Z.mod_add by lia.
  - rewrite Z.shiftr_div_pow2 by lia. change (2 ^ 8) with 256. rewrite Z.mul_comm, Z.div_add, Z.div_small by lia. exact IH.
Qed.
Lemma bswap64_load b : length b = 8%nat → is_u64 (bswap64 (bytes_word b)) ∧ bswap64 (bytes_word b) = be_load b.
Proof.
  intros Hl. pose proof (bytes_word_range b) as R. rewrite Hl in R. change (256 ^ Z.of_nat 8) with (2 ^ 64) in R.
  pose proof (bswap64_u64 _ R) as Hu. split; [done|].
  assert (b = be_store 8 (bswap64 (bytes_word b))) as E by (by rewrite <-word_bytes_bswap, bswap64_involutive, <-Hl, word_bytes_word).
  rewrite E at 2. rewrite be_load_store. symmetry. by apply Z.mod_small.
Qed.
Lemma load_app a b : be_load (a ++ b) = be_load a * 256 ^ Z.of_nat (length b) + be_load b.
Proof. unfold be_load. by rewrite foldl_app, foldl_be_load. Qed.
Lemma load_spec n b : length b = (8 * n)%nat → is_words n (to_big_endian (of_bytes n b)) ∧ val (to_big_endian (of_bytes n b)) = be_load b.
Proof.
  unfold to_big_endian, bswap. revert b. induction n as [|n IH]; intros b Hb; [destruct b; [split; [apply is_words_nil|done]|done]|].
  cbn [of_bytes]. rewrite reverse_cons, fmap_app. cbn [fmap list_fmap].
  destruct (IH (drop 8 b)) as [H E]; [rewrite length_drop; lia|]. destruct (bswap64_load (take 8 b)) as [Hu Eu]; [rewrite length_take; lia|].
  split.
  - replace (S n) with (n + 1)%nat by lia. apply is_words_app; [done|]. apply is_words_cons. split; [done|apply is_words_nil].
  - rewrite val_app, E, (proj1 H), Eu. cbn [val]. rewrite <-(take_drop 8 b) at 3. rewrite load_app, length_drop, Hb.
    replace (256 ^ Z.of_nat (8 * S n - 8)) with (2 ^ (64 * Z.of_nat n)); [lia|]. change 256 with (2 ^ 8). rewrite <-Z.pow_mul_r by lia. f_equal. lia.
Qed.
(** Loads read the big-endian number, stores write it. *)
Theorem load256_spec b : (32 <= length b)%nat → is_words 4 (load256 b) ∧ val (load256 b) = be_load (take 32 b).
Proof. intros Hb. apply load_spec. rewrite length_take. lia. Qed.
Lemma be_load_zeros k b : be_load (replicate k x00 ++ b) = be_load b.
Proof. induction k as [|k IH]; [done|]. cbn [replicate app]. by rewrite be_load_cons, IH. Qed.
Theorem load_bytes_spec b : (length b <= 32)%nat → is_words 4 (load_bytes b) ∧ val (load_bytes b) = be_load b.
Proof.
  intros Hb. unfold load_bytes. rewrite <-(be_load_zeros (32 - length b) b). apply load_spec. rewrite length_app, length_replicate. lia.
Qed.
Theorem load_store256 x : is_words 4 x → load256 (store256 x) = x.
Proof.
  intros Hx. pose proof (store256_spec x Hx) as Es. destruct (load256_spec (store256 x)) as [H E]; [rewrite Es, length_be_store; lia|].
  apply (val_inj 4); [done..|]. rewrite E, take_ge, Es, be_load_store by (rewrite Es, length_be_store; lia). 
  apply Z.mod_small. change (256 ^ Z.of_nat 32) with (2 ^ 256). by apply (is_words_range 4).
Qed.
