(* ===== verification/EvmTraits.v ===== *)
(** * The tables of the EVM instructions

    pkgs/evmweak: instructions_opcodes.hpp (the opcodes), instructions_traits.hpp
    (the gas cost of each instruction in each revision, what it needs of the
    stack and what it does to its height) and baseline_instruction_table.cpp
    (the cost tables of the interpreter). *)
From Stdlib Require Import ZArith Strings.String Lia.
From stdpp Require Import base tactics strings numbers list.
From S2P Require Import Prelude.

Local Open Scope Z_scope.

(** ** [evmc_revision] *)
Definition EVMC_FRONTIER : Z := 0.
Definition EVMC_HOMESTEAD : Z := 1.
Definition EVMC_TANGERINE_WHISTLE : Z := 2.
Definition EVMC_SPURIOUS_DRAGON : Z := 3.
Definition EVMC_BYZANTIUM : Z := 4.
Definition EVMC_CONSTANTINOPLE : Z := 5.
Definition EVMC_PETERSBURG : Z := 6.
Definition EVMC_ISTANBUL : Z := 7.
Definition EVMC_BERLIN : Z := 8.
Definition EVMC_LONDON : Z := 9.
Definition EVMC_PARIS : Z := 10.
Definition EVMC_SHANGHAI : Z := 11.
Definition EVMC_CANCUN : Z := 12.
Definition EVMC_PRAGUE : Z := 13.
Definition EVMC_MAX_REVISION : Z := EVMC_PRAGUE.

(** ** [Opcode] *)
Definition OP_STOP : Z := 0x00.
Definition OP_ADD : Z := 0x01.
Definition OP_MUL : Z := 0x02.
Definition OP_SUB : Z := 0x03.
Definition OP_DIV : Z := 0x04.
Definition OP_SDIV : Z := 0x05.
Definition OP_MOD : Z := 0x06.
Definition OP_SMOD : Z := 0x07.
Definition OP_ADDMOD : Z := 0x08.
Definition OP_MULMOD : Z := 0x09.
Definition OP_EXP : Z := 0x0a.
Definition OP_SIGNEXTEND : Z := 0x0b.
Definition OP_LT : Z := 0x10.
Definition OP_GT : Z := 0x11.
Definition OP_SLT : Z := 0x12.
Definition OP_SGT : Z := 0x13.
Definition OP_EQ : Z := 0x14.
Definition OP_ISZERO : Z := 0x15.
Definition OP_AND : Z := 0x16.
Definition OP_OR : Z := 0x17.
Definition OP_XOR : Z := 0x18.
Definition OP_NOT : Z := 0x19.
Definition OP_BYTE : Z := 0x1a.
Definition OP_SHL : Z := 0x1b.
Definition OP_SHR : Z := 0x1c.
Definition OP_SAR : Z := 0x1d.
Definition OP_KECCAK256 : Z := 0x20.
Definition OP_ADDRESS : Z := 0x30.
Definition OP_BALANCE : Z := 0x31.
Definition OP_ORIGIN : Z := 0x32.
Definition OP_CALLER : Z := 0x33.
Definition OP_CALLVALUE : Z := 0x34.
Definition OP_CALLDATALOAD : Z := 0x35.
Definition OP_CALLDATASIZE : Z := 0x36.
Definition OP_CALLDATACOPY : Z := 0x37.
Definition OP_CODESIZE : Z := 0x38.
Definition OP_CODECOPY : Z := 0x39.
Definition OP_GASPRICE : Z := 0x3a.
Definition OP_EXTCODESIZE : Z := 0x3b.
Definition OP_EXTCODECOPY : Z := 0x3c.
Definition OP_RETURNDATASIZE : Z := 0x3d.
Definition OP_RETURNDATACOPY : Z := 0x3e.
Definition OP_EXTCODEHASH : Z := 0x3f.
Definition OP_BLOCKHASH : Z := 0x40.
Definition OP_COINBASE : Z := 0x41.
Definition OP_TIMESTAMP : Z := 0x42.
Definition OP_NUMBER : Z := 0x43.
Definition OP_PREVRANDAO : Z := 0x44.
Definition OP_GASLIMIT : Z := 0x45.
Definition OP_CHAINID : Z := 0x46.
Definition OP_SELFBALANCE : Z := 0x47.
Definition OP_BASEFEE : Z := 0x48.
Definition OP_POP : Z := 0x50.
Definition OP_MLOAD : Z := 0x51.
Definition OP_MSTORE : Z := 0x52.
Definition OP_MSTORE8 : Z := 0x53.
Definition OP_SLOAD : Z := 0x54.
Definition OP_SSTORE : Z := 0x55.
Definition OP_JUMP : Z := 0x56.
Definition OP_JUMPI : Z := 0x57.
Definition OP_PC : Z := 0x58.
Definition OP_MSIZE : Z := 0x59.
Definition OP_GAS : Z := 0x5a.
Definition OP_JUMPDEST : Z := 0x5b.
Definition OP_RJUMP : Z := 0x5c.
Definition OP_RJUMPI : Z := 0x5d.
Definition OP_RJUMPV : Z := 0x5e.
Definition OP_PUSH0 : Z := 0x5f.
Definition OP_PUSH1 : Z := 0x60.
Definition OP_PUSH2 : Z := 0x61.
Definition OP_PUSH3 : Z := 0x62.
Definition OP_PUSH4 : Z := 0x63.
Definition OP_PUSH5 : Z := 0x64.
Definition OP_PUSH6 : Z := 0x65.
Definition OP_PUSH7 : Z := 0x66.
Definition OP_PUSH8 : Z := 0x67.
Definition OP_PUSH9 : Z := 0x68.
Definition OP_PUSH10 : Z := 0x69.
Definition OP_PUSH11 : Z := 0x6a.
Definition OP_PUSH12 : Z := 0x6b.
Definition OP_PUSH13 : Z := 0x6c.
Definition OP_PUSH14 : Z := 0x6d.
Definition OP_PUSH15 : Z := 0x6e.
Definition OP_PUSH16 : Z := 0x6f.
Definition OP_PUSH17 : Z := 0x70.
Definition OP_PUSH18 : Z := 0x71.
Definition OP_PUSH19 : Z := 0x72.
Definition OP_PUSH20 : Z := 0x73.
Definition OP_PUSH21 : Z := 0x74.
Definition OP_PUSH22 : Z := 0x75.
Definition OP_PUSH23 : Z := 0x76.
Definition OP_PUSH24 : Z := 0x77.
Definition OP_PUSH25 : Z := 0x78.
Definition OP_PUSH26 : Z := 0x79.
Definition OP_PUSH27 : Z := 0x7a.
Definition OP_PUSH28 : Z := 0x7b.
Definition OP_PUSH29 : Z := 0x7c.
Definition OP_PUSH30 : Z := 0x7d.
Definition OP_PUSH31 : Z := 0x7e.
Definition OP_PUSH32 : Z := 0x7f.
Definition OP_DUP1 : Z := 0x80.
Definition OP_DUP2 : Z := 0x81.
Definition OP_DUP3 : Z := 0x82.
Definition OP_DUP4 : Z := 0x83.
Definition OP_DUP5 : Z := 0x84.
Definition OP_DUP6 : Z := 0x85.
Definition OP_DUP7 : Z := 0x86.
Definition OP_DUP8 : Z := 0x87.
Definition OP_DUP9 : Z := 0x88.
Definition OP_DUP10 : Z := 0x89.
Definition OP_DUP11 : Z := 0x8a.
Definition OP_DUP12 : Z := 0x8b.
Definition OP_DUP13 : Z := 0x8c.
Definition OP_DUP14 : Z := 0x8d.
Definition OP_DUP15 : Z := 0x8e.
Definition OP_DUP16 : Z := 0x8f.
Definition OP_SWAP1 : Z := 0x90.
Definition OP_SWAP2 : Z := 0x91.
Definition OP_SWAP3 : Z := 0x92.
Definition OP_SWAP4 : Z := 0x93.
Definition OP_SWAP5 : Z := 0x94.
Definition OP_SWAP6 : Z := 0x95.
Definition OP_SWAP7 : Z := 0x96.
Definition OP_SWAP8 : Z := 0x97.
Definition OP_SWAP9 : Z := 0x98.
Definition OP_SWAP10 : Z := 0x99.
Definition OP_SWAP11 : Z := 0x9a.
Definition OP_SWAP12 : Z := 0x9b.
Definition OP_SWAP13 : Z := 0x9c.
Definition OP_SWAP14 : Z := 0x9d.
Definition OP_SWAP15 : Z := 0x9e.
Definition OP_SWAP16 : Z := 0x9f.
Definition OP_LOG0 : Z := 0xa0.
Definition OP_LOG1 : Z := 0xa1.
Definition OP_LOG2 : Z := 0xa2.
Definition OP_LOG3 : Z := 0xa3.
Definition OP_LOG4 : Z := 0xa4.
Definition OP_CALLF : Z := 0xb0.
Definition OP_RETF : Z := 0xb1.
Definition OP_DUPN : Z := 0xb5.
Definition OP_SWAPN : Z := 0xb6.
Definition OP_CREATE : Z := 0xf0.
Definition OP_CALL : Z := 0xf1.
Definition OP_CALLCODE : Z := 0xf2.
Definition OP_RETURN : Z := 0xf3.
Definition OP_DELEGATECALL : Z := 0xf4.
Definition OP_CREATE2 : Z := 0xf5.
Definition OP_STATICCALL : Z := 0xfa.
Definition OP_REVERT : Z := 0xfd.
Definition OP_INVALID : Z := 0xfe.
Definition OP_SELFDESTRUCT : Z := 0xff.

(** ** Gas costs *)
Definition undefined : Z := -1.
Definition cold_sload_cost : Z := 2100.
Definition cold_account_access_cost : Z := 2600.
Definition warm_storage_read_cost : Z := 100.
Definition additional_cold_account_access_cost : Z := cold_account_access_cost - warm_storage_read_cost.

(** [table[op] = v] for each pair, in order. *)
Definition updates {A} (t : list A) (l : list (Z * A)) : list A := foldl (λ t '(op, v), <[Z.to_nat op := v]> t) t l.
(** [for (op = first; op <= last; ++op) table[op] = f(op)]. *)
Definition each_op {A} (first last : Z) (f : Z → A) : list (Z * A) := (λ op, (op, f op)) <$> seqZ first (last - first + 1).

(** The table of a revision, from that of an earlier one. *)
Definition gas_costs : list (list Z) :=
  let frontier := updates (replicate 256 undefined) (
    [
     (OP_STOP, 0); (OP_ADD, 3); (OP_MUL, 5); (OP_SUB, 3); (OP_DIV, 5); (OP_SDIV, 5); (OP_MOD, 5); (OP_SMOD, 5);
     (OP_ADDMOD, 8); (OP_MULMOD, 8); (OP_EXP, 10); (OP_SIGNEXTEND, 5); (OP_LT, 3); (OP_GT, 3); (OP_SLT, 3);
     (OP_SGT, 3); (OP_EQ, 3); (OP_ISZERO, 3); (OP_AND, 3); (OP_OR, 3); (OP_XOR, 3); (OP_NOT, 3); (OP_BYTE, 3);
     (OP_KECCAK256, 30); (OP_ADDRESS, 2); (OP_BALANCE, 20); (OP_ORIGIN, 2); (OP_CALLER, 2); (OP_CALLVALUE, 2);
     (OP_CALLDATALOAD, 3); (OP_CALLDATASIZE, 2); (OP_CALLDATACOPY, 3); (OP_CODESIZE, 2); (OP_CODECOPY, 3);
     (OP_GASPRICE, 2); (OP_EXTCODESIZE, 20); (OP_EXTCODECOPY, 20); (OP_BLOCKHASH, 20); (OP_COINBASE, 2);
     (OP_TIMESTAMP, 2); (OP_NUMBER, 2); (OP_PREVRANDAO, 2); (OP_GASLIMIT, 2); (OP_POP, 2); (OP_MLOAD, 3);
     (OP_MSTORE, 3); (OP_MSTORE8, 3); (OP_SLOAD, 50); (OP_SSTORE, 0); (OP_JUMP, 8); (OP_JUMPI, 10); (OP_PC, 2);
     (OP_MSIZE, 2); (OP_GAS, 2); (OP_JUMPDEST, 1)]
    ++ each_op OP_PUSH1 OP_PUSH32 (λ _, 3)
    ++ each_op OP_DUP1 OP_DUP16 (λ _, 3)
    ++ each_op OP_SWAP1 OP_SWAP16 (λ _, 3)
    ++ each_op OP_LOG0 OP_LOG4 (λ op, (op - OP_LOG0 + 1) * 375)
    ++ [(OP_CREATE, 32000); (OP_CALL, 40); (OP_CALLCODE, 40); (OP_RETURN, 0); (OP_INVALID, 0); (OP_SELFDESTRUCT, 0)]) in
  let homestead := updates frontier
    [
     (OP_DELEGATECALL, 40)] in
  let tangerine_whistle := updates homestead
    [
     (OP_BALANCE, 400); (OP_EXTCODESIZE, 700); (OP_EXTCODECOPY, 700); (OP_SLOAD, 200); (OP_CALL, 700);
     (OP_CALLCODE, 700); (OP_DELEGATECALL, 700); (OP_SELFDESTRUCT, 5000)] in
  let spurious_dragon := tangerine_whistle in
  let byzantium := updates spurious_dragon
    [
     (OP_RETURNDATASIZE, 2); (OP_RETURNDATACOPY, 3); (OP_STATICCALL, 700); (OP_REVERT, 0)] in
  let constantinople := updates byzantium
    [
     (OP_SHL, 3); (OP_SHR, 3); (OP_SAR, 3); (OP_EXTCODEHASH, 400); (OP_CREATE2, 32000)] in
  let petersburg := constantinople in
  let istanbul := updates petersburg
    [
     (OP_BALANCE, 700); (OP_CHAINID, 2); (OP_EXTCODEHASH, 700); (OP_SELFBALANCE, 5); (OP_SLOAD, 800)] in
  let berlin := updates istanbul
    [
     (OP_EXTCODESIZE, warm_storage_read_cost); (OP_EXTCODECOPY, warm_storage_read_cost);
     (OP_EXTCODEHASH, warm_storage_read_cost); (OP_BALANCE, warm_storage_read_cost);
     (OP_CALL, warm_storage_read_cost); (OP_CALLCODE, warm_storage_read_cost);
     (OP_DELEGATECALL, warm_storage_read_cost); (OP_STATICCALL, warm_storage_read_cost);
     (OP_SLOAD, warm_storage_read_cost)] in
  let london := updates berlin
    [
     (OP_BASEFEE, 2)] in
  let paris := london in
  let shanghai := updates paris
    [
     (OP_PUSH0, 2)] in
  let cancun := updates shanghai
    [
     (OP_DUPN, 3); (OP_SWAPN, 3); (OP_RJUMP, 2); (OP_RJUMPI, 4); (OP_RJUMPV, 4); (OP_CALLF, 5); (OP_RETF, 3)] in
  let prague := cancun in
  [frontier; homestead; tangerine_whistle; spurious_dragon; byzantium; constantinople; petersburg; istanbul; berlin; london; paris; shanghai; cancun; prague].

(** ** [Traits] *)
Record Traits := mkTraits {
  name : string;
  immediate_size : Z;
  is_terminating : bool;
  stack_height_required : Z;
  stack_height_change : Z;
  since : option Z
}.
Definition Traits_default : Traits := mkTraits "" 0 false 0 0 None.
Definition trait (n : string) (imm : Z) (term : bool) (req chg rev : Z) : Traits := mkTraits n imm term req chg (Some rev).

Definition traits : list Traits := updates (replicate 256 Traits_default) [
  (OP_STOP, trait "STOP" 0 true 0 0 EVMC_FRONTIER);
  (OP_ADD, trait "ADD" 0 false 2 (-1) EVMC_FRONTIER);
  (OP_MUL, trait "MUL" 0 false 2 (-1) EVMC_FRONTIER);
  (OP_SUB, trait "SUB" 0 false 2 (-1) EVMC_FRONTIER);
  (OP_DIV, trait "DIV" 0 false 2 (-1) EVMC_FRONTIER);
  (OP_SDIV, trait "SDIV" 0 false 2 (-1) EVMC_FRONTIER);
  (OP_MOD, trait "MOD" 0 false 2 (-1) EVMC_FRONTIER);
  (OP_SMOD, trait "SMOD" 0 false 2 (-1) EVMC_FRONTIER);
  (OP_ADDMOD, trait "ADDMOD" 0 false 3 (-2) EVMC_FRONTIER);
  (OP_MULMOD, trait "MULMOD" 0 false 3 (-2) EVMC_FRONTIER);
  (OP_EXP, trait "EXP" 0 false 2 (-1) EVMC_FRONTIER);
  (OP_SIGNEXTEND, trait "SIGNEXTEND" 0 false 2 (-1) EVMC_FRONTIER);
  (OP_LT, trait "LT" 0 false 2 (-1) EVMC_FRONTIER);
  (OP_GT, trait "GT" 0 false 2 (-1) EVMC_FRONTIER);
  (OP_SLT, trait "SLT" 0 false 2 (-1) EVMC_FRONTIER);
  (OP_SGT, trait "SGT" 0 false 2 (-1) EVMC_FRONTIER);
  (OP_EQ, trait "EQ" 0 false 2 (-1) EVMC_FRONTIER);
  (OP_ISZERO, trait "ISZERO" 0 false 1 0 EVMC_FRONTIER);
  (OP_AND, trait "AND" 0 false 2 (-1) EVMC_FRONTIER);
  (OP_OR, trait "OR" 0 false 2 (-1) EVMC_FRONTIER);
  (OP_XOR, trait "XOR" 0 false 2 (-1) EVMC_FRONTIER);
  (OP_NOT, trait "NOT" 0 false 1 0 EVMC_FRONTIER);
  (OP_BYTE, trait "BYTE" 0 false 2 (-1) EVMC_FRONTIER);
  (OP_SHL, trait "SHL" 0 false 2 (-1) EVMC_CONSTANTINOPLE);
  (OP_SHR, trait "SHR" 0 false 2 (-1) EVMC_CONSTANTINOPLE);
  (OP_SAR, trait "SAR" 0 false 2 (-1) EVMC_CONSTANTINOPLE);
  (OP_KECCAK256, trait "KECCAK256" 0 false 2 (-1) EVMC_FRONTIER);
  (OP_ADDRESS, trait "ADDRESS" 0 false 0 1 EVMC_FRONTIER);
  (OP_BALANCE, trait "BALANCE" 0 false 1 0 EVMC_FRONTIER);
  (OP_ORIGIN, trait "ORIGIN" 0 false 0 1 EVMC_FRONTIER);
  (OP_CALLER, trait "CALLER" 0 false 0 1 EVMC_FRONTIER);
  (OP_CALLVALUE, trait "CALLVALUE" 0 false 0 1 EVMC_FRONTIER);
  (OP_CALLDATALOAD, trait "CALLDATALOAD" 0 false 1 0 EVMC_FRONTIER);
  (OP_CALLDATASIZE, trait "CALLDATASIZE" 0 false 0 1 EVMC_FRONTIER);
  (OP_CALLDATACOPY, trait "CALLDATACOPY" 0 false 3 (-3) EVMC_FRONTIER);
  (OP_CODESIZE, trait "CODESIZE" 0 false 0 1 EVMC_FRONTIER);
  (OP_CODECOPY, trait "CODECOPY" 0 false 3 (-3) EVMC_FRONTIER);
  (OP_GASPRICE, trait "GASPRICE" 0 false 0 1 EVMC_FRONTIER);
  (OP_EXTCODESIZE, trait "EXTCODESIZE" 0 false 1 0 EVMC_FRONTIER);
  (OP_EXTCODECOPY, trait "EXTCODECOPY" 0 false 4 (-4) EVMC_FRONTIER);
  (OP_RETURNDATASIZE, trait "RETURNDATASIZE" 0 false 0 1 EVMC_BYZANTIUM);
  (OP_RETURNDATACOPY, trait "RETURNDATACOPY" 0 false 3 (-3) EVMC_BYZANTIUM);
  (OP_EXTCODEHASH, trait "EXTCODEHASH" 0 false 1 0 EVMC_CONSTANTINOPLE);
  (OP_BLOCKHASH, trait "BLOCKHASH" 0 false 1 0 EVMC_FRONTIER);
  (OP_COINBASE, trait "COINBASE" 0 false 0 1 EVMC_FRONTIER);
  (OP_TIMESTAMP, trait "TIMESTAMP" 0 false 0 1 EVMC_FRONTIER);
  (OP_NUMBER, trait "NUMBER" 0 false 0 1 EVMC_FRONTIER);
  (OP_PREVRANDAO, trait "PREVRANDAO" 0 false 0 1 EVMC_FRONTIER);
  (OP_GASLIMIT, trait "GASLIMIT" 0 false 0 1 EVMC_FRONTIER);
  (OP_CHAINID, trait "CHAINID" 0 false 0 1 EVMC_ISTANBUL);
  (OP_SELFBALANCE, trait "SELFBALANCE" 0 false 0 1 EVMC_ISTANBUL);
  (OP_BASEFEE, trait "BASEFEE" 0 false 0 1 EVMC_LONDON);
  (OP_POP, trait "POP" 0 false 1 (-1) EVMC_FRONTIER);
  (OP_MLOAD, trait "MLOAD" 0 false 1 0 EVMC_FRONTIER);
  (OP_MSTORE, trait "MSTORE" 0 false 2 (-2) EVMC_FRONTIER);
  (OP_MSTORE8, trait "MSTORE8" 0 false 2 (-2) EVMC_FRONTIER);
  (OP_SLOAD, trait "SLOAD" 0 false 1 0 EVMC_FRONTIER);
  (OP_SSTORE, trait "SSTORE" 0 false 2 (-2) EVMC_FRONTIER);
  (OP_JUMP, trait "JUMP" 0 false 1 (-1) EVMC_FRONTIER);
  (OP_JUMPI, trait "JUMPI" 0 false 2 (-2) EVMC_FRONTIER);
  (OP_PC, trait "PC" 0 false 0 1 EVMC_FRONTIER);
  (OP_MSIZE, trait "MSIZE" 0 false 0 1 EVMC_FRONTIER);
  (OP_GAS, trait "GAS" 0 false 0 1 EVMC_FRONTIER);
  (OP_JUMPDEST, trait "JUMPDEST" 0 false 0 0 EVMC_FRONTIER);
  (OP_RJUMP, trait "RJUMP" 2 false 0 0 EVMC_CANCUN);
  (OP_RJUMPI, trait "RJUMPI" 2 false 1 (-1) EVMC_CANCUN);
  (OP_RJUMPV, trait "RJUMPV" 0 false 1 (-1) EVMC_CANCUN);
  (OP_PUSH0, trait "PUSH0" 0 false 0 1 EVMC_SHANGHAI);
  (OP_PUSH1, trait "PUSH1" 1 false 0 1 EVMC_FRONTIER);
  (OP_PUSH2, trait "PUSH2" 2 false 0 1 EVMC_FRONTIER);
  (OP_PUSH3, trait "PUSH3" 3 false 0 1 EVMC_FRONTIER);
  (OP_PUSH4, trait "PUSH4" 4 false 0 1 EVMC_FRONTIER);
  (OP_PUSH5, trait "PUSH5" 5 false 0 1 EVMC_FRONTIER);
  (OP_PUSH6, trait "PUSH6" 6 false 0 1 EVMC_FRONTIER);
  (OP_PUSH7, trait "PUSH7" 7 false 0 1 EVMC_FRONTIER);
  (OP_PUSH8, trait "PUSH8" 8 false 0 1 EVMC_FRONTIER);
  (OP_PUSH9, trait "PUSH9" 9 false 0 1 EVMC_FRONTIER);
  (OP_PUSH10, trait "PUSH10" 10 false 0 1 EVMC_FRONTIER);
  (OP_PUSH11, trait "PUSH11" 11 false 0 1 EVMC_FRONTIER);
  (OP_PUSH12, trait "PUSH12" 12 false 0 1 EVMC_FRONTIER);
  (OP_PUSH13, trait "PUSH13" 13 false 0 1 EVMC_FRONTIER);
  (OP_PUSH14, trait "PUSH14" 14 false 0 1 EVMC_FRONTIER);
  (OP_PUSH15, trait "PUSH15" 15 false 0 1 EVMC_FRONTIER);
  (OP_PUSH16, trait "PUSH16" 16 false 0 1 EVMC_FRONTIER);
  (OP_PUSH17, trait "PUSH17" 17 false 0 1 EVMC_FRONTIER);
  (OP_PUSH18, trait "PUSH18" 18 false 0 1 EVMC_FRONTIER);
  (OP_PUSH19, trait "PUSH19" 19 false 0 1 EVMC_FRONTIER);
  (OP_PUSH20, trait "PUSH20" 20 false 0 1 EVMC_FRONTIER);
  (OP_PUSH21, trait "PUSH21" 21 false 0 1 EVMC_FRONTIER);
  (OP_PUSH22, trait "PUSH22" 22 false 0 1 EVMC_FRONTIER);
  (OP_PUSH23, trait "PUSH23" 23 false 0 1 EVMC_FRONTIER);
  (OP_PUSH24, trait "PUSH24" 24 false 0 1 EVMC_FRONTIER);
  (OP_PUSH25, trait "PUSH25" 25 false 0 1 EVMC_FRONTIER);
  (OP_PUSH26, trait "PUSH26" 26 false 0 1 EVMC_FRONTIER);
  (OP_PUSH27, trait "PUSH27" 27 false 0 1 EVMC_FRONTIER);
  (OP_PUSH28, trait "PUSH28" 28 false 0 1 EVMC_FRONTIER);
  (OP_PUSH29, trait "PUSH29" 29 false 0 1 EVMC_FRONTIER);
  (OP_PUSH30, trait "PUSH30" 30 false 0 1 EVMC_FRONTIER);
  (OP_PUSH31, trait "PUSH31" 31 false 0 1 EVMC_FRONTIER);
  (OP_PUSH32, trait "PUSH32" 32 false 0 1 EVMC_FRONTIER);
  (OP_DUP1, trait "DUP1" 0 false 1 1 EVMC_FRONTIER);
  (OP_DUP2, trait "DUP2" 0 false 2 1 EVMC_FRONTIER);
  (OP_DUP3, trait "DUP3" 0 false 3 1 EVMC_FRONTIER);
  (OP_DUP4, trait "DUP4" 0 false 4 1 EVMC_FRONTIER);
  (OP_DUP5, trait "DUP5" 0 false 5 1 EVMC_FRONTIER);
  (OP_DUP6, trait "DUP6" 0 false 6 1 EVMC_FRONTIER);
  (OP_DUP7, trait "DUP7" 0 false 7 1 EVMC_FRONTIER);
  (OP_DUP8, trait "DUP8" 0 false 8 1 EVMC_FRONTIER);
  (OP_DUP9, trait "DUP9" 0 false 9 1 EVMC_FRONTIER);
  (OP_DUP10, trait "DUP10" 0 false 10 1 EVMC_FRONTIER);
  (OP_DUP11, trait "DUP11" 0 false 11 1 EVMC_FRONTIER);
  (OP_DUP12, trait "DUP12" 0 false 12 1 EVMC_FRONTIER);
  (OP_DUP13, trait "DUP13" 0 false 13 1 EVMC_FRONTIER);
  (OP_DUP14, trait "DUP14" 0 false 14 1 EVMC_FRONTIER);
  (OP_DUP15, trait "DUP15" 0 false 15 1 EVMC_FRONTIER);
  (OP_DUP16, trait "DUP16" 0 false 16 1 EVMC_FRONTIER);
  (OP_SWAP1, trait "SWAP1" 0 false 2 0 EVMC_FRONTIER);
  (OP_SWAP2, trait "SWAP2" 0 false 3 0 EVMC_FRONTIER);
  (OP_SWAP3, trait "SWAP3" 0 false 4 0 EVMC_FRONTIER);
  (OP_SWAP4, trait "SWAP4" 0 false 5 0 EVMC_FRONTIER);
  (OP_SWAP5, trait "SWAP5" 0 false 6 0 EVMC_FRONTIER);
  (OP_SWAP6, trait "SWAP6" 0 false 7 0 EVMC_FRONTIER);
  (OP_SWAP7, trait "SWAP7" 0 false 8 0 EVMC_FRONTIER);
  (OP_SWAP8, trait "SWAP8" 0 false 9 0 EVMC_FRONTIER);
  (OP_SWAP9, trait "SWAP9" 0 false 10 0 EVMC_FRONTIER);
  (OP_SWAP10, trait "SWAP10" 0 false 11 0 EVMC_FRONTIER);
  (OP_SWAP11, trait "SWAP11" 0 false 12 0 EVMC_FRONTIER);
  (OP_SWAP12, trait "SWAP12" 0 false 13 0 EVMC_FRONTIER);
  (OP_SWAP13, trait "SWAP13" 0 false 14 0 EVMC_FRONTIER);
  (OP_SWAP14, trait "SWAP14" 0 false 15 0 EVMC_FRONTIER);
  (OP_SWAP15, trait "SWAP15" 0 false 16 0 EVMC_FRONTIER);
  (OP_SWAP16, trait "SWAP16" 0 false 17 0 EVMC_FRONTIER);
  (OP_LOG0, trait "LOG0" 0 false 2 (-2) EVMC_FRONTIER);
  (OP_LOG1, trait "LOG1" 0 false 3 (-3) EVMC_FRONTIER);
  (OP_LOG2, trait "LOG2" 0 false 4 (-4) EVMC_FRONTIER);
  (OP_LOG3, trait "LOG3" 0 false 5 (-5) EVMC_FRONTIER);
  (OP_LOG4, trait "LOG4" 0 false 6 (-6) EVMC_FRONTIER);
  (OP_DUPN, trait "DUPN" 1 false 0 1 EVMC_CANCUN);
  (OP_SWAPN, trait "SWAPN" 1 false 0 0 EVMC_CANCUN);
  (OP_CREATE, trait "CREATE" 0 false 3 (-2) EVMC_FRONTIER);
  (OP_CALL, trait "CALL" 0 false 7 (-6) EVMC_FRONTIER);
  (OP_CALLCODE, trait "CALLCODE" 0 false 7 (-6) EVMC_FRONTIER);
  (OP_RETURN, trait "RETURN" 0 true 2 (-2) EVMC_FRONTIER);
  (OP_DELEGATECALL, trait "DELEGATECALL" 0 false 6 (-5) EVMC_HOMESTEAD);
  (OP_CREATE2, trait "CREATE2" 0 false 4 (-3) EVMC_CONSTANTINOPLE);
  (OP_STATICCALL, trait "STATICCALL" 0 false 6 (-5) EVMC_BYZANTIUM);
  (OP_CALLF, trait "CALLF" 2 false 0 0 EVMC_CANCUN);
  (OP_RETF, trait "RETF" 0 true 0 0 EVMC_CANCUN);
  (OP_REVERT, trait "REVERT" 0 true 2 (-2) EVMC_BYZANTIUM);
  (OP_INVALID, trait "INVALID" 0 true 0 0 EVMC_FRONTIER);
  (OP_SELFDESTRUCT, trait "SELFDESTRUCT" 0 true 1 (-1) EVMC_FRONTIER)
].

(** ** Lookups *)
Definition gas_costs_at (rev op : Z) : Z := nth (Z.to_nat op) (nth (Z.to_nat rev) gas_costs []) undefined.
Definition traits_at (op : Z) : Traits := nth (Z.to_nat op) traits Traits_default.

Definition has_const_gas_cost (op : Z) : bool :=
  forallb (λ r, gas_costs_at r op =? gas_costs_at EVMC_FRONTIER op) (seqZ (EVMC_FRONTIER + 1) EVMC_MAX_REVISION).

(** ** The cost tables of the interpreter *)
Definition common_cost_tables : list (list Z) := gas_costs.
Definition set_undefined (rev : Z) (ops : list Z) (tables : list (list Z)) : list (list Z) :=
  alter (λ t, updates t ((λ op, (op, undefined)) <$> ops)) (Z.to_nat rev) tables.
Definition legacy_cost_tables : list (list Z) :=
  set_undefined EVMC_CANCUN [OP_RJUMP; OP_RJUMPI; OP_RJUMPV; OP_CALLF; OP_RETF] common_cost_tables.
Definition eof_cost_tables : list (list Z) :=
  set_undefined EVMC_CANCUN [OP_JUMP; OP_JUMPI; OP_PC; OP_CALLCODE; OP_SELFDESTRUCT] common_cost_tables.
Definition get_baseline_cost_table (rev eof_version : Z) : list Z :=
  nth (Z.to_nat rev) (if eof_version =? 0 then legacy_cost_tables else eof_cost_tables) [].
Definition cost_at (cost_table : list Z) (op : Z) : Z := nth (Z.to_nat op) cost_table undefined.
