(* ===== verification/EvmAnalysis.v ===== *)
(** * Analysis of EVM code before it runs

    pkgs/evmweak/baseline.cpp and eof.cpp: legacy code is padded and its jump
    destinations are found; code that starts with EF 00 is taken for an EOF
    container, whose header is read as it stands (nothing validates it here).
    A read outside the container has no defined result: [None]. *)
From Stdlib Require Import ZArith Strings.Byte Lia.
From stdpp Require Import base tactics option numbers list.
From S2P Require Import Prelude EvmTraits.

Local Open Scope Z_scope.

(** ** eof.cpp *)
Definition TERMINATOR : Z := 0.
Definition TYPE_SECTION : Z := 1.
Definition CODE_SECTION : Z := 2.
Definition DATA_SECTION : Z := 3.
Definition MAX_SECTION : Z := DATA_SECTION.

Record EOFCodeType := mkCodeType { inputs : Z; outputs : Z; max_stack_height : Z }.
Record EOF1Header := mkEOF1Header {
  version : Z;
  code_sizes : list Z;
  code_offsets : list Z;
  data_size : Z;
  types : list EOFCodeType
}.
Definition EOF1Header_default : EOF1Header := mkEOF1Header 0 [] [] 0 [].

Definition is_eof_container (container : bytes) : bool :=
  (1 <? Z.of_nat (length container))
  && match container with a :: b :: _ => bool_decide (a = xef) && bool_decide (b = x00) | _ => false end.

(** [container[i]]. *)
Definition at_byte (b : bytes) (i : Z) : option Z :=
  if 0 <=? i then byte_to_Z <$> b !! Z.to_nat i else None.
Definition read_uint16_be (b : bytes) (i : Z) : option Z :=
  h ← at_byte b i; l ← at_byte b (i + 1); Some (Z.lor (Z.shiftl h 8) l).
Definition read_int16_be (b : bytes) (i : Z) : option Z := wraps 16 <$> read_uint16_be b i.

(** [EOFSectionHeaders]: the sizes in each of the four kinds of sections. *)
Abbreviation EOFSectionHeaders := (list (list Z)).
Definition emplace_back (h : EOFSectionHeaders) (section_id v : Z) : EOFSectionHeaders :=
  alter (λ l, l ++ [v]) (Z.to_nat section_id) h.
Definition section (h : EOFSectionHeaders) (section_id : Z) : list Z := nth (Z.to_nat section_id) h [].

Definition eof_header_size (headers : EOFSectionHeaders) : Z :=
  let non_code_section_count := 2 in
  let code_section_count := Z.of_nat (length (section headers CODE_SECTION)) in
  let non_code_section_header_size := 3 in
  let code_section_size_size := 2 in
  2 + 1 + non_code_section_count * non_code_section_header_size + 1 + 2
  + code_section_count * code_section_size_size + 1.

Section eof.
Context (container : bytes).
(** [for (i = 0; i < code_section_num; ++i)]. *)
Fixpoint read_code_sizes (n : nat) (it : Z) (h : EOFSectionHeaders) : option (Z * EOFSectionHeaders) :=
  match n with
  | O => Some (it, h)
  | S n => size ← read_uint16_be container it; read_code_sizes n (it + 2) (emplace_back h CODE_SECTION size)
  end.
(** [while ( *it != TERMINATOR)]: each turn advances, so that as many turns as
    bytes are enough to reach the end, where reading is not defined. *)
Fixpoint read_sections (turns : nat) (it : Z) (h : EOFSectionHeaders) : option (Z * EOFSectionHeaders) :=
  match turns with
  | O => None
  | S turns =>
      section_id ← at_byte container it;
      if section_id =? TERMINATOR then Some (it, h)
      else if section_id =? CODE_SECTION then
        code_section_num ← read_uint16_be container (it + 1);
        '(it, h) ← read_code_sizes (Z.to_nat code_section_num) (it + 3) h;
        read_sections turns it h
      else
        section_size ← read_uint16_be container (it + 1);
        if MAX_SECTION <? section_id then None
        else read_sections turns (it + 3) (emplace_back h section_id section_size)
  end.
(** [for (type_offset = ..; type_offset < ..; type_offset += 4)]. *)
Fixpoint read_types (n : nat) (type_offset : Z) : option (list EOFCodeType) :=
  match n with
  | O => Some []
  | S n =>
      i ← at_byte container type_offset; o ← at_byte container (type_offset + 1);
      m ← read_uint16_be container (type_offset + 2);
      l ← read_types n (type_offset + 4); Some (mkCodeType i o m :: l)
  end.
(** The offsets of the sections; [assert(code_offset <= 65535)] before each is
    cut to 16 bits. *)
Definition max_offset : Z := 65535.
Fixpoint offsets_of (code_offset : Z) (sizes : list Z) : option (list Z) :=
  match sizes with
  | [] => Some []
  | size :: sizes =>
      if max_offset <? code_offset then None
      else l ← offsets_of (code_offset + size) sizes; Some (wrapu 16 code_offset :: l)
  end.
Definition read_valid_eof1_header : option EOF1Header :=
  '(_, section_headers) ← read_sections (S (length container)) 3 (replicate 4 []);
  let header_size := eof_header_size section_headers in
  ver ← at_byte container 2;
  type_size ← head (section section_headers TYPE_SECTION);
  tys ← read_types (Z.to_nat ((type_size + 3) / 4)) header_size;
  let sizes := section section_headers CODE_SECTION in
  offsets ← offsets_of (header_size + type_size) sizes;
  data ← head (section section_headers DATA_SECTION);
  Some (mkEOF1Header ver sizes offsets data tys).
End eof.

(** ** [CodeAnalysis]

    [executable_code] is the part of [code_mem] that starts at [code_base] and
    has [executable_size] bytes; nothing keeps the interpreter inside it. *)
Record CodeAnalysis := mkCodeAnalysis {
  code_mem : bytes;
  code_base : Z;
  executable_size : Z;
  jumpdest_map : list bool;
  eof_header : EOF1Header
}.

(** [skip]: bytes of push data that are still to be passed over. *)
Fixpoint analyze_jumpdests_from (skip : Z) (code : bytes) : list bool :=
  match code with
  | [] => []
  | b :: code =>
      let op := byte_to_Z b in
      if 0 <? skip then false :: analyze_jumpdests_from (skip - 1) code
      else if OP_PUSH1 <=? wraps 8 op then false :: analyze_jumpdests_from (op - (OP_PUSH1 - 1)) code
      else (op =? OP_JUMPDEST) :: analyze_jumpdests_from 0 code
  end.
Definition analyze_jumpdests (code : bytes) : list bool := analyze_jumpdests_from 0 code.
Definition pad_code (code : bytes) : bytes := code ++ replicate 33 (byte_of_Z OP_STOP).
Definition analyze_legacy (code : bytes) : CodeAnalysis :=
  mkCodeAnalysis (pad_code code) 0 (Z.of_nat (length code)) (analyze_jumpdests code) EOF1Header_default.
(** [substr] throws when the offset is beyond the end; a section without code has no offsets. *)
Definition analyze_eof1 (container : bytes) : option CodeAnalysis :=
  header ← read_valid_eof1_header container;
  code_sections_offset ← head (code_offsets header);
  last_offset ← last (code_offsets header); last_size ← last (code_sizes header);
  let code_sections_end := last_offset + last_size in
  if Z.of_nat (length container) <? code_sections_offset then None
  else
    let size := Z.min (u64 (code_sections_end - code_sections_offset)) (Z.of_nat (length container) - code_sections_offset) in
    Some (mkCodeAnalysis container code_sections_offset size [] header).
Definition analyze (rev : Z) (code : bytes) : option CodeAnalysis :=
  if (rev <? EVMC_CANCUN) || negb (is_eof_container code) then Some (analyze_legacy code) else analyze_eof1 code.
