(* ===== verification/EvmEof.v ===== *)
(** * Validation of EOF containers

    pkgs/evmweak/eof.cpp, [validate_eof]: the headers of the sections, the types
    of the functions, and for every code section the instructions, the targets
    of relative jumps and the heights of the stack.  A check ends with a value
    or with the error that the program reports; a read or a write outside the
    container or the tables, or the failed assertion that an offset has 16 bits,
    is [Undefined].  The other assertions repeat what was checked before. *)
From Stdlib Require Import ZArith Strings.Byte Strings.String Lia.
From stdpp Require Import base tactics option numbers list.
From S2P Require Import Prelude EvmTraits EvmAnalysis.

Local Open Scope Z_scope.

Inductive EOFValidationError :=
  | success
  | starts_with_format
  | invalid_prefix
  | eof_version_mismatch
  | eof_version_unknown
  | incomplete_section_size
  | incomplete_section_number
  | header_terminator_missing
  | type_section_missing
  | code_section_missing
  | data_section_missing
  | zero_section_size
  | section_headers_not_terminated
  | invalid_section_bodies_size
  | undefined_instruction
  | truncated_instruction
  | invalid_rjumpv_count
  | invalid_rjump_destination
  | too_many_code_sections
  | invalid_type_section_size
  | invalid_first_section_type
  | invalid_max_stack_height
  | no_terminating_instruction
  | stack_height_mismatch
  | non_empty_stack_on_terminating_instruction
  | max_stack_height_above_limit
  | inputs_outputs_num_above_limit
  | unreachable_instructions
  | stack_underflow
  | invalid_code_section_index
  | impossible.

Inductive Verdict (A : Type) := Valid (a : A) | Invalid (e : EOFValidationError) | Undefined (why : string).
Arguments Valid {A} a.
Arguments Invalid {A} e.
Arguments Undefined {A} why.
#[global] Instance Verdict_ret : MRet Verdict := λ A a, Valid a.
#[global] Instance Verdict_bind : MBind Verdict := λ A B k v,
  match v with Valid a => k a | Invalid e => Invalid e | Undefined why => Undefined why end.
Definition defined {A} (why : string) (o : option A) : Verdict A :=
  match o with Some a => Valid a | None => Undefined why end.

Definition CODE_SECTION_NUMBER_LIMIT : Z := 1024.
Definition MAX_STACK_HEIGHT : Z := 0x3ff.
Definition OUTPUTS_INPUTS_NUMBER_LIMIT : Z := 0x7f.
Definition REL_OFFSET_SIZE : Z := 2.

(** [static_cast<EOFValidationError>(header_terminator_missing + section_id)]. *)
Definition get_section_missing_error (section_id : Z) : EOFValidationError :=
  nth (Z.to_nat section_id) [header_terminator_missing; type_section_missing; code_section_missing; data_section_missing] impossible.

(** ** The headers *)
Inductive State := at_section_id | at_section_size | terminated.
Record HeaderReader := mkReader {
  hr_state : State;
  section_id : Z;
  section_num : Z;
  section_headers : EOFSectionHeaders;
  hr_it : Z;
  expected_section_id : Z
}.

Section container.
Context (container : bytes).
Abbreviation container_end := (Z.of_nat (length container)).
Definition byte_of (i : Z) : Verdict Z := defined "container" (at_byte container i).
Definition uint16_of (i : Z) : Verdict Z := defined "container" (read_uint16_be container i).

(** [for (i = 0; i < section_num; ++i)]. *)
Fixpoint code_sizes_loop (n : nat) (it : Z) (h : EOFSectionHeaders) : Verdict (Z * EOFSectionHeaders) :=
  match n with
  | O => Valid (it, h)
  | S n =>
      if container_end - 1 <=? it then Invalid incomplete_section_size
      else
        section_size ← uint16_of it;
        if section_size =? 0 then Invalid zero_section_size
        else code_sizes_loop n (it + 2) (emplace_back h CODE_SECTION section_size)
  end.
(** The body of [while (it != container_end && state != State::terminated)]. *)
Definition header_turn (r : HeaderReader) : Verdict HeaderReader :=
  match hr_state r with
  | at_section_id =>
      id ← byte_of (hr_it r);
      let it := hr_it r + 1 in
      if negb (id =? expected_section_id r) then Invalid (get_section_missing_error (expected_section_id r))
      else if id =? TERMINATOR then Valid (mkReader terminated id (section_num r) (section_headers r) it (expected_section_id r))
      else if id =? TYPE_SECTION then Valid (mkReader at_section_size id (section_num r) (section_headers r) it CODE_SECTION)
      else if id =? CODE_SECTION then
        if container_end - 1 <=? it then Invalid incomplete_section_number
        else
          num ← uint16_of it;
          if num =? 0 then Invalid zero_section_size
          else if CODE_SECTION_NUMBER_LIMIT <? num then Invalid too_many_code_sections
          else Valid (mkReader at_section_size id num (section_headers r) (it + 2) DATA_SECTION)
      else if id =? DATA_SECTION then Valid (mkReader at_section_size id (section_num r) (section_headers r) it TERMINATOR)
      else Undefined "assert(false)"
  | at_section_size =>
      if section_id r =? CODE_SECTION then
        '(it, h) ← code_sizes_loop (Z.to_nat (section_num r)) (hr_it r) (section_headers r);
        Valid (mkReader at_section_id (section_id r) (section_num r) h it (expected_section_id r))
      else if container_end - 1 <=? hr_it r then Invalid incomplete_section_size
      else
        section_size ← uint16_of (hr_it r);
        if (section_size =? 0) && negb (section_id r =? DATA_SECTION) then Invalid zero_section_size
        else Valid (mkReader at_section_id (section_id r) (section_num r)
               (emplace_back (section_headers r) (section_id r) section_size) (hr_it r + 2) (expected_section_id r))
  | terminated => Invalid impossible
  end.
Definition is_terminated (s : State) : bool := match s with terminated => true | _ => false end.
Fixpoint header_loop (turns : nat) (r : HeaderReader) : Verdict HeaderReader :=
  if (hr_it r =? container_end) || is_terminated (hr_state r) then Valid r
  else match turns with O => Undefined "more turns" | S turns => header_turn r ≫= header_loop turns end.
(** Every kind of section comes once, so that seven turns are enough. *)
Definition header_turns : nat := 7.

Definition sum_sizes (l : list Z) : Z := foldl Z.add 0 l.
Definition validate_eof_headers : Verdict EOFSectionHeaders :=
  r ← header_loop header_turns (mkReader at_section_id 0 0 (replicate 4 []) 3 TYPE_SECTION);
  if negb (is_terminated (hr_state r)) then Invalid section_headers_not_terminated
  else
    let h := section_headers r in
    type_size ← defined "front()" (head (section h TYPE_SECTION));
    data ← defined "front()" (head (section h DATA_SECTION));
    let section_bodies_size := type_size + sum_sizes (section h CODE_SECTION) + data in
    let remaining_container_size := container_end - hr_it r in
    if negb (section_bodies_size =? remaining_container_size) then Invalid invalid_section_bodies_size
    else if negb (type_size =? Z.of_nat (length (section h CODE_SECTION)) * 4) then Invalid invalid_type_section_size
    else Valid h.

(** ** The types *)
Fixpoint check_types (types : list EOFCodeType) : Verdict unit :=
  match types with
  | [] => Valid tt
  | t :: types =>
      if (OUTPUTS_INPUTS_NUMBER_LIMIT <? outputs t) || (OUTPUTS_INPUTS_NUMBER_LIMIT <? inputs t)
      then Invalid inputs_outputs_num_above_limit
      else if MAX_STACK_HEIGHT <? max_stack_height t then Invalid max_stack_height_above_limit
      else check_types types
  end.
Definition validate_types (header_size type_section_size : Z) : Verdict (list EOFCodeType) :=
  types ← defined "container" (read_types container (Z.to_nat ((type_section_size + 3) / 4)) header_size);
  t ← defined "types[0]" (head types);
  if negb (inputs t =? 0) || negb (outputs t =? 0) then Invalid invalid_first_section_type
  else check_types types ≫= λ _, Valid types.
End container.

(** ** The instructions *)
Section code.
Context (code : bytes).
Abbreviation code_size := (Z.of_nat (length code)).
Definition op_of (i : Z) : Verdict Z := defined "code" (at_byte code i).

(** [i] is the position of an instruction; each turn passes one. *)
Fixpoint instructions_loop (turns : nat) (cost_table : list Z) (i : Z) : Verdict unit :=
  if code_size <=? i then Valid tt
  else
    match turns with
    | O => Undefined "more turns"
    | S turns =>
        op ← op_of i;
        if cost_at cost_table op =? undefined then Invalid undefined_instruction
        else
          i ← (if op =? OP_RJUMPV then
                 if code_size <=? i + 1 then Invalid truncated_instruction
                 else
                   count ← op_of (i + 1);
                   if count <? 1 then Invalid invalid_rjumpv_count else Valid (i + (1 + count * 2))
               else Valid (i + immediate_size (traits_at op)));
          if code_size <=? i then Invalid truncated_instruction else instructions_loop turns cost_table (i + 1)
    end.
Definition validate_instructions (rev : Z) : Verdict unit :=
  instructions_loop (length code) (get_baseline_cost_table rev 1) 0.

(** [std::fill_n(&l[start], n, v)]. *)
Definition fill_n {A} (l : list A) (start n : Z) (v : A) : Verdict (list A) :=
  if (0 <=? start) && (0 <=? n) && (start + n <=? Z.of_nat (length l)) then
    Valid (take (Z.to_nat start) l ++ replicate (Z.to_nat n) v ++ drop (Z.to_nat (start + n)) l)
  else Undefined "fill_n".
Definition at_index {A} (l : list A) (i : Z) : option A := if 0 <=? i then l !! Z.to_nat i else None.

(** ** Relative jumps

    A check that fails ends the function with [false], here [None]. *)
Definition check_rjump_destination (offset_at post_pos : Z) (rjumpdests : list Z) : Verdict (option (list Z)) :=
  rel_offset ← defined "code" (read_int16_be code offset_at);
  let jumpdest := post_pos + rel_offset in
  if (jumpdest <? 0) || (code_size <=? jumpdest) then Valid None else Valid (Some (rjumpdests ++ [jumpdest])).
(** [for (k = 0; k < count * REL_OFFSET_SIZE; k += REL_OFFSET_SIZE)], [n] entries from [at_] on. *)
Fixpoint check_table (n : nat) (at_ post_pos : Z) (rjumpdests : list Z) : Verdict (option (list Z)) :=
  match n with
  | O => Valid (Some rjumpdests)
  | S n =>
      o ← check_rjump_destination at_ post_pos rjumpdests;
      match o with None => Valid None | Some l => check_table n (at_ + REL_OFFSET_SIZE) post_pos l end
  end.
(** The size of the immediate and the destinations of the instruction [op] at [i]. *)
Definition check_jumps (op i : Z) (rjumpdests : list Z) : Verdict (Z * option (list Z)) :=
  let imm_size := immediate_size (traits_at op) in
  if (op =? OP_RJUMP) || (op =? OP_RJUMPI) then
    o ← check_rjump_destination (i + 1) (i + REL_OFFSET_SIZE + 1) rjumpdests; Valid (imm_size, o)
  else if op =? OP_RJUMPV then
    count ← op_of (i + 1);
    let imm_size := imm_size + (1 + count * REL_OFFSET_SIZE) in
    o ← check_table (Z.to_nat count) (i + 1 + 1) (i + 1 + imm_size) rjumpdests; Valid (imm_size, o)
  else Valid (imm_size, Some rjumpdests).
Fixpoint rjump_loop (turns : nat) (i : Z) (rjumpdests : list Z) (immediate_map : list bool) :
    Verdict (option (list Z * list bool)) :=
  if code_size <=? i then Valid (Some (rjumpdests, immediate_map))
  else
    match turns with
    | O => Undefined "more turns"
    | S turns =>
        op ← op_of i;
        '(imm_size, o) ← check_jumps op i rjumpdests;
        match o with
        | None => Valid None
        | Some rjumpdests =>
            immediate_map ← fill_n immediate_map (i + 1) imm_size true;
            rjump_loop turns (i + imm_size + 1) rjumpdests immediate_map
        end
    end.
Fixpoint check_dests (immediate_map : list bool) (rjumpdests : list Z) : Verdict bool :=
  match rjumpdests with
  | [] => Valid true
  | d :: l =>
      b ← defined "immediate_map" (at_index immediate_map d);
      if (b : bool) then Valid false else check_dests immediate_map l
  end.
Definition validate_rjump_destinations : Verdict bool :=
  o ← rjump_loop (length code) 0 [] (replicate (length code) false);
  match o with None => Valid false | Some (rjumpdests, immediate_map) => check_dests immediate_map rjumpdests end.
End code.

(** ** The heights of the stack *)
Definition LOC_UNVISITED : Z := -1.
Definition LOC_IMMEDIATE : Z := -2.

Section heights.
Context (code : bytes) (func_index : nat) (code_types : list EOFCodeType).
Abbreviation code_size := (Z.of_nat (length code)).

(** [stack_heights] and [worklist], the top first. *)
Definition Heights : Type := list Z * list Z.
(** Both uses return the error when the heights differ. *)
Definition validate_successor (successor_offset expected_stack_height : Z) (s : Heights) : Verdict Heights :=
  let '(stack_heights, worklist) := s in
  successor_stack_height ← defined "stack_heights" (at_index stack_heights successor_offset);
  if successor_stack_height =? LOC_UNVISITED then
    Valid (<[Z.to_nat successor_offset := expected_stack_height]> stack_heights, successor_offset :: worklist)
  else if successor_stack_height =? expected_stack_height then Valid s
  else Invalid stack_height_mismatch.
(** [for (k = 0; k < count; ++k)], [n] entries of the table from [at_] on. *)
Fixpoint validate_table (n : nat) (at_ next stack_height : Z) (s : Heights) : Verdict Heights :=
  match n with
  | O => Valid s
  | S n =>
      target_rel_offset ← defined "code" (read_int16_be code at_);
      s ← validate_successor (next + target_rel_offset) stack_height s;
      validate_table n (at_ + REL_OFFSET_SIZE) next stack_height s
  end.
(** [stack_height_required], [stack_height_change]. *)
Definition height_effect (opcode i : Z) : Verdict (Z * Z) :=
  if opcode =? OP_CALLF then
    fid ← defined "code" (read_uint16_be code (i + 1));
    if Z.of_nat (length code_types) <=? fid then Invalid invalid_code_section_index
    else
      t ← defined "code_types" (at_index code_types fid);
      let stack_height_required := wraps 8 (inputs t) in
      Valid (stack_height_required, wraps 8 (outputs t - stack_height_required))
  else Valid (stack_height_required (traits_at opcode), stack_height_change (traits_at opcode)).
(** The successors of relative jumps, and the height at the end of a function. *)
Definition validate_jumps (opcode i next stack_height : Z) (s : Heights) : Verdict Heights :=
  if (opcode =? OP_RJUMP) || (opcode =? OP_RJUMPI) then
    target_rel_offset ← defined "code" (read_int16_be code (i + 1));
    validate_successor (i + target_rel_offset + 3) stack_height s
  else if opcode =? OP_RJUMPV then
    count ← op_of code (i + 1);
    validate_table (Z.to_nat count) (i + 2) next stack_height s
  else if opcode =? OP_RETF then
    t ← defined "code_types" (code_types !! func_index);
    if negb (stack_height =? outputs t) then Invalid non_empty_stack_on_terminating_instruction else Valid s
  else Valid s.
(** The body of [while (!worklist.empty())], for the instruction at [i]. *)
Definition visit (i : Z) (s : Heights) : Verdict Heights :=
  let '(stack_heights, worklist) := s in
  opcode ← op_of code i;
  '(stack_height_required, stack_height_change) ← height_effect opcode i;
  stack_height ← defined "stack_heights" (at_index stack_heights i);
  if stack_height <? stack_height_required then Invalid stack_underflow
  else
    let stack_height := stack_height + stack_height_change in
    imm_size ← (if opcode =? OP_RJUMPV then count ← op_of code (i + 1); Valid (1 + count * REL_OFFSET_SIZE)
                else Valid (immediate_size (traits_at opcode)));
    stack_heights ← fill_n stack_heights (i + 1) imm_size LOC_IMMEDIATE;
    let next := i + imm_size + 1 in
    s ← (if negb (is_terminating (traits_at opcode)) && negb (opcode =? OP_RJUMP) then
           if code_size <=? next then Invalid no_terminating_instruction
           else validate_successor next stack_height (stack_heights, worklist)
         else Valid (stack_heights, worklist));
    validate_jumps opcode i next stack_height s.
(** A location is pushed when it is first visited, so that as many turns as
    bytes are enough. *)
Fixpoint visit_loop (turns : nat) (s : Heights) : Verdict (list Z) :=
  match s.2 with
  | [] => Valid s.1
  | i :: worklist =>
      match turns with
      | O => Undefined "more turns"
      | S turns => visit i (s.1, worklist) ≫= visit_loop turns
      end
  end.
Definition validate_max_stack_height : Verdict Z :=
  t ← defined "code_types" (code_types !! func_index);
  stack_heights ← visit_loop (length code) (<[0%nat := inputs t]> (replicate (length code) LOC_UNVISITED), [0]);
  let max_stack_height := foldl Z.max (hd 0 stack_heights) stack_heights in
  if existsb (Z.eqb LOC_UNVISITED) stack_heights then Invalid unreachable_instructions
  else Valid max_stack_height.
End heights.

(** ** The container *)
(** [get_code]: [substr] throws beyond the end. *)
Definition get_code (container : bytes) (header : EOF1Header) (code_idx : nat) : option bytes :=
  offset ← code_offsets header !! code_idx; size ← code_sizes header !! code_idx;
  if Z.of_nat (length container) <? offset then None
  else Some (take (Z.to_nat size) (drop (Z.to_nat offset) container)).
Definition validate_code (rev : Z) (container : bytes) (header : EOF1Header) (code_idx : nat) : Verdict unit :=
  code ← defined "substr" (get_code container header code_idx);
  validate_instructions code rev ≫= λ _,
  ok ← validate_rjump_destinations code;
  if negb ok then Invalid invalid_rjump_destination
  else
    msh ← validate_max_stack_height code code_idx (types header);
    t ← defined "types" (types header !! code_idx);
    if negb (msh =? max_stack_height t) then Invalid invalid_max_stack_height else Valid tt.
(** [for (code_idx = 0; code_idx < header.code_sizes.size(); ++code_idx)], the
    last [n] sections. *)
Fixpoint validate_codes (rev : Z) (container : bytes) (header : EOF1Header) (n : nat) : Verdict unit :=
  match n with
  | O => Valid tt
  | S n =>
      validate_code rev container header (length (code_sizes header) - S n) ≫= λ _,
      validate_codes rev container header n
  end.
Definition validate_eof1 (rev : Z) (container : bytes) : Verdict EOF1Header :=
  section_headers ← validate_eof_headers container;
  let code_sizes := section section_headers CODE_SECTION in
  data_size ← defined "[0]" (head (section section_headers DATA_SECTION));
  let header_size := eof_header_size section_headers in
  type_section_size ← defined "[0]" (head (section section_headers TYPE_SECTION));
  types ← validate_types container header_size type_section_size;
  code_offsets ← defined "assert(offset <= 65535)" (offsets_of (header_size + type_section_size) code_sizes);
  version ← byte_of container 2;
  let header := mkEOF1Header version code_sizes code_offsets data_size types in
  validate_codes rev container header (length code_sizes) ≫= λ _,
  Valid header.

Definition get_eof_version (container : bytes) : Z :=
  if 3 <=? Z.of_nat (length container) then
    match container with
    | a :: b :: c :: _ => if bool_decide (a = xef) && bool_decide (b = x00) then byte_to_Z c else 0
    | _ => 0
    end
  else 0.
(** The error code that is returned; [None] when something is not defined. *)
Definition validate_eof (rev : Z) (container : bytes) : option EOFValidationError :=
  if negb (is_eof_container container) then Some invalid_prefix
  else if get_eof_version container =? 1 then
    if rev <? EVMC_CANCUN then Some eof_version_unknown
    else
      match validate_eof1 rev container with
      | Valid _ => Some success
      | Invalid e => Some e
      | Undefined _ => None
      end
  else Some eof_version_unknown.

Definition get_error_message (err : EOFValidationError) : string :=
  match err with
  | success => "success"
  | starts_with_format => "starts_with_format"
  | invalid_prefix => "invalid_prefix"
  | eof_version_mismatch => "eof_version_mismatch"
  | eof_version_unknown => "eof_version_unknown"
  | incomplete_section_size => "incomplete_section_size"
  | incomplete_section_number => "incomplete_section_number"
  | header_terminator_missing => "header_terminator_missing"
  | type_section_missing => "type_section_missing"
  | code_section_missing => "code_section_missing"
  | data_section_missing => "data_section_missing"
  | zero_section_size => "zero_section_size"
  | section_headers_not_terminated => "section_headers_not_terminated"
  | invalid_section_bodies_size => "invalid_section_bodies_size"
  | undefined_instruction => "undefined_instruction"
  | truncated_instruction => "truncated_instruction"
  | invalid_rjumpv_count => "invalid_rjumpv_count"
  | invalid_rjump_destination => "invalid_rjump_destination"
  | too_many_code_sections => "too_many_code_sections"
  | invalid_type_section_size => "invalid_type_section_size"
  | invalid_first_section_type => "invalid_first_section_type"
  | invalid_max_stack_height => "invalid_max_stack_height"
  | max_stack_height_above_limit => "max_stack_height_above_limit"
  | inputs_outputs_num_above_limit => "inputs_outputs_num_above_limit"
  | no_terminating_instruction => "no_terminating_instruction"
  | stack_height_mismatch => "stack_height_mismatch"
  | non_empty_stack_on_terminating_instruction => "non_empty_stack_on_terminating_instruction"
  | unreachable_instructions => "unreachable_instructions"
  | stack_underflow => "stack_underflow"
  | invalid_code_section_index => "invalid_code_section_index"
  | impossible => "impossible"
  end.
