(* ===== verification/EvmEofCode.v ===== *)
(** * What a valid EOF code section is

    The three checks of a code section (pkgs/evmweak/eof.cpp) against their
    meaning.  An instruction starts at 0 and behind every instruction; a code is
    whole if all of them are defined and complete; relative jumps lead to
    instructions; and there is one height of the stack at each instruction,
    whichever way it is reached. *)
From Stdlib Require Import ZArith Strings.Byte Strings.String Lia.
From stdpp Require Import base tactics option numbers list relations.
From S2P Require Import Prelude EvmTraits EvmAnalysis EvmEof.

Local Open Scope Z_scope.

(** What follows from a check: [P] of its value, [E] when it fails; never undefined. *)
Definition verdict_ok {A} (P : A → Prop) (E : Prop) (v : Verdict A) : Prop :=
  match v with Valid a => P a | Invalid _ => E | Undefined _ => False end.
Lemma verdict_bind {A B} (P : A → Prop) (E : Prop) (Q : B → Prop) (v : Verdict A) (k : A → Verdict B) :
  verdict_ok P E v → (∀ a, P a → verdict_ok Q E (k a)) → verdict_ok Q E (v ≫= k).
Proof. destruct v; cbn; auto. Qed.
Lemma verdict_mono {A} (P Q : A → Prop) (E F : Prop) (v : Verdict A) :
  (∀ a, P a → Q a) → (E → F) → verdict_ok P E v → verdict_ok Q F v.
Proof. destruct v; cbn; auto. Qed.

Lemma traits_imm o : 0 <= o < 256 → 0 <= immediate_size (traits_at o) <= 32.
Proof.
  intros H. assert (Forall (λ o, 0 <= immediate_size (traits_at o) ∧ immediate_size (traits_at o) <= 32) (seqZ 0 256)) as HF
    by (apply (bool_decide_unpack _); by vm_compute).
  rewrite Forall_forall in HF. apply HF. apply elem_of_seqZ. lia.
Qed.

Section code.
Context (code : bytes).
Abbreviation len := (length code).

(** ** Positions *)
Definition op (p : nat) : Z := byte_to_Z (nth p code x00).
Definition is_rjumpv (p : nat) : bool := op p =? OP_RJUMPV.
Definition imm (p : nat) : nat :=
  if is_rjumpv p then S (2 * Z.to_nat (op (S p))) else Z.to_nat (immediate_size (traits_at (op p))).
(** The position behind the instruction at [p]. *)
Definition behind (p : nat) : nat := S (p + imm p).
Definition falls (p q : nat) : Prop := (p < len)%nat ∧ q = behind p.
Definition starts : nat → Prop := rtc falls 0%nat.

Lemma op_range p : 0 <= op p < 256.
Proof. apply byte_to_Z_range. Qed.
Lemma at_byte_op p : (p < len)%nat → at_byte code (Z.of_nat p) = Some (op p).
Proof.
  intros Hp. unfold at_byte. destruct (Z.leb_spec 0 (Z.of_nat p)); [|lia]. rewrite Nat2Z.id.
  destruct (lookup_lt_is_Some_2 code p Hp) as [b Hb]. unfold op. by rewrite (nth_lookup_Some _ _ _ _ Hb), Hb.
Qed.
Lemma op_of_op p : (p < len)%nat → op_of code (Z.of_nat p) = Valid (op p).
Proof. intros Hp. unfold op_of. by rewrite at_byte_op. Qed.
(** The same for a position given as a number. *)
Lemma op_of_Z (z : Z) p : z = Z.of_nat p → (p < len)%nat → op_of code z = Valid (op p).
Proof. intros ->. apply op_of_op. Qed.

Lemma falls_lt p q : falls p q → (p < q)%nat.
Proof. intros [_ ->]. unfold behind. lia. Qed.
Lemma falls_le p q : rtc falls p q → (p <= q)%nat.
Proof. induction 1 as [|p q r H _ IH]; [done|]. apply falls_lt in H. lia. Qed.
Lemma starts_0 : starts 0.
Proof. constructor. Qed.
Lemma starts_behind p : starts p → (p < len)%nat → starts (behind p).
Proof. intros Hp Hl. eapply rtc_r; [exact Hp|done]. Qed.
Lemma starts_compare p q : starts p → starts q → rtc falls p q ∨ rtc falls q p.
Proof.
  intros Hp. revert q. apply (rtc_ind_r (R:=falls) (λ p, ∀ q, starts q → rtc falls p q ∨ rtc falls q p) 0%nat); [by left| |exact Hp].
  clear p Hp. intros p p' Hp Hs IH q Hq.
  destruct (IH q Hq) as [H|H]; [|right; by eapply rtc_r].
  apply rtc_inv in H as [->|(p'' & H1 & H2)]; [right; by apply rtc_once|].
  destruct Hs as [_ ->], H1 as [_ ->]. by left.
Qed.
(** No instruction starts inside another. *)
Lemma starts_gap p q : starts p → starts q → (p < q)%nat → (p < len)%nat → (behind p <= q)%nat.
Proof.
  intros Hp Hq Hlt Hl. destruct (starts_compare p q Hp Hq) as [H|H%falls_le]; [|lia].
  apply rtc_inv in H as [->|(p' & [_ ->] & H)]; [lia|]. by apply falls_le.
Qed.

(** ** Instructions *)
Definition good_at (rev : Z) (p : nat) : Prop :=
  cost_at (get_baseline_cost_table rev 1) (op p) ≠ undefined
  ∧ (is_rjumpv p = true → (S p < len)%nat ∧ 1 <= op (S p)) ∧ (behind p <= len)%nat.
Definition whole_from (rev : Z) (p : nat) : Prop := ∀ q, rtc falls p q → (q < len)%nat → good_at rev q.
Definition whole (rev : Z) : Prop := ∀ q, starts q → (q < len)%nat → good_at rev q.

Lemma whole_step rev p : (p < len)%nat → whole_from rev p ↔ good_at rev p ∧ whole_from rev (behind p).
Proof.
  intros Hp. split.
  - intros H. split; [by apply H|]. intros q Hq. apply H. by eapply rtc_l.
  - intros [Hg Hw] q Hq. apply rtc_inv in Hq as [->|(p' & [_ ->] & Hq)]; [done|by apply Hw].
Qed.
Lemma Z_imm p : Z.of_nat (imm p) = if is_rjumpv p then 1 + op (S p) * 2 else immediate_size (traits_at (op p)).
Proof.
  unfold imm. pose proof (op_range (S p)). pose proof (traits_imm (op p) (op_range p)). destruct (is_rjumpv p); lia.
Qed.
Lemma instructions_loop_spec rev turns p : (len - p <= turns)%nat →
  match instructions_loop code turns (get_baseline_cost_table rev 1) (Z.of_nat p) with
  | Valid _ => whole_from rev p | Invalid _ => ¬ whole_from rev p | Undefined _ => False
  end.
Proof.
  revert p. induction turns as [|turns IH]; intros p Ht; cbn [instructions_loop].
  - destruct (Z.leb_spec (Z.of_nat len) (Z.of_nat p)); [|lia]. intros q Hq%falls_le Hl. lia.
  - destruct (Z.leb_spec (Z.of_nat len) (Z.of_nat p)) as [|Hp]; [intros q Hq%falls_le Hl; lia|].
    assert (p < len)%nat as Hl by lia. rewrite op_of_op by done. cbn [mbind Verdict_bind].
    assert (¬ good_at rev p → ¬ whole_from rev p) as Hbad by (intros Hn Hw; exact (Hn (proj1 (proj1 (whole_step rev p Hl) Hw)))).
    destruct (Z.eqb_spec (cost_at (get_baseline_cost_table rev 1) (op p)) undefined) as [E|Hcost]; [apply Hbad; by intros [? _]|].
    assert (Z.of_nat p + Z.of_nat (imm p) + 1 = Z.of_nat (behind p)) as Hb by (unfold behind; lia).
    assert ((is_rjumpv p = true → (S p < len)%nat ∧ 1 <= op (S p)) →
      match (if Z.of_nat len <=? Z.of_nat p + Z.of_nat (imm p) then Invalid truncated_instruction
             else instructions_loop code turns (get_baseline_cost_table rev 1) (Z.of_nat p + Z.of_nat (imm p) + 1)) with
      | Valid _ => whole_from rev p | Invalid _ => ¬ whole_from rev p | Undefined _ => False end) as Hend.
    { intros Hrj. rewrite Hb. destruct (Z.leb_spec (Z.of_nat len) (Z.of_nat p + Z.of_nat (imm p))).
      - apply Hbad. intros (_ & _ & H'). lia.
      - specialize (IH (behind p) ltac:(unfold behind; lia)). pose proof (whole_step rev p Hl) as Hs.
        assert (good_at rev p) as Hg by (repeat split; [done|apply Hrj; done|apply Hrj; done|lia]).
        case_match; [by apply Hs|intros Hw; by apply IH, Hs|done]. }
    rewrite Z_imm in Hend. fold (is_rjumpv p). destruct (is_rjumpv p) eqn:Hr; [|by apply Hend].
    destruct (Z.leb_spec (Z.of_nat len) (Z.of_nat p + 1)) as [|Hl']; [apply Hbad; intros (_ & H' & _); destruct (H' Hr); lia|].
    rewrite (op_of_Z _ (S p)) by lia. cbn [mbind Verdict_bind].
    destruct (Z.ltb_spec (op (S p)) 1) as [|Hc]; [apply Hbad; intros (_ & H' & _); destruct (H' Hr); lia|].
    apply Hend. intros _. lia.
Qed.
Lemma validate_instructions_lem rev :
  match validate_instructions code rev with
  | Valid _ => whole rev | Invalid _ => ¬ whole rev | Undefined _ => False
  end.
Proof. apply (instructions_loop_spec rev len 0). lia. Qed.

(** ** Relative jumps *)
Definition read_rel (p : nat) : Z := wraps 16 (Z.lor (Z.shiftl (op p) 8) (op (S p))).
Definition is_rel_jump (p : nat) : bool := (op p =? OP_RJUMP) || (op p =? OP_RJUMPI).
Definition table (n at_ : nat) (post : Z) : list Z := (λ k, post + read_rel (at_ + 2 * k)) <$> seq 0 n.
(** Where the instruction at [p] may jump to. *)
Definition targets (p : nat) : list Z :=
  if is_rel_jump p then [Z.of_nat (behind p) + read_rel (S p)]
  else if is_rjumpv p then table (Z.to_nat (op (S p))) (p + 2) (Z.of_nat (behind p)) else [].
Definition inside (t : Z) : Prop := 0 <= t < Z.of_nat len.
Definition jumps_ok : Prop :=
  ∀ p, starts p → (p < len)%nat → ∀ t, t ∈ targets p → inside t ∧ starts (Z.to_nat t).

Lemma read_uint16_op p : (S p < len)%nat → read_uint16_be code (Z.of_nat p) = Some (Z.lor (Z.shiftl (op p) 8) (op (S p))).
Proof.
  intros Hp. unfold read_uint16_be. rewrite at_byte_op by lia. replace (Z.of_nat p + 1) with (Z.of_nat (S p)) by lia.
  by rewrite at_byte_op by lia.
Qed.
Lemma read_int16_op (z : Z) p : z = Z.of_nat p → (S p < len)%nat → read_int16_be code z = Some (read_rel p).
Proof. intros -> Hp. unfold read_int16_be. by rewrite read_uint16_op. Qed.
Lemma table_S n a post : table (S n) a post = (post + read_rel a) :: table n (a + 2) post.
Proof.
  unfold table. cbn [seq fmap list_fmap]. f_equal; [by rewrite Nat.mul_0_r, Nat.add_0_r|]. rewrite <-fmap_S_seq, <-list_fmap_compose.
  apply list_fmap_ext. intros _ k _. cbn [compose]. do 2 f_equal. lia.
Qed.
Lemma check_dest_spec z a post l : z = Z.of_nat a → (S a < len)%nat →
  check_rjump_destination code z post l = Valid (if bool_decide (inside (post + read_rel a)) then Some (l ++ [post + read_rel a]) else None).
Proof.
  intros -> Ha. unfold check_rjump_destination. rewrite (read_int16_op _ a) by done. cbn [defined mbind Verdict_bind].
  unfold inside. case_bool_decide; destruct (Z.ltb_spec (post + read_rel a) 0), (Z.leb_spec (Z.of_nat len) (post + read_rel a)); cbn [orb]; first [done|lia].
Qed.
Lemma check_table_spec n a post l : (a + 2 * n <= len)%nat →
  check_table code n (Z.of_nat a) post l
  = Valid (if bool_decide (Forall inside (table n a post)) then Some (l ++ table n a post) else None).
Proof.
  revert a l. induction n as [|n IH]; intros a l Ha; [cbn; by rewrite app_nil_r|]. cbn [check_table].
  rewrite (check_dest_spec _ a) by (done || lia). cbn [mbind Verdict_bind]. rewrite table_S.
  destruct (decide (inside (post + read_rel a))) as [Hi|Hi].
  - rewrite bool_decide_true by done. unfold REL_OFFSET_SIZE. replace (Z.of_nat a + 2) with (Z.of_nat (a + 2)) by lia.
    rewrite IH by lia. rewrite <-app_assoc.
    rewrite (bool_decide_ext (Forall inside (_ :: _)) (Forall inside (table n (a + 2) post))); [done|]. rewrite Forall_cons. naive_solver.
  - rewrite bool_decide_false by done. rewrite bool_decide_false; [done|]. rewrite Forall_cons. naive_solver.
Qed.

Lemma fill_n_ok {A} (l : list A) a n (v : A) (s k : Z) : s = Z.of_nat a → k = Z.of_nat n → (a + n <= length l)%nat →
  ∃ l', fill_n l s k v = Valid l' ∧ length l' = length l
        ∧ ∀ q, l' !! q = if decide (a <= q < a + n)%nat then Some v else l !! q.
Proof.
  intros -> -> Hl. unfold fill_n. rewrite !(proj2 (Z.leb_le _ _)) by lia. cbn [andb]. eexists. split; [done|].
  rewrite Nat2Z.id, Nat2Z.id. replace (Z.to_nat (Z.of_nat a + Z.of_nat n)) with (a + n)%nat by lia. split.
  { rewrite !length_app, length_take, length_replicate, length_drop. lia. }
  intros q. case_decide as Hq.
  - rewrite lookup_app_r by (rewrite length_take; lia). rewrite length_take, Nat.min_l by lia.
    rewrite lookup_app_l by (rewrite length_replicate; lia). apply lookup_replicate_2. lia.
  - destruct (Nat.lt_ge_cases q a).
    + rewrite lookup_app_l by (rewrite length_take; lia). by apply lookup_take_lt.
    + rewrite lookup_app_r by (rewrite length_take; lia). rewrite length_take, Nat.min_l by lia.
      rewrite lookup_app_r by (rewrite length_replicate; lia). rewrite length_replicate, lookup_drop. f_equal. lia.
Qed.

Lemma rel_jump_imm p : is_rel_jump p = true → imm p = 2%nat ∧ immediate_size (traits_at (op p)) = 2 ∧ is_rjumpv p = false.
Proof.
  unfold is_rel_jump, imm, is_rjumpv. intros [E|E]%orb_true_iff; apply Z.eqb_eq in E; rewrite E; by vm_compute.
Qed.
Lemma rjumpv_imm p : is_rjumpv p = true → immediate_size (traits_at (op p)) = 0 ∧ is_rel_jump p = false.
Proof. unfold is_rel_jump, is_rjumpv. intros E%Z.eqb_eq. rewrite E. by vm_compute. Qed.

(** The state of the scan when it has come to [p]. *)
Record scanned (p : nat) (d : list Z) (m : list bool) : Prop := mkScanned {
  sc_targets q t : starts q → (q < p)%nat → (q < len)%nat → t ∈ targets q → t ∈ d;
  sc_dests t : t ∈ d → inside t ∧ ∃ q, starts q ∧ (q < len)%nat ∧ t ∈ targets q;
  sc_length : length m = len;
  sc_map q : (q < p)%nat → (q < len)%nat → m !! q = Some false ↔ starts q;
  sc_rest q : (p <= q)%nat → (q < len)%nat → m !! q = Some false
}.
Lemma scanned_0 : scanned 0 [] (replicate len false).
Proof.
  split; [lia|by intros t ?%not_elem_of_nil|apply length_replicate|lia|]. intros q _ Hq. by apply lookup_replicate_2.
Qed.
Lemma scanned_behind p d m m' : starts p → (p < len)%nat → Forall inside (targets p) → scanned p d m →
  length m' = length m → (∀ q, m' !! q = if decide (p + 1 <= q < p + 1 + imm p)%nat then Some true else m !! q) →
  scanned (behind p) (d ++ targets p) m'.
Proof.
  intros Hp Hl Hin [H1 H2 H3 H4 H5] Hlen Hm'. rewrite Forall_forall in Hin. split.
  - intros q t Hq Hqb Hql Ht. apply elem_of_app. destruct (decide (q = p)) as [->|Hne]; [by right|left].
    apply (H1 q); [done| |done..]. destruct (Nat.lt_ge_cases q p); [done|].
    pose proof (starts_gap p q Hp Hq ltac:(lia) Hl). lia.
  - intros t [Ht|Ht]%elem_of_app; [by apply H2|]. split; [by apply Hin|]. by exists p.
  - by rewrite Hlen.
  - intros q Hqb Hq. rewrite Hm'. unfold behind in Hqb. case_decide as Hd.
    + split; [done|]. intros Hs. pose proof (starts_gap p q Hp Hs ltac:(lia) Hl). unfold behind in *. lia.
    + destruct (decide (q = p)) as [->|]; [|by apply H4; lia]. split; [done|]. intros _. by apply H5.
  - intros q Hqb Hq. rewrite Hm'. unfold behind in Hqb. case_decide; [lia|]. apply H5; lia.
Qed.
Lemma check_jumps_spec rev p d : good_at rev p →
  check_jumps code (op p) (Z.of_nat p) d
  = Valid (Z.of_nat (imm p), if bool_decide (Forall inside (targets p)) then Some (d ++ targets p) else None).
Proof.
  intros (_ & Hrj & Hb). unfold behind in Hb. unfold check_jumps, targets. cbv zeta. fold (is_rel_jump p). fold (is_rjumpv p).
  destruct (is_rel_jump p) eqn:Er.
  - destruct (rel_jump_imm p Er) as (Ei & -> & Ev). rewrite (check_dest_spec _ (S p)) by lia. cbn [mbind Verdict_bind].
    rewrite Ei. unfold REL_OFFSET_SIZE, behind. rewrite Ei. replace (Z.of_nat p + 2 + 1) with (Z.of_nat (S (p + 2))) by lia.
    do 2 f_equal. rewrite (bool_decide_ext _ (Forall inside [Z.of_nat (S (p + 2)) + read_rel (S p)])); [done|].
    by rewrite Forall_singleton.
  - pose proof (Z_imm p) as Ei. destruct (is_rjumpv p) eqn:Ev.
    + destruct (rjumpv_imm p Ev) as [-> _]. destruct (Hrj eq_refl) as [Hl' Hc]. rewrite (op_of_Z _ (S p)) by lia.
      cbn [mbind Verdict_bind]. cbv zeta. unfold REL_OFFSET_SIZE.
      replace (Z.of_nat p + 1 + 1) with (Z.of_nat (p + 2)) by lia.
      replace (0 + (1 + op (S p) * 2)) with (Z.of_nat (imm p)) by lia.
      replace (Z.of_nat p + 1 + Z.of_nat (imm p)) with (Z.of_nat (behind p)) by (unfold behind; lia).
      rewrite check_table_spec by lia. done.
    + rewrite <-Ei. by rewrite bool_decide_true, app_nil_r by constructor.
Qed.
Lemma rjump_loop_spec rev turns p d m : whole rev → starts p → (len - p <= turns)%nat → scanned p d m →
  match rjump_loop code turns (Z.of_nat p) d m with
  | Valid (Some (d', m')) => scanned len d' m'
  | Valid None => ∃ q t, starts q ∧ (q < len)%nat ∧ t ∈ targets q ∧ ¬ inside t
  | _ => False
  end.
Proof.
  intros Hw. revert p d m. induction turns as [|turns IH]; intros p d m Hp Ht Hs; cbn [rjump_loop].
  all: assert (Z.of_nat len <= Z.of_nat p → scanned len d m) as Hend
    by (intros Hle; destruct Hs as [H1 H2 H3 H4 H5]; split; [intros q t; intros; apply (H1 q); [done|lia|done..]|done|done|
        intros q ? ?; apply H4; lia|lia]).
  all: destruct (Z.leb_spec (Z.of_nat len) (Z.of_nat p)) as [|Hlt]; [by apply Hend|].
  { lia. }
  assert (p < len)%nat as Hl by lia. rewrite op_of_op by done. cbn [mbind Verdict_bind].
  pose proof (Hw p Hp Hl) as Hg. rewrite (check_jumps_spec rev) by done. cbn [mbind Verdict_bind]. destruct Hg as (_ & _ & Hb).
  unfold behind in Hb. case_bool_decide as Hin.
  - destruct (fill_n_ok m (p + 1) (imm p) true (Z.of_nat p + 1) (Z.of_nat (imm p))) as (m' & -> & Hlen & Hm'); [lia|lia|rewrite (sc_length _ _ _ Hs); lia|].
    cbn [mbind Verdict_bind]. replace (Z.of_nat p + Z.of_nat (imm p) + 1) with (Z.of_nat (behind p)) by (unfold behind; lia).
    apply IH; [by apply starts_behind|unfold behind; lia|by eapply scanned_behind].
  - apply not_Forall_Exists in Hin; [|apply _]. apply Exists_exists in Hin as (t & Ht' & Hn). by exists p, t.
Qed.
Lemma check_dests_spec d m : scanned len d m → check_dests m d = Valid (bool_decide (Forall (λ t, m !! Z.to_nat t = Some false) d)).
Proof.
  intros [_ H2 H3 _ _]. assert (Forall inside d) as Hd by (apply Forall_forall; intros t Ht; by apply H2). clear H2.
  induction Hd as [|t d Ht Hd IH]; [done|]. cbn [check_dests]. unfold at_index. unfold inside in Ht. rewrite (proj2 (Z.leb_le _ _)) by lia.
  destruct (lookup_lt_is_Some_2 m (Z.to_nat t)) as [b Hb]; [lia|]. rewrite Hb. cbn [defined mbind Verdict_bind].
  destruct b.
  - rewrite bool_decide_false; [done|]. rewrite Forall_cons. intros [? _]. congruence.
  - rewrite IH. f_equal. apply bool_decide_ext. rewrite Forall_cons. naive_solver.
Qed.
Lemma validate_rjump_lem rev : whole rev → ∃ b, validate_rjump_destinations code = Valid b ∧ (b = true ↔ jumps_ok).
Proof.
  intros Hw. pose proof (rjump_loop_spec rev len 0 [] _ Hw starts_0 ltac:(lia) scanned_0) as H. unfold validate_rjump_destinations.
  change (Z.of_nat 0) with 0 in H. destruct (rjump_loop _ _ _ _ _) as [[[d m]|]| |]; [| |done..]; cbn [mbind Verdict_bind].
  - eexists. split; [by apply check_dests_spec|]. rewrite bool_decide_eq_true, Forall_forall. destruct H as [H1 H2 H3 H4 _]. split.
    + intros Hd p Hp Hl t Ht. pose proof (H1 p t Hp Hl Hl Ht) as Htd. destruct (H2 t Htd) as [Hi _]. split; [done|].
      unfold inside in Hi. apply H4; [lia|lia|by apply Hd].
    + intros Hj t Ht. destruct (H2 t Ht) as [Hi (q & Hq & Hl & Htq)]. unfold inside in Hi.
      apply H4; [lia|lia|]. by apply (Hj q).
  - exists false. split; [done|]. split; [done|]. intros Hj. destruct H as (q & t & Hq & Hl & Ht & Hn). exfalso. apply Hn. by apply (Hj q).
Qed.

(** ** Heights of the stack *)
Section heights.
Context (types : list EOFCodeType) (f : nat).
Definition callee (p : nat) : nat := Z.to_nat (Z.lor (Z.shiftl (op (S p)) 8) (op (S (S p)))).
(** What the instruction at [p] needs, and by how much it changes the height. *)
Definition effect (p : nat) : option (Z * Z) :=
  if op p =? OP_CALLF then t ← types !! callee p; Some (inputs t, outputs t - inputs t)
  else Some (stack_height_required (traits_at (op p)), stack_height_change (traits_at (op p))).
Definition falls_through (p : nat) : bool := negb (is_terminating (traits_at (op p))) && negb (op p =? OP_RJUMP).
Definition nexts (p : nat) : list Z := (if falls_through p then [Z.of_nat (behind p)] else []) ++ targets p.
Definition flows (p q : nat) : Prop := starts p ∧ (p < len)%nat ∧ Z.of_nat q ∈ nexts p ∧ (q < len)%nat.

(** The heights [H] agree at the instruction at [p]. *)
Definition height_at (H : nat → Z) (p : nat) : Prop :=
  ∃ req chg, effect p = Some (req, chg) ∧ req <= H p
    ∧ (∀ n, n ∈ nexts p → n < Z.of_nat len ∧ H (Z.to_nat n) = H p + chg)
    ∧ (op p = OP_RETF → ∃ t, types !! f = Some t ∧ H p + chg = outputs t).
Definition heights_ok (H : nat → Z) : Prop :=
  (∃ t, types !! f = Some t ∧ H 0%nat = inputs t) ∧ ∀ p, starts p → (p < len)%nat → height_at H p.
Definition connected : Prop := ∀ p, starts p → (p < len)%nat → rtc flows 0%nat p.
Definition highest (H : nat → Z) (h : Z) : Prop :=
  (∀ p, starts p → (p < len)%nat → H p <= h) ∧ ∃ p, starts p ∧ (p < len)%nat ∧ H p = h.
Definition types_ok : Prop := ∀ i t, types !! i = Some t → 0 <= inputs t <= 127 ∧ 0 <= outputs t <= 127.

Context (rev : Z) (Hwhole : whole rev) (Hjumps : jumps_ok) (Htypes : types_ok).
Definition no_heights : Prop := ¬ ∃ H, heights_ok H ∧ connected.

Lemma traits_effect o : 0 <= o < 256 →
  0 <= stack_height_required (traits_at o) ∧ 0 <= stack_height_required (traits_at o) + stack_height_change (traits_at o).
Proof.
  intros H. assert (Forall (λ o, 0 <= stack_height_required (traits_at o)
      ∧ 0 <= stack_height_required (traits_at o) + stack_height_change (traits_at o)) (seqZ 0 256)) as HF
    by (apply (bool_decide_unpack _); by vm_compute).
  rewrite Forall_forall in HF. apply HF. apply elem_of_seqZ. lia.
Qed.
Lemma effect_bounds p req chg : effect p = Some (req, chg) → 0 <= req ∧ 0 <= req + chg.
Proof.
  unfold effect. destruct (op p =? OP_CALLF).
  - destruct (types !! callee p) as [t|] eqn:Et; [|done]. cbn. intros [= <- <-]. apply Htypes in Et. lia.
  - intros [= <- <-]. apply traits_effect, op_range.
Qed.
Lemma callf_imm p : op p = OP_CALLF → imm p = 2%nat.
Proof. intros E. unfold imm, is_rjumpv. rewrite E. by vm_compute. Qed.
Lemma int8_small z : -128 <= z <= 127 → wraps 8 z = z.
Proof. intros. unfold wraps. change (2 ^ (8 - 1)) with 128. change (2 ^ 8) with 256. rewrite Z.mod_small; lia. Qed.
Lemma height_effect_spec p : starts p → (p < len)%nat →
  match effect p with
  | Some e => height_effect code types (op p) (Z.of_nat p) = Valid e
  | None => ∃ e, height_effect code types (op p) (Z.of_nat p) = Invalid e
  end.
Proof.
  intros Hp Hl. destruct (Hwhole p Hp Hl) as (_ & _ & Hb). unfold effect, height_effect. destruct (Z.eqb_spec (op p) OP_CALLF) as [E|]; [|done].
  unfold behind in Hb. rewrite (callf_imm p E) in Hb. replace (Z.of_nat p + 1) with (Z.of_nat (S p)) by lia.
  rewrite read_uint16_op by lia. cbn [defined mbind Verdict_bind option_bind].
  pose proof (op_range (S p)). pose proof (op_range (S (S p))).
  assert (0 <= Z.lor (Z.shiftl (op (S p)) 8) (op (S (S p)))) as Hge0.
  { apply Z.lor_nonneg. split; [apply Z.shiftl_nonneg; lia|lia]. }
  unfold at_index. rewrite (proj2 (Z.leb_le _ _) Hge0). unfold callee.
  destruct (types !! Z.to_nat _) as [t|] eqn:Et; cbn [option_bind].
  - pose proof (lookup_lt_Some _ _ _ Et). destruct (Z.leb_spec (Z.of_nat (length types)) (Z.lor (Z.shiftl (op (S p)) 8) (op (S (S p))))); [lia|].
    apply Htypes in Et. cbn [defined mbind Verdict_bind]. cbv zeta. rewrite (int8_small (inputs t)) by lia.
    by rewrite int8_small by lia.
  - apply lookup_ge_None in Et. destruct (Z.leb_spec (Z.of_nat (length types)) (Z.lor (Z.shiftl (op (S p)) 8) (op (S (S p))))); [by eexists|lia].
Qed.

(** *** The table of heights *)
Definition unvisited (hs : list Z) : nat := length (filter (λ h, h = LOC_UNVISITED) hs).
Definition grows (hs hs' : list Z) : Prop := ∀ p h, hs !! p = Some h → h ≠ LOC_UNVISITED → hs' !! p = Some h.
Lemma grows_refl hs : grows hs hs.
Proof. by intros p h. Qed.
Lemma grows_trans a b c : grows a b → grows b c → grows a c.
Proof. intros H1 H2 p h Hp Hh. apply H2; [|done]. by apply H1. Qed.
Lemma unvisited_le hs hs' : length hs' = length hs → grows hs hs' → (unvisited hs' <= unvisited hs)%nat.
Proof.
  unfold unvisited. revert hs'. induction hs as [|h hs IH]; intros [|h' hs'] Hl Hg; [done..|].
  specialize (IH hs' ltac:(cbn in Hl; lia) (λ p, Hg (S p))). pose proof (Hg 0%nat h eq_refl) as H0. cbn in H0.
  rewrite !filter_cons. destruct (decide (h = LOC_UNVISITED)) as [|Hh]; [|rewrite (decide_False (P:=h' = _)) by (intros E; specialize (H0 Hh); congruence)];
    [destruct (decide (h' = LOC_UNVISITED))|]; cbn [length]; lia.
Qed.
Lemma unvisited_insert hs q h : hs !! q = Some LOC_UNVISITED → h ≠ LOC_UNVISITED → unvisited hs = S (unvisited (<[q:=h]> hs)).
Proof.
  unfold unvisited. revert q. induction hs as [|x hs IH]; intros [|q] Hq Hh; [done..| |].
  - cbn in Hq. injection Hq as ->. cbn [insert list_insert]. rewrite !filter_cons. by rewrite decide_True, decide_False by done.
  - cbn in Hq. specialize (IH q Hq Hh). cbn [insert list_insert]. rewrite !filter_cons. destruct (decide (x = LOC_UNVISITED)); cbn [length].
    + f_equal. exact IH.
    + exact IH.
Qed.

(** The instruction at [p], of height [h], has been passed on. *)
Definition done_at (hs : list Z) (p : nat) (h : Z) : Prop :=
  ∃ req chg, effect p = Some (req, chg) ∧ req <= h
    ∧ (∀ n, n ∈ nexts p → inside n ∧ hs !! Z.to_nat n = Some (h + chg))
    ∧ (op p = OP_RETF → ∃ t, types !! f = Some t ∧ h + chg = outputs t)
    ∧ ∀ q, (p < q < behind p)%nat → hs !! q = Some LOC_IMMEDIATE.
Lemma done_at_grows hs hs' p h : 0 <= h → grows hs hs' → done_at hs p h → done_at hs' p h.
Proof.
  intros Hh Hg (req & chg & He & Hr & Hn & Hf & Hi). pose proof (effect_bounds _ _ _ He). exists req, chg. split_and!; [done|done| |done|].
  - intros n Hin. destruct (Hn n Hin) as [? H']. split; [done|]. apply Hg; [exact H'|]. unfold LOC_UNVISITED. lia.
  - intros q Hq. by apply Hg; [apply Hi|].
Qed.

Record visiting (hs : list Z) (todo : list Z) : Prop := mkVisiting {
  vi_length : length hs = len;
  vi_start : ∃ t, types !! f = Some t ∧ hs !! 0%nat = Some (inputs t);
  vi_cases p h : hs !! p = Some h → h = LOC_UNVISITED ∨ h = LOC_IMMEDIATE ∧ ¬ starts p ∨ 0 <= h ∧ starts p ∧ rtc flows 0%nat p;
  vi_any H : heights_ok H → ∀ p h, hs !! p = Some h → 0 <= h → H p = h;
  vi_todo n : n ∈ todo → inside n ∧ ∃ h, 0 <= h ∧ hs !! Z.to_nat n = Some h;
  vi_done p h : hs !! p = Some h → 0 <= h → Z.of_nat p ∉ todo → done_at hs p h
}.

Lemma visiting_0 t : types !! f = Some t → (0 < len)%nat →
  visiting (<[0%nat := inputs t]> (replicate len LOC_UNVISITED)) [0].
Proof.
  intros Ht Hl. pose proof (Htypes _ _ Ht) as Hb.
  assert (∀ p h, <[0%nat := inputs t]> (replicate len LOC_UNVISITED) !! p = Some h → p = 0%nat ∧ h = inputs t ∨ h = LOC_UNVISITED) as Hc.
  { intros p h. rewrite list_lookup_insert_Some, length_replicate. intros [(<- & <- & _)|[_ Hp]]; [by left|right].
    by apply lookup_replicate in Hp as [-> _]. }
  split.
  - by rewrite length_insert, length_replicate.
  - exists t. split; [done|]. apply list_lookup_insert_eq. by rewrite length_replicate.
  - intros p h [[-> ->]| ->]%Hc; [|by left]. right; right. split; [lia|]. split; [apply starts_0|constructor].
  - intros H [(t' & Ht' & H0) _] p h [[-> ->]| ->]%Hc Hh; [congruence|done].
  - intros n ->%list_elem_of_singleton. split; [unfold inside; lia|]. exists (inputs t). split; [lia|].
    apply list_lookup_insert_eq. by rewrite length_replicate.
  - intros p h [[-> ->]| ->]%Hc Hh Hn; [|done]. exfalso. apply Hn. by left.
Qed.

(** A successor of the instruction at [p], whose height becomes [e]. *)
Definition good_next (p : nat) (e : Z) (n : Z) : Prop :=
  inside n ∧ starts (Z.to_nat n) ∧ flows p (Z.to_nat n) ∧ ∀ H, heights_ok H → H (Z.to_nat n) = e.
(** From one state of the work to a later one, while [p] is being passed on. *)
Record works (p : nat) (s s' : Heights) : Prop := mkWorks {
  wk_visiting : visiting s'.1 (Z.of_nat p :: s'.2);
  wk_grows : grows s.1 s'.1;
  wk_less : (unvisited s'.1 + length s'.2 <= unvisited s.1 + length s.2)%nat
}.
Lemma works_refl p s : visiting s.1 (Z.of_nat p :: s.2) → works p s s.
Proof. intros H. split; [done|apply grows_refl|lia]. Qed.
Lemma works_trans p a b c : works p a b → works p b c → works p a c.
Proof. intros [_ H2 H3] [H4 H5 H6]. split; [done|by eapply grows_trans|lia]. Qed.
Lemma validate_successor_spec p e n s : 0 <= e → rtc flows 0%nat p → visiting s.1 (Z.of_nat p :: s.2) → good_next p e n →
  verdict_ok (λ s', works p s s' ∧ s'.1 !! Z.to_nat n = Some e) no_heights (validate_successor n e s).
Proof.
  intros He Hr Hv (Hi & Hs & Hfl & Hany). destruct s as [hs wl]. cbn [fst snd] in *. unfold validate_successor.
  pose proof Hi as Hi'. unfold inside in Hi'. unfold at_index. rewrite (proj2 (Z.leb_le _ _)) by lia.
  destruct Hv as [H1 H2 H3 H4 H5 H6]. destruct (lookup_lt_is_Some_2 hs (Z.to_nat n)) as [x Hx]; [lia|]. rewrite Hx.
  cbn [defined mbind Verdict_bind]. destruct (Z.eqb_spec x LOC_UNVISITED) as [->|Hne].
  - assert (grows hs (<[Z.to_nat n := e]> hs)) as Hg.
    { intros q h Hq Hh. rewrite list_lookup_insert_ne; [done|]. intros E. rewrite E in Hx. congruence. }
    assert (∀ q h, <[Z.to_nat n := e]> hs !! q = Some h → q = Z.to_nat n ∧ h = e ∨ q ≠ Z.to_nat n ∧ hs !! q = Some h) as Hc.
    { intros q h. rewrite list_lookup_insert_Some. intros [(<- & <- & _)|[? ?]]; [by left|by right]. }
    assert (<[Z.to_nat n := e]> hs !! Z.to_nat n = Some e) as Hn by (apply list_lookup_insert_eq; by eapply lookup_lt_Some).
    cbn [verdict_ok fst]. split; [|done]. split; cbn [fst snd].
    + split.
      * by rewrite length_insert.
      * destruct H2 as (t & Ht & H0). exists t. split; [done|]. apply Hg; [done|]. apply Htypes in Ht. unfold LOC_UNVISITED. lia.
      * intros q h [[-> ->]|[_ Hq]]%Hc; [|by apply H3]. right; right. split; [done|]. split; [done|]. by eapply rtc_r.
      * intros H HH q h [[-> ->]|[_ Hq]]%Hc Hh; [by apply Hany|by apply (H4 H HH)].
      * intros k Hk. assert (k = n ∨ k ∈ Z.of_nat p :: wl) as [->|Hk'] by (rewrite !elem_of_cons in *; tauto).
        { split; [done|]. by exists e. }
        destruct (H5 k Hk') as [? (h & Hh & Hkh)]. split; [done|]. exists h. split; [done|]. apply Hg; [done|]. unfold LOC_UNVISITED. lia.
      * intros q h [[-> ->]|[Hqn Hq]]%Hc Hh Hnot.
        { exfalso. apply Hnot. rewrite Z2Nat.id by lia. right. by left. }
        eapply done_at_grows; [done|exact Hg|]. apply H6; [done..|]. rewrite !elem_of_cons in *. tauto.
    + done.
    + cbn [length]. rewrite (unvisited_insert hs (Z.to_nat n) e Hx) by (unfold LOC_UNVISITED; lia). lia.
  - destruct (H3 _ _ Hx) as [|[[_ Hns]|(Hx0 & _)]]; [done|done|].
    destruct (Z.eqb_spec x e) as [->|Hxe].
    + cbn [verdict_ok fst]. split; [|done]. by apply works_refl.
    + intros (H & HH & _). apply Hxe. rewrite <-(Hany H HH). symmetry. by apply (H4 H HH).
Qed.

(** *** One instruction *)
Section visit.
Context (p : nat) (h req chg : Z) (Hp : starts p) (Hl : (p < len)%nat) (Hh : 0 <= h) (Hr : rtc flows 0%nat p).
Context (He : effect p = Some (req, chg)) (Hreq : req <= h).
Abbreviation e := (h + chg).
(** [p] has height [h], as in every assignment of heights. *)
Definition at_h (s : Heights) : Prop := visiting s.1 (Z.of_nat p :: s.2) ∧ s.1 !! p = Some h.
Lemma height_at_p s H : at_h s → heights_ok H → H p = h ∧ height_at H p.
Proof using All. intros [Hv Hph] HH. split; [by apply (vi_any _ _ Hv H HH)|by apply HH]. Qed.
Lemma next_height s n H : at_h s → heights_ok H → n ∈ nexts p → n < Z.of_nat len ∧ H (Z.to_nat n) = e.
Proof using All.
  intros Hs HH Hn. destruct (height_at_p s H Hs HH) as [E (r & c & He' & _ & Hnx & _)]. rewrite He in He'. injection He' as <- <-.
  rewrite <-E. by apply Hnx.
Qed.
Lemma nexts_good s n : at_h s → n ∈ nexts p → n < Z.of_nat len → good_next p e n.
Proof using All.
  intros Hs Hn Hlen. assert (inside n ∧ starts (Z.to_nat n)) as [Hi Hst].
  { unfold nexts in Hn. apply elem_of_app in Hn as [Hn|Hn]; [|by apply (Hjumps p)].
    destruct (falls_through p); [|by apply not_elem_of_nil in Hn]. apply list_elem_of_singleton in Hn as ->.
    rewrite Nat2Z.id. split; [unfold inside; lia|]. by apply starts_behind. }
  split; [done|]. split; [done|]. split.
  - unfold inside in Hi. split; [done|]. split; [done|]. rewrite Z2Nat.id by lia. split; [done|lia].
  - intros H HH. by apply (next_height s n H).
Qed.
(** The successors [l] have got their height on the way from [s] to [s']. *)
Definition passed (l : list Z) (s s' : Heights) : Prop :=
  works p s s' ∧ ∀ n, n ∈ l → inside n ∧ s'.1 !! Z.to_nat n = Some e.
Lemma e_nonneg : 0 <= e.
Proof using All. destruct (effect_bounds _ _ _ He). lia. Qed.
Lemma passed_nil s : at_h s → passed [] s s.
Proof using All. intros [Hv _]. split; [by apply works_refl|]. by intros n ?%not_elem_of_nil. Qed.
Lemma passed_app l1 l2 a b c : passed l1 a b → passed l2 b c → passed (l1 ++ l2) a c.
Proof using All.
  intros [W1 N1] [W2 N2]. split; [by eapply works_trans|]. intros n [Hn|Hn]%elem_of_app; [|by apply N2].
  destruct (N1 n Hn) as [? Hb]. split; [done|]. apply (wk_grows _ _ _ W2); [done|]. pose proof e_nonneg. unfold LOC_UNVISITED. lia.
Qed.
Lemma passed_at_h l s s' : passed l s s' → at_h s → at_h s'.
Proof using All. intros [W _] [_ Hph]. split; [apply W|]. apply (wk_grows _ _ _ W); [done|]. unfold LOC_UNVISITED. lia. Qed.
Lemma successor_passed n s : at_h s → n ∈ nexts p → n < Z.of_nat len →
  verdict_ok (passed [n] s) no_heights (validate_successor n e s).
Proof using All.
  intros Hs Hn Hlen. pose proof (nexts_good s n Hs Hn Hlen) as Hg. eapply verdict_mono; [|exact id|apply (validate_successor_spec p e n s); [apply e_nonneg|done|apply Hs|done]].
  intros s' [W E]. split; [done|]. intros k ->%list_elem_of_singleton. split; [apply Hg|done].
Qed.
Lemma target_inside n : n ∈ targets p → n < Z.of_nat len.
Proof using All. intros Hn. by destruct (Hjumps p Hp Hl n Hn) as [[_ ?] _]. Qed.
Lemma table_passed n a s : at_h s → (a + 2 * n <= len)%nat → (∀ t, t ∈ table n a (Z.of_nat (behind p)) → t ∈ targets p) →
  verdict_ok (passed (table n a (Z.of_nat (behind p))) s) no_heights (validate_table code n (Z.of_nat a) (Z.of_nat (behind p)) e s).
Proof using All.
  revert a s. induction n as [|n IH]; intros a s Hs Ha Ht; cbn [validate_table]; [by apply passed_nil|].
  rewrite (read_int16_op _ a) by lia. cbn [defined mbind Verdict_bind]. rewrite table_S in Ht.
  assert (Z.of_nat (behind p) + read_rel a ∈ targets p) as Ht0 by (apply Ht; by left).
  eapply verdict_bind; [apply successor_passed; [done|by apply elem_of_app; right|by apply target_inside]|].
  intros s1 H1. unfold REL_OFFSET_SIZE. replace (Z.of_nat a + 2) with (Z.of_nat (a + 2)) by lia.
  eapply verdict_mono; [|exact id|apply IH; [by eapply passed_at_h|lia|]].
  - intros s2 H2. rewrite table_S. by apply (passed_app [_] _ s s1 s2).
  - intros t Hin. apply Ht. by right.
Qed.

Lemma fill_visiting hs wl hs' : visiting hs (Z.of_nat p :: wl) → hs !! p = Some h → length hs' = length hs →
  (∀ q, hs' !! q = if decide (p + 1 <= q < p + 1 + imm p)%nat then Some LOC_IMMEDIATE else hs !! q) →
  works p (hs, wl) (hs', wl) ∧ at_h (hs', wl).
Proof using All.
  intros [H1 H2 H3 H4 H5 H6] Hph Hlen Hq.
  assert (∀ q, starts q → ¬ (p + 1 <= q < p + 1 + imm p)%nat) as Hgap.
  { intros q Hs Hin. pose proof (starts_gap p q Hp Hs ltac:(lia) Hl). unfold behind in *. lia. }
  assert (grows hs hs') as Hg.
  { intros q x Hx Hne. rewrite Hq. case_decide as Hd; [|done]. destruct (H3 q x Hx) as [|[[-> _]|(_ & Hs & _)]]; [done..|]. by apply Hgap in Hs. }
  assert (∀ q x, hs' !! q = Some x → 0 <= x → hs !! q = Some x) as Hback.
  { intros q x. rewrite Hq. case_decide; [|done]. intros [= <-]. unfold LOC_IMMEDIATE. lia. }
  assert (∀ x, 0 <= x → x ≠ LOC_UNVISITED) as Hpos by (unfold LOC_UNVISITED; lia).
  assert (visiting hs' (Z.of_nat p :: wl)) as Hv'.
  { split.
    - by rewrite Hlen.
    - destruct H2 as (t & Ht & H0). exists t. split; [done|]. apply Hg; [done|]. apply Hpos. by apply Htypes in Ht as [[? _] _].
    - intros q x Hx. rewrite Hq in Hx. case_decide as Hd; [|by apply H3]. injection Hx as <-. right; left. split; [done|].
      intros Hs. by apply Hgap in Hs.
    - intros H HH q x Hx Hx0. apply (H4 H HH); [by apply Hback|done].
    - intros n Hn. destruct (H5 n Hn) as [? (x & Hx0 & Hx)]. split; [done|]. exists x. split; [done|]. apply Hg; [done|by apply Hpos].
    - intros q x Hx Hx0 Hn. apply (done_at_grows hs); [done..|]. apply H6; [by apply Hback|done..]. }
  split; [split; cbn [fst snd]; [done..|]|split; [done|]].
  - pose proof (unvisited_le hs hs' Hlen Hg). lia.
  - apply Hg; [done|by apply Hpos].
Qed.
Lemma jumps_passed s : at_h s →
  verdict_ok (λ s', passed (targets p) s s' ∧ (op p = OP_RETF → ∃ t, types !! f = Some t ∧ e = outputs t)) no_heights
    (validate_jumps code f types (op p) (Z.of_nat p) (Z.of_nat (behind p)) e s).
Proof using All.
  intros Hs. destruct (Hwhole p Hp Hl) as (_ & Hrj & Hb). unfold behind in Hb. unfold validate_jumps. fold (is_rel_jump p). fold (is_rjumpv p).
  destruct (is_rel_jump p) eqn:Er.
  - destruct (rel_jump_imm p Er) as (Ei & _). assert (targets p = [Z.of_nat (behind p) + read_rel (S p)]) as Et by (unfold targets; by rewrite Er).
    rewrite (read_int16_op _ (S p)) by lia. cbn [defined mbind Verdict_bind].
    replace (Z.of_nat p + read_rel (S p) + 3) with (Z.of_nat (behind p) + read_rel (S p)) by (unfold behind; rewrite Ei; lia).
    assert (Z.of_nat (behind p) + read_rel (S p) ∈ targets p) as Hin by (rewrite Et; by left).
    eapply verdict_mono; [|exact id|apply successor_passed; [done|by apply elem_of_app; right|by apply target_inside]].
    intros s' H'. rewrite Et. split; [done|]. intros E. unfold is_rel_jump in Er. by rewrite E in Er.
  - destruct (is_rjumpv p) eqn:Ev.
    + destruct (Hrj eq_refl) as [Hl' Hc]. rewrite (op_of_Z _ (S p)) by lia. cbn [mbind Verdict_bind].
      assert (targets p = table (Z.to_nat (op (S p))) (p + 2) (Z.of_nat (behind p))) as Et by (unfold targets; by rewrite Er, Ev).
      pose proof (Z_imm p) as Ei. rewrite Ev in Ei. replace (Z.of_nat p + 2) with (Z.of_nat (p + 2)) by lia.
      eapply verdict_mono; [|exact id|apply table_passed; [done|lia|by rewrite Et]].
      intros s' H'. rewrite Et. split; [done|]. intros E. unfold is_rjumpv in Ev. by rewrite E in Ev.
    + assert (targets p = []) as -> by (unfold targets; by rewrite Er, Ev).
      destruct (Z.eqb_spec (op p) OP_RETF) as [Eop|]; [|split; [by apply passed_nil|done]].
      destruct (vi_start _ _ (proj1 Hs)) as (t & Ht & _). rewrite Ht. cbn [defined mbind Verdict_bind].
      destruct (Z.eqb_spec e (outputs t)) as [Ee|Ene]; cbn [negb]; [split; [by apply passed_nil|intros _; by exists t]|].
      intros (H & HH & _). destruct (height_at_p s H Hs HH) as [E (r & c & He' & _ & _ & Hret)]. rewrite He in He'. injection He' as <- <-.
      destruct (Hret Eop) as (t' & Ht' & E'). rewrite Ht in Ht'. injection Ht' as <-. lia.
Qed.
(** When all successors have their heights, the work at [p] is done. *)
Lemma visited hs wl hs1 s' :
  at_h (hs1, wl) → works p (hs, wl) (hs1, wl) → (∀ q, (p < q < behind p)%nat → hs1 !! q = Some LOC_IMMEDIATE) →
  passed (nexts p) (hs1, wl) s' → (op p = OP_RETF → ∃ t, types !! f = Some t ∧ e = outputs t) →
  visiting s'.1 s'.2 ∧ (unvisited s'.1 + length s'.2 <= unvisited hs + length wl)%nat.
Proof using All.
  intros Hs W1 Hi [W2 Hn] Hf. destruct (wk_visiting _ _ _ W2) as [H1 H2 H3 H4 H5 H6]. split.
  - split; [done..| |].
    + intros n Hin. apply H5. by right.
    + intros q x Hx Hx0 Hnot. destruct (decide (q = p)) as [->|Hne]; [|apply H6; [done..|]; rewrite elem_of_cons; intros [E%Nat2Z.inj|]; done].
      assert (s'.1 !! p = Some h) as Hph.
      { apply (wk_grows _ _ _ W2); [apply Hs|]. unfold LOC_UNVISITED. lia. }
      rewrite Hx in Hph. injection Hph as ->. exists req, chg. split_and!; [done|done|done|done|].
      intros q Hq. apply (wk_grows _ _ _ W2); [by apply Hi|done].
  - pose proof (wk_less _ _ _ W1). pose proof (wk_less _ _ _ W2). cbn [fst snd] in *. lia.
Qed.
End visit.

Lemma height_op_known p req chg : effect p = Some (req, chg) → starts p → (p < len)%nat →
  height_effect code types (op p) (Z.of_nat p) = Valid (req, chg).
Proof using All. intros He Hp Hl. pose proof (height_effect_spec p Hp Hl) as H. by rewrite He in H. Qed.
Lemma imm_of_visit p : starts p → (p < len)%nat →
  (if op p =? OP_RJUMPV then count ← op_of code (Z.of_nat p + 1); Valid (1 + count * REL_OFFSET_SIZE)
   else Valid (immediate_size (traits_at (op p)))) = Valid (Z.of_nat (imm p)).
Proof using Hwhole.
  intros Hp Hl. destruct (Hwhole p Hp Hl) as (_ & Hrj & _). rewrite Z_imm. fold (is_rjumpv p). destruct (is_rjumpv p); [|done].
  rewrite (op_of_Z _ (S p)) by (try apply Hrj; lia || done). done.
Qed.
Lemma nexts_cases p : nexts p = (if falls_through p then [Z.of_nat (behind p)] else []) ++ targets p.
Proof. done. Qed.
Lemma visit_spec p h hs wl : starts p → (p < len)%nat → 0 <= h → rtc flows 0%nat p → visiting hs (Z.of_nat p :: wl) → hs !! p = Some h →
  verdict_ok (λ s', visiting s'.1 s'.2 ∧ (unvisited s'.1 + length s'.2 <= unvisited hs + length wl)%nat) no_heights
    (visit code f types (Z.of_nat p) (hs, wl)).
Proof using All.
  intros Hp Hl Hh Hr Hv Hph. unfold visit. rewrite op_of_op by done. cbn [mbind Verdict_bind].
  destruct (effect p) as [[req chg]|] eqn:He.
  2:{ pose proof (height_effect_spec p Hp Hl) as H. rewrite He in H. destruct H as [x ->]. intros (H & HH & _).
      destruct (proj2 HH p Hp Hl) as (r & c & He' & _). congruence. }
  rewrite (height_op_known p req chg He Hp Hl). cbn [mbind Verdict_bind]. unfold at_index at 1. rewrite (proj2 (Z.leb_le _ _)) by lia.
  rewrite Nat2Z.id, Hph. cbn [defined mbind Verdict_bind].
  destruct (Z.ltb_spec h req) as [Hlt|Hreq].
  { intros (H & HH & _). pose proof (vi_any _ _ Hv H HH p h Hph Hh). destruct (proj2 HH p Hp Hl) as (r & c & He' & Hle & _).
    rewrite He in He'. injection He' as <- <-. lia. }
  cbv zeta. rewrite (imm_of_visit p Hp Hl). cbn [mbind Verdict_bind].
  destruct (Hwhole p Hp Hl) as (_ & Hrj & Hb). unfold behind in Hb.
  destruct (fill_n_ok hs (p + 1) (imm p) LOC_IMMEDIATE (Z.of_nat p + 1) (Z.of_nat (imm p))) as (hs1 & -> & Hlen & Hq); [lia|lia|rewrite (vi_length _ _ Hv); lia|].
  cbn [mbind Verdict_bind]. destruct (fill_visiting p h req chg Hp Hl Hh Hr He Hreq hs wl hs1 Hv Hph Hlen Hq) as [W Hs1].
  replace (Z.of_nat p + Z.of_nat (imm p) + 1) with (Z.of_nat (behind p)) by (unfold behind; lia).
  assert (∀ q, (p < q < behind p)%nat → hs1 !! q = Some LOC_IMMEDIATE) as Him.
  { intros q Hqb. rewrite Hq. unfold behind in Hqb. rewrite decide_True; [done|lia]. }
  pose proof (visited p h req chg Hp Hl Hh Hr He Hreq hs wl hs1) as Hfin.
  set (E := h + chg) in *. fold (falls_through p).
  eapply (verdict_bind (passed p h chg (if falls_through p then [Z.of_nat (behind p)] else []) (hs1, wl))).
  { destruct (falls_through p) eqn:Hft; [|by apply (passed_nil p h req chg)].
    assert (Z.of_nat (behind p) ∈ nexts p) as Hin by (unfold nexts; rewrite Hft; by left).
    destruct (Z.leb_spec (Z.of_nat len) (Z.of_nat (behind p))) as [Hle|Hlt]; [|by apply (successor_passed p h req chg)].
    intros (H & HH & _). destruct (next_height p h req chg Hp Hl Hh Hr He Hreq (hs1, wl) _ H Hs1 HH Hin). lia. }
  intros s1 Hs. pose proof (passed_at_h p h req chg Hp Hl Hh Hr He Hreq _ _ _ Hs Hs1) as Hs1'.
  eapply verdict_mono; [|exact id|by apply (jumps_passed p h req chg)].
  intros s2 [Hs2 Hret]. apply Hfin; [done..| |done]. rewrite nexts_cases. by eapply passed_app.
Qed.

(** *** All of them *)
Lemma visit_loop_spec turns s : visiting s.1 s.2 → (unvisited s.1 + length s.2 <= turns)%nat →
  verdict_ok (λ hs, visiting hs []) no_heights (visit_loop code f types turns s).
Proof using All.
  revert s. induction turns as [|turns IH]; intros [hs wl] Hv Hm; cbn [fst snd] in *; destruct wl as [|i wl]; cbn [visit_loop fst snd length] in *;
    [done|lia|done|].
  destruct (vi_todo _ _ Hv i ltac:(by left)) as [Hi (h & Hh & Hx)]. unfold inside in Hi.
  destruct (vi_cases _ _ Hv _ _ Hx) as [->|[[-> _]|(_ & Hs & Hr)]]; [done..|].
  rewrite <-(Z2Nat.id i) in Hv |- * by lia.
  eapply verdict_bind; [apply (visit_spec (Z.to_nat i) h); [done|lia|done..]|].
  intros s' [Hv' Hm']. apply IH; [done|lia].
Qed.
Lemma foldl_max l a : (a <= foldl Z.max a l) ∧ (∀ x, x ∈ l → x <= foldl Z.max a l) ∧ foldl Z.max a l ∈ a :: l.
Proof.
  revert a. induction l as [|y l IH]; intros a; cbn [foldl].
  - split; [lia|]. split; [by intros x ?%not_elem_of_nil|by left].
  - destruct (IH (Z.max a y)) as (H1 & H2 & H3). split; [lia|]. split.
    + intros x [->|Hx]%elem_of_cons; [lia|by apply H2].
    + rewrite !elem_of_cons in *. destruct H3 as [->|]; [|tauto]. destruct (Z.max_spec a y) as [[_ ->]|[_ ->]]; tauto.
Qed.
(** Every position belongs to an instruction. *)
Lemma covered p : (p < len)%nat → ∃ q, starts q ∧ (q <= p < behind q)%nat.
Proof.
  induction p as [|p IH]; intros Hl; [exists 0%nat; split; [apply starts_0|unfold behind; lia]|].
  destruct (IH ltac:(lia)) as (q & Hq & Hb). destruct (Nat.lt_ge_cases (S p) (behind q)); [exists q; split; [done|lia]|].
  exists (behind q). split; [apply starts_behind; [done|lia]|unfold behind in *; lia].
Qed.
(** What the finished table says. *)
Section finished.
Context (hs : list Z) (Hv : visiting hs []).
Definition height_of (p : nat) : Z := default 0 (hs !! p).
Lemma done_all p h : hs !! p = Some h → 0 <= h → done_at hs p h.
Proof using Hv. intros Hp Hh. apply (vi_done _ _ Hv); [done..|]. apply not_elem_of_nil. Qed.
Lemma flows_visited p : rtc flows 0%nat p → ∃ h, 0 <= h ∧ hs !! p = Some h.
Proof using Hv Htypes.
  intros Hr. apply (rtc_ind_r (R:=flows) (λ p, ∃ h, 0 <= h ∧ hs !! p = Some h) 0%nat); [| |exact Hr].
  - destruct (vi_start _ _ Hv) as (t & Ht & H0). exists (inputs t). split; [|done]. by apply Htypes in Ht as [[? _] _].
  - clear p Hr. intros p q _ (_ & _ & Hn & _) (h & Hh & Hx). destruct (done_all p h Hx Hh) as (r & c & He & Hr & Hnx & _).
    destruct (Hnx _ Hn) as [_ H']. rewrite Nat2Z.id in H'. exists (h + c). split; [|done].
    destruct (effect_bounds _ _ _ He). lia.
Qed.
Lemma unvisited_connected : LOC_UNVISITED ∈ hs → ¬ connected.
Proof using Hv Htypes.
  intros (p & Hx)%list_elem_of_lookup Hc. pose proof (lookup_lt_Some _ _ _ Hx) as Hl. rewrite (vi_length _ _ Hv) in Hl.
  destruct (covered p Hl) as (q & Hq & Hb). destruct (flows_visited q) as (h & Hh & Hqx); [by apply Hc; [|lia]|].
  destruct (decide (q = p)) as [->|]; [rewrite Hx in Hqx; injection Hqx as <-; unfold LOC_UNVISITED in Hh; lia|].
  destruct (done_all q h Hqx Hh) as (r & c & _ & _ & _ & _ & Hi). rewrite (Hi p) in Hx by lia. done.
Qed.
Context (Hall : LOC_UNVISITED ∉ hs).
Lemma start_height p : starts p → (p < len)%nat → hs !! p = Some (height_of p) ∧ 0 <= height_of p ∧ rtc flows 0%nat p.
Proof using All.
  intros Hp Hl. destruct (lookup_lt_is_Some_2 hs p) as [h Hx]; [by rewrite (vi_length _ _ Hv)|]. unfold height_of. rewrite Hx. cbn [default].
  destruct (vi_cases _ _ Hv p h Hx) as [->|[[_ ?]|(? & _ & ?)]]; [|done|done]. exfalso. by apply Hall, (list_elem_of_lookup_2 _ p).
Qed.
Lemma finished_heights : heights_ok height_of ∧ connected.
Proof using All.
  split; [split|].
  - destruct (vi_start _ _ Hv) as (t & Ht & H0). exists t. split; [done|]. unfold height_of. by rewrite H0.
  - intros p Hp Hl. destruct (start_height p Hp Hl) as (Hx & Hh & _). destruct (done_all p _ Hx Hh) as (r & c & He & Hr & Hn & Hret & _).
    exists r, c. split_and!; [done|done| |done]. intros n Hin. destruct (Hn n Hin) as [[_ Hlt] E]. split; [done|].
    unfold height_of at 1. by rewrite E.
  - intros p Hp Hl. by apply start_height.
Qed.
Lemma finished_max : (0 < len)%nat → highest height_of (foldl Z.max (hd 0 hs) hs).
Proof using All.
  intros Hlen. destruct (foldl_max hs (hd 0 hs)) as (_ & H2 & H3). split.
  - intros p Hp Hl. apply H2. destruct (start_height p Hp Hl) as (Hx & _). by eapply list_elem_of_lookup_2.
  - assert (foldl Z.max (hd 0 hs) hs ∈ hs) as Hin.
    { apply elem_of_cons in H3 as [->|]; [|done]. pose proof (vi_length _ _ Hv). destruct hs as [|x l]; [cbn in *; lia|by left]. }
    apply list_elem_of_lookup in Hin as (p & Hx). pose proof (lookup_lt_Some _ _ _ Hx) as Hl. rewrite (vi_length _ _ Hv) in Hl.
    destruct (start_height 0 starts_0 Hlen) as (H0 & Hh0 & _).
    assert (0 <= foldl Z.max (hd 0 hs) hs) as Hge by (etransitivity; [exact Hh0|]; apply H2; by eapply list_elem_of_lookup_2).
    destruct (vi_cases _ _ Hv p _ Hx) as [E|[[E _]|(_ & Hs & _)]]; [rewrite E in Hge; unfold LOC_UNVISITED in Hge; lia|rewrite E in Hge; unfold LOC_IMMEDIATE in Hge; lia|].
    exists p. split; [done|]. split; [done|]. unfold height_of. by rewrite Hx.
Qed.
End finished.

Lemma validate_max_lem : (0 < len)%nat → (f < length types)%nat →
  verdict_ok (λ h, ∃ H, heights_ok H ∧ connected ∧ highest H h) no_heights (validate_max_stack_height code f types).
Proof using All.
  intros Hlen Hf. unfold validate_max_stack_height. destruct (lookup_lt_is_Some_2 types f Hf) as [t Ht]. rewrite Ht.
  cbn [defined mbind Verdict_bind].
  eapply (verdict_bind (λ hs, visiting hs [])).
  - apply visit_loop_spec; [by apply visiting_0|]. cbn [fst snd length].
    assert (∀ n, unvisited (replicate n LOC_UNVISITED) = n) as Hn.
    { induction n as [|n IH]; [done|]. unfold unvisited in *. cbn [replicate]. rewrite filter_cons_True by done. cbn [length]. by rewrite IH. }
    pose proof (unvisited_insert (replicate len LOC_UNVISITED) 0 (inputs t)) as Hi. rewrite Hn in Hi.
    apply Htypes in Ht. rewrite Nat.add_comm. cbn [Nat.add]. rewrite <-Hi; [done|by apply lookup_replicate_2|unfold LOC_UNVISITED; lia].
  - intros hs Hv. cbv zeta. destruct (existsb (Z.eqb LOC_UNVISITED) hs) eqn:Ex; cbn [verdict_ok].
    + apply existsb_exists in Ex as (x & Hx & E%Z.eqb_eq). subst x. apply list_elem_of_In in Hx.
      intros (H & _ & Hc). by apply (unvisited_connected hs).
    + assert (LOC_UNVISITED ∉ hs) as Hall.
      { intros Hin%list_elem_of_In. assert (existsb (Z.eqb LOC_UNVISITED) hs = true) as Ht'; [|congruence].
        apply existsb_exists. exists LOC_UNVISITED. split; [done|apply Z.eqb_refl]. }
      exists (height_of hs). destruct (finished_heights hs Hv Hall). split; [done|]. split; [done|]. by apply finished_max.
Qed.
End heights.
End code.

(** ** A code section *)
Lemma heights_unique code types f H K p : heights_ok code types f H → heights_ok code types f K → rtc (flows code) 0%nat p → H p = K p.
Proof.
  intros [(t & Ht & H0) HH] [(t' & Ht' & K0) HK] Hr. rewrite Ht in Ht'. injection Ht' as <-.
  apply (rtc_ind_r (R:=flows code) (λ p, H p = K p) 0%nat); [congruence| |exact Hr].
  clear p Hr. intros p q _ (Hs & Hl & Hn & _) E. destruct (HH p Hs Hl) as (r & c & He & _ & Hnx & _). destruct (HK p Hs Hl) as (r' & c' & He' & _ & Hnx' & _).
  rewrite He in He'. injection He' as <- <-. destruct (Hnx _ Hn) as [_ E1]. destruct (Hnx' _ Hn) as [_ E2]. rewrite Nat2Z.id in *. congruence.
Qed.
(** The code of the function [f] is valid, and its stack grows to [max]. *)
Definition valid_section (rev : Z) (code : bytes) (types : list EOFCodeType) (f : nat) (max : Z) : Prop :=
  whole code rev ∧ jumps_ok code ∧ ∃ H, heights_ok code types f H ∧ connected code ∧ highest code H max.
Lemma validate_code_lem rev container header f code t :
  get_code container header f = Some code → (0 < length code)%nat → types header !! f = Some t → types_ok (types header) →
  match validate_code rev container header f with
  | Valid _ => valid_section rev code (types header) f (max_stack_height t)
  | Invalid _ => ¬ valid_section rev code (types header) f (max_stack_height t)
  | Undefined _ => False
  end.
Proof.
  intros Hc Hlen Ht Hty. unfold validate_code. rewrite Hc. cbn [defined mbind Verdict_bind].
  pose proof (validate_instructions_lem code rev) as Hi. destruct (validate_instructions code rev); cbn [mbind Verdict_bind]; [|by intros [? _]|done].
  destruct (validate_rjump_lem code rev Hi) as (b & -> & Hb). cbn [mbind Verdict_bind]. destruct b; cbn [negb].
  2:{ intros (_ & Hj & _). apply Hb in Hj. done. }
  pose proof (proj1 Hb eq_refl) as Hj. pose proof (lookup_lt_Some _ _ _ Ht) as Hf.
  pose proof (validate_max_lem code (types header) f rev Hi Hj Hty Hlen Hf) as Hm.
  destruct (validate_max_stack_height code f (types header)) as [h|err|]; cbn [verdict_ok mbind Verdict_bind] in *; [| |done].
  2:{ intros (_ & _ & H & HH & Hcon & _). apply Hm. by exists H. }
  rewrite Ht. cbn [defined mbind Verdict_bind]. destruct Hm as (H & HH & Hcon & Hhigh).
  destruct (Z.eqb_spec h (max_stack_height t)) as [->|Hne]; cbn [negb]; [split; [done|]; split; [done|]; by exists H|].
  intros (_ & _ & K & HK & _ & [K1 (k & Kk & Kl & K2)]). destruct Hhigh as [H1 (p & Hp & Hl & H2)].
  pose proof (H1 k Kk Kl). pose proof (K1 p Hp Hl).
  pose proof (heights_unique _ _ _ H K p HH HK (Hcon p Hp Hl)). pose proof (heights_unique _ _ _ H K k HH HK (Hcon k Kk Kl)). lia.
Qed.
