(* ===== verification/EvmEofContainer.v ===== *)
(** * What a valid EOF container is

    The headers and types of a container (pkgs/evmweak/eof.cpp): how it is laid
    out, and that [validate_eof] finds out, for any bytes, whether a container is
    valid.  The reader of the interpreter, which checks nothing, reads a valid
    one as it was validated. *)
From Stdlib Require Import ZArith Strings.Byte Strings.String Lia.
From stdpp Require Import base tactics option numbers list relations.
From S2P Require Import Prelude EvmTraits EvmAnalysis EvmEof EvmEofCode.

Local Open Scope Z_scope.

(** ** The headers *)
Section container.
Context (container : bytes).
Abbreviation size := (Z.of_nat (length container)).
Lemma byte_of_ok i : 0 <= i < size → ∃ b, byte_of container i = Valid b ∧ at_byte container i = Some b.
Proof.
  intros Hi. unfold byte_of. replace i with (Z.of_nat (Z.to_nat i)) by lia. rewrite at_byte_op by lia. by eexists.
Qed.
Lemma uint16_of_ok i : 0 <= i → i + 1 < size → ∃ v, uint16_of container i = Valid v ∧ read_uint16_be container i = Some v ∧ 0 <= v < 2 ^ 16.
Proof.
  intros Hi Hs. unfold uint16_of. replace i with (Z.of_nat (Z.to_nat i)) by lia. rewrite read_uint16_op by lia. eexists. split; [done|]. split; [done|].
  pose proof (op_range container (Z.to_nat i)). pose proof (op_range container (S (Z.to_nat i))).
  pose proof (Z.add_lor_land (Z.shiftl (op container (Z.to_nat i)) 8) (op container (S (Z.to_nat i)))) as E.
  rewrite Z.shiftl_mul_pow2 in * by lia.
  assert (0 <= Z.land (op container (Z.to_nat i) * 2 ^ 8) (op container (S (Z.to_nat i)))) by (apply Z.land_nonneg; lia).
  assert (0 <= Z.lor (op container (Z.to_nat i) * 2 ^ 8) (op container (S (Z.to_nat i)))) by (apply Z.lor_nonneg; lia).
  lia.
Qed.
(** How a container is laid out: [n] code sections make a header of [13 + 2 n] bytes. *)
Record layout (t : Z) (cs : list Z) (d : Z) : Prop := mkLayout {
  ly_type_id : at_byte container 3 = Some TYPE_SECTION;
  ly_type : read_uint16_be container 4 = Some t;
  ly_code_id : at_byte container 6 = Some CODE_SECTION;
  ly_num : read_uint16_be container 7 = Some (Z.of_nat (length cs));
  ly_sizes i c : cs !! i = Some c → read_uint16_be container (9 + 2 * Z.of_nat i) = Some c ∧ 0 < c;
  ly_data_id : at_byte container (9 + 2 * Z.of_nat (length cs)) = Some DATA_SECTION;
  ly_data : read_uint16_be container (10 + 2 * Z.of_nat (length cs)) = Some d;
  ly_end : at_byte container (12 + 2 * Z.of_nat (length cs)) = Some TERMINATOR;
  ly_total : 13 + 2 * Z.of_nat (length cs) + t + sum_sizes cs + d = size;
  ly_types : t = Z.of_nat (length cs) * 4;
  ly_bounds : 0 < Z.of_nat (length cs) <= CODE_SECTION_NUMBER_LIMIT ∧ 0 <= d
}.
Lemma code_sizes_loop_spec n it t cs d : 0 <= it <= size →
  verdict_ok (λ '(it', h), it' = it + 2 * Z.of_nat n ∧ it' <= size
      ∧ ∃ new, h = [[]; t; cs ++ new; d] ∧ length new = n
          ∧ ∀ i c, new !! i = Some c → read_uint16_be container (it + 2 * Z.of_nat i) = Some c ∧ 0 < c) True
    (code_sizes_loop container n it [[]; t; cs; d]).
Proof.
  revert it cs. induction n as [|n IH]; intros it cs Hit; cbn [code_sizes_loop].
  - cbn. split; [lia|]. split; [lia|]. exists []. split; [by rewrite app_nil_r|]. done.
  - destruct (Z.leb_spec (size - 1) it) as [|Hlt]; [done|].
    destruct (uint16_of_ok it ltac:(lia) ltac:(lia)) as (v & -> & Hv & Hr). cbn [mbind Verdict_bind].
    destruct (Z.eqb_spec v 0); [done|].
    change (emplace_back [[]; t; cs; d] CODE_SECTION v) with [[]; t; cs ++ [v]; d].
    eapply verdict_mono; [|exact id|apply IH; lia]. intros [it' h] (-> & Hle & new & -> & Hlen & Hnew).
    split; [lia|]. split; [done|]. exists (v :: new). rewrite <-app_assoc. split; [done|]. split; [cbn; lia|].
    intros [|i] c; cbn.
    + intros [= <-]. rewrite Z.add_0_r. split; [done|lia].
    + intros Hc. destruct (Hnew i c Hc) as [E ?]. split; [|done]. rewrite <-E. f_equal. lia.
Qed.

Lemma at_byte_lt i b : at_byte container i = Some b → 0 <= i < size.
Proof.
  unfold at_byte. destruct (Z.leb_spec 0 i); [|done]. intros (x & Hx%lookup_lt_Some & _)%fmap_Some. lia.
Qed.
(** The sections come in one order, so that there are seven turns. *)
Definition read_all (r : HeaderReader) : Prop :=
  is_terminated (hr_state r) = true → ∃ t cs d, section_headers r = [[]; [t]; cs; [d]]
    ∧ hr_it r = 13 + 2 * Z.of_nat (length cs) ∧ hr_it r <= size
    ∧ at_byte container 3 = Some TYPE_SECTION ∧ read_uint16_be container 4 = Some t
    ∧ at_byte container 6 = Some CODE_SECTION ∧ read_uint16_be container 7 = Some (Z.of_nat (length cs))
    ∧ (∀ i c, cs !! i = Some c → read_uint16_be container (9 + 2 * Z.of_nat i) = Some c ∧ 0 < c)
    ∧ at_byte container (9 + 2 * Z.of_nat (length cs)) = Some DATA_SECTION
    ∧ read_uint16_be container (10 + 2 * Z.of_nat (length cs)) = Some d
    ∧ at_byte container (12 + 2 * Z.of_nat (length cs)) = Some TERMINATOR
    ∧ 0 < Z.of_nat (length cs) <= CODE_SECTION_NUMBER_LIMIT ∧ 0 <= d ∧ 0 < t.
Lemma loop_step k r : is_terminated (hr_state r) = false → hr_it r <= size →
  (hr_it r < size → verdict_ok read_all True (header_turn container r ≫= header_loop container k)) →
  verdict_ok read_all True (header_loop container (S k) r).
Proof.
  intros Ht Hle H. cbn [header_loop]. rewrite Ht, orb_false_r. destruct (Z.eqb_spec (hr_it r) size); [|apply H; lia].
  cbn. intros H'. unfold read_all in *. congruence.
Qed.
(** A turn that reads the id of a section. *)
Lemma id_step k id num h it expected : 0 <= it <= size → 
  (at_byte container it = Some expected →
   verdict_ok read_all True (header_turn container (mkReader at_section_id id num h it expected) ≫= header_loop container k)) →
  verdict_ok read_all True (header_loop container (S k) (mkReader at_section_id id num h it expected)).
Proof.
  intros Hit H. apply loop_step; [done|cbn; lia|]. cbn [hr_it]. intros Hlt.
  destruct (byte_of_ok it ltac:(lia)) as (b & Hb & Ha). destruct (decide (b = expected)) as [E|Hne]; [apply H; congruence|].
  unfold header_turn. cbn [hr_state hr_it EvmEof.expected_section_id]. rewrite Hb. cbn [mbind Verdict_bind].
  by rewrite (proj2 (Z.eqb_neq b expected) Hne).
Qed.
(** A turn that reads the size of the type or data section. *)
Lemma size_step k id num h it expected : 0 <= it <= size → (id =? CODE_SECTION) = false →
  (∀ v, it + 2 <= size → read_uint16_be container it = Some v → 0 <= v → (id ≠ DATA_SECTION → 0 < v) →
   verdict_ok read_all True (header_loop container k (mkReader at_section_id id num (emplace_back h id v) (it + 2) expected))) →
  verdict_ok read_all True (header_loop container (S k) (mkReader at_section_size id num h it expected)).
Proof.
  intros Hit Hid H. apply loop_step; [done|cbn; lia|]. cbn [hr_it]. intros Hlt. unfold header_turn.
  cbn [hr_state hr_it section_id section_num section_headers EvmEof.expected_section_id]. rewrite Hid.
  destruct (Z.leb_spec (size - 1) it); [done|]. destruct (uint16_of_ok it ltac:(lia) ltac:(lia)) as (v & -> & Hv & Hr).
  cbn [mbind Verdict_bind]. destruct (Z.eqb_spec v 0) as [->|]; cbn [andb].
  - destruct (Z.eqb_spec id DATA_SECTION); cbn [negb]; [|done]. apply H; [lia|done..].
  - apply H; [lia|done|lia|lia].
Qed.
Lemma header_loop_lem : 3 <= size → verdict_ok read_all True (header_loop container header_turns (mkReader at_section_id 0 0 (replicate 4 []) 3 TYPE_SECTION)).
Proof.
  intros H3. unfold header_turns. apply id_step; [lia|]. intros E3. unfold header_turn at 1.
  cbn [hr_state hr_it EvmEof.expected_section_id]. unfold byte_of. rewrite E3. cbn [defined mbind Verdict_bind negb].
  change (verdict_ok read_all True (header_loop container 6 (mkReader at_section_size TYPE_SECTION 0 [[]; []; []; []] 4 CODE_SECTION))).
  pose proof (at_byte_lt _ _ E3).
  apply size_step; [lia|done|]. intros t Hs4 Et Ht0 Htpos. specialize (Htpos ltac:(done)).
  change (4 + 2) with 6 in *. change (emplace_back _ TYPE_SECTION t) with [[]; [t]; []; []].
  apply id_step; [lia|]. intros E6. unfold header_turn at 1. cbn [hr_state hr_it EvmEof.expected_section_id].
  unfold byte_of. rewrite E6. cbn [defined mbind Verdict_bind negb]. change (CODE_SECTION =? CODE_SECTION) with true.
  change (CODE_SECTION =? TERMINATOR) with false. change (CODE_SECTION =? TYPE_SECTION) with false. cbn [negb]. cbv iota.
  destruct (Z.leb_spec (size - 1) (6 + 1)); [exact I|]. destruct (uint16_of_ok (6 + 1) ltac:(lia) ltac:(lia)) as (n & -> & En & Hn).
  cbn [mbind Verdict_bind]. destruct (Z.eqb_spec n 0); [exact I|]. destruct (Z.ltb_spec CODE_SECTION_NUMBER_LIMIT n); [exact I|].
  cbn [section_headers]. change (6 + 1 + 2) with 9. change (6 + 1) with 7 in *.
  apply loop_step; [done|cbn; lia|]. intros _. unfold header_turn at 1. cbn [hr_state hr_it section_id section_num section_headers EvmEof.expected_section_id].
  change (CODE_SECTION =? CODE_SECTION) with true. cbv iota.
  eapply (verdict_bind (λ r, ∃ cs, r = mkReader at_section_id CODE_SECTION n [[]; [t]; cs; []] (9 + 2 * Z.of_nat (length cs)) DATA_SECTION
      ∧ Z.of_nat (length cs) = n ∧ 9 + 2 * Z.of_nat (length cs) <= size
      ∧ ∀ i c, cs !! i = Some c → read_uint16_be container (9 + 2 * Z.of_nat i) = Some c ∧ 0 < c)).
  { eapply verdict_bind; [apply code_sizes_loop_spec; lia|]. intros [it h] (-> & Hle & cs & -> & Hlen & Hcs). exists cs. rewrite Hlen.
    split; [done|]. split; [lia|]. split; [lia|done]. }
  intros r (cs & -> & Hlen & Hle & Hcs). apply id_step; [lia|]. intros Edi.
  unfold header_turn at 1. cbn [hr_state hr_it EvmEof.expected_section_id].
  unfold byte_of. rewrite Edi. cbn [defined mbind Verdict_bind negb]. cbv zeta.
  change (DATA_SECTION =? DATA_SECTION) with true. change (DATA_SECTION =? TERMINATOR) with false.
  change (DATA_SECTION =? TYPE_SECTION) with false. change (DATA_SECTION =? CODE_SECTION) with false. cbn [negb]. cbv iota.
  cbn [section_num section_headers mbind Verdict_bind]. pose proof (at_byte_lt _ _ Edi).
  apply size_step; [lia|done|]. intros d Hsd Ed Hd0 _. change (emplace_back _ DATA_SECTION d) with [[]; [t]; cs; [d]].
  apply id_step; [lia|]. intros Ete. unfold header_turn. cbn [hr_state hr_it EvmEof.expected_section_id].
  unfold byte_of. rewrite Ete. cbn [defined mbind Verdict_bind negb]. cbv zeta. pose proof (at_byte_lt _ _ Ete).
  change (TERMINATOR =? TERMINATOR) with true. cbn [negb]. cbv iota. cbn [section_num section_headers mbind Verdict_bind header_loop hr_state is_terminated].
  rewrite orb_true_r. cbn [verdict_ok]. intros _. exists t, cs, d. cbn [section_headers hr_it].
  split; [done|]. split; [lia|]. split; [lia|]. split; [done|]. split; [done|]. split; [done|].
  rewrite Hlen. split; [done|]. split; [done|]. rewrite <-Hlen. split; [done|].
  replace (10 + 2 * Z.of_nat (length cs)) with (9 + 2 * Z.of_nat (length cs) + 1) by lia. split; [done|].
  replace (12 + 2 * Z.of_nat (length cs)) with (9 + 2 * Z.of_nat (length cs) + 1 + 2) by lia. split; [done|]. lia.
Qed.
Lemma validate_eof_headers_lem : 3 <= size →
  verdict_ok (λ h, ∃ t cs d, h = [[]; [t]; cs; [d]] ∧ layout t cs d) True (validate_eof_headers container).
Proof.
  intros H3. unfold validate_eof_headers. eapply verdict_bind; [by apply header_loop_lem|]. intros r Hr.
  unfold read_all in Hr. destruct (is_terminated (hr_state r)); cbn [negb]; [|done].
  destruct (Hr eq_refl) as (t & cs & d & -> & -> & ? & ? & ? & ? & ? & ? & ? & ? & ? & ? & ? & ?). cbv zeta.
  change (section [[]; [t]; cs; [d]] TYPE_SECTION) with [t]. change (section [[]; [t]; cs; [d]] DATA_SECTION) with [d].
  change (section [[]; [t]; cs; [d]] CODE_SECTION) with cs. cbn [defined head mbind Verdict_bind].
  match goal with |- context [?a =? ?b] => destruct (Z.eqb_spec a b) as [E|] end; cbn [negb]; [|exact I].
  match goal with |- context [?a =? ?b] => destruct (Z.eqb_spec a b) as [E'|] end; cbn [negb]; [|exact I].
  exists t, cs, d. split; [done|]. split; try done; lia.
Qed.

Lemma code_sizes_loop_complete cs it t pre d : 0 <= it →
  (∀ i c, cs !! i = Some c → read_uint16_be container (it + 2 * Z.of_nat i) = Some c ∧ 0 < c) →
  code_sizes_loop container (length cs) it [[]; t; pre; d] = Valid (it + 2 * Z.of_nat (length cs), [[]; t; pre ++ cs; d]).
Proof.
  revert it pre. induction cs as [|c cs IH]; intros it pre Hit Hcs; cbn [code_sizes_loop length]; [by rewrite app_nil_r, Z.add_0_r|].
  destruct (Hcs 0%nat c eq_refl) as [Hc Hc0]. rewrite Z.add_0_r in Hc.
  assert (it + 1 < size) as Hlt.
  { unfold read_uint16_be in Hc. destruct (at_byte container it); [|done]. cbn in Hc. destruct (at_byte container (it + 1)) eqn:E; [|done].
    apply at_byte_lt in E. lia. }
  destruct (Z.leb_spec (size - 1) it); [lia|]. unfold uint16_of. rewrite Hc. cbn [defined mbind Verdict_bind].
  destruct (Z.eqb_spec c 0); [lia|]. change (emplace_back [[]; t; pre; d] CODE_SECTION c) with [[]; t; pre ++ [c]; d].
  rewrite IH.
  - rewrite <-app_assoc. do 2 f_equal. lia.
  - lia.
  - intros i x Hx. destruct (Hcs (S i) x Hx) as [E ?]. split; [|done]. rewrite <-E. f_equal. lia.
Qed.
(** The turns, when the container is laid out as it should be. *)
Lemma header_step k r : hr_it r < size → is_terminated (hr_state r) = false →
  header_loop container (S k) r = header_turn container r ≫= header_loop container k.
Proof. intros Hlt Hs. cbn [header_loop]. rewrite Hs, orb_false_r. destruct (Z.eqb_spec (hr_it r) size); [lia|done]. Qed.
Lemma id_turn id num h it ex : at_byte container it = Some ex →
  header_turn container (mkReader at_section_id id num h it ex) =
    if ex =? TERMINATOR then Valid (mkReader terminated ex num h (it + 1) ex)
    else if ex =? TYPE_SECTION then Valid (mkReader at_section_size ex num h (it + 1) CODE_SECTION)
    else if ex =? CODE_SECTION then
        if size - 1 <=? it + 1 then Invalid incomplete_section_number
        else
          num ← uint16_of container (it + 1);
          if num =? 0 then Invalid zero_section_size
          else if CODE_SECTION_NUMBER_LIMIT <? num then Invalid too_many_code_sections
          else Valid (mkReader at_section_size ex num h (it + 1 + 2) DATA_SECTION)
    else if ex =? DATA_SECTION then Valid (mkReader at_section_size ex num h (it + 1) TERMINATOR) else Undefined "assert(false)".
Proof.
  intros E. unfold header_turn. cbn [hr_state hr_it EvmEof.expected_section_id section_num section_headers].
  unfold byte_of. rewrite E. cbn [defined mbind Verdict_bind]. by rewrite Z.eqb_refl.
Qed.
Lemma size_turn id num h it ex v : read_uint16_be container it = Some v → it + 1 < size → (id =? CODE_SECTION) = false →
  (v =? 0) && negb (id =? DATA_SECTION) = false →
  header_turn container (mkReader at_section_size id num h it ex) = Valid (mkReader at_section_id id num (emplace_back h id v) (it + 2) ex).
Proof.
  intros E Hlt E1 E2. unfold header_turn. cbn [hr_state hr_it section_id section_num section_headers EvmEof.expected_section_id].
  rewrite E1. destruct (Z.leb_spec (size - 1) it); [lia|]. unfold uint16_of. rewrite E. cbn [defined mbind Verdict_bind]. by rewrite E2.
Qed.
Lemma type_turns k t num h : at_byte container 3 = Some TYPE_SECTION → read_uint16_be container 4 = Some t → 0 < t → 6 <= size →
  header_loop container (S (S k)) (mkReader at_section_id num num h 3 TYPE_SECTION)
  = header_loop container k (mkReader at_section_id TYPE_SECTION num (emplace_back h TYPE_SECTION t) 6 CODE_SECTION).
Proof.
  intros H3 H4 Ht Hs. rewrite header_step, id_turn by (done || cbn; lia). cbn [mbind Verdict_bind].
  change (header_loop container (S k) (mkReader at_section_size TYPE_SECTION num h 4 CODE_SECTION) =
          header_loop container k (mkReader at_section_id TYPE_SECTION num (emplace_back h TYPE_SECTION t) 6 CODE_SECTION)).
  rewrite header_step by (done || cbn; lia). rewrite (size_turn _ _ _ _ _ t) by (first [done|lia|by rewrite (proj2 (Z.eqb_neq t 0)) by lia]). done.
Qed.
Lemma code_turns k id num t cs : at_byte container 6 = Some CODE_SECTION → read_uint16_be container 7 = Some (Z.of_nat (length cs)) →
  (∀ i c, cs !! i = Some c → read_uint16_be container (9 + 2 * Z.of_nat i) = Some c ∧ 0 < c) →
  0 < Z.of_nat (length cs) <= CODE_SECTION_NUMBER_LIMIT → 9 < size →
  header_loop container (S (S k)) (mkReader at_section_id id num [[]; t; []; []] 6 CODE_SECTION)
  = header_loop container k (mkReader at_section_id CODE_SECTION (Z.of_nat (length cs)) [[]; t; cs; []] (9 + 2 * Z.of_nat (length cs)) DATA_SECTION).
Proof.
  intros H6 H7 Hcs Hn Hs. rewrite header_step, id_turn by (done || cbn; lia). change (CODE_SECTION =? TERMINATOR) with false.
  change (CODE_SECTION =? TYPE_SECTION) with false. change (CODE_SECTION =? CODE_SECTION) with true. cbv iota. change (6 + 1) with 7.
  destruct (Z.leb_spec (size - 1) 7); [lia|]. unfold uint16_of. rewrite H7. cbn [defined mbind Verdict_bind].
  destruct (Z.eqb_spec (Z.of_nat (length cs)) 0); [lia|]. destruct (Z.ltb_spec CODE_SECTION_NUMBER_LIMIT (Z.of_nat (length cs))); [lia|].
  cbn [mbind Verdict_bind]. change (7 + 2) with 9. rewrite header_step by (done || cbn; lia). unfold header_turn.
  cbn [hr_state hr_it section_id section_num section_headers EvmEof.expected_section_id].
  change (CODE_SECTION =? CODE_SECTION) with true. cbv iota. rewrite Nat2Z.id, code_sizes_loop_complete by (done || lia). done.
Qed.
Lemma data_turns k id num t cs d it : at_byte container it = Some DATA_SECTION → read_uint16_be container (it + 1) = Some d →
  at_byte container (it + 3) = Some TERMINATOR →
  header_loop container (S (S (S k))) (mkReader at_section_id id num [[]; t; cs; []] it DATA_SECTION)
  = Valid (mkReader terminated TERMINATOR num [[]; t; cs; [d]] (it + 4) TERMINATOR).
Proof.
  intros H1 H2 H3. pose proof (at_byte_lt _ _ H1). pose proof (at_byte_lt _ _ H3).
  rewrite header_step, id_turn by (done || cbn; lia). change (DATA_SECTION =? TERMINATOR) with false.
  change (DATA_SECTION =? TYPE_SECTION) with false. change (DATA_SECTION =? CODE_SECTION) with false.
  change (DATA_SECTION =? DATA_SECTION) with true. cbv iota. cbn [mbind Verdict_bind].
  rewrite header_step by (done || cbn; lia). rewrite (size_turn _ _ _ _ _ d) by (first [done|lia|by rewrite andb_false_r]).
  cbn [mbind Verdict_bind]. replace (it + 1 + 2) with (it + 3) by lia.
  change (emplace_back _ DATA_SECTION d) with ([[]; t; cs; [d]] : EOFSectionHeaders).
  rewrite header_step, id_turn by (done || cbn; lia). change (TERMINATOR =? TERMINATOR) with true. cbv iota.
  replace (it + 4) with (it + 3 + 1) by lia. cbn [mbind Verdict_bind]. destruct k; cbn [header_loop hr_state is_terminated]; by rewrite orb_true_r.
Qed.
Lemma validate_eof_headers_complete t cs d : layout t cs d →
  validate_eof_headers container = Valid [[]; [t]; cs; [d]].
Proof.
  intros [H3 H4 H6 H7 Hcs H9 H10 H12 Htot Ht [Hn Hd]]. pose proof (at_byte_lt _ _ H12) as Hsz.
  unfold validate_eof_headers, header_turns. rewrite (type_turns _ t) by (done || lia).
  change (emplace_back _ TYPE_SECTION t) with ([[]; [t]; []; []] : EOFSectionHeaders). rewrite (code_turns _ _ _ _ cs) by (done || lia).
  rewrite (data_turns _ _ _ _ _ d); [|done|rewrite <-H10; f_equal; lia|rewrite <-H12; f_equal; lia].
  cbn [mbind Verdict_bind hr_state is_terminated negb section_headers hr_it]. cbv zeta.
  change (section [[]; [t]; cs; [d]] TYPE_SECTION) with [t]. change (section [[]; [t]; cs; [d]] DATA_SECTION) with [d].
  change (section [[]; [t]; cs; [d]] CODE_SECTION) with cs. cbn [defined head mbind Verdict_bind].
  destruct (Z.eqb_spec (t + sum_sizes cs + d) (size - (9 + 2 * Z.of_nat (length cs) + 4))); [|lia]. cbn [negb].
  destruct (Z.eqb_spec t (Z.of_nat (length cs) * 4)); [|lia]. done.
Qed.

(** ** The types *)
Lemma read_types_ok n off : 0 <= off → off + 4 * Z.of_nat n <= size →
  ∃ types, read_types container n off = Some types ∧ length types = n ∧ Forall (λ t, 0 <= inputs t ∧ 0 <= outputs t) types.
Proof.
  revert off. induction n as [|n IH]; intros off H0 Hs; cbn [read_types]; [by exists []|].
  destruct (byte_of_ok off ltac:(lia)) as (i & _ & Hi). destruct (byte_of_ok (off + 1) ltac:(lia)) as (o & _ & Ho).
  destruct (uint16_of_ok (off + 2) ltac:(lia) ltac:(lia)) as (m & _ & Hm & _). destruct (IH (off + 4) ltac:(lia) ltac:(lia)) as (l & Hl & Hn & Hf).
  rewrite Hi. cbn [mbind option_bind]. rewrite Ho. cbn [mbind option_bind]. rewrite Hm. cbn [mbind option_bind]. rewrite Hl. cbn [mbind option_bind].
  eexists. split; [done|]. split; [cbn; lia|]. constructor; [|done]. cbn.
  assert (∀ k b, at_byte container k = Some b → 0 <= b) as Hpos.
  { intros k b. unfold at_byte. destruct (0 <=? k); [|done]. intros (x & _ & ->)%fmap_Some. apply byte_to_Z_range. }
  split; by eapply Hpos.
Qed.
End container.

Definition within_limits (t : EOFCodeType) : Prop :=
  inputs t <= OUTPUTS_INPUTS_NUMBER_LIMIT ∧ outputs t <= OUTPUTS_INPUTS_NUMBER_LIMIT ∧ max_stack_height t <= MAX_STACK_HEIGHT.
Definition valid_types (types : list EOFCodeType) : Prop :=
  (∃ t, head types = Some t ∧ inputs t = 0 ∧ outputs t = 0) ∧ Forall within_limits types.
Lemma check_types_spec types : match check_types types with Valid _ => Forall within_limits types | Invalid _ => ¬ Forall within_limits types | Undefined _ => False end.
Proof.
  induction types as [|t types IH]; cbn [check_types]; [by constructor|].
  assert (∀ P : Prop, (within_limits t → P) → Forall within_limits (t :: types) → P) as Hw by (intros P HP [H _]%Forall_cons; by apply HP).
  destruct (Z.ltb_spec OUTPUTS_INPUTS_NUMBER_LIMIT (outputs t)); cbn [orb]; [refine (Hw False _); intros (? & ? & ?); lia|].
  destruct (Z.ltb_spec OUTPUTS_INPUTS_NUMBER_LIMIT (inputs t)); [refine (Hw False _); intros (? & ? & ?); lia|].
  destruct (Z.ltb_spec MAX_STACK_HEIGHT (max_stack_height t)); [refine (Hw False _); intros (? & ? & ?); lia|].
  destruct (check_types types); [by constructor|by intros [_ ?]%Forall_cons|done].
Qed.
Lemma validate_types_spec container t cs d : layout container t cs d →
  ∃ types, read_types container (length cs) (13 + 2 * Z.of_nat (length cs)) = Some types ∧ length types = length cs
    ∧ Forall (λ t, 0 <= inputs t ∧ 0 <= outputs t) types
    ∧ match validate_types container (13 + 2 * Z.of_nat (length cs)) t with
      | Valid l => l = types ∧ valid_types types | Invalid _ => ¬ valid_types types | Undefined _ => False end.
Proof.
  intros [_ _ _ _ Hcs _ _ _ Htot Ht [Hn Hd]].
  assert (0 <= sum_sizes cs) as Hsum.
  { unfold sum_sizes. assert (∀ l a, 0 <= a → (∀ i c, l !! i = Some c → 0 < c) → 0 <= foldl Z.add a l) as H.
    { induction l as [|x l IH]; intros a Ha Hp; cbn; [done|]. apply IH; [|intros i; apply (Hp (S i))]. specialize (Hp 0%nat x eq_refl). lia. }
    apply H; [done|]. intros i c Hc. by apply (Hcs i c). }
  destruct (read_types_ok container (length cs) (13 + 2 * Z.of_nat (length cs))) as (types & Hr & Hl & Hf); [lia..|].
  exists types. split; [done|]. split; [done|]. split; [done|]. unfold validate_types.
  replace (Z.to_nat ((t + 3) / 4)) with (length cs) by (rewrite <-(Z.div_unique (t + 3) 4 (Z.of_nat (length cs)) 3); lia).
  rewrite Hr. cbn [defined mbind Verdict_bind]. destruct types as [|t0 types]; [cbn in Hl; lia|]. cbn [head defined mbind Verdict_bind].
  unfold valid_types. cbn [head]. destruct (Z.eqb_spec (inputs t0) 0) as [Ei|], (Z.eqb_spec (outputs t0) 0) as [Eo|]; cbn [negb orb];
    try (intros [(? & [= <-] & ? & ?) _]; done).
  pose proof (check_types_spec (t0 :: types)) as Hc. destruct (check_types (t0 :: types)); cbn [mbind Verdict_bind]; [|tauto|done].
  split; [done|]. split; [by exists t0|done].
Qed.

(** ** The container *)
(** [h] is what the header of the container says. *)
Definition describes (container : bytes) (h : EOF1Header) : Prop :=
  let n := Z.of_nat (length (code_sizes h)) in
  layout container (n * 4) (code_sizes h) (data_size h) ∧ at_byte container 2 = Some (version h)
  ∧ read_types container (length (code_sizes h)) (13 + 2 * n) = Some (types h)
  ∧ offsets_of (13 + 2 * n + n * 4) (code_sizes h) = Some (code_offsets h).
Definition valid_container (rev : Z) (container : bytes) (h : EOF1Header) : Prop :=
  describes container h ∧ valid_types (types h)
  ∧ ∀ i code t, get_code container h i = Some code → types h !! i = Some t → valid_section rev code (types h) i (max_stack_height t).

Lemma length_offsets o cs os : offsets_of o cs = Some os → length os = length cs.
Proof.
  revert o os. induction cs as [|c cs IH]; intros o os; cbn [offsets_of]; [by intros [= <-]|].
  destruct (max_offset <? o); [done|]. intros (l & Hl & [= <-])%bind_Some. cbn. by rewrite (IH _ _ Hl).
Qed.
Lemma sum_sizes_cons c cs : sum_sizes (c :: cs) = c + sum_sizes cs.
Proof.
  unfold sum_sizes. assert (∀ l a b, foldl Z.add (a + b) l = a + foldl Z.add b l) as H.
  { induction l as [|x l IH]; intros a b; cbn; [done|]. by rewrite <-Z.add_assoc, IH. }
  cbn [foldl]. by rewrite Z.add_comm, H.
Qed.
Lemma sum_sizes_nonneg cs : (∀ i c, cs !! i = Some c → 0 < c) → 0 <= sum_sizes cs.
Proof.
  induction cs as [|y cs IH]; intros Hl; [done|]. rewrite sum_sizes_cons. pose proof (Hl 0%nat y eq_refl). specialize (IH (λ i, Hl (S i))). lia.
Qed.
(** Where a section starts; with an offset for each, none is cut. *)
Lemma sum_sizes_take cs i c : cs !! i = Some c → (∀ i c, cs !! i = Some c → 0 < c) →
  0 <= sum_sizes (take i cs) ∧ sum_sizes (take i cs) + c <= sum_sizes cs.
Proof.
  revert i. induction cs as [|x cs IH]; intros i Hi Hp; [done|]. pose proof (sum_sizes_nonneg cs (λ i, Hp (S i))). pose proof (Hp 0%nat x eq_refl).
  destruct i as [|i]; cbn in Hi.
  - injection Hi as ->. cbn [take]. rewrite sum_sizes_cons. change (sum_sizes []) with 0. lia.
  - destruct (IH i Hi (λ i, Hp (S i))). cbn [take]. rewrite !sum_sizes_cons. lia.
Qed.
Lemma offsets_lookup o cs os i c : offsets_of o cs = Some os → cs !! i = Some c → 0 <= o → (∀ i c, cs !! i = Some c → 0 < c) →
  os !! i = Some (o + sum_sizes (take i cs)) ∧ o + sum_sizes (take i cs) <= max_offset.
Proof.
  revert o os i. induction cs as [|x cs IH]; intros o os i Hos Hi Ho Hp; [done|]. cbn [offsets_of] in Hos. pose proof (Hp 0%nat x eq_refl).
  destruct (Z.ltb_spec max_offset o); [done|]. apply bind_Some in Hos as (l & Hl & [= <-]). destruct i as [|i]; cbn in Hi.
  - cbn [take]. change (sum_sizes []) with 0. rewrite Z.add_0_r. split; [|done]. cbn. f_equal. unfold wrapu. apply Z.mod_small. unfold max_offset in *. lia.
  - destruct (IH _ _ i Hl Hi ltac:(lia) (λ i, Hp (S i))) as [H1 H2]. change ((?y :: l) !! S i) with (l !! i). cbn [take]. rewrite sum_sizes_cons, H1. split; [f_equal|]; lia.
Qed.
Lemma offsets_none o cs : 0 <= o → (∀ i c, cs !! i = Some c → 0 < c) →
  offsets_of o cs = None ↔ ∃ i c, cs !! i = Some c ∧ max_offset < o + sum_sizes (take i cs).
Proof.
  revert o. induction cs as [|x cs IH]; intros o Ho Hp; cbn [offsets_of]; [split; [done|by intros (? & ? & ? & _)]|]. pose proof (Hp 0%nat x eq_refl).
  destruct (Z.ltb_spec max_offset o) as [Hlt|Hle].
  { split; [|done]. intros _. exists 0%nat, x. split; [done|]. cbn [take]. change (sum_sizes []) with 0. lia. }
  specialize (IH (o + x) ltac:(lia) (λ i, Hp (S i))). destruct (offsets_of (o + x) cs); cbn [mbind option_bind].
  - split; [done|]. intros ([|i] & c & Hi & Hl); cbn [take] in Hl; [change (sum_sizes []) with 0 in Hl; lia|]. rewrite sum_sizes_cons in Hl.
    assert (Some l = None) as [=]. apply IH. exists i, c. split; [done|lia].
  - split; [|done]. intros _. destruct (proj1 IH eq_refl) as (i & c & Hi & Hl). exists (S i), c. split; [done|]. cbn [take]. rewrite sum_sizes_cons. lia.
Qed.
(** The limits of the header bound the size of the whole. *)
Lemma read_uint16_range container i v : read_uint16_be container i = Some v → 0 <= v < 2 ^ 16.
Proof.
  intros E. pose proof E as E'. unfold read_uint16_be in E'. destruct (at_byte container i) as [a|] eqn:Ea; [|done].
  destruct (at_byte container (i + 1)) as [b|] eqn:Eb; [|done]. apply at_byte_lt in Ea, Eb.
  destruct (uint16_of_ok container i ltac:(lia) ltac:(lia)) as (v' & _ & Ev & Hv). congruence.
Qed.
Lemma sum_sizes_bound cs b : (∀ i c, cs !! i = Some c → c < b) → sum_sizes cs <= Z.of_nat (length cs) * b.
Proof.
  induction cs as [|c cs IH]; intros Hb; [done|]. rewrite sum_sizes_cons. pose proof (Hb 0%nat c eq_refl).
  specialize (IH (λ i, Hb (S i))). cbn [length]. lia.
Qed.
Lemma describes_size container h : describes container h → Z.of_nat (length container) < 2 ^ 27.
Proof.
  intros ([_ H4 _ _ Hcs _ H10 _ Htot _ [Hn _]] & _). apply read_uint16_range in H4, H10. unfold CODE_SECTION_NUMBER_LIMIT in Hn.
  pose proof (sum_sizes_bound (code_sizes h) (2 ^ 16) (λ i c H, proj2 (read_uint16_range _ _ _ (proj1 (Hcs i c H))))). lia.
Qed.
(** A code section is read inside the container, whole and not empty. *)
Lemma get_code_spec container h i c : describes container h → code_sizes h !! i = Some c →
  ∃ offset code, code_offsets h !! i = Some offset ∧ get_code container h i = Some code
    ∧ code = take (Z.to_nat c) (drop (Z.to_nat offset) container)
    ∧ offset = 13 + 2 * Z.of_nat (length (code_sizes h)) + Z.of_nat (length (code_sizes h)) * 4 + sum_sizes (take i (code_sizes h))
    ∧ 0 <= offset <= max_offset
    ∧ offset + c + data_size h <= Z.of_nat (length container) ∧ Z.of_nat (length code) = c ∧ 0 < c.
Proof.
  intros (Hly & _ & _ & Ho) Hc. destruct Hly as [_ _ _ _ Hcs _ _ _ Htot _ [Hn Hd]].
  destruct (offsets_lookup _ _ _ i c Ho Hc ltac:(lia) (λ i c H, proj2 (Hcs i c H))) as [Hb Hmax].
  destruct (sum_sizes_take _ i c Hc (λ i c H, proj2 (Hcs i c H))) as [Hb0 Hle].
  pose proof (proj2 (Hcs i c Hc)). unfold get_code. rewrite Hb, Hc. cbn [mbind option_bind].
  match type of Hmax with ?x <= _ => remember x as o eqn:Eo end.
  destruct (Z.ltb_spec (Z.of_nat (length container)) o); [lia|].
  eexists o, _. split; [done|]. split; [done|]. split; [done|]. split; [done|]. split; [lia|]. split; [lia|]. split; [|done].
  rewrite length_take, length_drop. lia.
Qed.

Lemma types_ok_intro types : Forall (λ t, 0 <= inputs t ∧ 0 <= outputs t) types → Forall within_limits types → types_ok types.
Proof.
  intros H1 H2 i t Ht. pose proof (Forall_lookup_1 _ _ _ _ H1 Ht). destruct (Forall_lookup_1 _ _ _ _ H2 Ht) as (? & ? & _).
  unfold OUTPUTS_INPUTS_NUMBER_LIMIT in *. cbn in *. lia.
Qed.
Lemma validate_codes_spec rev container h n :
  describes container h → types_ok (types h) → length (types h) = length (code_sizes h) → (n <= length (code_sizes h))%nat →
  match validate_codes rev container h n with
  | Valid _ => ∀ i code t, (length (code_sizes h) - n <= i)%nat → get_code container h i = Some code → types h !! i = Some t →
                valid_section rev code (types h) i (max_stack_height t)
  | Invalid _ => ∃ i code t, get_code container h i = Some code ∧ types h !! i = Some t ∧ ¬ valid_section rev code (types h) i (max_stack_height t)
  | Undefined _ => False
  end.
Proof.
  intros Hd Hty Hlen. induction n as [|n IH]; intros Hn; cbn [validate_codes].
  - intros i code t Hi Hc Ht. apply lookup_lt_Some in Ht. lia.
  - set (i := (length (code_sizes h) - S n)%nat). destruct (lookup_lt_is_Some_2 (code_sizes h) i) as [c Hc]; [unfold i; lia|].
    destruct (lookup_lt_is_Some_2 (types h) i) as [t Ht]; [rewrite Hlen; unfold i; lia|].
    destruct (get_code_spec container h i c Hd Hc) as (o & code & _ & Hg & _ & _ & _ & _ & Hlc & Hpos).
    pose proof (validate_code_lem rev container h i code t Hg ltac:(lia) Ht Hty) as Hv. specialize (IH ltac:(lia)).
    destruct (validate_code rev container h i); cbn [mbind Verdict_bind]; [|by exists i, code, t|done].
    destruct (validate_codes rev container h n); [|done|done]. intros j code' t' Hj Hg' Ht'.
    destruct (decide (j = i)) as [->|]; [|apply IH; [unfold i in *; lia|done..]].
    rewrite Hg in Hg'. rewrite Ht in Ht'. by simplify_eq.
Qed.
Lemma header_size_eq t cs d : eof_header_size [[]; [t]; cs; [d]] = 13 + 2 * Z.of_nat (length cs).
Proof. unfold eof_header_size. change (section [[]; [t]; cs; [d]] CODE_SECTION) with cs. lia. Qed.
Lemma read_types_length container n off types : read_types container n off = Some types → length types = n.
Proof.
  revert off types. induction n as [|n IH]; intros off types; cbn [read_types]; [by intros [= <-]|].
  intros (? & _ & (? & _ & (? & _ & (l & Hl & [= <-])%bind_Some)%bind_Some)%bind_Some)%bind_Some. cbn. f_equal. by eapply IH.
Qed.
(** A container with good headers and types in which some section starts
    beyond 65535: the assertion fails before any code is looked at. *)
Definition oversized (container : bytes) : Prop :=
  ∃ t cs d types, layout container t cs d ∧ read_types container (length cs) (13 + 2 * Z.of_nat (length cs)) = Some types
    ∧ valid_types types ∧ ∃ i c, cs !! i = Some c ∧ max_offset < 13 + 2 * Z.of_nat (length cs) + t + sum_sizes (take i cs).
Lemma oversized_size container : oversized container → max_offset + 1 < Z.of_nat (length container).
Proof.
  intros (t & cs & d & types & [_ _ _ _ Hcs _ _ _ Htot Ht [Hn Hd]] & _ & _ & i & c & Hi & Hm).
  pose proof (sum_sizes_take cs i c Hi (λ i c H, proj2 (Hcs i c H))). pose proof (proj2 (Hcs i c Hi)). lia.
Qed.
Lemma valid_not_oversized rev container h : valid_container rev container h → ¬ oversized container.
Proof.
  intros ((Hly & _ & _ & Ho) & _) (t & cs & d & types & Hly' & _ & _ & i & c & Hi & Hm).
  pose proof (validate_eof_headers_complete _ _ _ _ Hly') as E. rewrite (validate_eof_headers_complete _ _ _ _ Hly) in E. injection E as <- Ecs _.
  rewrite <-Ecs in *. assert (offsets_of (13 + 2 * Z.of_nat (length (code_sizes h)) + Z.of_nat (length (code_sizes h)) * 4) (code_sizes h) = None) as En; [|congruence].
  apply offsets_none; [lia|intros j x Hj; by apply (ly_sizes _ _ _ _ Hly j x)|]. by exists i, c.
Qed.
Lemma validate_eof1_lem rev container : 3 <= Z.of_nat (length container) →
  match validate_eof1 rev container with
  | Valid h => valid_container rev container h ∧ ¬ oversized container
  | Invalid _ => (¬ ∃ h, valid_container rev container h) ∧ ¬ oversized container
  | Undefined _ => oversized container
  end.
Proof.
  intros H3. unfold validate_eof1. pose proof (validate_eof_headers_lem container H3) as Hh.
  pose proof (validate_eof_headers_complete container) as Hcomp.
  destruct (validate_eof_headers container) as [hd|err|]; cbn [verdict_ok mbind Verdict_bind] in *; [| |done].
  2:{ split; [by intros (h & (Hly%Hcomp & _) & _)|by intros (t & cs & d & types & Hly%Hcomp & _)]. }
  destruct Hh as (t & cs & d & -> & Hly).
  assert (∀ t' cs' d', layout container t' cs' d' → t' = t ∧ cs' = cs ∧ d' = d) as Hsame by (intros t' cs' d' Hl%Hcomp; by injection Hl as -> -> ->).
  clear Hcomp. rewrite header_size_eq. change (section [[]; [t]; cs; [d]] TYPE_SECTION) with [t].
  change (section [[]; [t]; cs; [d]] DATA_SECTION) with [d]. change (section [[]; [t]; cs; [d]] CODE_SECTION) with cs.
  cbn [defined head mbind Verdict_bind]. cbv zeta.
  destruct (validate_types_spec container t cs d Hly) as (types & Hr & Hlt & Hnn & Hvt).
  assert (∀ h, describes container h → code_sizes h = cs ∧ data_size h = d ∧ EvmAnalysis.types h = types) as Hdesc.
  { intros h (Hl & _ & Hr' & _). destruct (Hsame _ _ _ Hl) as (_ & E1 & E2). rewrite E1 in Hr'. split; [done|]. split; [done|congruence]. }
  assert (t = Z.of_nat (length cs) * 4) as Et by apply Hly.
  assert (oversized container ↔ valid_types types ∧ offsets_of (13 + 2 * Z.of_nat (length cs) + t) cs = None) as Hover.
  { rewrite (offsets_none _ cs); [|lia|intros i c Hi; by apply (ly_sizes _ _ _ _ Hly i c)]. split; [|by intros [? ?]; exists t, cs, d, types].
    intros (t' & cs' & d' & types' & Hl & Hr' & Hv & Ho). destruct (Hsame _ _ _ Hl) as (-> & -> & ->).
    rewrite Hr in Hr'. by injection Hr' as <-. }
  destruct (validate_types container _ t) as [l|err|]; cbn [mbind Verdict_bind]; [| |done].
  2:{ split; [|by rewrite Hover; intros [? _]]. intros (h & Hd & Hv & _). apply Hvt. by destruct (Hdesc h Hd) as (_ & _ & <-). }
  destruct Hvt as [-> Hvt].
  destruct (offsets_of (13 + 2 * Z.of_nat (length cs) + t) cs) as [os|] eqn:Eo; cbn [defined mbind Verdict_bind]; [|by apply Hover].
  destruct (byte_of_ok container 2 ltac:(lia)) as (ver & -> & Hver). cbn [mbind Verdict_bind].
  set (h := mkEOF1Header ver cs os d types).
  assert (describes container h) as Hd by (unfold describes; cbn; rewrite <-Et; done).
  assert (types_ok (EvmAnalysis.types h)) as Hty by (apply types_ok_intro; [done|apply Hvt]).
  pose proof (validate_codes_spec rev container h (length cs) Hd Hty Hlt (Nat.le_refl _)) as Hc.
  assert (¬ oversized container) as Hno by (rewrite Hover; by intros [_ ?]).
  destruct (validate_codes rev container h (length cs)) as [[]|err|]; cbn [mbind Verdict_bind]; [| |done]; (split; [|done]).
  - split; [done|]. split; [done|]. intros i code ty. apply Hc. cbn. lia.
  - destruct Hc as (i & code & ty & Hg & Ht & Hn). intros (h' & Hd' & Hv). apply Hn.
    assert (h' = h) as ->; [|by apply Hv]. destruct (Hdesc h' Hd') as (E1 & E2 & E3). destruct Hd' as (_ & Hv' & _ & Ho).
    destruct h' as [v' s' o' d' t']. cbn in *. unfold h. rewrite Hver in Hv'. subst. congruence.
Qed.

(** ** Verdicts on whole containers *)

(** An error that is reported is not [success]. *)
Definition reports {A} (v : Verdict A) : Prop := v ≠ Invalid success.
Lemma reports_bind {A B} (v : Verdict A) (k : A → Verdict B) : reports v → (∀ a, reports (k a)) → reports (v ≫= k).
Proof. destruct v as [a|e|]; cbn; [by intros _|intros H _ [= ->]; by apply H|done]. Qed.
Create HintDb reports discriminated.
Lemma reports_defined {A} why (o : option A) : reports (defined why o).
Proof. by destruct o. Qed.
Lemma reports_missing {A} id : reports (Invalid (A:=A) (get_section_missing_error id)).
Proof. unfold get_section_missing_error. by destruct (Z.to_nat id) as [|[|[|[|[|]]]]]. Qed.
Lemma reports_byte container i : reports (byte_of container i).
Proof. apply reports_defined. Qed.
Lemma reports_uint16 container i : reports (uint16_of container i).
Proof. apply reports_defined. Qed.
Lemma reports_op code i : reports (op_of code i).
Proof. apply reports_defined. Qed.
#[local] Hint Resolve reports_defined reports_missing reports_byte reports_uint16 reports_op : reports.
Ltac reporting := repeat first [ solve [unfold reports; discriminate] | solve [auto with reports] | apply reports_bind; [|intros ?] | case_match ].

Lemma reports_sizes container n it h : reports (code_sizes_loop container n it h).
Proof. revert it h. induction n as [|n IH]; intros it h; cbn [code_sizes_loop]; reporting. Qed.
#[local] Hint Resolve reports_sizes : reports.
Lemma reports_header container : reports (validate_eof_headers container).
Proof.
  assert (∀ n r, reports (header_loop container n r)) as H; [|unfold validate_eof_headers; pose proof H; reporting].
  induction n as [|n IH]; intros r; cbn [header_loop]; [reporting|]. case_match; [done|]. apply reports_bind; [|apply IH].
  unfold header_turn. reporting.
Qed.
Lemma reports_types container s t : reports (validate_types container s t).
Proof.
  assert (∀ l, reports (check_types l)) as H by (induction l as [|x l IH]; cbn [check_types]; reporting).
  unfold validate_types. reporting.
Qed.
Lemma reports_instructions code rev : reports (validate_instructions code rev).
Proof.
  unfold validate_instructions. generalize 0 as i. generalize (length code) as n. intros n.
  induction n as [|n IH]; intros i; cbn [instructions_loop]; reporting.
Qed.
Lemma reports_fill {A} (l : list A) s n v : reports (fill_n l s n v).
Proof. unfold fill_n. reporting. Qed.
#[local] Hint Resolve reports_fill : reports.
Lemma reports_rjump code : reports (validate_rjump_destinations code).
Proof.
  assert (∀ a b l, reports (check_rjump_destination code a b l)) as H1 by (intros; unfold check_rjump_destination; reporting).
  assert (∀ n a b l, reports (check_table code n a b l)) as H2 by (induction n as [|n IH]; intros; cbn [check_table]; reporting).
  assert (∀ n i d m, reports (rjump_loop code n i d m)) as H3.
  { induction n as [|n IH]; intros; cbn [rjump_loop]; unfold check_jumps; reporting. }
  assert (∀ m d, reports (check_dests m d)) as H4 by (induction d as [|x d IH]; cbn [check_dests]; reporting).
  unfold validate_rjump_destinations. reporting.
Qed.
Lemma reports_heights code f types : reports (validate_max_stack_height code f types).
Proof.
  assert (∀ a b s, reports (validate_successor a b s)) as H1 by (intros; unfold validate_successor; reporting).
  assert (∀ n a b c s, reports (validate_table code n a b c s)) as H2 by (induction n as [|n IH]; intros; cbn [validate_table]; reporting).
  assert (∀ a b c d s, reports (validate_jumps code f types a b c d s)) as H3 by (intros; unfold validate_jumps; reporting).
  assert (∀ i s, reports (visit code f types i s)) as H4 by (intros; unfold visit, height_effect; reporting).
  assert (∀ n s, reports (visit_loop code f types n s)) as H5.
  { induction n as [|n IH]; intros s; cbn [visit_loop]; case_match; [done..|]. by apply reports_bind. }
  unfold validate_max_stack_height. reporting.
Qed.
#[local] Hint Resolve reports_header reports_types reports_instructions reports_rjump reports_heights : reports.
Lemma reports_eof1 rev container : reports (validate_eof1 rev container).
Proof.
  assert (∀ h i, reports (validate_code rev container h i)) as H1 by (intros; unfold validate_code; reporting).
  assert (∀ h n, reports (validate_codes rev container h n)) as H2 by (induction n as [|n IH]; cbn [validate_codes]; reporting).
  unfold validate_eof1. reporting.
Qed.

(** The bytes that are accepted. *)
Lemma version_size container : get_eof_version container = 1 → 3 <= Z.of_nat (length container).
Proof. unfold get_eof_version. by destruct (Z.leb_spec 3 (Z.of_nat (length container))). Qed.
Lemma validated_container rev container : validate_eof rev container = Some success →
  is_eof_container container = true ∧ get_eof_version container = 1 ∧ EVMC_CANCUN <= rev ∧ ∃ h, valid_container rev container h.
Proof.
  unfold validate_eof. destruct (is_eof_container container); cbn [negb]; [|done].
  destruct (Z.eqb_spec (get_eof_version container) 1) as [E|E]; [|done]. destruct (Z.ltb_spec rev EVMC_CANCUN); [done|].
  pose proof (validate_eof1_lem rev container (version_size _ E)) as Hv. pose proof (reports_eof1 rev container) as Hr.
  destruct (validate_eof1 rev container) as [h|err|]; [|by intros [= ->]|done]. destruct Hv as [Hv _].
  intros _. repeat split; try done. by exists h.
Qed.

Lemma validates_container rev container :
  is_eof_container container = true ∧ get_eof_version container = 1 ∧ EVMC_CANCUN <= rev ∧ (∃ h, valid_container rev container h) →
  validate_eof rev container = Some success.
Proof.
  intros (H1 & E & ? & h & Hh). unfold validate_eof. rewrite H1, E. cbn [negb Z.eqb Pos.eqb]. destruct (Z.ltb_spec rev EVMC_CANCUN); [lia|].
  pose proof (validate_eof1_lem rev container (version_size _ E)) as Hv. destruct (validate_eof1 rev container) as [h'|err|]; [done| |].
  - destruct Hv as [[] _]. by exists h.
  - destruct (valid_not_oversized rev container h Hh Hv).
Qed.

(** C16: [validate_eof] decides, for any bytes in any revision, whether they are a
    valid container, and never reads outside them.  It returns [success] exactly
    when the bytes are laid out as version 1, in a revision that has it, the
    types are within their limits, every code section starts at an offset of 16
    bits, and every section consists of whole, defined instructions, jumps to
    instructions only, and has one height of the stack at each, reached from the
    start, of which the highest is the declared one.  It returns no code, because
    the program asserts that an offset fits into 16 bits, exactly for containers
    of version 1 with good headers and types in which some section starts
    beyond 65535; none of at most 65536 bytes is one. *)
Theorem validate_eof_reference rev container :
  (validate_eof rev container = Some success ↔
     is_eof_container container = true ∧ get_eof_version container = 1 ∧ EVMC_CANCUN <= rev ∧ ∃ h, valid_container rev container h)
  ∧ (validate_eof rev container = None ↔
     is_eof_container container = true ∧ get_eof_version container = 1 ∧ EVMC_CANCUN <= rev ∧ oversized container)
  ∧ (max_offset + 1 < Z.of_nat (length container) ∨ validate_eof rev container ≠ None).
Proof.
  assert (validate_eof rev container = None ↔
    is_eof_container container = true ∧ get_eof_version container = 1 ∧ EVMC_CANCUN <= rev ∧ oversized container) as Hnone.
  { unfold validate_eof. destruct (is_eof_container container); cbn [negb]; [|split; [done|by intros (? & _)]].
    destruct (Z.eqb_spec (get_eof_version container) 1) as [E|E]; [|split; [done|by intros (_ & ? & _)]].
    destruct (Z.ltb_spec rev EVMC_CANCUN); [split; [done|lia]|].
    pose proof (validate_eof1_lem rev container (version_size _ E)) as Hv.
    destruct (validate_eof1 rev container) as [h|err|]; [| |tauto]; (split; [done|]); by intros (_ & _ & _ & ?%Hv). }
  split; [split; [apply validated_container|apply validates_container]|]. split; [done|].
  destruct (Z.ltb_spec (max_offset + 1) (Z.of_nat (length container))); [by left|right].
  rewrite Hnone. intros (_ & _ & _ & ?%oversized_size). lia.
Qed.

(** ** The reader of the interpreter *)
Lemma read_code_sizes_spec container cs it t pre d :
  (∀ i c, cs !! i = Some c → read_uint16_be container (it + 2 * Z.of_nat i) = Some c) →
  read_code_sizes container (length cs) it [[]; t; pre; d] = Some (it + 2 * Z.of_nat (length cs), [[]; t; pre ++ cs; d]).
Proof.
  revert it pre. induction cs as [|c cs IH]; intros it pre Hcs; cbn [read_code_sizes length]; [by rewrite app_nil_r, Z.add_0_r|].
  pose proof (Hcs 0%nat c eq_refl) as Hc. rewrite Z.add_0_r in Hc. rewrite Hc. cbn [mbind option_bind].
  change (emplace_back [[]; t; pre; d] CODE_SECTION c) with [[]; t; pre ++ [c]; d]. rewrite IH.
  - rewrite <-app_assoc. do 2 f_equal. lia.
  - intros i x Hx. rewrite <-(Hcs (S i) x Hx). f_equal. lia.
Qed.
Lemma read_sections_spec container t cs d turns : layout container t cs d → (4 <= turns)%nat →
  read_sections container turns 3 (replicate 4 []) = Some (12 + 2 * Z.of_nat (length cs), [[]; [t]; cs; [d]]).
Proof.
  intros [H3 H4 H6 H7 Hcs H9 H10 H12 _ _ _] Ht. do 4 (destruct turns as [|turns]; [lia|]).
  cbn [read_sections]. rewrite H3. cbn [mbind option_bind]. change (TYPE_SECTION =? TERMINATOR) with false. change (TYPE_SECTION =? CODE_SECTION) with false.
  cbv iota. change (3 + 1) with 4. rewrite H4. cbn [mbind option_bind]. change (MAX_SECTION <? TYPE_SECTION) with false. cbv iota.
  change (3 + 3) with 6. change (emplace_back (replicate 4 []) TYPE_SECTION t) with ([[]; [t]; []; []] : EOFSectionHeaders).
  rewrite H6. cbn [mbind option_bind]. change (CODE_SECTION =? TERMINATOR) with false. change (CODE_SECTION =? CODE_SECTION) with true.
  cbv iota. change (6 + 1) with 7. rewrite H7. cbn [mbind option_bind]. rewrite Nat2Z.id. change (6 + 3) with 9.
  rewrite (read_code_sizes_spec container cs 9) by (intros i c Hc; by apply Hcs). cbn [mbind option_bind app].
  rewrite H9. cbn [mbind option_bind]. change (DATA_SECTION =? TERMINATOR) with false. change (DATA_SECTION =? CODE_SECTION) with false. cbv iota.
  replace (9 + 2 * Z.of_nat (length cs) + 1) with (10 + 2 * Z.of_nat (length cs)) by lia. rewrite H10. cbn [mbind option_bind].
  change (MAX_SECTION <? DATA_SECTION) with false. cbv iota.
  replace (9 + 2 * Z.of_nat (length cs) + 3) with (12 + 2 * Z.of_nat (length cs)) by lia. rewrite H12. done.
Qed.
Lemma read_header_lem container h : describes container h → read_valid_eof1_header container = Some h.
Proof.
  intros (Hly & Hv & Hty & Ho). pose proof (at_byte_lt _ _ _ (ly_end _ _ _ _ Hly)). unfold read_valid_eof1_header.
  rewrite (read_sections_spec container _ _ _ _ Hly) by lia. cbn [mbind option_bind]. rewrite header_size_eq, Hv. cbn [mbind option_bind].
  change (section [[]; [Z.of_nat (length (code_sizes h)) * 4]; code_sizes h; [data_size h]] TYPE_SECTION) with [Z.of_nat (length (code_sizes h)) * 4].
  change (section [[]; [Z.of_nat (length (code_sizes h)) * 4]; code_sizes h; [data_size h]] DATA_SECTION) with [data_size h].
  change (section [[]; [Z.of_nat (length (code_sizes h)) * 4]; code_sizes h; [data_size h]] CODE_SECTION) with (code_sizes h).
  cbn [head mbind option_bind].
  replace (Z.to_nat ((Z.of_nat (length (code_sizes h)) * 4 + 3) / 4)) with (length (code_sizes h))
    by (rewrite <-(Z.div_unique (Z.of_nat (length (code_sizes h)) * 4 + 3) 4 (Z.of_nat (length (code_sizes h))) 3); lia).
  rewrite Hty. cbn [mbind option_bind]. rewrite Ho. cbn [mbind option_bind]. by destruct h.
Qed.
