(* ===== verification/EvmState.v ===== *)
(** * The execution state of the EVM interpreter

    pkgs/evmweak/execution_state.hpp and the helpers of instructions.hpp.  An
    instruction is a computation [M A]: it reads and changes the stack (top
    first), the gas and the [ExecutionState], asks the host, and either goes on
    with a value or stops the execution with a status.  Reads and writes outside
    the stack, the memory or the code, and overflow of signed integers, are not
    defined ([VmUB]). *)
From Stdlib Require Import ZArith Strings.Byte Strings.String Lia.
From stdpp Require Import base tactics option numbers list.
From S2P Require Import Prelude Words Evmc EvmTraits EvmAnalysis.

Local Open Scope Z_scope.

Record ExecutionState := mkState {
  es_gas_refund : Z;
  memory : bytes;
  return_data : bytes;
  output_offset : Z;
  output_size : Z;
  m_tx : evmc_tx_context;
  call_stack : list Z
}.
Definition zero_tx_context : evmc_tx_context := mkTxContext zero32 zero20 zero20 0 0 0 zero32 zero32 zero32.
Definition ExecutionState_ctor : ExecutionState := mkState 0 [] [] 0 0 zero_tx_context [].

Record Machine := mkMachine { stack : list Z; mgas : Z; state : ExecutionState }.
(** [StackSpace::limit]. *)
Definition stack_limit : Z := 1024.

(** ** Computations *)
Inductive Step (A : Type) := Go (a : A) (m : Machine) | Stop (status : Z) (m : Machine).
Arguments Go {A} a m.
Arguments Stop {A} status m.
Definition M (A : Type) : Type := Machine → VmProg (Step A).

#[global] Instance M_ret : MRet M := λ A a m, VmDone (Go a m).
#[global] Instance M_bind : MBind M := λ A B k c m,
  c m ≫= λ r, match r with Go a m' => k a m' | Stop s m' => VmDone (Stop s m') end.

Definition ub {A} (why : string) : M A := λ _, VmUB why.
Definition stop {A} (status : Z) : M A := λ m, VmDone (Stop status m).
Definition when (b : bool) (c : M unit) : M unit := if b then c else mret tt.
Definition ask {A} (request : (A → VmProg (Step A)) → VmProg (Step A)) : M A := λ m, request (λ a, VmDone (Go a m)).
(** The value of an operation on signed 64-bit integers. *)
Definition signed (z : Z) : M Z :=
  if (- 2 ^ 63 <=? z) && (z <? 2 ^ 63) then mret z else ub "signed integer overflow".
Definition opt {A} (o : option A) (why : string) : M A := match o with Some a => mret a | None => ub why end.

Definition get : M ExecutionState := λ m, VmDone (Go (state m) m).
Definition put (s : ExecutionState) : M unit := λ m, VmDone (Go tt (mkMachine (stack m) (mgas m) s)).
Definition get_gas : M Z := λ m, VmDone (Go (mgas m) m).
Definition set_gas (g : Z) : M unit := λ m, VmDone (Go tt (mkMachine (stack m) g (state m))).
Definition get_stack : M (list Z) := λ m, VmDone (Go (stack m) m).
Definition set_stack (l : list Z) : M unit := λ m, VmDone (Go tt (mkMachine l (mgas m) (state m))).

(** ** [StackTop] *)
Definition pop : M Z :=
  l ← get_stack; match l with [] => ub "stack" | x :: l => set_stack l ≫= λ _, mret x end.
Definition push (x : Z) : M unit :=
  l ← get_stack; if Z.of_nat (length l) <? stack_limit then set_stack (x :: l) else ub "stack".
(** [stack[index]]. *)
Definition item (index : nat) : M Z := l ← get_stack; opt (l !! index) "stack".
Definition set_item (index : nat) (x : Z) : M unit :=
  l ← get_stack; if (index <? length l)%nat then set_stack (<[index := x]> l) else ub "stack".
Fixpoint pops (n : nat) : M (list Z) :=
  match n with O => mret [] | S n => x ← pop; l ← pops n; mret (x :: l) end.

(** ** Gas

    [if ((gas_left -= cost) < 0) return EVMC_OUT_OF_GAS;] *)
Definition charge (cost : Z) : M unit :=
  g ← get_gas; g ← signed (g - cost); set_gas g ≫= λ _, if g <? 0 then stop EVMC_OUT_OF_GAS else mret tt.

(** ** [Memory] *)
Definition mem_size : M Z := s ← get; mret (Z.of_nat (length (memory s))).
Definition set_memory (mem : bytes) (s : ExecutionState) : ExecutionState :=
  mkState (es_gas_refund s) mem (return_data s) (output_offset s) (output_size s) (m_tx s) (call_stack s).
Definition set_return_data (d : bytes) (s : ExecutionState) : ExecutionState :=
  mkState (es_gas_refund s) (memory s) d (output_offset s) (output_size s) (m_tx s) (call_stack s).
Definition set_refund (r : Z) (s : ExecutionState) : ExecutionState :=
  mkState r (memory s) (return_data s) (output_offset s) (output_size s) (m_tx s) (call_stack s).
Definition set_output (offset size : Z) (s : ExecutionState) : ExecutionState :=
  mkState (es_gas_refund s) (memory s) (return_data s) offset size (m_tx s) (call_stack s).
Definition set_tx (c : evmc_tx_context) (s : ExecutionState) : ExecutionState :=
  mkState (es_gas_refund s) (memory s) (return_data s) (output_offset s) (output_size s) c (call_stack s).
Definition set_call_stack (l : list Z) (s : ExecutionState) : ExecutionState :=
  mkState (es_gas_refund s) (memory s) (return_data s) (output_offset s) (output_size s) (m_tx s) l.

(** [n] bytes of [b] from [offset] on; writing [d] there. *)
Definition slice (b : bytes) (offset n : Z) : bytes := take (Z.to_nat n) (drop (Z.to_nat offset) b).
Definition overwrite (b : bytes) (offset : Z) (d : bytes) : bytes :=
  take (Z.to_nat offset) b ++ d ++ drop (Z.to_nat offset + length d) b.
Definition in_bounds (b : bytes) (offset n : Z) : bool :=
  (0 <=? offset) && (0 <=? n) && (offset + n <=? Z.of_nat (length b)).
Definition mem_read (offset n : Z) : M bytes :=
  s ← get; if in_bounds (memory s) offset n then mret (slice (memory s) offset n) else ub "memory".
Definition mem_write (offset : Z) (d : bytes) : M unit :=
  s ← get; if in_bounds (memory s) offset (Z.of_nat (length d)) then put (set_memory (overwrite (memory s) offset d) s)
           else ub "memory".
Definition Memory_grow (mem : bytes) (new_size : Z) : bytes :=
  mem ++ replicate (Z.to_nat (new_size - Z.of_nat (length mem))) x00.

Definition max_buffer_size : Z := 2 ^ 32 - 1.
Definition word_size : Z := 32.
Definition num_words (size_in_bytes : Z) : Z := i64 (u64 (size_in_bytes + (word_size - 1)) / word_size).

Definition memory_cost (words : Z) : Z := 3 * words + words * words / 512.
Definition grow_memory (new_size : Z) : M unit :=
  s ← get;
  let new_words := num_words new_size in
  let current_words := Z.of_nat (length (memory s)) / word_size in
  let cost := memory_cost new_words - memory_cost current_words in
  g ← get_gas; g ← signed (g - cost);
  when (0 <=? g) (put (set_memory (Memory_grow (memory s) (new_words * word_size)) s)) ≫= λ _,
  set_gas g.
(** [check_memory] with a [uint64_t] size. *)
Definition check_memory64 (offset size : Z) : M bool :=
  if negb (high_words_fold offset =? 0) || (max_buffer_size <? limb offset 0) then mret false
  else
    let new_size := u64 (limb offset 0 + size) in
    n ← mem_size;
    when (n <? new_size) (grow_memory new_size) ≫= λ _,
    g ← get_gas; mret (0 <=? g).
(** [check_memory] of "copy" instructions. *)
Definition check_memory (offset size : Z) : M bool :=
  if size =? 0 then mret true
  else if negb (high_words_fold size =? 0) || (max_buffer_size <? limb size 0) then mret false
  else check_memory64 offset (limb size 0).
(** [if (!check_memory(..)) return EVMC_OUT_OF_GAS;] *)
Definition require (c : M bool) : M unit := b ← c; if (b : bool) then mret tt else stop EVMC_OUT_OF_GAS.

(** ** The host *)
Definition host_account_exists (a : bytes) : M bool := ask (VmAccountExists a).
Definition host_get_storage (a key : bytes) : M bytes := ask (VmGetStorage a key).
Definition host_set_storage (a key v : bytes) : M evmc_storage_status := ask (VmSetStorage a key v).
Definition host_get_balance (a : bytes) : M bytes := ask (VmGetBalance a).
Definition host_get_code_size (a : bytes) : M Z := ask (VmGetCodeSize a).
Definition host_get_code_hash (a : bytes) : M bytes := ask (VmGetCodeHash a).
Definition host_copy_code (a : bytes) (code_offset buffer_size : Z) : M bytes := ask (VmCopyCode a code_offset buffer_size).
Definition host_selfdestruct (a beneficiary : bytes) : M bool := ask (VmSelfdestruct a beneficiary).
Definition host_call (msg : evmc_message) : M Result := ask (VmCall msg).
Definition host_get_block_hash (n : Z) : M bytes := ask (VmGetBlockHash n).
Definition host_access_account (a : bytes) : M evmc_access_status := ask (VmAccessAccount a).
Definition host_access_storage (a key : bytes) : M evmc_access_status := ask (VmAccessStorage a key).
Definition host_emit_log (a data : bytes) (topics : list bytes) : M unit :=
  λ m, VmEmitLog a data topics (VmDone (Go tt m)).
(** [get_tx_context]: asked once, unless the time stamp is 0. *)
Definition get_tx_context : M evmc_tx_context :=
  s ← get;
  when (block_timestamp (m_tx s) =? 0) (c ← ask VmGetTxContext; put (set_tx c s)) ≫= λ _,
  s ← get; mret (m_tx s).

(** ** The code

    Positions are relative to the start of [executable_code]. *)
Definition code_at (an : CodeAnalysis) (p : Z) : M Z := opt (at_byte (code_mem an) (code_base an + p)) "code".
Definition code_bytes (an : CodeAnalysis) (p n : Z) : M bytes :=
  if in_bounds (code_mem an) (code_base an + p) n then mret (slice (code_mem an) (code_base an + p) n) else ub "code".
