(* ===== verification/EvmInstructions.v ===== *)
(** * The instructions of the EVM

    pkgs/evmweak/instructions.hpp, instructions_calls.cpp and
    instructions_storage.cpp: one definition per instruction, by the name it has
    there.  [core.impl] of an opcode either leaves the position to the
    interpreter ([INext]) or computes it ([IJump]).  Popped items are dropped
    from the stack at once; the source lowers the top by the tabulated
    [stack_height_change] afterwards. *)
From Stdlib Require Import ZArith Strings.Byte Strings.String Lia.
From stdpp Require Import base tactics option numbers list.
From S2P Require Import Prelude Keccak Words Evmc EvmTraits EvmAnalysis EvmState.

Local Open Scope Z_scope.

(** ** Word arithmetic on the 64-bit parts *)

(** [x[sign_word_index]] is read and written through 64-bit words. *)
Definition signextend_word (ext x : Z) : Z :=
  if ext <? 31 then
    let e := limb ext 0 in
    let sign_word_index := e / 8 in
    let sign_byte_index := e mod 8 in
    let sign_word := limb x sign_word_index in
    let sign_byte_offset := sign_byte_index * 8 in
    let sign_byte := Z.shiftr sign_word sign_byte_offset in
    let sext_byte := u64 (wraps 8 sign_byte) in
    let sext := u64 (Z.shiftl sext_byte sign_byte_offset) in
    let sign_mask := u64 (Z.shiftl (2 ^ 64 - 1) sign_byte_offset) in
    let value := Z.land sign_word (Z.lxor sign_mask (2 ^ 64 - 1)) in
    let x := set_limb x sign_word_index (Z.lor sext value) in
    let sign_ex := u64 (Z.shiftr (i64 sext_byte) 8) in
    foldl (λ x i, if sign_word_index <? i then set_limb x i sign_ex else x) x [3; 2; 1]
  else x.
Definition byte_word (n x : Z) : Z :=
  let n_valid := n <? 32 in
  let byte_mask := if n_valid then 255 else 0 in
  let index := 31 - limb n 0 mod 32 in
  let word := limb x (index / 8) in
  let byte_index := index mod 8 in
  Z.land (Z.shiftr word (byte_index * 8)) byte_mask.
Definition sar_word (y x : Z) : Z :=
  let is_neg := neg64 (limb x 3) in
  let sign_mask := if is_neg then unot 0 else 0 in
  let mask_shift := if y <? 256 then u64 (256 - limb y 0) else 0 in
  Z.lor (ushr x y) (shl64 sign_mask mask_shift).

(** ** Instructions on the stack alone *)
Definition noop : M unit := mret tt.
Definition pop_ : M unit := _ ← pop; mret tt.
Definition stop_impl (status : Z) : M unit := stop status.
(** [stack.top() = f(stack.pop(), stack.top())]. *)
Definition binary (f : Z → Z → Z) : M unit := x ← pop; y ← pop; push (f x y).
Definition add : M unit := binary (λ x y, u256 (y + x)).
Definition mul : M unit := binary (λ x y, u256 (y * x)).
Definition sub : M unit := binary (λ x y, u256 (x - y)).
Definition div : M unit := binary (λ x v, if negb (v =? 0) then x / v else 0).
Definition sdiv : M unit := binary (λ x v, if negb (v =? 0) then (sdivrem x v).1 else 0).
Definition mod_ : M unit := binary (λ x v, if negb (v =? 0) then x mod v else 0).
Definition smod : M unit := binary (λ x v, if negb (v =? 0) then (sdivrem x v).2 else 0).
Definition addmod_ : M unit := x ← pop; y ← pop; m ← pop; push (if negb (m =? 0) then addmod x y m else 0).
Definition mulmod_ : M unit := x ← pop; y ← pop; m ← pop; push (if negb (m =? 0) then mulmod x y m else 0).
Definition signextend : M unit := binary signextend_word.
Definition lt : M unit := binary (λ x y, bool_word (x <? y)).
Definition gt : M unit := binary (λ x y, bool_word (y <? x)).
Definition slt_ : M unit := binary (λ x y, bool_word (slt x y)).
Definition sgt : M unit := binary (λ x y, bool_word (slt y x)).
Definition eq : M unit := binary (λ x y, bool_word (x =? y)).
Definition iszero : M unit := x ← pop; push (bool_word (x =? 0)).
Definition and_ : M unit := binary (λ x y, Z.land y x).
Definition or_ : M unit := binary (λ x y, Z.lor y x).
Definition xor_ : M unit := binary (λ x y, Z.lxor y x).
Definition not_ : M unit := x ← pop; push (unot x).
Definition byte_ : M unit := binary byte_word.
Definition shl : M unit := binary (λ s x, ushl x s).
Definition shr : M unit := binary (λ s x, ushr x s).
Definition sar : M unit := binary sar_word.
Definition push0 : M unit := push 0.
Definition dup (N : nat) : M unit := x ← item (N - 1); push x.
Definition swap (N : nat) : M unit := a ← item N; t ← item 0; set_item 0 a ≫= λ _, set_item N t.
Definition msize : M unit := n ← mem_size; push (u64 n).
Definition gas_ : M unit := g ← get_gas; push (u64 g).

Section instructions.
Context (msg : evmc_message) (rev : Z) (original_code : bytes) (an : CodeAnalysis).

Definition in_static_mode : bool := negb (Z.land (flags msg) EVMC_STATIC =? 0).
Definition input_size : Z := Z.of_nat (length (input_data msg)).
Definition code_size : Z := Z.of_nat (length original_code).
(** [intx::be::trunc<evmc::address>] and [store<bytes32>]. *)
Definition trunc_address (x : Z) : bytes := be_store 20 x.
Definition store32 (x : Z) : bytes := be_store 32 x.

Definition exp : M unit :=
  base ← pop; exponent ← pop;
  let exponent_cost := if EVMC_SPURIOUS_DRAGON <=? rev then 50 else 10 in
  charge (count_significant_bytes exponent * exponent_cost) ≫= λ _,
  push (uexp base exponent).

(** *** Memory *)
Definition keccak256_ : M unit :=
  index ← pop; size ← pop;
  require (check_memory index size) ≫= λ _,
  let s := limb size 0 in
  charge (num_words s * 6) ≫= λ _,
  data ← (if negb (s =? 0) then mem_read (limb index 0) s else mret []);
  push (be_load (keccak256 data)).
Definition mload : M unit :=
  index ← pop;
  require (check_memory64 index 32) ≫= λ _,
  b ← mem_read (limb index 0) 32;
  push (be_load b).
Definition mstore : M unit :=
  index ← pop; value ← pop;
  require (check_memory64 index 32) ≫= λ _,
  mem_write (limb index 0) (store32 value).
Definition mstore8 : M unit :=
  index ← pop; value ← pop;
  require (check_memory64 index 1) ≫= λ _,
  mem_write (limb index 0) [byte_of_Z value].

(** What CALLDATACOPY and CODECOPY have in common: [copy_size] bytes of [data], then zeros. *)
Definition copy_to_memory (data : bytes) : M unit :=
  mem_index ← pop; input_index ← pop; size ← pop;
  require (check_memory mem_index size) ≫= λ _,
  let data_size := Z.of_nat (length data) in
  let dst := limb mem_index 0 in
  let src := if data_size <? input_index then data_size else limb input_index 0 in
  let s := limb size 0 in
  let copy_size := Z.min s (u64 (data_size - src)) in
  charge (num_words s * 3) ≫= λ _,
  when (0 <? copy_size) (mem_write dst (slice data src copy_size)) ≫= λ _,
  when (0 <? s - copy_size) (mem_write (dst + copy_size) (replicate (Z.to_nat (s - copy_size)) x00)).
Definition calldatacopy : M unit := copy_to_memory (input_data msg).
Definition codecopy : M unit := copy_to_memory original_code.
Definition returndatacopy : M unit :=
  mem_index ← pop; input_index ← pop; size ← pop;
  require (check_memory mem_index size) ≫= λ _,
  let dst := limb mem_index 0 in
  let s := limb size 0 in
  st ← get;
  let n := Z.of_nat (length (return_data st)) in
  if n <? input_index then stop EVMC_INVALID_MEMORY_ACCESS
  else
    let src := limb input_index 0 in
    if n <? u64 (src + s) then stop EVMC_INVALID_MEMORY_ACCESS
    else
      charge (num_words s * 3) ≫= λ _,
      when (0 <? s) (mem_write dst (slice (return_data st) src s)).

(** *** The message and the transaction *)
Definition address : M unit := push (be_load (recipient msg)).
Definition caller : M unit := push (be_load (sender msg)).
Definition callvalue : M unit := push (be_load (msg_value msg)).
Definition origin : M unit := c ← get_tx_context; push (be_load (tx_origin c)).
Definition gasprice : M unit := c ← get_tx_context; push (be_load (tx_gas_price c)).
Definition basefee : M unit := c ← get_tx_context; push (be_load (block_base_fee c)).
Definition coinbase : M unit := c ← get_tx_context; push (be_load (block_coinbase c)).
Definition timestamp : M unit := c ← get_tx_context; push (u64 (block_timestamp c)).
Definition number : M unit := c ← get_tx_context; push (u64 (block_number c)).
Definition prevrandao : M unit := c ← get_tx_context; push (be_load (block_prev_randao c)).
Definition gaslimit : M unit := c ← get_tx_context; push (u64 (block_gas_limit c)).
Definition chainid : M unit := c ← get_tx_context; push (be_load (chain_id c)).
Definition calldataload : M unit :=
  index ← pop;
  if input_size <? index then push 0
  else
    let begin := limb index 0 in
    let end_ := Z.min (begin + 32) input_size in
    let data := slice (input_data msg) begin (end_ - begin) in
    push (be_load (data ++ replicate (32 - length data) x00)).
Definition calldatasize : M unit := push (u64 input_size).
Definition codesize : M unit := push (u64 code_size).
Definition returndatasize : M unit := st ← get; push (u64 (Z.of_nat (length (return_data st)))).

(** *** Accounts *)
Definition cold_account_cost (addr : bytes) (cost : Z) : M unit :=
  if EVMC_BERLIN <=? rev then
    s ← host_access_account addr;
    match s with EVMC_ACCESS_COLD => charge cost | EVMC_ACCESS_WARM => mret tt end
  else mret tt.
Definition balance : M unit :=
  x ← pop; let addr := trunc_address x in
  cold_account_cost addr additional_cold_account_access_cost ≫= λ _,
  b ← host_get_balance addr; push (be_load b).
Definition extcodesize : M unit :=
  x ← pop; let addr := trunc_address x in
  cold_account_cost addr additional_cold_account_access_cost ≫= λ _,
  n ← host_get_code_size addr; push n.
Definition extcodehash : M unit :=
  x ← pop; let addr := trunc_address x in
  cold_account_cost addr additional_cold_account_access_cost ≫= λ _,
  b ← host_get_code_hash addr; push (be_load b).
Definition selfbalance : M unit := b ← host_get_balance (recipient msg); push (be_load b).
Definition extcodecopy : M unit :=
  x ← pop; let addr := trunc_address x in
  mem_index ← pop; input_index ← pop; size ← pop;
  require (check_memory mem_index size) ≫= λ _,
  let s := limb size 0 in
  charge (num_words s * 3) ≫= λ _,
  cold_account_cost addr additional_cold_account_access_cost ≫= λ _,
  when (0 <? s) (
    let src := if max_buffer_size <? input_index then max_buffer_size else limb input_index 0 in
    let dst := limb mem_index 0 in
    data ← host_copy_code addr src s;
    mem_write dst data ≫= λ _,
    let num_bytes_copied := Z.of_nat (length data) in
    let num_bytes_to_clear := u64 (s - num_bytes_copied) in
    when (0 <? num_bytes_to_clear)
      (mem_write (dst + num_bytes_copied) (replicate (Z.to_nat num_bytes_to_clear) x00))).
Definition blockhash : M unit :=
  number ← pop;
  c ← get_tx_context;
  let upper_bound := block_number c in
  d ← signed (upper_bound - 256);
  let lower_bound := Z.max d 0 in
  let n := i64 (limb number 0) in
  header ← (if (number <? u64 upper_bound) && (lower_bound <=? n) then host_get_block_hash n else mret zero32);
  push (be_load header).

(** *** Storage: instructions_storage.cpp *)
Record StorageCostSpec := mkCostSpec { net_cost : bool; warm_access : Z; set_ : Z; reset : Z; clear : Z }.
Definition CostSpec_zero : StorageCostSpec := mkCostSpec false 0 0 0 0.
Definition storage_cost_spec : list StorageCostSpec :=
  let legacy := mkCostSpec false 200 20000 5000 15000 in
  let london := mkCostSpec true warm_storage_read_cost 20000 (5000 - cold_sload_cost) 4800 in
  updates (replicate (Z.to_nat (EVMC_MAX_REVISION + 1)) CostSpec_zero)
    [(EVMC_FRONTIER, legacy); (EVMC_HOMESTEAD, legacy); (EVMC_TANGERINE_WHISTLE, legacy); (EVMC_SPURIOUS_DRAGON, legacy);
     (EVMC_BYZANTIUM, legacy); (EVMC_PETERSBURG, legacy);
     (EVMC_CONSTANTINOPLE, mkCostSpec true 200 20000 5000 15000);
     (EVMC_ISTANBUL, mkCostSpec true 800 20000 5000 15000);
     (EVMC_BERLIN, mkCostSpec true warm_storage_read_cost 20000 (5000 - cold_sload_cost) 15000);
     (EVMC_LONDON, london); (EVMC_PARIS, london); (EVMC_SHANGHAI, london); (EVMC_CANCUN, london)].
(** Cost and refund of a store. *)
Definition sstore_costs (r : Z) (status : evmc_storage_status) : Z * Z :=
  let c := nth (Z.to_nat r) storage_cost_spec CostSpec_zero in
  if negb (net_cost c) then
    match status with
    | EVMC_STORAGE_ADDED | EVMC_STORAGE_DELETED_ADDED | EVMC_STORAGE_DELETED_RESTORED => (set_ c, 0)
    | EVMC_STORAGE_DELETED | EVMC_STORAGE_MODIFIED_DELETED | EVMC_STORAGE_ADDED_DELETED => (reset c, clear c)
    | EVMC_STORAGE_MODIFIED | EVMC_STORAGE_ASSIGNED | EVMC_STORAGE_MODIFIED_RESTORED => (reset c, 0)
    end
  else
    match status with
    | EVMC_STORAGE_ASSIGNED => (warm_access c, 0)
    | EVMC_STORAGE_ADDED => (set_ c, 0)
    | EVMC_STORAGE_DELETED => (reset c, clear c)
    | EVMC_STORAGE_MODIFIED => (reset c, 0)
    | EVMC_STORAGE_DELETED_ADDED => (warm_access c, wraps 16 (- clear c))
    | EVMC_STORAGE_MODIFIED_DELETED => (warm_access c, clear c)
    | EVMC_STORAGE_DELETED_RESTORED => (warm_access c, wraps 16 (reset c - warm_access c - clear c))
    | EVMC_STORAGE_ADDED_DELETED => (warm_access c, wraps 16 (set_ c - warm_access c))
    | EVMC_STORAGE_MODIFIED_RESTORED => (warm_access c, wraps 16 (reset c - warm_access c))
    end.
Definition cold_storage (key : bytes) : M bool :=
  if EVMC_BERLIN <=? rev then
    s ← host_access_storage (recipient msg) key;
    mret match s with EVMC_ACCESS_COLD => true | EVMC_ACCESS_WARM => false end
  else mret false.
Definition sload : M unit :=
  x ← pop; let key := store32 x in
  cold ← cold_storage key;
  when cold (charge (cold_sload_cost - warm_storage_read_cost)) ≫= λ _,
  v ← host_get_storage (recipient msg) key;
  push (be_load v).
Definition add_refund (r : Z) : M unit :=
  s ← get; r ← signed (es_gas_refund s + r); put (set_refund r s).
Definition sstore : M unit :=
  if in_static_mode then stop EVMC_STATIC_MODE_VIOLATION
  else
    g ← get_gas;
    if (EVMC_ISTANBUL <=? rev) && (g <=? 2300) then stop EVMC_OUT_OF_GAS
    else
      k ← pop; let key := store32 k in
      v ← pop; let value := store32 v in
      cold ← cold_storage key;
      let gas_cost_cold := if (cold : bool) then cold_sload_cost else 0 in
      status ← host_set_storage (recipient msg) key value;
      let '(gas_cost_warm, gas_refund) := sstore_costs rev status in
      charge (gas_cost_warm + gas_cost_cold) ≫= λ _,
      add_refund gas_refund.

(** *** Jumps and code *)
Definition jump_impl (dst : Z) : M Z :=
  if (Z.of_nat (length (jumpdest_map an)) <=? dst) || negb (nth (Z.to_nat (limb dst 0)) (jumpdest_map an) false)
  then stop EVMC_BAD_JUMP_DESTINATION
  else mret (limb dst 0).
Definition jump (pos : Z) : M Z := dst ← pop; jump_impl dst.
Definition jumpi (pos : Z) : M Z :=
  dst ← pop; cond ← pop; if negb (cond =? 0) then jump_impl dst else mret (pos + 1).
Definition read_int16 (p : Z) : M Z := opt (read_int16_be (code_mem an) (code_base an + p)) "code".
Definition read_uint16 (p : Z) : M Z := opt (read_uint16_be (code_mem an) (code_base an + p)) "code".
Definition rjump (pos : Z) : M Z := offset ← read_int16 (pos + 1); mret (pos + 3 + offset).
Definition rjumpi (pos : Z) : M Z := cond ← pop; if negb (cond =? 0) then rjump pos else mret (pos + 3).
Definition rjumpv (pos : Z) : M Z :=
  case ← pop;
  count ← code_at an (pos + 1);
  let pc_post := pos + 1 + 1 + count * 2 in
  if count <=? case then mret pc_post
  else rel_offset ← read_int16 (pos + (2 + wrapu 16 case * 2)); mret (pc_post + rel_offset).
Definition pc (pos : Z) : M Z := push (u64 pos) ≫= λ _, mret (pos + 1).

(** [load_partial_push_data<Len>] reads whole machine words. *)
Definition load_partial_push_data (len pos : Z) : M Z :=
  if len =? 1 then code_at an pos
  else if len =? 2 then b ← code_bytes an pos 2; mret (be_load b)
  else if len =? 3 then b ← code_bytes an pos 4; mret (Z.shiftr (be_load b) 8)
  else if len =? 4 then b ← code_bytes an pos 4; mret (be_load b)
  else b ← code_bytes an pos 8; mret (Z.shiftr (be_load b) (8 * (8 - len))).
(** [for (i = 0; i < num_full_words; ++i)], from word [n - 1] down. *)
Fixpoint load_full_words (n : nat) (data r : Z) : M Z :=
  match n with
  | O => mret r
  | S n => b ← code_bytes an data 8; load_full_words n (data + 8) (set_limb r (Z.of_nat n) (be_load b))
  end.
Definition push_ (len : Z) (pos : Z) : M Z :=
  let num_full_words := len / 8 in
  let num_partial_bytes := len mod 8 in
  let data := pos + 1 in
  push 0 ≫= λ _,
  r ← (if negb (num_partial_bytes =? 0) then
         w ← load_partial_push_data num_partial_bytes data; mret (set_limb 0 num_full_words w)
       else mret 0);
  r ← load_full_words (Z.to_nat num_full_words) (data + num_partial_bytes) r;
  set_item 0 r ≫= λ _, mret (pos + (len + 1)).
Definition dupn (pos : Z) : M Z :=
  b ← code_at an (pos + 1);
  let n := b + 1 in
  l ← get_stack;
  if Z.of_nat (length l) <? n then stop EVMC_STACK_UNDERFLOW
  else x ← item (Z.to_nat (n - 1)); push x ≫= λ _, mret (pos + 2).
Definition swapn (pos : Z) : M Z :=
  b ← code_at an (pos + 1);
  let n := b + 1 in
  l ← get_stack;
  if Z.of_nat (length l) <=? n then stop EVMC_STACK_UNDERFLOW
  else swap (Z.to_nat n) ≫= λ _, mret (pos + 2).
Definition callf (pos : Z) : M Z :=
  index ← read_uint16 (pos + 1);
  let header := eof_header an in
  l ← get_stack;
  t ← opt (types header !! Z.to_nat index) "header.types";
  if stack_limit <? Z.of_nat (length l) + max_stack_height t then stop EVMC_STACK_OVERFLOW
  else
    s ← get;
    if stack_limit <=? Z.of_nat (length (call_stack s)) then stop EVMC_STACK_OVERFLOW
    else
      put (set_call_stack (pos + 3 :: call_stack s) s) ≫= λ _,
      o ← opt (code_offsets header !! Z.to_nat index) "header.code_offsets";
      o0 ← opt (head (code_offsets header)) "header.code_offsets";
      mret (o - o0).
Definition retf (pos : Z) : M Z :=
  s ← get;
  match call_stack s with
  | [] => ub "call_stack.back()"
  | p :: l => put (set_call_stack l s) ≫= λ _, mret p
  end.

(** *** Logs and the end *)
Definition log (NumTopics : nat) : M unit :=
  if in_static_mode then set_gas 0 ≫= λ _, stop EVMC_STATIC_MODE_VIOLATION
  else
    offset ← pop; size ← pop;
    require (check_memory offset size) ≫= λ _,
    let o := limb offset 0 in
    let s := limb size 0 in
    charge (s * 8) ≫= λ _,
    topics ← pops NumTopics;
    data ← (if negb (s =? 0) then mem_read o s else mret []);
    host_emit_log (recipient msg) data (store32 <$> topics).
Definition return_impl (status : Z) : M unit :=
  offset ← item 0; size ← item 1;
  require (check_memory offset size) ≫= λ _,
  s ← get;
  let out := limb size 0 in
  put (set_output (if negb (out =? 0) then limb offset 0 else output_offset s) out s) ≫= λ _,
  stop status.
Definition selfdestruct : M unit :=
  if in_static_mode then stop EVMC_STATIC_MODE_VIOLATION
  else
    x ← item 0; let beneficiary := trunc_address x in
    cold_account_cost beneficiary cold_account_access_cost ≫= λ _,
    (if EVMC_TANGERINE_WHISTLE <=? rev then
       b ← (if rev =? EVMC_TANGERINE_WHISTLE then mret true
            else v ← host_get_balance (recipient msg); mret (negb (is_zero32 v)));
       if (b : bool) then e ← host_account_exists beneficiary; when (negb e) (charge 25000) else mret tt
     else mret tt) ≫= λ _,
    done ← host_selfdestruct (recipient msg) beneficiary;
    when (done && (rev <? EVMC_LONDON)) (add_refund 24000) ≫= λ _,
    stop EVMC_SUCCESS.

(** *** Calls: instructions_calls.cpp *)
Inductive call_op := OpCall | OpCallcode | OpDelegatecall | OpStaticcall.
#[global] Instance call_op_eq_dec : EqDecision call_op.
Proof. solve_decision. Defined.
Definition passes_value (op : call_op) : bool := match op with OpCall | OpCallcode => true | _ => false end.
Definition call_kind (op : call_op) : evmc_call_kind :=
  match op with OpDelegatecall => EVMC_DELEGATECALL | OpCallcode => EVMC_CALLCODE | _ => EVMC_CALL end.

Definition call_impl (op : call_op) : M unit :=
  gas ← pop;
  dst ← pop; let dst := trunc_address dst in
  value ← (if passes_value op then pop else mret 0);
  let has_value := negb (value =? 0) in
  input_offset_u256 ← pop; input_size_u256 ← pop; output_offset_u256 ← pop; output_size_u256 ← pop;
  push 0 ≫= λ _,
  s ← get; put (set_return_data [] s) ≫= λ _,
  cold_account_cost dst additional_cold_account_access_cost ≫= λ _,
  require (check_memory input_offset_u256 input_size_u256) ≫= λ _,
  require (check_memory output_offset_u256 output_size_u256) ≫= λ _,
  let input_offset := limb input_offset_u256 0 in
  let input_size := limb input_size_u256 0 in
  let output_offset := limb output_offset_u256 0 in
  let output_size := limb output_size_u256 0 in
  input ← (if 0 <? input_size then mem_read input_offset input_size else mret []);
  let cost := if has_value then 9000 else 0 in
  cost ← (match op with
          | OpCall =>
              if has_value && in_static_mode then stop EVMC_STATIC_MODE_VIOLATION
              else if has_value || (rev <? EVMC_SPURIOUS_DRAGON) then
                e ← host_account_exists dst; mret (if negb e then cost + 25000 else cost)
              else mret cost
          | _ => mret cost
          end);
  charge cost ≫= λ _,
  let msg_gas := if gas <? u64 int64_max then i64 (limb gas 0) else int64_max in
  gas_left' ← get_gas;
  msg_gas ← (if EVMC_TANGERINE_WHISTLE <=? rev then mret (Z.min msg_gas (gas_left' - Z.quot gas_left' 64))
             else if gas_left' <? msg_gas then stop EVMC_OUT_OF_GAS else mret msg_gas);
  msg_gas ← (if has_value then
               m ← signed (msg_gas + 2300); g ← signed (gas_left' + 2300); set_gas g ≫= λ _, mret m
             else mret msg_gas);
  if 1024 <=? depth msg then mret tt
  else
    poor ← (if has_value then b ← host_get_balance (recipient msg); mret (be_load b <? value) else mret false);
    if (poor : bool) then mret tt
    else
      result ← host_call (mkMsg (call_kind op) (if bool_decide (op = OpStaticcall) then EVMC_STATIC else flags msg)
        (depth msg + 1) msg_gas
        (match op with OpCall | OpStaticcall => dst | _ => recipient msg end)
        (if bool_decide (op = OpDelegatecall) then sender msg else recipient msg)
        input
        (if bool_decide (op = OpDelegatecall) then msg_value msg else store32 value)
        zero32 dst);
      s ← get; put (set_return_data (output result) s) ≫= λ _,
      set_item 0 (bool_word (status_code result =? EVMC_SUCCESS)) ≫= λ _,
      let copy_size := Z.min output_size (Z.of_nat (length (output result))) in
      when (0 <? copy_size) (mem_write output_offset (slice (output result) 0 copy_size)) ≫= λ _,
      gas_used ← signed (msg_gas - gas_left result);
      g ← get_gas; g ← signed (g - gas_used); set_gas g ≫= λ _,
      add_refund (gas_refund result).

Definition create_impl (create2 : bool) : M unit :=
  if in_static_mode then stop EVMC_STATIC_MODE_VIOLATION
  else
    endowment ← pop; init_code_offset_u256 ← pop; init_code_size_u256 ← pop;
    salt ← (if create2 then pop else mret 0);
    push 0 ≫= λ _,
    s ← get; put (set_return_data [] s) ≫= λ _,
    require (check_memory init_code_offset_u256 init_code_size_u256) ≫= λ _,
    let init_code_offset := limb init_code_offset_u256 0 in
    let init_code_size := limb init_code_size_u256 0 in
    if (EVMC_SHANGHAI <=? rev) && (0xC000 <? init_code_size) then stop EVMC_OUT_OF_GAS
    else
      let init_code_word_cost := 6 * bool_word create2 + 2 * bool_word (EVMC_SHANGHAI <=? rev) in
      charge (num_words init_code_size * init_code_word_cost) ≫= λ _,
      if 1024 <=? depth msg then mret tt
      else
        poor ← (if negb (endowment =? 0) then b ← host_get_balance (recipient msg); mret (be_load b <? endowment)
                else mret false);
        if (poor : bool) then mret tt
        else
          g ← get_gas;
          let msg_gas := if EVMC_TANGERINE_WHISTLE <=? rev then g - Z.quot g 64 else g in
          input ← (if 0 <? init_code_size then mem_read init_code_offset init_code_size else mret []);
          result ← host_call (mkMsg (if create2 then EVMC_CREATE2 else EVMC_CREATE) 0 (depth msg + 1) msg_gas
            zero20 (recipient msg) input (store32 endowment) (store32 salt) zero20);
          gas_used ← signed (msg_gas - gas_left result);
          g ← get_gas; g ← signed (g - gas_used); set_gas g ≫= λ _,
          add_refund (gas_refund result) ≫= λ _,
          s ← get; put (set_return_data (output result) s) ≫= λ _,
          when (status_code result =? EVMC_SUCCESS) (set_item 0 (be_load (create_address result))).

(** ** [core::impl]: opcode to instruction *)
Inductive Impl := INext (c : M unit) | IJump (c : Z → M Z).
Definition between (op first last : Z) : bool := (first <=? op) && (op <=? last).
Definition simple_impls : list (Z * Impl) :=
  [(OP_STOP, INext (stop_impl EVMC_SUCCESS)); (OP_ADD, INext add); (OP_MUL, INext mul); (OP_SUB, INext sub);
   (OP_DIV, INext div); (OP_SDIV, INext sdiv); (OP_MOD, INext mod_); (OP_SMOD, INext smod); (OP_ADDMOD, INext addmod_);
   (OP_MULMOD, INext mulmod_); (OP_EXP, INext exp); (OP_SIGNEXTEND, INext signextend); (OP_LT, INext lt);
   (OP_GT, INext gt); (OP_SLT, INext slt_); (OP_SGT, INext sgt); (OP_EQ, INext eq); (OP_ISZERO, INext iszero);
   (OP_AND, INext and_); (OP_OR, INext or_); (OP_XOR, INext xor_); (OP_NOT, INext not_); (OP_BYTE, INext byte_);
   (OP_SHL, INext shl); (OP_SHR, INext shr); (OP_SAR, INext sar); (OP_KECCAK256, INext keccak256_);
   (OP_ADDRESS, INext address); (OP_BALANCE, INext balance); (OP_ORIGIN, INext origin); (OP_CALLER, INext caller);
   (OP_CALLVALUE, INext callvalue); (OP_CALLDATALOAD, INext calldataload); (OP_CALLDATASIZE, INext calldatasize);
   (OP_CALLDATACOPY, INext calldatacopy); (OP_CODESIZE, INext codesize); (OP_CODECOPY, INext codecopy);
   (OP_GASPRICE, INext gasprice); (OP_EXTCODESIZE, INext extcodesize); (OP_EXTCODECOPY, INext extcodecopy);
   (OP_RETURNDATASIZE, INext returndatasize); (OP_RETURNDATACOPY, INext returndatacopy);
   (OP_EXTCODEHASH, INext extcodehash); (OP_BLOCKHASH, INext blockhash); (OP_COINBASE, INext coinbase);
   (OP_TIMESTAMP, INext timestamp); (OP_NUMBER, INext number); (OP_PREVRANDAO, INext prevrandao);
   (OP_GASLIMIT, INext gaslimit); (OP_CHAINID, INext chainid); (OP_SELFBALANCE, INext selfbalance);
   (OP_BASEFEE, INext basefee); (OP_POP, INext pop_); (OP_MLOAD, INext mload); (OP_MSTORE, INext mstore);
   (OP_MSTORE8, INext mstore8); (OP_SLOAD, INext sload); (OP_SSTORE, INext sstore); (OP_JUMP, IJump jump);
   (OP_JUMPI, IJump jumpi); (OP_PC, IJump pc); (OP_MSIZE, INext msize); (OP_GAS, INext gas_);
   (OP_JUMPDEST, INext noop); (OP_RJUMP, IJump rjump); (OP_RJUMPI, IJump rjumpi); (OP_RJUMPV, IJump rjumpv);
   (OP_PUSH0, INext push0); (OP_CALLF, IJump callf); (OP_RETF, IJump retf); (OP_DUPN, IJump dupn);
   (OP_SWAPN, IJump swapn); (OP_CREATE, INext (create_impl false)); (OP_CALL, INext (call_impl OpCall));
   (OP_CALLCODE, INext (call_impl OpCallcode)); (OP_RETURN, INext (return_impl EVMC_SUCCESS));
   (OP_DELEGATECALL, INext (call_impl OpDelegatecall)); (OP_CREATE2, INext (create_impl true));
   (OP_STATICCALL, INext (call_impl OpStaticcall)); (OP_REVERT, INext (return_impl EVMC_REVERT));
   (OP_INVALID, INext (stop_impl EVMC_INVALID_INSTRUCTION)); (OP_SELFDESTRUCT, INext selfdestruct)].
Fixpoint find_impl (op : Z) (l : list (Z * Impl)) : option Impl :=
  match l with [] => None | (o, i) :: l => if o =? op then Some i else find_impl op l end.
(** The templates with a parameter: [push<Len>], [dup<N>], [swap<N>], [log<NumTopics>]. *)
Definition impl (op : Z) : option Impl :=
  if between op OP_PUSH1 OP_PUSH32 then Some (IJump (push_ (op - OP_PUSH1 + 1)))
  else if between op OP_DUP1 OP_DUP16 then Some (INext (dup (Z.to_nat (op - OP_DUP1 + 1))))
  else if between op OP_SWAP1 OP_SWAP16 then Some (INext (swap (Z.to_nat (op - OP_SWAP1 + 1))))
  else if between op OP_LOG0 OP_LOG4 then Some (INext (log (Z.to_nat (op - OP_LOG0))))
  else find_impl op simple_impls.
End instructions.
