(* ===== verification/EvmBaseline.v ===== *)
(** * The interpreter loop

    pkgs/evmweak/baseline.cpp: the requirements of an instruction, the dispatch
    loop, and [execute], from a message and a code to a result.

    The loop has no bound in the source; here it has fuel, a binary number
    ([iterate]), so that 2^63 turns can be allowed for and the turns that happen
    can be computed.  [enough_fuel], more than that, is enough when calls give
    back no more gas than they got (EvmLoop); a run that lasted longer would
    count as undefined. *)
From Stdlib Require Import ZArith Strings.Byte Strings.String Lia.
From stdpp Require Import base tactics option numbers list.
From S2P Require Import Prelude Words Evmc EvmTraits EvmAnalysis EvmState EvmInstructions.

Local Open Scope Z_scope.

(** [EVMC_SUCCESS] or the failed check; the gas is charged last. *)
Definition check_requirements (cost_table : list Z) (op : Z) : M unit :=
  let gas_cost := if has_const_gas_cost op then gas_costs_at EVMC_FRONTIER op else cost_at cost_table op in
  if gas_cost <? 0 then stop EVMC_UNDEFINED_INSTRUCTION
  else
    l ← get_stack;
    let height := Z.of_nat (length l) in
    if (0 <? stack_height_change (traits_at op)) && (height =? stack_limit) then stop EVMC_STACK_OVERFLOW
    else if (0 <? stack_height_required (traits_at op)) && (height <=? stack_height_required (traits_at op) - 1)
    then stop EVMC_STACK_UNDERFLOW
    else charge gas_cost.

Section interpreter.
Context (msg : evmc_message) (rev : Z) (original_code : bytes) (an : CodeAnalysis).
Context (cost_table : list Z).

(** [invoke<Op>]: the requirements, the instruction, the next position. *)
Definition invoke (op : Z) (i : Impl) (pos : Z) : M Z :=
  check_requirements cost_table op ≫= λ _,
  match i with
  | INext c => c ≫= λ _, mret (pos + 1)
  | IJump c => c pos
  end.
(** One turn of [dispatch]. *)
Definition turn (pos : Z) : M Z :=
  op ← code_at an pos;
  match impl msg rev original_code an op with
  | None => stop EVMC_UNDEFINED_INSTRUCTION
  | Some i => invoke op i pos
  end.

(** At most [n] turns; [Go] when they were not enough. *)
Fixpoint iterate (n : positive) (pos : Z) : M Z :=
  match n with
  | xH => turn pos
  | xO n => iterate n pos ≫= iterate n
  | xI n => turn pos ≫= λ pos, iterate n pos ≫= iterate n
  end.
End interpreter.

(** 2^63 turns for each byte: a turn costs gas or goes forward. *)
Definition enough_fuel (an : CodeAnalysis) : positive :=
  Z.to_pos ((int64_max + 1) * (Z.of_nat (length (code_mem an)) + 1)).

(** What [execute] makes of the final state. *)
Definition finish (status : Z) (m : Machine) : VmProg Result :=
  let s := state m in
  let gas_left := if (status =? EVMC_SUCCESS) || (status =? EVMC_REVERT) then mgas m else 0 in
  let gas_refund := if status =? EVMC_SUCCESS then es_gas_refund s else 0 in
  if negb (output_size s =? 0) then
    if in_bounds (memory s) (output_offset s) (output_size s) then
      mret (evmc_make_result status gas_left gas_refund (slice (memory s) (output_offset s) (output_size s)))
    else VmUB "memory"
  else mret (evmc_make_result status gas_left gas_refund []).

Definition execute (rev : Z) (msg : evmc_message) (code : bytes) : VmProg Result :=
  match analyze rev code with
  | None => VmUB "EOF container"
  | Some an =>
      let cost_table := get_baseline_cost_table rev (version (eof_header an)) in
      iterate msg rev code an cost_table (enough_fuel an) 0 (mkMachine [] (gas msg) ExecutionState_ctor)
      ≫= λ r, match r with Stop status m => finish status m | Go _ _ => VmUB "out of fuel" end
  end.
(** As the host runs it: [vm.execute(h, EVMC_MAX_REVISION, msg, ..)]. *)
Definition evmweak (msg : evmc_message) (code : bytes) : VmProg Result := execute EVMC_MAX_REVISION msg code.
