(* ===== verification/EvmLogic.v ===== *)
(** * A program logic for the EVM interpreter

    [mok C Q S c m]: run from the machine [m], the computation [c] makes only
    requests that the contract [C] allows and does nothing undefined, as long as
    the answers keep their promises; if it goes on with [a] in [m'] then
    [Q a m'], if it stops with a status then [S].  A rule per primitive. *)
From Stdlib Require Import ZArith Strings.Byte Strings.String Lia.
From stdpp Require Import base tactics option numbers list.
From S2P Require Import Prelude Words Evmc EvmTraits EvmAnalysis EvmState.

Local Open Scope Z_scope.

Definition mok {A} (C : Contract) (Q : A → Machine → Prop) (S : Z → Machine → Prop) (c : M A) (m : Machine) : Prop :=
  prog_ok C (λ r, match r with Go a m' => Q a m' | Stop s m' => S s m' end) (c m).

(** ** Invariants *)

(** Memory: whole words, at most 2^33 bytes. *)
Definition mem_ok (mem : bytes) : Prop :=
  Z.of_nat (length mem) mod 32 = 0 ∧ Z.of_nat (length mem) <= 2 ^ 33.
Definition st_ok (s : ExecutionState) : Prop :=
  mem_ok (memory s) ∧ is_u64 (Z.of_nat (length (return_data s))) ∧ tx_context_ok (m_tx s)
  ∧ es_gas_refund s = 0 ∧ output_size s = 0.
Definition gas_ok (g : Z) : Prop := 0 <= g <= int64_max.
(** A stopped machine: the gas that is given back is at most [g0]. *)
Definition stopped (g0 : Z) (status : Z) (m : Machine) : Prop :=
  es_gas_refund (state m) = 0 ∧ Z.of_nat (length (memory (state m))) <= 2 ^ 33
  ∧ (output_size (state m) = 0
     ∨ in_bounds (memory (state m)) (output_offset (state m)) (output_size (state m)) = true)
  ∧ (status = EVMC_SUCCESS ∨ status = EVMC_REVERT → 0 <= mgas m <= g0).
Definition fails (status : Z) : Prop := status ≠ EVMC_SUCCESS ∧ status ≠ EVMC_REVERT.

Lemma stopped_fails g0 status l g s : fails status → st_ok s → stopped g0 status (mkMachine l g s).
Proof.
  intros [H1 H2] ((_ & ?) & _ & _ & ? & ?). unfold stopped. cbn. split; [done|]. split; [done|]. split; [by left|].
  by intros [|].
Qed.
Lemma stopped_mono g1 g2 status m : g1 <= g2 → stopped g1 status m → stopped g2 status m.
Proof. intros Hg (H1 & H2 & H3 & H4). do 3 (split; [done|]). intros Hs. specialize (H4 Hs). lia. Qed.
Lemma st_ok_memory s mem : st_ok s → mem_ok mem → st_ok (set_memory mem s).
Proof. intros (_ & H) Hm. exact (conj Hm H). Qed.
Lemma st_ok_return_data s d : st_ok s → is_u64 (Z.of_nat (length d)) → st_ok (set_return_data d s).
Proof. intros (H1 & _ & H3) Hd. exact (conj H1 (conj Hd H3)). Qed.
Lemma st_ok_tx s c : st_ok s → tx_context_ok c → st_ok (set_tx c s).
Proof. intros (H1 & H2 & _ & H3) Hd. exact (conj H1 (conj H2 (conj Hd H3))). Qed.
Lemma st_ok_call_stack s l : st_ok s → st_ok (set_call_stack l s).
Proof. done. Qed.
Lemma st_ok_refund s : st_ok s → st_ok (set_refund 0 s).
Proof. intros (H1 & H2 & H3 & _ & H5). exact (conj H1 (conj H2 (conj H3 (conj eq_refl H5)))). Qed.
Lemma st_ok_ctor : st_ok ExecutionState_ctor.
Proof. by vm_compute. Qed.

Section rules.
Context {A : Type} (C : Contract) (Q : A → Machine → Prop) (S : Z → Machine → Prop).

Lemma mok_bind {B} (c : M B) (k : B → M A) m :
  mok C (λ b m', mok C Q S (k b) m') S c m → mok C Q S (c ≫= k) m.
Proof.
  intros H. eapply prog_ok_bind; [exact H|]. intros [b m'|s m'] Hr; exact Hr.
Qed.
Lemma mok_mono (Q' : A → Machine → Prop) c m :
  (∀ a m', Q' a m' → Q a m') → mok C Q' S c m → mok C Q S c m.
Proof. intros HQ. apply prog_ok_mono. intros [a m'|s m']; auto. Qed.
Lemma mok_ret a m : Q a m → mok C Q S (mret a) m.
Proof. done. Qed.
Lemma mok_stop status m : S status m → mok C Q S (stop status) m.
Proof. done. Qed.
Lemma mok_opt o a why m : o = Some a → Q a m → mok C Q S (opt o why) m.
Proof. by intros ->. Qed.
Lemma mok_if (b : bool) (c1 c2 : M A) m :
  (b = true → mok C Q S c1 m) → (b = false → mok C Q S c2 m) → mok C Q S (if b then c1 else c2) m.
Proof. destruct b; auto. Qed.
End rules.

Section primitives.
Context (C : Contract) (S : Z → Machine → Prop).
Implicit Types (l : list Z) (g : Z) (s : ExecutionState).

Lemma mok_get Q l g s : Q s (mkMachine l g s) → mok C Q S get (mkMachine l g s).
Proof. done. Qed.
Lemma mok_put Q s' l g s : Q tt (mkMachine l g s') → mok C Q S (put s') (mkMachine l g s).
Proof. done. Qed.
Lemma mok_get_gas Q l g s : Q g (mkMachine l g s) → mok C Q S get_gas (mkMachine l g s).
Proof. done. Qed.
Lemma mok_set_gas Q g' l g s : Q tt (mkMachine l g' s) → mok C Q S (set_gas g') (mkMachine l g s).
Proof. done. Qed.
Lemma mok_get_stack Q l g s : Q l (mkMachine l g s) → mok C Q S get_stack (mkMachine l g s).
Proof. done. Qed.
Lemma mok_pop Q x l g s : Q x (mkMachine l g s) → mok C Q S pop (mkMachine (x :: l) g s).
Proof. done. Qed.
Lemma mok_push Q x l g s :
  Z.of_nat (length l) < stack_limit → Q tt (mkMachine (x :: l) g s) → mok C Q S (push x) (mkMachine l g s).
Proof.
  intros Hl HQ. unfold push. apply mok_bind, mok_get_stack. apply Z.ltb_lt in Hl. rewrite Hl. exact HQ.
Qed.
Lemma mok_item Q i x l g s : l !! i = Some x → Q x (mkMachine l g s) → mok C Q S (item i) (mkMachine l g s).
Proof. intros Hi HQ. unfold item. apply mok_bind, mok_get_stack. rewrite Hi. exact HQ. Qed.
Lemma mok_set_item Q i x l g s :
  (i < length l)%nat → Q tt (mkMachine (<[i := x]> l) g s) → mok C Q S (set_item i x) (mkMachine l g s).
Proof.
  intros Hi HQ. unfold set_item. apply mok_bind, mok_get_stack. apply Nat.ltb_lt in Hi. rewrite Hi. exact HQ.
Qed.
Lemma mok_pops Q xs l g s : Q xs (mkMachine l g s) → mok C Q S (pops (length xs)) (mkMachine (xs ++ l) g s).
Proof.
  revert Q. induction xs as [|x xs IH]; intros Q HQ; [done|].
  cbn [pops length app]. apply mok_bind, mok_pop, mok_bind, IH, mok_ret, HQ.
Qed.
Lemma mok_signed Q z m : - 2 ^ 63 <= z < 2 ^ 63 → Q z m → mok C Q S (signed z) m.
Proof.
  intros Hz HQ. unfold signed. destruct (Z.leb_spec (- 2 ^ 63) z); [|lia]. destruct (Z.ltb_spec z (2 ^ 63)); [|lia]. exact HQ.
Qed.
Lemma mok_when Q (b : bool) c m : (b = true → mok C Q S c m) → (b = false → Q tt m) → mok C Q S (when b c) m.
Proof. destruct b; intros H1 H2; [by apply H1|by apply mok_ret, H2]. Qed.

(** Requests. *)
Lemma mok_account_exists Q a m : (∀ b, Q b m) → mok C Q S (host_account_exists a) m.
Proof. intros H b. apply H. Qed.
Lemma mok_get_storage Q a key m :
  length key = 32%nat → (∀ v, length v = 32%nat → Q v m) → mok C Q S (host_get_storage a key) m.
Proof. intros Hk H. split; [done|]. intros v Hv. by apply H. Qed.
Lemma mok_set_storage Q a key v m :
  length key = 32%nat → length v = 32%nat → (∀ r, Q r m) → mok C Q S (host_set_storage a key v) m.
Proof. intros Hk Hv H. split; [done|]. split; [done|]. intros r. by apply H. Qed.
Lemma mok_get_balance Q a m : (∀ v, length v = 32%nat → Q v m) → mok C Q S (host_get_balance a) m.
Proof. intros H v Hv. by apply H. Qed.
Lemma mok_get_code_size Q a m : (∀ n, is_u64 n → Q n m) → mok C Q S (host_get_code_size a) m.
Proof. intros H v Hv. by apply H. Qed.
Lemma mok_get_code_hash Q a m : (∀ v, length v = 32%nat → Q v m) → mok C Q S (host_get_code_hash a) m.
Proof. intros H v Hv. by apply H. Qed.
Lemma mok_copy_code Q a o n m :
  may_copy C → (∀ v, Z.of_nat (length v) <= n → Q v m) → mok C Q S (host_copy_code a o n) m.
Proof. intros Hc H. split; [done|]. intros v Hv. by apply H. Qed.
Lemma mok_host_selfdestruct Q a b m : (∀ r, Q r m) → mok C Q S (host_selfdestruct a b) m.
Proof. intros H r. apply H. Qed.
Lemma mok_host_call Q msg m :
  may_call C msg → (∀ r, call_promise C msg r → Q r m) → mok C Q S (host_call msg) m.
Proof. intros Hc H. split; [done|]. intros r Hr. by apply H. Qed.
Lemma mok_get_block_hash Q n m : (∀ v, length v = 32%nat → Q v m) → mok C Q S (host_get_block_hash n) m.
Proof. intros H v Hv. by apply H. Qed.
Lemma mok_access_account Q a m : (∀ r, Q r m) → mok C Q S (host_access_account a) m.
Proof. intros H r. apply H. Qed.
Lemma mok_access_storage Q a key m : (∀ r, Q r m) → mok C Q S (host_access_storage a key) m.
Proof. intros H r. apply H. Qed.
Lemma mok_emit_log Q a d t m : Q tt m → mok C Q S (host_emit_log a d t) m.
Proof. done. Qed.
Lemma mok_get_tx_context Q l g s :
  st_ok s → (∀ c s', tx_context_ok c → st_ok s' → Q c (mkMachine l g s')) → mok C Q S get_tx_context (mkMachine l g s).
Proof.
  intros Hs HQ. unfold get_tx_context. apply mok_bind, mok_get, mok_bind, mok_when; intros _.
  - apply mok_bind. intros c Hc. apply mok_put, mok_bind, mok_get, mok_ret, HQ; [done|by apply st_ok_tx].
  - apply mok_bind, mok_get, mok_ret, HQ; [apply Hs|done].
Qed.
End primitives.

(** ** Gas *)
Section gas.
Context (C : Contract) (g0 : Z).
Implicit Types (l : list Z) (g : Z) (s : ExecutionState).

Lemma mok_fail {A} (Q : A → Machine → Prop) status l g s :
  fails status → st_ok s → mok C Q (stopped g0) (stop status) (mkMachine l g s).
Proof. intros Hf Hs. by apply mok_stop, stopped_fails. Qed.
Lemma mok_charge Q cost l g s :
  0 <= cost < 2 ^ 62 → gas_ok g → st_ok s → (cost <= g → Q tt (mkMachine l (g - cost) s)) →
  mok C Q (stopped g0) (charge cost) (mkMachine l g s).
Proof.
  intros Hc Hg Hs HQ. unfold gas_ok, int64_max in Hg. unfold charge.
  apply mok_bind, mok_get_gas, mok_bind, mok_signed; [lia|].
  apply mok_bind, mok_set_gas, mok_if; intros Hb.
  - by apply mok_fail.
  - apply mok_ret, HQ. apply Z.ltb_ge in Hb. lia.
Qed.
End gas.

(** ** Memory *)
Lemma num_words_spec n : 0 <= n <= 2 ^ 34 → num_words n = (n + 31) / 32.
Proof.
  intros Hn. unfold num_words, word_size. rewrite u64_small by (unfold is_u64; lia).
  apply i64_small. pose proof (Z.div_pos (n + 31) 32 ltac:(lia) ltac:(lia)).
  assert ((n + 31) / 32 < 2 ^ 30) by (apply Z.div_lt_upper_bound; lia). unfold is_i64.
  change (32 - 1) with 31. lia.
Qed.
Lemma memory_cost_mono a b : 0 <= a <= b → memory_cost a <= memory_cost b.
Proof. intros. unfold memory_cost. pose proof (Z.div_le_mono (a * a) (b * b) 512 ltac:(lia) ltac:(nia)). lia. Qed.
Lemma memory_cost_bound w : 0 <= w <= 2 ^ 28 → 0 <= memory_cost w < 2 ^ 48.
Proof.
  intros. unfold memory_cost. pose proof (Z.div_pos (w * w) 512 ltac:(nia) ltac:(lia)).
  assert (w * w / 512 < 2 ^ 47 + 1) by (apply Z.div_lt_upper_bound; nia). lia.
Qed.
Lemma mem_words mem : mem_ok mem → Z.of_nat (length mem) = 32 * (Z.of_nat (length mem) / word_size) ∧ 0 <= Z.of_nat (length mem) / word_size <= 2 ^ 28.
Proof.
  intros [Hm Hl]. unfold word_size. pose proof (Z.div_mod (Z.of_nat (length mem)) 32 ltac:(lia)).
  pose proof (Z.div_pos (Z.of_nat (length mem)) 32 ltac:(lia) ltac:(lia)). lia.
Qed.
Lemma Memory_grow_length mem n : Z.of_nat (length mem) <= n → Z.of_nat (length (Memory_grow mem n)) = n.
Proof. intros. unfold Memory_grow. rewrite length_app, length_replicate. lia. Qed.
Lemma set_memory_same s : set_memory (memory s) s = s.
Proof. by destruct s. Qed.

Section memory.
Context (C : Contract) (g0 : Z).
Implicit Types (l : list Z) (g : Z) (s : ExecutionState).

Lemma mok_mem_size Q l g s : Q (Z.of_nat (length (memory s))) (mkMachine l g s) → mok C Q (stopped g0) mem_size (mkMachine l g s).
Proof. done. Qed.
(** Growing to more than there is: the memory has the words that are needed,
    the gas pays for the difference. *)
Lemma mok_grow Q new_size l g s :
  st_ok s → gas_ok g → Z.of_nat (length (memory s)) < new_size <= 2 ^ 33 →
  (let nw := (new_size + 31) / 32 in
   let cost := memory_cost nw - memory_cost (Z.of_nat (length (memory s)) / 32) in
   0 <= cost < 2 ^ 48 ∧ new_size <= nw * 32 <= 2 ^ 33 →
   Q tt (mkMachine l (g - cost)
          (if 0 <=? g - cost then set_memory (Memory_grow (memory s) (nw * 32)) s else s))) →
  mok C Q (stopped g0) (grow_memory new_size) (mkMachine l g s).
Proof.
  intros Hs Hg Hn HQ. destruct (mem_words (memory s) ltac:(apply Hs)) as [Hw Hwb]. unfold word_size in *.
  cbv zeta in HQ. unfold grow_memory, word_size. apply mok_bind, mok_get. rewrite num_words_spec by lia.
  set (nw := (new_size + 31) / 32) in *.
  assert (new_size <= nw * 32 <= 2 ^ 33) as Hnw.
  { unfold nw. pose proof (Z.div_mod (new_size + 31) 32 ltac:(lia)). pose proof (Z.mod_pos_bound (new_size + 31) 32 ltac:(lia)). lia. }
  assert (0 <= nw <= 2 ^ 28) as Hnwb by lia.
  pose proof (memory_cost_bound nw Hnwb). pose proof (memory_cost_bound _ Hwb).
  pose proof (memory_cost_mono (Z.of_nat (length (memory s)) / 32) nw ltac:(lia)).
  cbv zeta. set (cost := memory_cost nw - _) in *. unfold gas_ok, int64_max in Hg.
  apply mok_bind, mok_get_gas, mok_bind, mok_signed; [unfold cost; lia|]. specialize (HQ ltac:(unfold cost; lia)).
  apply mok_bind, mok_when; intros Hb; rewrite Hb in HQ.
  - apply mok_put, mok_set_gas, HQ.
  - apply mok_set_gas, HQ.
Qed.

Definition grown s (mem : bytes) : Prop := mem_ok mem ∧ Z.of_nat (length (memory s)) <= Z.of_nat (length mem).
Lemma mok_require64 Q off size l g s :
  is_u256 off → 0 < size <= max_buffer_size → gas_ok g → st_ok s →
  (∀ mem g', off < 2 ^ 32 → grown s mem → off + size <= Z.of_nat (length mem) → 0 <= g' <= g →
     Q tt (mkMachine l g' (set_memory mem s))) →
  mok C Q (stopped g0) (require (check_memory64 off size)) (mkMachine l g s).
Proof.
  intros Ho Hsz Hg Hs HQ. unfold max_buffer_size in Hsz. unfold require, check_memory64. apply mok_bind, mok_if.
  { intros _. by apply mok_ret, mok_fail. }
  intros [Hh%negb_false_iff%Z.eqb_eq Hl%Z.ltb_ge]%orb_false_iff.
  apply high_words_fold_spec in Hh; [|done]. rewrite limb0_small in * by done. unfold max_buffer_size in Hl.
  rewrite u64_small by (unfold is_u64, is_u256 in *; lia). unfold is_u256 in Ho. cbv zeta.
  apply mok_bind, mok_mem_size, mok_bind, mok_when; intros Hb.
  - apply Z.ltb_lt in Hb. apply mok_grow; [done..|lia|]. cbv zeta. intros [Hc Hn].
    destruct (Z.leb_spec 0 (g - (memory_cost ((off + size + 31) / 32) - memory_cost (Z.of_nat (length (memory s)) / 32)))) as [Hg'|Hg'].
    + apply mok_bind, mok_get_gas, mok_ret. rewrite (proj2 (Z.leb_le _ _)) by exact Hg'. apply mok_ret.
      assert (Z.of_nat (length (Memory_grow (memory s) ((off + size + 31) / 32 * 32))) = (off + size + 31) / 32 * 32) as Hlen
        by (apply Memory_grow_length; lia).
      apply HQ; [lia| |lia|lia]. split; [split; [rewrite Hlen; apply Z.mod_mul; lia|lia]|lia].
    + apply mok_bind, mok_get_gas, mok_ret. rewrite (proj2 (Z.leb_gt _ _)) by exact Hg'. by apply mok_fail.
  - apply Z.ltb_ge in Hb. apply mok_bind, mok_get_gas, mok_ret. unfold gas_ok in Hg. destruct (Z.leb_spec 0 g); [|lia].
    apply mok_ret. rewrite <-(set_memory_same s). apply HQ; [lia| |lia|lia]. split; [apply Hs|lia].
Qed.
(** What a checked range promises. *)
Definition range_ok (mem : bytes) (off size : Z) : Prop :=
  size = 0 ∨ off < 2 ^ 32 ∧ size < 2 ^ 32 ∧ off + size <= Z.of_nat (length mem).
Lemma mok_require Q off size l g s :
  is_u256 off → is_u256 size → gas_ok g → st_ok s →
  (∀ mem g', grown s mem → range_ok mem off size → 0 <= g' <= g → Q tt (mkMachine l g' (set_memory mem s))) →
  mok C Q (stopped g0) (require (check_memory off size)) (mkMachine l g s).
Proof.
  intros Ho Hz Hg Hs HQ. unfold gas_ok in Hg. unfold check_memory. destruct (Z.eqb_spec size 0) as [->|Hsz].
  { apply mok_bind, mok_ret, mok_ret. rewrite <-(set_memory_same s). apply HQ; [|by left|lia]. split; [apply Hs|lia]. }
  destruct (negb (high_words_fold size =? 0) || (max_buffer_size <? limb size 0)) eqn:E.
  { apply mok_bind, mok_ret. by apply mok_fail. }
  apply orb_false_iff in E as [Hh%negb_false_iff%Z.eqb_eq Hl%Z.ltb_ge].
  apply high_words_fold_spec in Hh; [|done]. rewrite limb0_small in * by done. unfold is_u256, max_buffer_size in *.
  apply mok_require64; [done|unfold max_buffer_size; lia|done..|]. intros mem g' Hoff Hm Hr Hg'.
  apply HQ; [done|right; lia|lia].
Qed.
End memory.

Lemma slice_length b off n : 0 <= off → 0 <= n → off + n <= Z.of_nat (length b) → Z.of_nat (length (slice b off n)) = n.
Proof. intros. unfold slice. rewrite length_take, length_drop. lia. Qed.
Lemma overwrite_length b off d :
  0 <= off → off + Z.of_nat (length d) <= Z.of_nat (length b) → length (overwrite b off d) = length b.
Proof. intros. unfold overwrite. rewrite !length_app, length_take, length_drop. lia. Qed.
Lemma in_bounds_true b off n : 0 <= off → 0 <= n → off + n <= Z.of_nat (length b) → in_bounds b off n = true.
Proof.
  intros. unfold in_bounds. rewrite !andb_true_iff, !Z.leb_le. lia.
Qed.

Section memory_access.
Context (C : Contract) (S : Z → Machine → Prop).
Implicit Types (l : list Z) (g : Z) (s : ExecutionState).
Lemma mok_mem_read Q off n l g s :
  0 <= off → 0 <= n → off + n <= Z.of_nat (length (memory s)) →
  (∀ b, Z.of_nat (length b) = n → Q b (mkMachine l g s)) → mok C Q S (mem_read off n) (mkMachine l g s).
Proof.
  intros H1 H2 H3 HQ. unfold mem_read. apply mok_bind, mok_get. rewrite in_bounds_true by done.
  apply mok_ret, HQ. by apply slice_length.
Qed.
Lemma mok_mem_write Q off d l g s :
  0 <= off → off + Z.of_nat (length d) <= Z.of_nat (length (memory s)) →
  (∀ mem, length mem = length (memory s) → Q tt (mkMachine l g (set_memory mem s))) →
  mok C Q S (mem_write off d) (mkMachine l g s).
Proof.
  intros H1 H2 HQ. unfold mem_write. apply mok_bind, mok_get. rewrite in_bounds_true by lia.
  apply mok_put, HQ. by apply overwrite_length.
Qed.
End memory_access.

(** ** Instructions

    From a stack of the required height, with room for the result: the stack
    keeps its words and changes its height as tabulated, gas is not gained and
    the state stays good. *)
Definition after (l : list Z) (g chg : Z) (m : Machine) : Prop :=
  Forall is_u256 (stack m) ∧ Z.of_nat (length (stack m)) = Z.of_nat (length l) + chg
  ∧ 0 <= mgas m <= g ∧ st_ok (state m).
Definition instr_ok (C : Contract) (req chg : Z) (c : M unit) : Prop :=
  ∀ l g s, Forall is_u256 l → req <= Z.of_nat (length l) <= stack_limit →
    Z.of_nat (length l) + chg <= stack_limit → gas_ok g → st_ok s →
    mok C (λ _, after l g chg) (stopped g) c (mkMachine l g s).
(** The same for a jump, whose target is in [T]. *)
Definition jump_ok (C : Contract) (T : Z → Prop) (req chg : Z) (c : M Z) : Prop :=
  ∀ l g s, Forall is_u256 l → req <= Z.of_nat (length l) <= stack_limit →
    Z.of_nat (length l) + chg <= stack_limit → gas_ok g → st_ok s →
    mok C (λ p m, T p ∧ after l g chg m) (stopped g) c (mkMachine l g s).

Lemma after_intro l g chg l' g' s' :
  Forall is_u256 l' → Z.of_nat (length l') = Z.of_nat (length l) + chg → 0 <= g' <= g → st_ok s' →
  after l g chg (mkMachine l' g' s').
Proof. intros H1 H2 H3 H4. exact (conj H1 (conj H2 (conj H3 H4))). Qed.
Lemma be_load_word b : length b = 32%nat → is_u256 (be_load b).
Proof. intros Hb. pose proof (be_load_range b) as Hr. by rewrite Hb in Hr. Qed.
Lemma be_load_addr b : length b = 20%nat → is_u256 (be_load b).
Proof.
  intros Hb. pose proof (be_load_range b) as Hr. rewrite Hb in Hr. unfold is_u256.
  change (256 ^ Z.of_nat 20) with (2 ^ 160) in Hr. lia.
Qed.
Lemma u64_word z : is_u256 (u64 z).
Proof. apply is_u256_lt. apply u64_range. Qed.
Lemma limb_word x i : is_u256 (limb x i).
Proof. apply is_u256_lt. apply limb_range. Qed.
