(* ===== verification/EvmJumps.v ===== *)
(** * Where the instructions of a legacy code start

    [analyze_jumpdests] (pkgs/evmweak/baseline.cpp) passes over the code once,
    skipping the data of pushes.  Here the instruction boundaries are defined as
    the positions that execution can fall through to, and the analysis is proved
    to find exactly the JUMPDESTs among them. *)
From Stdlib Require Import ZArith Strings.Byte Lia.
From stdpp Require Import base tactics option numbers list.
From S2P Require Import Prelude Words EvmTraits EvmAnalysis.

Local Open Scope Z_scope.

(** Bytes of data that follow an instruction. *)
Definition push_size (b : byte) : nat :=
  if (OP_PUSH1 <=? byte_to_Z b) && (byte_to_Z b <=? OP_PUSH32) then Z.to_nat (byte_to_Z b - OP_PUSH1 + 1) else 0%nat.
(** Positions of instructions, when one starts at [k]. *)
Inductive reach (code : bytes) (k : nat) : nat → Prop :=
  | reach_start : reach code k k
  | reach_next p b : reach code k p → code !! p = Some b → reach code k (p + 1 + push_size b).
Definition boundary (code : bytes) : nat → Prop := reach code 0.

(** The disassembly: position and byte of each instruction. *)
Fixpoint instructions_from (skip pos : nat) (code : bytes) : list (nat * byte) :=
  match code with
  | [] => []
  | b :: code =>
      match skip with
      | O => (pos, b) :: instructions_from (push_size b) (S pos) code
      | S skip => instructions_from skip (S pos) code
      end
  end.
Definition instructions (code : bytes) : list (nat * byte) := instructions_from 0 0 code.

(** ** Boundaries *)
Lemma reach_cons b code k p : reach (b :: code) (S k) p ↔ ∃ q, p = S q ∧ reach code k q.
Proof.
  split.
  - induction 1 as [|p c Hp (q & -> & IH) Hc]; [eexists; split; [done|constructor]|].
    exists (q + 1 + push_size c)%nat. split; [lia|]. by constructor.
  - intros (q & -> & Hq). induction Hq as [|q c Hq IH Hc]; [constructor|].
    change (S (q + 1 + push_size c)) with (S q + 1 + push_size c)%nat. by constructor.
Qed.
Lemma reach_first b code p : reach (b :: code) 0 p ↔ p = O ∨ reach (b :: code) (S (push_size b)) p.
Proof.
  split.
  - induction 1 as [|p c Hp IH Hc]; [by left|right]. destruct IH as [->|IH]; [|by constructor].
    cbn in Hc. simplify_eq. constructor.
  - intros [->|H]; [constructor|]. induction H as [|p c Hp IH Hc]; [|by constructor].
    by apply (reach_next (b :: code) 0 0 b); [constructor|].
Qed.
Lemma reach_nil k p : reach [] k p ↔ p = k.
Proof. split; [|intros ->; constructor]. by induction 1. Qed.
(** The next boundary is in the code or in the first 33 bytes after it. *)
Lemma push_size_bound b : (push_size b <= 32)%nat.
Proof.
  unfold push_size. destruct (_ && _) eqn:E; [|lia]. apply andb_true_iff in E as [_ H%Z.leb_le].
  unfold OP_PUSH1, OP_PUSH32 in *. lia.
Qed.
Lemma reach_bound code p : reach code 0 p → (p <= length code + 32)%nat.
Proof.
  destruct 1 as [|p b Hp Hb]; [lia|]. apply lookup_lt_Some in Hb. pose proof (push_size_bound b). lia.
Qed.

(** ** The disassembly lists them *)
Lemma instructions_from_spec code skip pos p b :
  (p, b) ∈ instructions_from skip pos code ↔ ∃ q, p = (pos + q)%nat ∧ reach code skip q ∧ code !! q = Some b.
Proof.
  revert skip pos. induction code as [|c code IH]; intros skip pos.
  { cbn. split; [by intros ?%not_elem_of_nil|]. by intros (? & _ & _ & ?). }
  assert (∀ k, (∃ q, p = (S pos + q)%nat ∧ reach code k q ∧ code !! q = Some b) ↔
               (∃ q, p = (pos + q)%nat ∧ reach (c :: code) (S k) q ∧ (c :: code) !! q = Some b)) as Hshift.
  { intros k. split.
    - intros (q & -> & Hq & Hb). exists (S q). split; [lia|]. split; [|done]. apply reach_cons. by exists q.
    - intros (q' & -> & (q & -> & Hq)%reach_cons & Hb). exists q. split; [lia|done]. }
  destruct skip as [|skip]; cbn [instructions_from].
  - rewrite elem_of_cons, IH, Hshift. split.
    + intros [[= -> ->]|(q & -> & Hq & Hb)].
      * exists 0%nat. split; [lia|]. split; [constructor|done].
      * exists q. split; [done|]. split; [|done]. apply reach_first. by right.
    + intros (q & -> & [->|Hq]%reach_first & Hb).
      * left. cbn in Hb. simplify_eq. f_equal. lia.
      * right. by exists q.
  - by rewrite IH, Hshift.
Qed.
Lemma instructions_lem code p b : (p, b) ∈ instructions code ↔ boundary code p ∧ code !! p = Some b.
Proof.
  unfold instructions. rewrite instructions_from_spec. split; [by intros (q & -> & ?)|]. intros H. by exists p.
Qed.

(** ** The analysis finds the jump destinations *)
Lemma push_test b :
  (OP_PUSH1 <=? wraps 8 (byte_to_Z b)) = (OP_PUSH1 <=? byte_to_Z b) && (byte_to_Z b <=? OP_PUSH32).
Proof. by destruct b. Qed.
Lemma jumpdests_from_spec code skip p :
  analyze_jumpdests_from (Z.of_nat skip) code !! p = Some true ↔ reach code skip p ∧ code !! p = Some x5b.
Proof.
  revert skip p. induction code as [|c code IH]; intros skip p; [cbn; split; [done|by intros [_ ?]]|].
  assert (∀ k, (∃ q, p = S q ∧ analyze_jumpdests_from (Z.of_nat k) code !! q = Some true) ↔
               reach (c :: code) (S k) p ∧ (c :: code) !! p = Some x5b) as Hshift.
  { intros k. rewrite reach_cons. split.
    - intros (q & -> & [Hq Hb]%IH). split; [by exists q|done].
    - intros [(q & -> & Hq) Hb]. exists q. split; [done|]. by apply IH. }
  assert (∀ (x : bool) t, (x :: t) !! p = Some true ↔ p = 0%nat ∧ x = true ∨ ∃ q, p = S q ∧ t !! q = Some true) as Hcons.
  { intros x t. destruct p as [|p]; cbn; naive_solver. }
  cbn [analyze_jumpdests_from]. destruct skip as [|skip]; cbv zeta.
  - rewrite reach_first. change (0 <? Z.of_nat 0) with false. cbv iota. rewrite push_test.
    unfold push_size in *. destruct (_ && _) eqn:E.
    + assert (byte_to_Z c - (OP_PUSH1 - 1) = Z.of_nat (Z.to_nat (byte_to_Z c - OP_PUSH1 + 1))) as ->.
      { apply andb_true_iff in E as [?%Z.leb_le _]. lia. }
      rewrite Hcons, Hshift. split; [|intros [[->|?] Hb]; [|by right]].
      * intros [[_ ?]|[? ?]]; [done|]. split; [by right|done].
      * cbn in Hb. by simplify_eq.
    + rewrite Hcons. change 0 with (Z.of_nat 0). rewrite Hshift. split.
      * intros [[-> Hb]|[? ?]]; [|split; [by right|done]]. split; [by left|]. by destruct c.
      * intros [[->|?] Hb]; [left|by right]. cbn in Hb. by simplify_eq.
  - destruct (Z.ltb_spec 0 (Z.of_nat (S skip))); [|lia].
    replace (Z.of_nat (S skip) - 1) with (Z.of_nat skip) by lia. rewrite Hcons, Hshift. naive_solver.
Qed.
Lemma length_jumpdests_from skip code : length (analyze_jumpdests_from skip code) = length code.
Proof. revert skip. induction code as [|c code IH]; intros skip; cbn; [done|]. repeat case_match; cbn; by rewrite IH. Qed.
Lemma jumpdests_lem code p : analyze_jumpdests code !! p = Some true ↔ boundary code p ∧ code !! p = Some x5b.
Proof. exact (jumpdests_from_spec code 0 p). Qed.

(** C15: the one pass of [analyze_jumpdests] agrees with the definition of a jump
    destination: the map has an entry per byte of the code, and it is true
    exactly where a byte 0x5b stands at an instruction boundary, not inside the
    data of a push. *)
Theorem analyze_jumpdests_reference code p :
  length (jumpdest_map (analyze_legacy code)) = length code
  ∧ (jumpdest_map (analyze_legacy code) !! p = Some true ↔ boundary code p ∧ code !! p = Some x5b).
Proof. split; [apply length_jumpdests_from|apply jumpdests_lem]. Qed.
