(* ===== verification/EvmSpec.v ===== *)
(** * What the instructions of the EVM compute

    The instructions work on 64-bit parts of words, with masks and shifts.  Here
    they are compared with the functions that they are meant to compute: the
    value of a push is the number its data spells, the bitwise and shift
    instructions are arithmetic on the signed or unsigned value. *)
From Stdlib Require Import ZArith Strings.Byte Strings.String Lia.
From stdpp Require Import base tactics option numbers list.
From S2P Require Import Prelude Words Evmc EvmTraits EvmAnalysis EvmState EvmInstructions EvmLogic.

Local Open Scope Z_scope.

(** ** Parts of words *)

(** A word whose low parts are clear, with the next one set. *)
Lemma set_limb_add x i w : 0 <= i → is_u64 w → x mod 2 ^ (64 * (i + 1)) = 0 →
  set_limb x i w = x + w * 2 ^ (64 * i).
Proof.
  intros Hi Hw Hx. unfold set_limb.
  assert (∀ j, 0 <= j < 64 * (i + 1) → Z.testbit x j = false) as Hlow.
  { intros j Hj. rewrite <-(Z.mod_pow2_bits_low x (64 * (i + 1)) j) by lia. by rewrite Hx, Z.bits_0. }
  assert (∀ j, 64 * (i + 1) <= j → Z.testbit (Z.shiftl w (64 * i)) j = false) as Hhigh.
  { intros j Hj. rewrite Z.shiftl_spec by lia. unfold is_u64 in Hw. destruct (Z.eq_dec w 0) as [->|]; [apply Z.bits_0|].
    apply Z.bits_above_log2; [lia|]. apply Z.log2_lt_pow2; [lia|]. eapply Z.lt_le_trans; [apply Hw|].
    apply Z.pow_le_mono_r; lia. }
  assert (Z.ldiff x (Z.shiftl (2 ^ 64 - 1) (64 * i)) = x) as ->.
  { apply Z.bits_inj'. intros j Hj. rewrite Z.ldiff_spec, Z.shiftl_spec by lia.
    destruct (Z.lt_ge_cases j (64 * (i + 1))); [by rewrite Hlow by lia|].
    change (2 ^ 64 - 1) with (Z.ones 64). rewrite Z.ones_spec_high by lia. by rewrite andb_true_r. }
  assert (Z.land x (Z.shiftl w (64 * i)) = 0) as Hland.
  { apply Z.bits_inj'. intros j Hj. rewrite Z.land_spec, Z.bits_0.
    destruct (Z.lt_ge_cases j (64 * (i + 1))); [by rewrite Hlow by lia|rewrite Hhigh by lia; apply andb_false_r]. }
  rewrite <-Z.lxor_lor, <-Z.add_nocarry_lxor by done. by rewrite Z.shiftl_mul_pow2 by lia.
Qed.
Lemma be_load_app a b : be_load (a ++ b) = be_load a * 256 ^ Z.of_nat (length b) + be_load b.
Proof. unfold be_load at 1. by rewrite foldl_app, foldl_be_load. Qed.
Lemma pow_256 n : 0 <= n → 256 ^ n = 2 ^ (8 * n).
Proof. intros. change 256 with (2 ^ 8). by rewrite <-Z.pow_mul_r by lia. Qed.
Lemma be_load_high a b n : Z.of_nat (length b) = n → Z.shiftr (be_load (a ++ b)) (8 * n) = be_load a.
Proof.
  intros Hn. rewrite be_load_app, Z.shiftr_div_pow2, Hn, pow_256 by lia.
  pose proof (be_load_range b) as Hb. rewrite Hn, pow_256 in Hb by lia.
  rewrite Z.div_add_l by (pose proof (Z.pow_pos_nonneg 2 (8 * n)); lia). rewrite Z.div_small by done. lia.
Qed.
Lemma slice_app b off n k : 0 <= off → 0 <= n → 0 <= k → slice b off (n + k) = slice b off n ++ slice b (off + n) k.
Proof.
  intros. unfold slice. rewrite Z2Nat.inj_add, Z2Nat.inj_add by lia. by rewrite <-drop_drop, take_take_drop.
Qed.

(** A computation that asks nothing, then the rest. *)
Lemma run_bind {A B} (c : M A) (k : A → M B) m a m' : c m = VmDone (Go a m') → (c ≫= k) m = k a m'.
Proof. intros E. unfold mbind, M_bind. by rewrite E. Qed.
Lemma run_push x l g s : Z.of_nat (length l) < stack_limit → push x (mkMachine l g s) = VmDone (Go tt (mkMachine (x :: l) g s)).
Proof. intros Hl%Z.ltb_lt. unfold push. erewrite (run_bind get_stack) by reflexivity. cbn [stack]. by rewrite Hl. Qed.

(** ** [push<Len>]

    Read in words of the machine, the value is the number that the [Len] bytes
    spell. *)
Section push.
Context (an : CodeAnalysis).
Definition push_data (pos len : Z) : Z := be_load (slice (code_mem an) (code_base an + pos + 1) len).
Definition readable (pos n : Z) : Prop := 0 <= code_base an + pos ∧ 0 <= n ∧ code_base an + pos + n <= Z.of_nat (length (code_mem an)).

Lemma code_bytes_eq pos n m : readable pos n → code_bytes an pos n m = VmDone (Go (slice (code_mem an) (code_base an + pos) n) m).
Proof. intros (? & ? & ?). unfold code_bytes. by rewrite in_bounds_true by done. Qed.
Lemma load_full_words_eq n data r m : (n <= 4)%nat → readable data (8 * Z.of_nat n) → r mod 2 ^ (64 * Z.of_nat n) = 0 →
  load_full_words an n data r m = VmDone (Go (r + be_load (slice (code_mem an) (code_base an + data) (8 * Z.of_nat n))) m).
Proof.
  revert data r. induction n as [|n IH]; intros data r Hn Hd Hr; unfold readable in *.
  { cbn [load_full_words]. unfold slice, be_load. cbn. by rewrite Z.add_0_r. }
  cbn [load_full_words]. unfold mbind, M_bind. rewrite code_bytes_eq by (unfold readable; lia). cbn [mbind VmProg_bind].
  set (b := slice _ _ 8). assert (Z.of_nat (length b) = 8) as Hb by (apply slice_length; lia).
  assert (is_u64 (be_load b)) as Hu by (pose proof (be_load_range b) as H; by rewrite Hb in H).
  replace (Z.of_nat (S n)) with (Z.of_nat n + 1) in * by lia.
  rewrite set_limb_add by (done || lia).
  assert ((r + be_load b * 2 ^ (64 * Z.of_nat n)) mod 2 ^ (64 * Z.of_nat n) = 0) as Hr'.
  { rewrite Z.mod_add by (pose proof (Z.pow_pos_nonneg 2 (64 * Z.of_nat n)); lia).
    apply Z.mod_divide in Hr; [|pose proof (Z.pow_pos_nonneg 2 (64 * (Z.of_nat n + 1))); lia].
    apply Z.mod_divide; [pose proof (Z.pow_pos_nonneg 2 (64 * Z.of_nat n)); lia|].
    etransitivity; [|exact Hr]. exists (2 ^ 64). rewrite <-Z.pow_add_r by lia. f_equal. lia. }
  rewrite IH by (done || lia || (split; lia)). do 2 f_equal.
  replace (8 * (Z.of_nat n + 1)) with (8 + 8 * Z.of_nat n) by lia. rewrite slice_app by lia. fold b.
  rewrite be_load_app, slice_length by lia. rewrite pow_256 by lia.
  replace (code_base an + (data + 8)) with (code_base an + data + 8) by lia.
  replace (8 * (8 * Z.of_nat n)) with (64 * Z.of_nat n) by lia. lia.
Qed.
(** How far [load_partial_push_data] reads for [k] bytes. *)
Definition partial_reach (k : Z) : Z := if k <=? 2 then k else if k <=? 4 then 4 else 8.
Lemma load_partial_eq k pos m : 1 <= k <= 7 → readable pos (partial_reach k) →
  load_partial_push_data an k pos m = VmDone (Go (be_load (slice (code_mem an) (code_base an + pos) k)) m).
Proof.
  intros Hk Hp. pose proof Hp as (? & _ & ?). set (reach := partial_reach k) in *.
  assert (k <= reach <= 8 ∧ (3 <= k → 4 <= reach) ∧ (5 <= k → 8 <= reach)) as (Hr & Hr4 & Hr8).
  { unfold reach, partial_reach. destruct (Z.leb_spec k 2), (Z.leb_spec k 4); lia. }
  clearbody reach.
  assert (∀ n, 1 <= n <= reach → k <= n → Z.shiftr (be_load (slice (code_mem an) (code_base an + pos) n)) (8 * (n - k))
    = be_load (slice (code_mem an) (code_base an + pos) k)) as Hshift.
  { intros n Hn Hle. replace n with (k + (n - k)) at 1 by lia. rewrite slice_app by lia. apply be_load_high, slice_length; lia. }
  assert (∀ n (f : Z → Z), 1 <= n <= reach → (b ← code_bytes an pos n; mret (f (be_load b))) m
    = VmDone (Go (f (be_load (slice (code_mem an) (code_base an + pos) n))) m)) as Hread.
  { intros n f Hn. unfold mbind, M_bind. by rewrite code_bytes_eq by (unfold readable; lia). }
  unfold load_partial_push_data. repeat case_match; rewrite ?Z.eqb_eq, ?Z.eqb_neq in *; subst.
  - unfold code_at, at_byte. destruct (Z.leb_spec 0 (code_base an + pos)); [|lia].
    destruct (lookup_lt_is_Some_2 (code_mem an) (Z.to_nat (code_base an + pos))) as [b Hb]; [lia|].
    unfold slice. change (Z.to_nat 1) with 1%nat. rewrite (drop_S _ _ _ Hb), Hb. cbn.
    unfold be_load. cbn [foldl]. by rewrite Z.add_0_l.
  - apply (Hread 2 (λ x, x)); lia.
  - rewrite (Hread 4 (λ x, Z.shiftr x 8)) by lia. by rewrite <-(Hshift 4) by lia.
  - apply (Hread 4 (λ x, x)); lia.
  - rewrite (Hread 8 (λ x, Z.shiftr x (8 * (8 - k)))) by lia. by rewrite (Hshift 8) by lia.
Qed.
Lemma push_eq len pos l g s : 1 <= len <= 32 → Z.of_nat (length l) < stack_limit → readable (pos + 1) (len + 1) →
  (len = 5 ∨ len = 6 → readable (pos + 1) 8) →
  push_ an len pos (mkMachine l g s) = VmDone (Go (pos + (len + 1)) (mkMachine (push_data pos len :: l) g s)).
Proof.
  intros Hlen Hl Hd Hd8. pose proof Hd as (? & _ & ?). unfold push_. cbv zeta.
  pose proof (Z.div_mod len 8 ltac:(lia)) as Hdm. pose proof (Z.mod_pos_bound len 8 ltac:(lia)) as Hm.
  set (w := len / 8) in *. set (k := len mod 8) in *.
  assert (0 <= w <= 4) as Hw by lia.
  set (r := be_load (slice (code_mem an) (code_base an + (pos + 1)) k) * 2 ^ (64 * w)).
  assert ((if negb (k =? 0) then w' ← load_partial_push_data an k (pos + 1); mret (set_limb 0 w w') else mret 0)
     (mkMachine (0 :: l) g s) = VmDone (Go r (mkMachine (0 :: l) g s))) as Hpart.
  { destruct (Z.eqb_spec k 0) as [E|E]; cbn [negb].
    - unfold r. rewrite E. unfold slice. by cbn.
    - assert (readable (pos + 1) (partial_reach k)) as Hreach.
      { assert (len = 5 ∨ len = 6 ∨ partial_reach k <= len + 1) as Hc.
        { unfold partial_reach. destruct (Z.leb_spec k 2), (Z.leb_spec k 4); lia. }
        assert (0 <= partial_reach k <= 8) by (unfold partial_reach; destruct (Z.leb_spec k 2), (Z.leb_spec k 4); lia).
        destruct (decide (len = 5 ∨ len = 6)) as [H56|H56]; [specialize (Hd8 H56)|]; unfold readable in *; lia. }
      erewrite run_bind by (apply load_partial_eq; done || lia). unfold mret, M_ret. do 2 f_equal.
      rewrite set_limb_add; [by rewrite Z.add_0_l|lia| |by rewrite Z.mod_0_l by (pose proof (Z.pow_pos_nonneg 2 (64 * (w + 1))); lia)].
      pose proof (be_load_range (slice (code_mem an) (code_base an + (pos + 1)) k)) as Hb.
      rewrite slice_length in Hb by lia. rewrite pow_256 in Hb by lia. unfold is_u64.
      assert (2 ^ (8 * k) <= 2 ^ 64) by (apply Z.pow_le_mono_r; lia). lia. }
  erewrite run_bind by by apply run_push. erewrite run_bind by exact Hpart.
  erewrite run_bind.
  2: { apply load_full_words_eq; [lia|unfold readable; lia|unfold r].
       rewrite Z2Nat.id by lia. apply Z.mod_mul. pose proof (Z.pow_pos_nonneg 2 (64 * w)); lia. }
  erewrite (run_bind (set_item _ _)) by reflexivity. unfold mret, M_ret, push_data.
  cbn [stack insert list_insert]. do 4 f_equal.
  rewrite Z2Nat.id by lia. unfold r.
  replace len with (k + 8 * w) by lia. replace (code_base an + pos + 1) with (code_base an + (pos + 1)) by lia.
  rewrite slice_app, be_load_app by lia. rewrite slice_length by lia. rewrite pow_256 by lia.
  replace (8 * (8 * w)) with (64 * w) by lia.
  by replace (code_base an + (pos + 1) + k) with (code_base an + (pos + 1 + k)) by lia.
Qed.
End push.

(** ** Words by their bits *)
Lemma wraps_range w z : 0 < w → - 2 ^ (w - 1) <= wraps w z < 2 ^ (w - 1).
Proof.
  intros Hw. unfold wraps. pose proof (Z.mod_pos_bound (z + 2 ^ (w - 1)) (2 ^ w) ltac:(apply Z.pow_pos_nonneg; lia)).
  assert (2 ^ w = 2 ^ (w - 1) * 2 ^ 1) by (rewrite <-Z.pow_add_r by lia; f_equal; lia). lia.
Qed.
Lemma sign_testbit r k t : 0 <= k <= t → - 2 ^ k <= r < 2 ^ k → Z.testbit r t = (r <? 0).
Proof.
  intros Hk Hr. assert (2 ^ k <= 2 ^ t) by (apply Z.pow_le_mono_r; lia). destruct (Z.ltb_spec r 0).
  - destruct (Z.eq_dec r (-1)) as [->|]; [apply Z.bits_m1; lia|].
    apply Z.bits_above_log2_neg; [lia|]. apply Z.log2_lt_pow2; lia.
  - destruct (Z.eq_dec r 0) as [->|]; [apply Z.bits_0|]. apply Z.bits_above_log2; [lia|]. apply Z.log2_lt_pow2; lia.
Qed.
Lemma wraps_mod w z : 0 < w → wraps w z mod 2 ^ w = z mod 2 ^ w.
Proof.
  intros Hw. unfold wraps. rewrite Zminus_mod_idemp_l. f_equal. lia.
Qed.
Lemma wraps_testbit w z t : 0 < w → 0 <= t → Z.testbit (wraps w z) t = Z.testbit z (Z.min t (w - 1)).
Proof.
  intros Hw Ht. assert (∀ j, j < w → Z.testbit (wraps w z) j = Z.testbit z j) as Hlow.
  { intros j Hj. rewrite <-(Z.mod_pow2_bits_low _ w j), wraps_mod, Z.mod_pow2_bits_low by lia. done. }
  destruct (Z.lt_ge_cases t w); [rewrite Hlow by lia; f_equal; lia|].
  rewrite Z.min_r, <-Hlow by lia. pose proof (wraps_range w z Hw) as Hr.
  by rewrite (sign_testbit _ (w - 1) t), (sign_testbit _ (w - 1) (w - 1)) by (done || lia).
Qed.
Lemma limb_testbit x i t : 0 <= i → 0 <= t → Z.testbit (limb x i) t = (t <? 64) && Z.testbit x (64 * i + t).
Proof.
  intros Hi Ht. unfold limb. change (2 ^ 64 - 1) with (Z.ones 64). rewrite Z.land_spec, Z.shiftr_spec by lia.
  rewrite Z.testbit_ones by lia. destruct (Z.leb_spec 0 t); [|lia]. rewrite andb_comm. f_equal. f_equal. lia.
Qed.
Lemma u64_testbit z t : 0 <= t → Z.testbit (u64 z) t = (t <? 64) && Z.testbit z t.
Proof.
  intros Ht. unfold u64, wrapu. destruct (Z.ltb_spec t 64); [by apply Z.mod_pow2_bits_low|].
  by apply Z.mod_pow2_bits_high.
Qed.
Lemma u256_testbit z t : 0 <= t → Z.testbit (u256 z) t = (t <? 256) && Z.testbit z t.
Proof.
  intros Ht. unfold u256. destruct (Z.ltb_spec t 256); [by apply Z.mod_pow2_bits_low|].
  by apply Z.mod_pow2_bits_high.
Qed.
Lemma u64_high w t : is_u64 w → 64 <= t → Z.testbit w t = false.
Proof.
  intros Hw Ht. rewrite <-(u64_small w Hw). rewrite u64_testbit by lia. by destruct (Z.ltb_spec t 64); [lia|].
Qed.
Lemma set_limb_testbit x i w t : 0 <= i → 0 <= t → is_u64 w →
  Z.testbit (set_limb x i w) t = if (64 * i <=? t) && (t <? 64 * i + 64) then Z.testbit w (t - 64 * i) else Z.testbit x t.
Proof.
  intros Hi Ht Hw. unfold set_limb. change (2 ^ 64 - 1) with (Z.ones 64).
  rewrite Z.lor_spec, Z.ldiff_spec, !Z.shiftl_spec by lia.
  destruct (Z.leb_spec (64 * i) t); cbn [andb].
  - rewrite Z.testbit_ones by lia. destruct (Z.leb_spec 0 (t - 64 * i)); [|lia]. cbn [andb].
    destruct (Z.ltb_spec (t - 64 * i) 64), (Z.ltb_spec t (64 * i + 64)); try lia; cbn [negb].
    + by rewrite andb_false_r.
    + rewrite (u64_high w) by (done || lia). by rewrite andb_true_r, orb_false_r.
  - rewrite !(Z.testbit_neg_r _ (t - 64 * i)) by lia. by rewrite andb_true_r, orb_false_r.
Qed.

(** ** SIGNEXTEND, BYTE, SAR *)
Lemma byte_word_spec n x : is_u256 n → is_u256 x →
  byte_word n x = if n <? 32 then x / 256 ^ (31 - n) mod 256 else 0.
Proof.
  intros Hn Hx. unfold byte_word. cbv zeta. destruct (Z.ltb_spec n 32); [|apply Z.land_0_r].
  unfold is_u256 in Hn. rewrite limb0_small by (unfold is_u256; lia). rewrite (Z.mod_small n 32) by lia.
  set (k := 31 - n). assert (0 <= k <= 31) as Hk by (unfold k; lia).
  rewrite pow_256, <-Z.shiftr_div_pow2 by lia. change 256 with (2 ^ 8). change 255 with (Z.ones 8).
  pose proof (Z.div_mod k 8 ltac:(lia)). pose proof (Z.mod_pos_bound k 8 ltac:(lia)).
  assert (0 <= k / 8) by (apply Z.div_pos; lia).
  apply Z.bits_inj'. intros t Ht. rewrite Z.land_spec, Z.testbit_ones, Z.shiftr_spec by lia.
  destruct (Z.leb_spec 0 t); [|lia]. cbn [andb]. destruct (Z.ltb_spec t 8).
  - rewrite andb_true_r, Z.mod_pow2_bits_low, Z.shiftr_spec, limb_testbit by lia.
    destruct (Z.ltb_spec (t + k mod 8 * 8) 64); [|lia]. cbn [andb]. f_equal. lia.
  - rewrite andb_false_r. by rewrite Z.mod_pow2_bits_high by lia.
Qed.
Lemma unot_0 : unot 0 = Z.ones 256.
Proof. done. Qed.
Lemma sar_word_spec y x : is_u256 y → is_u256 x → sar_word y x = u256 (Z.shiftr (s256 x) y).
Proof.
  intros Hy Hx. unfold sar_word. cbv zeta. rewrite top_bit, ushr_spec by done. rewrite unot_0.
  assert (∀ t, 256 <= t → Z.testbit x t = false) as Hhigh by (intros; by apply is_u256_high).
  assert (Z.testbit x 255 = (2 ^ 255 <=? x)) as Htop.
  { pose proof (wraps_testbit 256 x 255 ltac:(lia) ltac:(lia)) as E. change (Z.min 255 (256 - 1)) with 255 in E.
    rewrite <-E. fold (s256 x). rewrite (sign_testbit _ 255), s256_eq by (done || lia || apply s256_range).
    unfold is_u256 in Hx. by destruct (Z.ltb_spec x (2 ^ 255)), (Z.leb_spec (2 ^ 255) x), (Z.ltb_spec x 0), (Z.ltb_spec (x - 2 ^ 256) 0); try lia. }
  unfold is_u256 in Hy. apply Z.bits_inj'. intros t Ht. rewrite u256_testbit, Z.lor_spec, !Z.shiftr_spec by lia.
  unfold s256. rewrite wraps_testbit by lia. change (256 - 1) with 255.
  assert (Z.testbit (shl64 (if 2 ^ 255 <=? x then Z.ones 256 else 0) (if y <? 256 then u64 (256 - limb y 0) else 0)) t
          = (t <? 256) && (256 <=? t + y) && Z.testbit x 255) as ->.
  { rewrite Htop. unfold shl64. destruct (Z.leb_spec (2 ^ 255) x); [|by case_match; rewrite ?Z.shiftl_0_l, Z.bits_0, andb_false_r].
    rewrite andb_true_r. destruct (Z.ltb_spec y 256).
    - rewrite limb0_small by (unfold is_u256; lia). rewrite u64_small by (unfold is_u64; lia).
      destruct (Z.leb_spec 256 (256 - y)).
      + rewrite Z.bits_0. destruct (Z.ltb_spec t 256), (Z.leb_spec 256 (t + y)); lia || done.
      + rewrite u256_testbit, Z.shiftl_spec by lia. destruct (Z.ltb_spec t 256); [|done]. cbn [andb].
        destruct (Z.leb_spec 256 (t + y)); [apply Z.ones_spec_low; lia|].
        destruct (Z.lt_ge_cases (t - (256 - y)) 0); [by apply Z.testbit_neg_r|lia].
    - change (256 <=? 0) with false. cbv iota. rewrite Z.shiftl_0_r, u256_testbit by lia.
      destruct (Z.ltb_spec t 256); [|done]. cbn [andb]. destruct (Z.leb_spec 256 (t + y)); [|lia]. apply Z.ones_spec_low. lia. }
  destruct (Z.ltb_spec t 256); cbn [andb]; [|by rewrite Hhigh, orb_false_r by lia].
  destruct (Z.leb_spec 256 (t + y)); cbn [andb].
  - by rewrite Hhigh, orb_false_l, Z.min_r by lia.
  - rewrite orb_false_r. f_equal. lia.
Qed.
(** The parts above the sign byte are its sign. *)
Lemma lor_u64 a b : is_u64 a → is_u64 b → is_u64 (Z.lor a b).
Proof.
  intros Ha Hb. rewrite <-(u64_small a Ha), <-(u64_small b Hb).
  assert (Z.lor (u64 a) (u64 b) = u64 (Z.lor (u64 a) (u64 b))) as ->; [|apply u64_range].
  apply Z.bits_inj'. intros t Ht. rewrite u64_testbit, Z.lor_spec, !u64_testbit by lia. by destruct (t <? 64).
Qed.
Lemma land_u64 a b : is_u64 a → is_u64 (Z.land a b).
Proof.
  intros Ha. rewrite <-(u64_small a Ha).
  assert (Z.land (u64 a) b = u64 (Z.land (u64 a) b)) as ->; [|apply u64_range].
  apply Z.bits_inj'. intros t Ht. rewrite u64_testbit, Z.land_spec, !u64_testbit by lia. by destruct (t <? 64).
Qed.
Lemma signextend_word_spec ext x : is_u256 ext → is_u256 x →
  signextend_word ext x = if ext <? 31 then u256 (wraps (8 * (ext + 1)) x) else x.
Proof.
  intros He Hx. unfold signextend_word. destruct (Z.ltb_spec ext 31); [|done]. cbv zeta. unfold is_u256 in He.
  rewrite limb0_small by (unfold is_u256; lia).
  pose proof (Z.div_mod ext 8 ltac:(lia)) as Hdm. pose proof (Z.mod_pos_bound ext 8 ltac:(lia)) as Hm.
  set (i := ext / 8) in *. set (k := ext mod 8) in *. assert (0 <= i <= 3) as Hi by lia.
  set (top := Z.testbit x (8 * ext + 7)).
  set (sb := u64 (wraps 8 (Z.shiftr (limb x i) (k * 8)))).
  assert (∀ t, 0 <= t → Z.testbit sb t = (t <? 64) && Z.testbit x (8 * ext + Z.min t 7)) as Hsb.
  { intros t Ht. unfold sb. rewrite u64_testbit, wraps_testbit, Z.shiftr_spec, limb_testbit by lia.
    destruct (Z.ltb_spec (Z.min t (8 - 1) + k * 8) 64); [|lia]. cbn [andb]. do 2 f_equal. lia. }
  set (w := Z.lor _ _).
  assert (is_u64 w) as Hw by (apply lor_u64; [apply u64_range|apply land_u64, limb_range]).
  assert (∀ t, 0 <= t < 64 → Z.testbit w t = Z.testbit x (64 * i + Z.min t (8 * k + 7))) as Hwt.
  { intros t Ht. unfold w. rewrite Z.lor_spec, Z.land_spec, Z.lxor_spec, !u64_testbit, !Z.shiftl_spec by lia.
    change (2 ^ 64 - 1) with (Z.ones 64). rewrite (Z.ones_spec_low 64 t), limb_testbit by lia.
    destruct (Z.ltb_spec t 64); [|lia]. cbn [andb]. destruct (Z.lt_ge_cases t (k * 8)).
    - rewrite !(Z.testbit_neg_r _ (t - k * 8)) by lia. cbn. rewrite andb_true_r. f_equal. lia.
    - rewrite Hsb, Z.ones_spec_low by lia. destruct (Z.ltb_spec (t - k * 8) 64); [|lia]. cbn.
      rewrite andb_false_r, orb_false_r. f_equal. lia. }
  set (se := u64 (Z.shiftr (i64 sb) 8)). assert (is_u64 se) as Hse by apply u64_range.
  assert (∀ t, 0 <= t < 64 → Z.testbit se t = top) as Hset.
  { intros t Ht. unfold se, i64. rewrite u64_testbit, Z.shiftr_spec, wraps_testbit, Hsb by lia.
    destruct (Z.ltb_spec t 64), (Z.ltb_spec (Z.min (t + 8) (64 - 1)) 64); try lia. cbn [andb]. unfold top. f_equal. lia. }
  assert (∀ t, 0 <= t → Z.testbit (u256 (wraps (8 * (ext + 1)) x)) t = (t <? 256) && Z.testbit x (Z.min t (8 * ext + 7))) as Hspec.
  { intros t Ht. rewrite u256_testbit, wraps_testbit by lia. do 2 f_equal. lia. }
  apply Z.bits_inj'. intros t Ht. rewrite Hspec by done. cbn [foldl].
  set (high j := (i <? j) && (64 * j <=? t) && (t <? 64 * j + 64)).
  assert (∀ j y, 1 <= j → Z.testbit (if i <? j then set_limb y j se else y) t = if high j then top else Z.testbit y t) as Hstep.
  { intros j y Hj. unfold high. destruct (i <? j); [|done]. rewrite set_limb_testbit by (done || lia). cbn [andb].
    destruct (Z.leb_spec (64 * j) t), (Z.ltb_spec t (64 * j + 64)); cbn [andb]; [|done..]. apply Hset. lia. }
  rewrite !Hstep, set_limb_testbit by (done || lia).
  assert (∀ j, high j = true ↔ i < j ∧ 64 * j <= t < 64 * j + 64) as Hhigh.
  { intros j. unfold high. rewrite !andb_true_iff, Z.leb_le, !Z.ltb_lt. lia. }
  assert (256 <= t → Z.testbit x t = false) as Hout by (intros; by apply is_u256_high).
  destruct (Z.lt_ge_cases t (64 * i + 64)) as [Hlow|Hup].
  - assert (∀ j, high j = false) as Hno by (intros j; apply not_true_iff_false; rewrite Hhigh; lia).
    rewrite !Hno. destruct (Z.ltb_spec t 256), (Z.ltb_spec t (64 * i + 64)); try lia. rewrite andb_true_r. cbn [andb].
    destruct (Z.leb_spec (64 * i) t); [rewrite Hwt by lia|]; f_equal; lia.
  - destruct (Z.ltb_spec t 256); cbn [andb].
    + rewrite Z.min_r by lia. fold top.
      assert (high 1 = true ∨ high 2 = true ∨ high 3 = true) as Hj by (rewrite !Hhigh; lia).
      destruct (high 1), (high 2), (high 3); try done. by destruct Hj as [|[|]].
    + assert (∀ j, j <= 3 → high j = false) as Hno by (intros j Hj; apply not_true_iff_false; rewrite Hhigh; lia).
      rewrite !Hno by lia. destruct (Z.ltb_spec t (64 * i + 64)); [lia|]. rewrite andb_false_r. by apply Hout.
Qed.

(** ** The instructions on two words *)

(** What an instruction makes of the two topmost words, in mathematical terms. *)
Definition word_reference (op x y : Z) : option Z :=
  if op =? OP_ADD then Some (u256 (x + y))
  else if op =? OP_MUL then Some (u256 (x * y))
  else if op =? OP_SUB then Some (u256 (x - y))
  else if op =? OP_DIV then Some (if y =? 0 then 0 else x / y)
  else if op =? OP_SDIV then Some (if y =? 0 then 0 else u256 (Z.quot (s256 x) (s256 y)))
  else if op =? OP_MOD then Some (if y =? 0 then 0 else x mod y)
  else if op =? OP_SMOD then Some (if y =? 0 then 0 else u256 (Z.rem (s256 x) (s256 y)))
  else if op =? OP_SIGNEXTEND then Some (if x <? 31 then u256 (wraps (8 * (x + 1)) y) else y)
  else if op =? OP_LT then Some (bool_word (x <? y))
  else if op =? OP_GT then Some (bool_word (y <? x))
  else if op =? OP_SLT then Some (bool_word (s256 x <? s256 y))
  else if op =? OP_SGT then Some (bool_word (s256 y <? s256 x))
  else if op =? OP_EQ then Some (bool_word (x =? y))
  else if op =? OP_AND then Some (Z.land x y)
  else if op =? OP_OR then Some (Z.lor x y)
  else if op =? OP_XOR then Some (Z.lxor x y)
  else if op =? OP_BYTE then Some (if x <? 32 then y / 256 ^ (31 - x) mod 256 else 0)
  else if op =? OP_SHL then Some (u256 (Z.shiftl y x))
  else if op =? OP_SHR then Some (Z.shiftr y x)
  else if op =? OP_SAR then Some (u256 (Z.shiftr (s256 y) x))
  else None.
Lemma run_binary f x y l g s : (Z.of_nat (length l) < stack_limit) →
  binary f (mkMachine (x :: y :: l) g s) = VmDone (Go tt (mkMachine (f x y :: l) g s)).
Proof. intros Hl. unfold binary. do 2 (erewrite run_bind by reflexivity). by apply run_push. Qed.

Lemma word_instructions_lem msg rev code an op x y z l g s :
  is_u256 x → is_u256 y → Z.of_nat (length l) < stack_limit → word_reference op x y = Some z →
  ∃ c, impl msg rev code an op = Some (INext c) ∧
       c (mkMachine (x :: y :: l) g s) = VmDone (Go tt (mkMachine (z :: l) g s)).
Proof.
  intros Hx Hy Hl. unfold word_reference.
  assert (∀ k f r, impl msg rev code an k = Some (INext (binary f)) → f x y = r → ∃ c, impl msg rev code an k = Some (INext c) ∧
    c (mkMachine (x :: y :: l) g s) = VmDone (Go tt (mkMachine (r :: l) g s))) as Hop.
  { intros k f r E Hf. eexists. split; [exact E|]. rewrite run_binary by done. by rewrite Hf. }
  repeat match goal with |- context [op =? ?k] => destruct (Z.eqb_spec op k) as [->|] end; intros [= <-];
    (eapply Hop; [reflexivity|cbn beta]).
  - by rewrite (Z.add_comm x).
  - by rewrite (Z.mul_comm x).
  - done.
  - by destruct (y =? 0).
  - destruct (Z.eqb_spec y 0); [done|]. cbn. by rewrite sdivrem_spec.
  - by destruct (y =? 0).
  - destruct (Z.eqb_spec y 0); [done|]. cbn. by rewrite sdivrem_spec.
  - by apply signextend_word_spec.
  - done.
  - done.
  - by rewrite slt_spec.
  - by rewrite slt_spec.
  - done.
  - apply Z.land_comm.
  - apply Z.lor_comm.
  - apply Z.lxor_comm.
  - by apply byte_word_spec.
  - by apply ushl_spec.
  - by apply ushr_spec.
  - by apply sar_word_spec.
Qed.
(** C14: the instructions that compute with two words, which the interpreter
    carries out on 64-bit parts with masks and shifts, put on the stack what the
    reference function says: sums, products and differences modulo 2^256,
    division by zero is zero, signed division rounds to zero, comparisons of the
    signed values, byte n from the left, shifts by any number of bits. *)
Theorem word_instructions_reference msg rev code an op x y z l g s :
  is_u256 x → is_u256 y → Z.of_nat (length l) < stack_limit → word_reference op x y = Some z →
  ∃ c, impl msg rev code an op = Some (INext c) ∧
       c (mkMachine (x :: y :: l) g s) = VmDone (Go tt (mkMachine (z :: l) g s)).
Proof. apply word_instructions_lem. Qed.
Lemma word_instructions_reference_witness :
  ∃ c, impl (mkMsg EVMC_CALL 0 0 0 zero20 zero20 [] zero32 zero32 zero20) EVMC_MAX_REVISION [] (analyze_legacy []) OP_SAR = Some (INext c) ∧
       c (mkMachine [4; 2 ^ 256 - 256; 7] 0 ExecutionState_ctor) = VmDone (Go tt (mkMachine [2 ^ 256 - 16; 7] 0 ExecutionState_ctor)).
Proof. apply word_instructions_reference; [split; lia|split; lia|reflexivity|vm_compute; reflexivity]. Defined.
