(* ===== verification/EvmSafety.v ===== *)
(** * Every instruction keeps the machine well formed

    What the interpreter needs of each instruction ([instr_ok], [jump_ok]),
    proved one instruction at a time for the revision that the program runs
    ([EVMC_MAX_REVISION]), under a contract that holds calls to their gas. *)
From Stdlib Require Import ZArith Strings.Byte Strings.String Lia.
From stdpp Require Import base tactics option numbers list.
From S2P Require Import Prelude Keccak Words Evmc EvmTraits EvmAnalysis EvmState EvmInstructions EvmLogic EvmJumps EvmSpec.

Local Open Scope Z_scope.

(** ** Words stay words *)
Lemma set_limb_range x i w : is_u256 x → 0 <= i <= 3 → is_u64 w → is_u256 (set_limb x i w).
Proof.
  intros Hx Hi Hw. unfold set_limb. apply lor_range.
  - apply is_u256_testbit.
    + apply Z.ldiff_nonneg. left. apply Hx.
    + intros j Hj. by rewrite Z.ldiff_spec, (is_u256_high x).
  - unfold is_u64, is_u256 in *. rewrite Z.shiftl_mul_pow2 by lia.
    assert (2 ^ (64 * i) <= 2 ^ 192) by (apply Z.pow_le_mono_r; lia).
    pose proof (Z.pow_pos_nonneg 2 (64 * i) ltac:(lia) ltac:(lia)). nia.
Qed.
Lemma bool_word_ok b : is_u256 (bool_word b).
Proof. by destruct b. Qed.
Lemma div_range x y : is_u256 x → is_u256 y → is_u256 (if negb (y =? 0) then x / y else 0).
Proof.
  unfold is_u256. intros Hx Hy. destruct (Z.eqb_spec y 0); cbn; [done|].
  split; [apply Z.div_pos; lia|]. apply Z.div_lt_upper_bound; nia.
Qed.
Lemma mod_range x y : is_u256 x → is_u256 y → is_u256 (if negb (y =? 0) then x mod y else 0).
Proof.
  unfold is_u256. intros Hx Hy. destruct (Z.eqb_spec y 0); cbn; [done|].
  pose proof (Z.mod_pos_bound x y). lia.
Qed.
Lemma sdivrem_range x y : is_u256 x → is_u256 y → y ≠ 0 → is_u256 (sdivrem x y).1 ∧ is_u256 (sdivrem x y).2.
Proof. intros Hx Hy Hz. rewrite sdivrem_spec by done. cbn. split; apply u256_range. Qed.
Lemma uexp_range b e : is_u256 b → is_u256 e → is_u256 (uexp b e).
Proof. intros. rewrite uexp_spec by done. apply u256_range. Qed.
Lemma signextend_range ext x : is_u256 ext → is_u256 x → is_u256 (signextend_word ext x).
Proof.
  intros He Hx. unfold signextend_word. destruct (Z.ltb_spec ext 31); [|done]. cbv zeta.
  unfold is_u256 in He. rewrite limb0_small by (unfold is_u256; lia).
  assert (0 <= ext / 8 <= 3) as Hi by (split; [apply Z.div_pos; lia|apply Z.lt_succ_r, Z.div_lt_upper_bound; lia]).
  assert (∀ z, is_u64 (u64 z)) as Hu by apply u64_range.
  assert (is_u64 (Z.lor (u64 (Z.shiftl (u64 (wraps 8 (Z.shiftr (limb x (ext / 8)) (ext mod 8 * 8)))) (ext mod 8 * 8)))
           (Z.land (limb x (ext / 8)) (Z.lxor (u64 (Z.shiftl (2 ^ 64 - 1) (ext mod 8 * 8))) (2 ^ 64 - 1))))) as Hw.
  { assert (∀ a, is_u64 a → ∀ i, 64 <= i → Z.testbit a i = false) as Hhigh.
    { intros a [Ha0 Ha] i Hi'. destruct (Z.eq_dec a 0) as [->|]; [apply Z.bits_0|].
      apply Z.bits_above_log2; [done|]. apply Z.log2_lt_pow2; [lia|]. eapply Z.lt_le_trans; [exact Ha|].
      apply Z.pow_le_mono_r; lia. }
    split.
    - apply Z.lor_nonneg. split; [apply u64_range|]. apply Z.land_nonneg. left. apply limb_range.
    - match goal with |- ?a < _ => assert (a = a mod 2 ^ 64) as ->; [|apply Z.mod_pos_bound; lia] end.
      apply Z.bits_inj'. intros i Hi'. destruct (Z.lt_ge_cases i 64); [by rewrite Z.mod_pow2_bits_low|].
      rewrite Z.mod_pow2_bits_high by lia. rewrite Z.lor_spec, Z.land_spec.
      rewrite (Hhigh _ (u64_range _)), (Hhigh _ (limb_range _ _)) by lia. done. }
  cbn [foldl]. repeat case_match; repeat apply set_limb_range; auto; lia.
Qed.
Lemma byte_range n x : is_u256 n → is_u256 x → is_u256 (byte_word n x).
Proof.
  intros Hn Hx. unfold byte_word. cbv zeta. apply land_range; [|by case_match].
  pose proof (limb_range x ((31 - limb n 0 mod 32) / 8)) as Hl. unfold is_u64 in Hl.
  pose proof (Z.mod_pos_bound (31 - limb n 0 mod 32) 8 ltac:(lia)).
  rewrite Z.shiftr_div_pow2 by lia. apply is_u256_lt. split; [apply Z.div_pos; [lia|apply Z.pow_pos_nonneg; lia]|].
  pose proof (Z.pow_pos_nonneg 2 ((31 - limb n 0 mod 32) mod 8 * 8) ltac:(lia) ltac:(lia)).
  apply Z.div_lt_upper_bound; nia.
Qed.
Lemma sar_range y x : is_u256 y → is_u256 x → is_u256 (sar_word y x).
Proof. intros. unfold sar_word. cbv zeta. apply lor_range; [by apply ushr_range|apply shl64_range]. Qed.

(** ** The contract of a machine at depth [d]

    [copy] and [calls] say whether EXTCODECOPY and the calling instructions may
    be executed.  A call gets a good message, and is expected to give back no
    more gas than it got and no refund. *)
Definition msg_ok (m : evmc_message) : Prop :=
  0 <= depth m <= 1024 ∧ gas_ok (gas m) ∧ length (recipient m) = 20%nat ∧ length (sender m) = 20%nat
  ∧ length (msg_value m) = 32%nat ∧ is_u64 (Z.of_nat (length (input_data m))).
Definition honest (m : evmc_message) (r : Result) : Prop :=
  0 <= gas_left r <= gas m ∧ gas_refund r = 0 ∧ is_u64 (Z.of_nat (length (output r)))
  ∧ length (create_address r) = 20%nat.
Definition vm_contract (copy calls : Prop) (d : Z) : Contract := {|
  may_copy := copy;
  may_call m := calls ∧ depth m = d + 1 ∧ msg_ok m;
  call_promise := honest
|}.

Lemma grown_ok s mem : grown s mem → mem_ok mem.
Proof. by intros [? _]. Qed.
Lemma mem_ok_length m1 m2 : length m1 = length m2 → mem_ok m2 → mem_ok m1.
Proof. unfold mem_ok. by intros ->. Qed.
Lemma st_ok_mem s : st_ok s → mem_ok (memory s).
Proof. by intros []. Qed.

Ltac start := intros l g s HF Hr Hc Hg Hs; cbv zeta.
Ltac item_as x Hx HF :=
  match type of HF with Forall _ ?l =>
    destruct l as [|x l]; [unfold stack_limit in *; cbn in *; lia|]; apply Forall_cons in HF as [Hx HF] end.
Ltac words := repeat first [assumption | apply Forall_cons; split | apply Forall_nil; exact I | apply u64_word | apply u256_range | apply bool_word_ok].
Ltac goods :=
  repeat first
    [ assumption
    | match goal with
      | |- st_ok (set_memory _ _) => apply st_ok_memory
      | |- st_ok (set_return_data _ _) => apply st_ok_return_data
      | |- st_ok (set_call_stack _ _) => apply st_ok_call_stack
      | |- mem_ok _ => first [eapply grown_ok; eassumption | eapply mem_ok_length; [eassumption|]]
      end ].
Ltac finish_after := apply after_intro; [words|cbn [length]; lia|lia|goods].

Section simple.
Context (C : Contract).

Lemma binary_ok f : (∀ x y, is_u256 x → is_u256 y → is_u256 (f x y)) → instr_ok C 2 (-1) (binary f).
Proof.
  intros Hf. start. item_as x Hx HF. item_as y Hy HF. apply mok_bind, mok_pop, mok_bind, mok_pop, mok_push.
  - cbn [length] in *. lia.
  - unfold gas_ok in Hg. apply after_intro; [by apply Forall_cons; split; [apply Hf|]|cbn [length]; lia|lia|done].
Qed.
Lemma unary_ok f : (∀ x, is_u256 x → is_u256 (f x)) → instr_ok C 1 0 (x ← pop; push (f x)).
Proof.
  intros Hf. start. item_as x Hx HF. apply mok_bind, mok_pop, mok_push.
  - cbn [length] in *. lia.
  - unfold gas_ok in Hg. apply after_intro; [by apply Forall_cons; split; [apply Hf|]|cbn [length]; lia|lia|done].
Qed.
Lemma ternary_ok f : (∀ x y z, is_u256 x → is_u256 y → is_u256 z → is_u256 (f x y z)) →
  instr_ok C 3 (-2) (x ← pop; y ← pop; z ← pop; push (f x y z)).
Proof.
  intros Hf. start. item_as x Hx HF. item_as y Hy HF. item_as z Hz HF.
  apply mok_bind, mok_pop, mok_bind, mok_pop, mok_bind, mok_pop, mok_push.
  - cbn [length] in *. lia.
  - unfold gas_ok in Hg. apply after_intro; [by apply Forall_cons; split; [apply Hf|]|cbn [length]; lia|lia|done].
Qed.
Lemma push_ok x : is_u256 x → instr_ok C 0 1 (push x).
Proof.
  intros Hx. start. apply mok_push; [lia|]. unfold gas_ok in Hg. finish_after.
Qed.
(** A word that some computation finds, pushed. *)
Lemma push_of_ok {A} (c : M A) f :
  (∀ Q S l g s, st_ok s → (∀ a s', is_u256 (f a) → st_ok s' → Q a (mkMachine l g s')) → mok C Q S c (mkMachine l g s)) →
  instr_ok C 0 1 (a ← c; push (f a)).
Proof.
  intros Hfc. start. apply mok_bind, Hfc; [done|]. intros a s' Ha Hs'. apply mok_push; [lia|].
  unfold gas_ok in Hg. finish_after.
Qed.
Lemma tx_ok f : (∀ c, tx_context_ok c → is_u256 (f c)) → instr_ok C 0 1 (c ← get_tx_context; push (f c)).
Proof.
  intros Hf. apply push_of_ok. intros Q S l g s Hs HQ. apply mok_get_tx_context; [done|].
  intros c s' Hc Hs'. apply HQ; [by apply Hf|done].
Qed.
Lemma noop_ok : instr_ok C 0 0 noop.
Proof. start. unfold gas_ok in Hg. apply mok_ret. finish_after. Qed.
Lemma pop_ok : instr_ok C 1 (-1) pop_.
Proof. start. item_as x Hx HF. unfold gas_ok in Hg. apply mok_bind, mok_pop, mok_ret. finish_after. Qed.
Lemma stop_ok status : instr_ok C 0 0 (stop_impl status).
Proof.
  start. unfold gas_ok in Hg. apply mok_stop. destruct Hs as ([_ Hm] & _ & _ & Hr' & Ho).
  unfold stopped. cbn. split; [done|]. split; [done|]. split; [by left|]. intros _. lia.
Qed.
Lemma msize_ok : instr_ok C 0 1 msize.
Proof. apply (push_of_ok mem_size u64). intros Q S l g s Hs HQ. apply HQ; [apply u64_word|done]. Qed.
Lemma gas_instr_ok : instr_ok C 0 1 gas_.
Proof. apply (push_of_ok get_gas u64). intros Q S l g s Hs HQ. apply HQ; [apply u64_word|done]. Qed.
Lemma dup_ok N : (1 <= N)%nat → instr_ok C (Z.of_nat N) 1 (dup N).
Proof.
  intros HN. start. destruct (lookup_lt_is_Some_2 l (N - 1)) as [x Hx]; [lia|].
  unfold dup. apply mok_bind. eapply mok_item; [exact Hx|]. apply mok_push; [lia|].
  pose proof (Forall_lookup_1 _ _ _ _ HF Hx). unfold gas_ok in Hg. finish_after.
Qed.
Lemma swap_ok N : (1 <= N)%nat → instr_ok C (Z.of_nat N + 1) 0 (swap N).
Proof.
  intros HN. start. destruct (lookup_lt_is_Some_2 l N) as [a Ha]; [lia|].
  destruct (lookup_lt_is_Some_2 l 0) as [t Ht]; [lia|].
  unfold swap. apply mok_bind. eapply mok_item; [exact Ha|]. apply mok_bind. eapply mok_item; [exact Ht|].
  apply mok_bind, mok_set_item; [lia|]. apply mok_set_item; [rewrite length_insert; lia|].
  pose proof (Forall_lookup_1 _ _ _ _ HF Ha). pose proof (Forall_lookup_1 _ _ _ _ HF Ht). unfold gas_ok in Hg.
  apply after_intro; [by apply Forall_insert; [apply Forall_insert|]|rewrite !length_insert; lia|lia|done].
Qed.
End simple.

Section instructions_ok.
Context (C : Contract) (msg : evmc_message) (Hmsg : msg_ok msg).
Abbreviation rev := EVMC_MAX_REVISION.


Lemma exp_ok : instr_ok C 2 (-1) (exp rev).
Proof.
  start. item_as x Hx HF. item_as e He HF. pose proof (count_significant_bytes_range e He).
  apply mok_bind, mok_pop, mok_bind, mok_pop. change (EVMC_SPURIOUS_DRAGON <=? rev) with true. cbv zeta iota.
  apply mok_bind, mok_charge; [lia|done..|]. intros Hge. apply mok_push; [cbn [length] in *; lia|].
  pose proof (uexp_range x e Hx He). unfold gas_ok in Hg. finish_after.
Qed.

(** Cost of copying or hashing a checked number of bytes. *)
Lemma range_size mem off size : range_ok mem off size → is_u256 size → 0 <= limb size 0 < 2 ^ 32.
Proof.
  intros [->|(_ & H & _)] Hs; [done|]. unfold is_u256 in Hs. rewrite limb0_small; unfold is_u256; lia.
Qed.
Lemma words_cost n k : 0 <= n < 2 ^ 32 → 0 <= k <= 2 ^ 20 → 0 <= num_words n * k < 2 ^ 62.
Proof.
  intros Hn Hk. rewrite num_words_spec by lia. pose proof (Z.div_pos (n + 31) 32 ltac:(lia) ltac:(lia)).
  assert ((n + 31) / 32 < 2 ^ 28) by (apply Z.div_lt_upper_bound; lia). nia.
Qed.
(** A range that is not empty lies in the memory. *)
Lemma range_in mem off size : range_ok mem off size → is_u256 off → is_u256 size → 0 < limb size 0 →
  limb off 0 = off ∧ limb size 0 = size ∧ 0 <= off ∧ off + size <= Z.of_nat (length mem).
Proof.
  intros [->|(H1 & H2 & H3)] Ho Hs Hp; [done|]. unfold is_u256 in *.
  rewrite !limb0_small by (unfold is_u256; lia). lia.
Qed.

Lemma keccak256_ok : instr_ok C 2 (-1) keccak256_.
Proof.
  start. item_as i Hi HF. item_as n Hn HF. apply mok_bind, mok_pop, mok_bind, mok_pop.
  apply mok_bind, mok_require; [done..|]. intros mem g' Hm Hrg Hg'. cbv zeta. unfold gas_ok in *.
  pose proof (range_size _ _ _ Hrg Hn) as Hsz. assert (st_ok (set_memory mem s)) as Hs' by goods.
  apply mok_bind, mok_charge; [by apply words_cost|unfold gas_ok; lia|done|]. intros Hge.
  assert (∀ b, mok C (λ _, after (i :: n :: l) g (-1)) (stopped g) (push (be_load (keccak256 b)))
            (mkMachine l (g' - num_words (limb n 0) * 6) (set_memory mem s))) as Hpush.
  { intros b. apply mok_push; [cbn [length] in *; lia|].
    pose proof (be_load_word _ (length_keccak256 b)). pose proof (words_cost _ 6 Hsz ltac:(lia)). finish_after. }
  apply mok_bind, mok_if; intros Hb.
  - apply negb_true_iff, Z.eqb_neq in Hb. destruct (range_in _ _ _ Hrg Hi Hn ltac:(lia)) as (E1 & E2 & ? & ?).
    apply mok_mem_read; [lia..|cbn; lia|]. intros b _. apply Hpush.
  - apply mok_ret, Hpush.
Qed.
Lemma mload_ok : instr_ok C 1 0 mload.
Proof.
  start. item_as i Hi HF. apply mok_bind, mok_pop, mok_bind, mok_require64; [done|done|done..|].
  intros mem g' Ho Hm Hr' Hg'. unfold is_u256 in Hi. rewrite limb0_small by (unfold is_u256; lia).
  apply mok_bind, mok_mem_read; [lia..|cbn; lia|]. intros b Hb. apply mok_push; [cbn [length] in *; lia|].
  pose proof (be_load_word b ltac:(lia)). finish_after.
Qed.
Lemma mstore_ok : instr_ok C 2 (-2) mstore.
Proof.
  start. item_as i Hi HF. item_as v Hv HF. apply mok_bind, mok_pop, mok_bind, mok_pop, mok_bind, mok_require64; [done|done|done..|].
  intros mem g' Ho Hm Hr' Hg'. unfold is_u256 in Hi. rewrite limb0_small by (unfold is_u256; lia).
  apply mok_mem_write; [lia|unfold store32; rewrite length_be_store; cbn; lia|]. intros mem' Hl. cbn in Hl.
  finish_after.
Qed.
Lemma mstore8_ok : instr_ok C 2 (-2) mstore8.
Proof.
  start. item_as i Hi HF. item_as v Hv HF. apply mok_bind, mok_pop, mok_bind, mok_pop, mok_bind, mok_require64; [done|done|done..|].
  intros mem g' Ho Hm Hr' Hg'. unfold is_u256 in Hi. rewrite limb0_small by (unfold is_u256; lia).
  apply mok_mem_write; [lia|cbn; lia|]. intros mem' Hl. cbn in Hl.
  finish_after.
Qed.

Lemma slice_nat b off n : 0 <= off → 0 <= n → off + n <= Z.of_nat (length b) → length (slice b off n) = Z.to_nat n.
Proof. intros. pose proof (slice_length b off n). lia. Qed.
Lemma copy_ok data : Z.of_nat (length data) < 2 ^ 64 → instr_ok C 3 (-3) (copy_to_memory data).
Proof.
  intros Hd. start. item_as i Hi HF. item_as j Hj HF. item_as n Hn HF.
  apply mok_bind, mok_pop, mok_bind, mok_pop, mok_bind, mok_pop, mok_bind, mok_require; [done..|].
  intros mem g' Hm Hrg Hg'. cbv zeta. unfold gas_ok in *. pose proof (range_size _ _ _ Hrg Hn) as Hsz.
  pose proof (words_cost _ 3 Hsz ltac:(lia)).
  set (data_size := Z.of_nat (length data)) in *.
  set (src := if data_size <? j then data_size else limb j 0).
  assert (0 <= src <= data_size) as Hsrc.
  { unfold src. destruct (Z.ltb_spec data_size j); [lia|]. unfold is_u256 in Hj. rewrite limb0_small; unfold is_u256; lia. }
  rewrite u64_small by (unfold is_u64; lia). set (c := Z.min (limb n 0) (data_size - src)).
  apply mok_bind, mok_charge; [done|unfold gas_ok; lia|by goods|]. intros Hge.
  destruct (Z.le_gt_cases (limb n 0) 0) as [Hz|Hp].
  { apply mok_bind, mok_when; intros Hb; [apply Z.ltb_lt in Hb; lia|].
    apply mok_when; intros Hb'; [apply Z.ltb_lt in Hb'; lia|]. finish_after. }
  destruct (range_in _ _ _ Hrg Hi Hn Hp) as (E1 & E2 & ? & ?). rewrite E1, E2 in *.
  assert (∀ m1, length m1 = length mem →
    mok C (λ _, after (i :: j :: n :: l) g (-3)) (stopped g)
      (when (0 <? n - c) (mem_write (i + c) (replicate (Z.to_nat (n - c)) x00)))
      (mkMachine l (g' - num_words n * 3) (set_memory m1 (set_memory mem s)))) as Hclear.
  { intros m1 E. apply mok_when; intros Hb; [|finish_after].
    apply mok_mem_write; [lia|rewrite length_replicate; cbn; lia|]. intros m2 E'. cbn in E'. finish_after. }
  apply mok_bind, mok_when; intros Hb.
  - apply Z.ltb_lt in Hb. apply mok_mem_write; [lia|rewrite slice_nat by lia; cbn; lia|].
    intros m1 E. cbn in E. by apply Hclear.
  - change (set_memory mem s) with (set_memory mem (set_memory mem s)) at 1. by apply Hclear.
Qed.
Lemma returndatacopy_ok : instr_ok C 3 (-3) returndatacopy.
Proof.
  start. item_as i Hi HF. item_as j Hj HF. item_as n Hn HF.
  apply mok_bind, mok_pop, mok_bind, mok_pop, mok_bind, mok_pop, mok_bind, mok_require; [done..|].
  intros mem g' Hm Hrg Hg'. cbv zeta. unfold gas_ok in *. pose proof (range_size _ _ _ Hrg Hn) as Hsz.
  pose proof (words_cost _ 3 Hsz ltac:(lia)). assert (st_ok (set_memory mem s)) as Hs' by goods.
  apply mok_bind, mok_get. cbn [return_data set_memory].
  pose proof (proj1 (proj2 Hs)) as Hrd. unfold is_u64 in Hrd.
  apply mok_if; intros Hb; [by apply mok_fail|]. apply Z.ltb_ge in Hb. unfold is_u256 in Hj.
  rewrite (limb0_small j) by (unfold is_u256; lia).
  apply mok_if; intros Hb'; [by apply mok_fail|]. apply Z.ltb_ge in Hb'.
  apply mok_bind, mok_charge; [done|unfold gas_ok; lia|done|]. intros Hge.
  apply mok_when; intros Hp; [|finish_after]. apply Z.ltb_lt in Hp.
  destruct (range_in _ _ _ Hrg Hi Hn Hp) as (E1 & E2 & ? & ?). rewrite E1, E2 in *.
  assert (length (slice (return_data s) j n) <= Z.to_nat n)%nat as Hl by (unfold slice; rewrite length_take; lia).
  apply mok_mem_write; [lia|cbn; lia|]. intros m1 E. cbn in E. finish_after.
Qed.
Lemma extcodecopy_ok : may_copy C → instr_ok C 4 (-4) (extcodecopy rev).
Proof.
  intros Hcopy. start. item_as x Hx HF. item_as i Hi HF. item_as j Hj HF. item_as n Hn HF.
  apply mok_bind, mok_pop, mok_bind, mok_pop, mok_bind, mok_pop, mok_bind, mok_pop, mok_bind, mok_require; [done..|].
  intros mem g' Hm Hrg Hg'. cbv zeta. unfold gas_ok in *. pose proof (range_size _ _ _ Hrg Hn) as Hsz.
  pose proof (words_cost _ 3 Hsz ltac:(lia)). assert (st_ok (set_memory mem s)) as Hs' by goods.
  apply mok_bind, mok_charge; [done|unfold gas_ok; lia|done|]. intros Hge.
  assert (∀ g2, 0 <= g2 <= g' → mok C (λ _, after (x :: i :: j :: n :: l) g (-4)) (stopped g)
    (when (0 <? limb n 0) (
      data ← host_copy_code (trunc_address x) (if max_buffer_size <? j then max_buffer_size else limb j 0) (limb n 0);
      mem_write (limb i 0) data ≫= λ _,
      when (0 <? u64 (limb n 0 - Z.of_nat (length data)))
        (mem_write (limb i 0 + Z.of_nat (length data))
           (replicate (Z.to_nat (u64 (limb n 0 - Z.of_nat (length data)))) x00))))
    (mkMachine l g2 (set_memory mem s))) as Hk.
  { intros g2 Hg2. apply mok_when; intros Hp; [|finish_after]. apply Z.ltb_lt in Hp.
    destruct (range_in _ _ _ Hrg Hi Hn Hp) as (E1 & E2 & ? & ?). rewrite E1, E2 in *.
    apply mok_bind, mok_copy_code; [done|]. intros d Hd.
    apply mok_bind, mok_mem_write; [lia|cbn; lia|]. intros m1 E. cbn in E.
    rewrite u64_small by (unfold is_u64; lia).
    apply mok_when; intros _; [|finish_after].
    apply mok_mem_write; [lia|rewrite length_replicate; cbn; lia|]. intros m2 E'. cbn in E'. finish_after. }
  apply mok_bind. change (EVMC_BERLIN <=? rev) with true. unfold cold_account_cost.
  change (EVMC_BERLIN <=? rev) with true. cbv iota. apply mok_bind, mok_access_account. intros [|].
  - apply mok_charge; [done|unfold gas_ok; lia|done|]. intros Hge2. apply Hk. unfold additional_cold_account_access_cost, cold_account_access_cost, warm_storage_read_cost in *. lia.
  - apply mok_ret, Hk. lia.
Qed.

(** *** The host *)
Lemma mok_cold Q g0 addr cost l g s :
  0 <= cost < 2 ^ 62 → gas_ok g → st_ok s → (∀ g', 0 <= g' <= g → Q tt (mkMachine l g' s)) →
  mok C Q (stopped g0) (cold_account_cost rev addr cost) (mkMachine l g s).
Proof.
  intros Hc Hg Hs HQ. unfold cold_account_cost. change (EVMC_BERLIN <=? rev) with true. cbv iota. unfold gas_ok in *.
  apply mok_bind, mok_access_account. intros [|].
  - apply mok_charge; [done|unfold gas_ok; lia|done|]. intros Hge. apply HQ. lia.
  - apply mok_ret, HQ. lia.
Qed.
Lemma account_query_ok {B} (ask : bytes → M B) (f : B → Z) :
  (∀ Q S a m, (∀ b, is_u256 (f b) → Q b m) → mok C Q S (ask a) m) →
  instr_ok C 1 0 (x ← pop; cold_account_cost rev (trunc_address x) additional_cold_account_access_cost ≫= λ _,
                  b ← ask (trunc_address x); push (f b)).
Proof.
  intros Hask. start. item_as x Hx HF. apply mok_bind, mok_pop. cbv zeta.
  apply mok_bind, mok_cold; [done..|]. intros g' Hg'. apply mok_bind, Hask. intros b Hb.
  apply mok_push; [cbn [length] in *; lia|]. finish_after.
Qed.
Lemma balance_ok : instr_ok C 1 0 (balance rev).
Proof.
  apply (account_query_ok host_get_balance be_load). intros Q S a m HQ. apply mok_get_balance. intros v Hv.
  apply HQ. by apply be_load_word.
Qed.
Lemma extcodesize_ok : instr_ok C 1 0 (extcodesize rev).
Proof.
  apply (account_query_ok host_get_code_size (λ n, n)). intros Q S a m HQ. apply mok_get_code_size. intros n Hn.
  apply HQ. by apply is_u256_lt.
Qed.
Lemma extcodehash_ok : instr_ok C 1 0 (extcodehash rev).
Proof.
  apply (account_query_ok host_get_code_hash be_load). intros Q S a m HQ. apply mok_get_code_hash. intros v Hv.
  apply HQ. by apply be_load_word.
Qed.
Lemma selfbalance_ok : instr_ok C 0 1 (selfbalance msg).
Proof.
  apply (push_of_ok C (host_get_balance (recipient msg)) be_load). intros Q S l g s Hs HQ. apply mok_get_balance.
  intros v Hv. apply HQ; [by apply be_load_word|done].
Qed.
Lemma blockhash_ok : instr_ok C 1 0 blockhash.
Proof.
  start. item_as x Hx HF. apply mok_bind, mok_pop, mok_bind, mok_get_tx_context; [done|].
  intros c s' Hctx Hs'. cbv zeta. pose proof Hctx as (_ & _ & _ & Hbn & _).
  assert (∀ v, length v = 32%nat → mok C (λ _, after (x :: l) g 0) (stopped g) (push (be_load v)) (mkMachine l g s')) as Hp.
  { intros v Hv. apply mok_push; [cbn [length] in *; lia|]. pose proof (be_load_word v Hv). unfold gas_ok in Hg. finish_after. }
  apply mok_bind, mok_signed; [lia|]. apply mok_bind, mok_if; intros _; [by apply mok_get_block_hash|by apply mok_ret, Hp].
Qed.
Lemma calldataload_ok : instr_ok C 1 0 (calldataload msg).
Proof.
  start. item_as i Hi HF. apply mok_bind, mok_pop. destruct Hmsg as (_ & _ & _ & _ & _ & Hin).
  unfold is_u64 in Hin. fold (input_size msg) in Hin. unfold gas_ok in Hg.
  apply mok_if; intros Hb; [apply mok_push; [cbn [length] in *; lia|]; pose proof is_u256_0; finish_after|].
  apply Z.ltb_ge in Hb. cbv zeta. unfold is_u256 in Hi. rewrite limb0_small by (unfold is_u256; lia).
  set (d := slice _ _ _). assert (length d <= 32)%nat as Hd by (unfold d, slice; rewrite length_take; lia).
  assert (is_u256 (be_load (d ++ replicate (32 - length d) x00))) as Hw.
  { apply be_load_word. rewrite length_app, length_replicate. lia. }
  apply mok_push; [cbn [length] in *; lia|]. finish_after.
Qed.

(** *** Storage *)
Lemma mok_cold_storage Q S key m : (∀ b, Q b m) → mok C Q S (cold_storage msg rev key) m.
Proof.
  intros HQ. unfold cold_storage. change (EVMC_BERLIN <=? rev) with true. cbv iota.
  apply mok_bind, mok_access_storage. intros r. apply mok_ret, HQ.
Qed.
Lemma sload_ok : instr_ok C 1 0 (sload msg rev).
Proof.
  start. item_as x Hx HF. apply mok_bind, mok_pop. cbv zeta. unfold gas_ok in *.
  assert (∀ g', 0 <= g' <= g → mok C (λ _, after (x :: l) g 0) (stopped g)
    (v ← host_get_storage (recipient msg) (store32 x); push (be_load v)) (mkMachine l g' s)) as Hk.
  { intros g' Hg'. apply mok_bind, mok_get_storage; [apply length_be_store|]. intros v Hv.
    apply mok_push; [cbn [length] in *; lia|]. pose proof (be_load_word v Hv). finish_after. }
  apply mok_bind, mok_cold_storage. intros b. apply mok_bind, mok_when; intros _; [|apply Hk; lia].
  apply mok_charge; [done|unfold gas_ok; lia|done|]. intros Hge. apply Hk.
  unfold cold_sload_cost, warm_storage_read_cost in *. lia.
Qed.
(** In this revision a store costs nothing but the access, and refunds nothing. *)
Lemma sstore_costs_max status : sstore_costs rev status = (0, 0).
Proof. by destruct status; vm_compute. Qed.
Lemma mok_no_refund Q S l g s : st_ok s → (∀ s', st_ok s' → Q tt (mkMachine l g s')) → mok C Q S (add_refund 0) (mkMachine l g s).
Proof.
  intros Hs HQ. unfold add_refund. pose proof Hs as (_ & _ & _ & Hr & _). apply mok_bind, mok_get.
  apply mok_bind, mok_signed; [lia|]. rewrite Hr. apply mok_put, HQ. by apply st_ok_refund.
Qed.
Lemma sstore_ok : instr_ok C 2 (-2) (sstore msg rev).
Proof.
  start. unfold sstore. apply mok_if; intros _; [by apply mok_fail|].
  apply mok_bind, mok_get_gas, mok_if; intros _; [by apply mok_fail|].
  item_as k Hk HF. item_as v Hv HF. apply mok_bind, mok_pop. cbv zeta. apply mok_bind, mok_pop.
  apply mok_bind, mok_cold_storage. intros cold.
  apply mok_bind, mok_set_storage; [apply length_be_store..|]. intros status. rewrite sstore_costs_max.
  apply mok_bind, mok_charge; [by destruct cold|done..|]. intros Hge. apply mok_no_refund; [done|]. intros s' Hs'.
  unfold gas_ok in Hg. assert (0 <= 0 + (if cold then cold_sload_cost else 0)) by (by destruct cold). finish_after.
Qed.

(** *** Logs and the end *)
Lemma log_ok N : instr_ok C (2 + Z.of_nat N) (- 2 - Z.of_nat N) (log msg N).
Proof.
  start. unfold log. apply mok_if; intros _; [apply mok_bind, mok_set_gas; by apply mok_fail|].
  item_as i Hi HF. item_as n Hn HF. apply mok_bind, mok_pop, mok_bind, mok_pop.
  apply mok_bind, mok_require; [done..|]. intros mem g' Hm Hrg Hg'. cbv zeta. unfold gas_ok in *.
  pose proof (range_size _ _ _ Hrg Hn) as Hsz. assert (st_ok (set_memory mem s)) as Hs' by goods.
  apply mok_bind, mok_charge; [lia|unfold gas_ok; lia|done|]. intros Hge.
  assert (∃ xs l', l = xs ++ l' ∧ length xs = N) as (xs & l' & -> & HN).
  { exists (take N l), (drop N l). rewrite take_drop. split; [done|]. rewrite length_take. cbn [length] in *. lia. }
  apply Forall_app in HF as [_ HF]. rewrite <-HN. apply mok_bind, mok_pops.
  apply mok_bind, mok_if; intros Hb.
  - apply negb_true_iff, Z.eqb_neq in Hb. destruct (range_in _ _ _ Hrg Hi Hn ltac:(lia)) as (E1 & E2 & ? & ?).
    apply mok_mem_read; [lia..|cbn; lia|]. intros b _. apply mok_emit_log.
    apply after_intro; [done|cbn [length] in *; rewrite length_app; lia|lia|done].
  - apply mok_ret, mok_emit_log. apply after_intro; [done|cbn [length] in *; rewrite length_app; lia|lia|done].
Qed.
Lemma return_ok status : instr_ok C 2 (-2) (return_impl status).
Proof.
  start. item_as i Hi HF. item_as n Hn HF. unfold return_impl.
  apply mok_bind. eapply mok_item; [done|]. apply mok_bind. eapply mok_item; [done|].
  apply mok_bind, mok_require; [done..|]. intros mem g' Hm Hrg Hg'. unfold gas_ok in *.
  pose proof (range_size _ _ _ Hrg Hn) as Hsz. pose proof (grown_ok _ _ Hm) as [_ Hml]. destruct Hs as (_ & _ & _ & Hr' & Ho).
  apply mok_bind, mok_get. cbv zeta. apply mok_bind, mok_put, mok_stop. unfold stopped. cbn.
  split; [done|]. split; [done|]. split; [|intros _; lia].
  destruct (Z.eqb_spec (limb n 0) 0) as [->|Hz]; cbn; [by left|right].
  destruct (range_in _ _ _ Hrg Hi Hn ltac:(lia)) as (-> & E2 & ? & ?). rewrite E2. apply in_bounds_true; lia.
Qed.
Lemma selfdestruct_ok : instr_ok C 1 (-1) (selfdestruct msg rev).
Proof.
  start. unfold selfdestruct. apply mok_if; intros _; [by apply mok_fail|]. item_as x Hx HF. unfold gas_ok in *.
  apply mok_bind. eapply mok_item; [done|]. cbv zeta. apply mok_bind, mok_cold; [done|unfold gas_ok; lia|done|]. intros g' Hg'.
  change (EVMC_TANGERINE_WHISTLE <=? rev) with true. change (rev =? EVMC_TANGERINE_WHISTLE) with false. cbv iota.
  assert (∀ g2, 0 <= g2 <= g → mok C (λ _ : unit, after (x :: l) g (-1)) (stopped g)
    (done ← host_selfdestruct (recipient msg) (trunc_address x);
     when (done && (rev <? EVMC_LONDON)) (add_refund 24000) ≫= λ _, stop EVMC_SUCCESS) (mkMachine (x :: l) g2 s)) as Hk.
  { intros g2 Hg2. apply mok_bind, mok_host_selfdestruct. intros r. change (rev <? EVMC_LONDON) with false. rewrite andb_false_r.
    apply mok_bind, mok_ret.
    apply mok_stop. destruct Hs as ([_ Hm] & _ & _ & Hr' & Ho). unfold stopped. cbn. split; [done|]. split; [done|].
    split; [by left|]. intros _. lia. }
  apply mok_bind, mok_bind, mok_bind, mok_get_balance. intros v _. apply mok_ret, mok_if; intros _; [|apply mok_ret, Hk; lia].
  apply mok_bind, mok_account_exists. intros e. apply mok_when; intros _; [|apply Hk; lia].
  apply mok_charge; [done|unfold gas_ok; lia|done|]. intros Hge. apply Hk. lia.
Qed.

(** *** Calls *)
Section calls.
Context (Hmay : ∀ m, depth m = depth msg + 1 → msg_ok m → may_call C m).
Context (Hprom : ∀ m r, call_promise C m r → honest m r).

(** What comes back from a call: its output, the gas it did not use. *)
Lemma mok_return_gas Q msg_gas r l g g0 s :
  gas_ok g → 0 <= msg_gas <= g → 0 <= gas_left r <= msg_gas → gas_refund r = 0 → st_ok s →
  (∀ g' s', 0 <= g' <= g → st_ok s' → Q tt (mkMachine l g' s')) →
  mok C Q (stopped g0) (gas_used ← signed (msg_gas - gas_left r);
    g ← get_gas; g ← signed (g - gas_used); set_gas g ≫= λ _, add_refund (gas_refund r)) (mkMachine l g s).
Proof.
  intros Hg Hm Hr Hz Hs HQ. unfold gas_ok, int64_max in *. apply mok_bind, mok_signed; [lia|].
  apply mok_bind, mok_get_gas, mok_bind, mok_signed; [lia|]. apply mok_bind, mok_set_gas. rewrite Hz.
  apply mok_no_refund; [done|]. intros s' Hs'. apply HQ; [lia|done].
Qed.
Lemma requested_gas gas : is_u256 gas →
  0 <= (if gas <? u64 int64_max then i64 (limb gas 0) else int64_max) <= int64_max.
Proof.
  intros Hgas. unfold is_u256 in Hgas. change (u64 int64_max) with int64_max. unfold int64_max.
  destruct (Z.ltb_spec gas (2 ^ 63 - 1)); [|lia]. rewrite limb0_small by (unfold is_u256; lia).
  rewrite i64_small by (unfold is_i64; lia). lia.
Qed.
Lemma all_but_64th g : 0 <= g → 0 <= g - Z.quot g 64 <= g.
Proof.
  intros Hg. rewrite Z.quot_div_nonneg by lia. pose proof (Z.div_pos g 64 Hg ltac:(lia)).
  pose proof (Z.div_mod g 64 ltac:(lia)). pose proof (Z.mod_pos_bound g 64 ltac:(lia)). lia.
Qed.

Definition call_required (op : call_op) : Z := if passes_value op then 7 else 6.
(** The operands of a call, then failure assumed. *)
Lemma mok_read_opt Q g0 off n l g s :
  st_ok s → range_ok (memory s) off n → is_u256 off → is_u256 n →
  (∀ b, is_u64 (Z.of_nat (length b)) → Q b (mkMachine l g s)) →
  mok C Q (stopped g0) (if 0 <? limb n 0 then mem_read (limb off 0) (limb n 0) else mret []) (mkMachine l g s).
Proof.
  intros Hs Hrg Ho Hn HQ. apply mok_if; intros Hb; [|by apply mok_ret, HQ]. apply Z.ltb_lt in Hb.
  destruct (range_in _ _ _ Hrg Ho Hn Hb) as (E1 & E2 & ? & ?). pose proof (range_size _ _ _ Hrg Hn).
  apply mok_mem_read; [lia..|]. intros b Hlb. apply HQ. unfold is_u64. lia.
Qed.
Lemma range_grown s mem off n : grown s mem → range_ok (memory s) off n → range_ok mem off n.
Proof. intros [_ Hl] [->|(H1 & H2 & H3)]; [by left|right; lia]. Qed.

(** The call itself and what is done with its result. *)
Lemma mok_do_call Q g0 (m : evmc_message) off n l g s :
  depth m = depth msg + 1 → msg_ok m → gas_ok g → gas m <= g → st_ok s → range_ok (memory s) off n →
  is_u256 off → is_u256 n →
  (∀ x g' s', is_u256 x → 0 <= g' <= g → st_ok s' → Q tt (mkMachine (x :: l) g' s')) →
  mok C Q (stopped g0)
    (result ← host_call m;
     s ← get; put (set_return_data (output result) s) ≫= λ _,
     set_item 0 (bool_word (status_code result =? EVMC_SUCCESS)) ≫= λ _,
     let copy_size := Z.min (limb n 0) (Z.of_nat (length (output result))) in
     when (0 <? copy_size) (mem_write (limb off 0) (slice (output result) 0 copy_size)) ≫= λ _,
     gas_used ← signed (gas m - gas_left result);
     g ← get_gas; g ← signed (g - gas_used); set_gas g ≫= λ _,
     add_refund (gas_refund result)) (mkMachine (0 :: l) g s).
Proof.
  intros Hd Hm Hg Hgm Hs Hrg Ho Hn HQ. apply mok_bind, mok_host_call; [by apply Hmay|].
  intros r (Hgl & Hrf & Hout & _)%Hprom. pose proof Hm as (_ & Hgas & _). unfold gas_ok in Hgas.
  apply mok_bind, mok_get, mok_bind, mok_put, mok_bind, mok_set_item; [cbn; lia|]. cbv zeta. cbn [insert list_insert].
  assert (st_ok (set_return_data (output r) s)) as Hs' by goods.
  assert (∀ s', st_ok s' → mok C Q (stopped g0)
     (gas_used ← signed (gas m - gas_left r);
      g ← get_gas; g ← signed (g - gas_used); set_gas g ≫= λ _, add_refund (gas_refund r))
     (mkMachine (bool_word (status_code r =? EVMC_SUCCESS) :: l) g s')) as Hk.
  { intros s1 Hs1. apply mok_return_gas; [done|lia|done..|]. intros g' s2 Hg' Hs2. apply HQ; [apply bool_word_ok|done..]. }
  apply mok_bind, mok_when; intros Hb; [|by apply Hk]. apply Z.ltb_lt in Hb.
  destruct (range_in _ _ _ Hrg Ho Hn ltac:(lia)) as (E1 & E2 & ? & ?).
  apply mok_mem_write; [lia|rewrite slice_nat by lia; cbn; lia|]. intros m1 E. cbn in E. apply Hk.
  pose proof (st_ok_mem _ Hs). goods.
Qed.

(** From the checked ranges on: what the call costs, how much gas goes with it. *)
Lemma mok_call_value Q g0 (has_value : bool) msg_gas l g s :
  gas_ok g → 0 <= msg_gas <= g → (has_value = true → g + 2300 <= int64_max) → st_ok s →
  (∀ m g', gas_ok g' → 0 <= m <= g' → g' = (if has_value then g + 2300 else g) → Q m (mkMachine l g' s)) →
  mok C Q (stopped g0) (if has_value then
     m ← signed (msg_gas + 2300); g ← signed (g + 2300); set_gas g ≫= λ _, mret m
   else mret msg_gas) (mkMachine l g s).
Proof.
  intros Hg Hm Hv Hs HQ. unfold gas_ok, int64_max in *. destruct has_value.
  - specialize (Hv eq_refl). apply mok_bind, mok_signed; [lia|]. apply mok_bind, mok_signed; [lia|].
    apply mok_bind, mok_set_gas, mok_ret, HQ; lia.
  - apply mok_ret, HQ; lia.
Qed.
Definition call_message op dst value input msg_gas : evmc_message :=
  mkMsg (call_kind op) (if bool_decide (op = OpStaticcall) then EVMC_STATIC else flags msg)
    (depth msg + 1) msg_gas
    (match op with OpCall | OpStaticcall => dst | _ => recipient msg end)
    (if bool_decide (op = OpDelegatecall) then sender msg else recipient msg)
    input
    (if bool_decide (op = OpDelegatecall) then msg_value msg else store32 value)
    zero32 dst.
Lemma call_message_ok op dst value input msg_gas :
  length dst = 20%nat → is_u64 (Z.of_nat (length input)) → gas_ok msg_gas → depth msg < 1024 →
  msg_ok (call_message op dst value input msg_gas).
Proof.
  destruct Hmsg as (Hd & _ & Hr & Hse & Hv & _). intros Hdst Hi Hg Hlt. unfold msg_ok, call_message.
  cbn [depth gas recipient sender msg_value input_data].
  split; [lia|]. split; [done|].
  split; [by destruct op|]. split; [by destruct (bool_decide _)|].
  split; [destruct (bool_decide _); [done|apply length_be_store]|done].
Qed.
Lemma call_cost_ok {B} (k : unit → M B) Q g0 op (has_value : bool) dst l g s :
  gas_ok g → st_ok s →
  (∀ g', 0 <= g' → (if has_value then g' + 9000 else g') <= g → mok C Q (stopped g0) (k tt) (mkMachine l g' s)) →
  mok C Q (stopped g0)
    (cost ← (match op with
             | OpCall =>
                 if has_value && in_static_mode msg then stop EVMC_STATIC_MODE_VIOLATION
                 else if has_value || (rev <? EVMC_SPURIOUS_DRAGON) then
                   e ← host_account_exists dst;
                   mret (if negb e then (if has_value then 9000 else 0) + 25000 else (if has_value then 9000 else 0))
                 else mret (if has_value then 9000 else 0)
             | _ => mret (if has_value then 9000 else 0)
             end);
     charge cost ≫= k) (mkMachine l g s).
Proof.
  intros Hg Hs HQ. set (base := if has_value then 9000 else 0).
  assert (0 <= base <= 9000 ∧ (has_value = true → base = 9000)) as [Hb Hbv] by (unfold base; by destruct has_value).
  assert (∀ c, base <= c <= base + 25000 → mok C Q (stopped g0) (charge c ≫= k) (mkMachine l g s)) as Hk.
  { intros c Hc. apply mok_bind, mok_charge; [lia|done..|]. intros Hge. apply HQ; [unfold gas_ok in Hg; lia|].
    unfold gas_ok in Hg. destruct has_value; [rewrite (Hbv eq_refl) in *|]; lia. }
  apply mok_bind. destruct op; [|apply mok_ret, Hk; lia..].
  apply mok_if; intros _; [by apply mok_fail|]. change (rev <? EVMC_SPURIOUS_DRAGON) with false.
  apply mok_if; intros _; [|apply mok_ret, Hk; lia]. apply mok_bind, mok_account_exists. intros e.
  apply mok_ret, Hk. destruct e; cbn; lia.
Qed.

(** The operands of a call below the gas and the account. *)
Lemma call_operands op l1 : Forall is_u256 l1 → call_required op - 2 <= Z.of_nat (length l1) →
  ∃ value io iz oo os l, is_u256 value ∧ is_u256 io ∧ is_u256 iz ∧ is_u256 oo ∧ is_u256 os ∧ Forall is_u256 l
    ∧ l1 = (if passes_value op then [value] else []) ++ io :: iz :: oo :: os :: l ∧ (passes_value op = false → value = 0).
Proof.
  assert (∀ l2, Forall is_u256 l2 → (4 <= length l2)%nat → ∃ io iz oo os l, is_u256 io ∧ is_u256 iz ∧ is_u256 oo ∧ is_u256 os
    ∧ Forall is_u256 l ∧ l2 = io :: iz :: oo :: os :: l) as H4.
  { intros l2 H2 Hl2. destruct l2 as [|io [|iz [|oo [|os l]]]]; cbn in Hl2; [lia..|].
    repeat (apply Forall_cons in H2 as [? H2]). by exists io, iz, oo, os, l. }
  unfold call_required. intros HF Hr. destruct (passes_value op).
  - destruct l1 as [|value l1]; [cbn in Hr; lia|]. apply Forall_cons in HF as [Hv HF].
    destruct (H4 l1 HF ltac:(cbn in Hr; lia)) as (io & iz & oo & os & l & ? & ? & ? & ? & ? & ->).
    by exists value, io, iz, oo, os, l.
  - destruct (H4 l1 HF ltac:(cbn in Hr; lia)) as (io & iz & oo & os & l & ? & ? & ? & ? & ? & ->).
    by exists 0, io, iz, oo, os, l.
Qed.
Lemma call_ok op : instr_ok C (call_required op) (1 - call_required op) (call_impl msg rev op).
Proof.
  start. unfold call_impl. destruct l as [|gas [|dst l1]]; [destruct op; cbn in *; lia..|].
  apply Forall_cons in HF as [Hgas HF]. apply Forall_cons in HF as [Hdst HF].
  apply mok_bind, mok_pop, mok_bind, mok_pop. cbv zeta.
  destruct (call_operands op l1 HF ltac:(cbn in Hr; lia)) as (value & io & iz & oo & os & l & Hv & Hio & Hiz & Hoo & Hos & HF' & -> & Hv0).
  assert (Z.of_nat (length l) + call_required op = Z.of_nat (length (gas :: dst :: (if passes_value op then [value] else []) ++ io :: iz :: oo :: os :: l))) as Hlen.
  { unfold call_required. destruct (passes_value op); cbn [length app]; lia. }
  rewrite <-Hlen in *. set (l0 := gas :: dst :: _) in *.
  apply mok_bind. eapply (mok_mono _ _ _ (λ v m, v = value ∧ m = mkMachine (io :: iz :: oo :: os :: l) g s)).
  2: { destruct (passes_value op); [exact (conj eq_refl eq_refl)|]. rewrite (Hv0 eq_refl). exact (conj eq_refl eq_refl). }
  intros v m [-> ->]. do 4 (apply mok_bind, mok_pop).
  apply mok_bind, mok_push; [unfold call_required, stack_limit in *; destruct (passes_value op); lia|].
  apply mok_bind, mok_get, mok_bind, mok_put. unfold gas_ok in Hg.
  assert (st_ok (set_return_data [] s)) as Hs1 by (apply st_ok_return_data; [done|unfold is_u64; cbn; lia]).
  apply mok_bind, mok_cold; [done..|]. intros g1 Hg1.
  apply mok_bind, mok_require; [done|done|unfold gas_ok; lia|done|]. intros mem1 g2 Hm1 Hr1 Hg2.
  apply mok_bind, mok_require; [done|done|unfold gas_ok; lia|by goods|]. intros mem2 g3 Hm2 Hr2 Hg3.
  pose proof (range_grown _ _ _ _ Hm2 Hr1) as Hr1'.
  change (set_memory mem2 (set_memory mem1 (set_return_data [] s))) with (set_memory mem2 (set_return_data [] s)).
  assert (st_ok (set_memory mem2 (set_return_data [] s))) as Hs2 by goods.
  apply mok_bind, mok_read_opt; [done|done|done|done|]. intros input Hin.
  apply call_cost_ok; [unfold gas_ok; lia|done|]. intros g4 Hg4 Hg4'.
  pose proof (requested_gas gas Hgas) as Hreq. pose proof (all_but_64th g4 Hg4) as H64.
  apply mok_bind, mok_get_gas. change (EVMC_TANGERINE_WHISTLE <=? rev) with true. cbv iota. apply mok_bind, mok_ret.
  set (hv := negb (value =? 0)) in *. set (req := if gas <? u64 int64_max then _ else _) in *. clearbody hv req.
  assert (g4 <= g ∧ (hv = true → g4 + 9000 <= g)) as [Hg4g Hg4v] by (destruct hv; lia).
  assert (0 <= Z.min req (g4 - Z.quot g4 64) <= g4) as Hmin by lia.
  apply mok_bind, mok_call_value; [unfold gas_ok; lia|done|intros E; specialize (Hg4v E); lia|done|].
  intros msg_gas g5 Hg5 Hmg Eg5.
  assert (g5 <= g) as Hg5' by (rewrite Eg5; destruct hv; [specialize (Hg4v eq_refl)|]; lia).
  assert (∀ x g' s', is_u256 x → 0 <= g' <= g → st_ok s' → after l0 g (1 - call_required op) (mkMachine (x :: l) g' s')) as Hend.
  { intros x g' s' Hx Hg' Hs'. apply after_intro; [by apply Forall_cons|cbn [length]; lia|done|done]. }
  assert (after l0 g (1 - call_required op) (mkMachine (0 :: l) g5 (set_memory mem2 (set_return_data [] s)))) as Hlight.
  { apply Hend; [done|unfold gas_ok in Hg5; lia|done]. }
  apply mok_if; intros Hdep; [by apply mok_ret|]. apply Z.leb_gt in Hdep.
  apply mok_bind. eapply (mok_mono _ _ _ (λ _ m, m = mkMachine (0 :: l) g5 (set_memory mem2 (set_return_data [] s)))).
  2: { apply mok_if; intros _; [apply mok_bind, mok_get_balance; intros b _; by apply mok_ret|by apply mok_ret]. }
  intros poor m ->. apply mok_if; intros _; [by apply mok_ret|].
  change (mkMsg _ _ _ _ _ _ _ _ _ _) with (call_message op (trunc_address dst) value input msg_gas).
  apply (mok_do_call _ _ (call_message op (trunc_address dst) value input msg_gas));
    [done| |done|cbn; lia|done|done|done|done|].
  - apply call_message_ok; [apply length_be_store|done|unfold gas_ok in *; lia|done].
  - intros x g' s' Hx Hg' Hs'. apply Hend; [done|lia|done].
Qed.

(** The creation itself and what is done with its result. *)
Lemma mok_do_create Q g0 (m : evmc_message) l g s :
  depth m = depth msg + 1 → msg_ok m → gas_ok g → gas m <= g → st_ok s →
  (∀ x g' s', is_u256 x → 0 <= g' <= g → st_ok s' → Q tt (mkMachine (x :: l) g' s')) →
  mok C Q (stopped g0)
    (result ← host_call m;
     gas_used ← signed (gas m - gas_left result);
     g ← get_gas; g ← signed (g - gas_used); set_gas g ≫= λ _,
     add_refund (gas_refund result) ≫= λ _,
     s ← get; put (set_return_data (output result) s) ≫= λ _,
     when (status_code result =? EVMC_SUCCESS) (set_item 0 (be_load (create_address result)))) (mkMachine (0 :: l) g s).
Proof.
  intros Hd Hm Hg Hgm Hs HQ. apply mok_bind, mok_host_call; [by apply Hmay|].
  intros r (Hgl & Hrf & Hout & Hca)%Hprom. pose proof Hm as (_ & Hgas & _). unfold gas_ok, int64_max in *.
  apply mok_bind, mok_signed; [lia|]. apply mok_bind, mok_get_gas, mok_bind, mok_signed; [lia|].
  apply mok_bind, mok_set_gas, mok_bind. rewrite Hrf. apply mok_no_refund; [done|]. intros s1 Hs1.
  apply mok_bind, mok_get, mok_bind, mok_put.
  assert (st_ok (set_return_data (output r) s1)) as Hs2 by goods.
  apply mok_when; intros _; [|by apply HQ; [|lia|]].
  apply mok_set_item; [cbn; lia|]. cbn [insert list_insert]. apply HQ; [by apply be_load_addr|lia|done].
Qed.
Definition create_message (create2 : bool) input endowment salt msg_gas : evmc_message :=
  mkMsg (if create2 then EVMC_CREATE2 else EVMC_CREATE) 0 (depth msg + 1) msg_gas
    zero20 (recipient msg) input (store32 endowment) (store32 salt) zero20.
Lemma create_message_ok create2 input endowment salt msg_gas :
  is_u64 (Z.of_nat (length input)) → gas_ok msg_gas → depth msg < 1024 →
  msg_ok (create_message create2 input endowment salt msg_gas).
Proof.
  destruct Hmsg as (Hd & _ & Hr & _). intros Hi Hg Hlt. unfold msg_ok, create_message.
  cbn [depth gas recipient sender msg_value input_data].
  split; [lia|]. split; [done|]. split; [done|]. split; [done|]. split; [apply length_be_store|done].
Qed.
Definition create_required (create2 : bool) : Z := if create2 then 4 else 3.
Lemma create_ok create2 : instr_ok C (create_required create2) (1 - create_required create2) (create_impl msg rev create2).
Proof.
  start. unfold create_impl. apply mok_if; intros _; [by apply mok_fail|].
  assert (3 <= create_required create2) as H3 by (by destruct create2).
  item_as v Hv HF. item_as i Hi HF. item_as n Hn HF. do 3 (apply mok_bind, mok_pop).
  assert (∃ salt l', Forall is_u256 l' ∧ l = (if create2 then [salt] else []) ++ l' ∧ (create2 = false → salt = 0))
    as (salt & l' & HF' & -> & Hsalt).
  { destruct create2; [|by exists 0, l]. item_as x Hx HF. by exists x, l. }
  assert (Z.of_nat (length l') + create_required create2 = Z.of_nat (length (v :: i :: n :: (if create2 then [salt] else []) ++ l'))) as Hlen.
  { destruct create2; cbn [create_required length app]; lia. }
  rewrite <-Hlen in *. set (l0 := v :: i :: n :: _) in *.
  apply mok_bind. eapply (mok_mono _ _ _ (λ x m, x = salt ∧ m = mkMachine l' g s)).
  2: { destruct create2; [exact (conj eq_refl eq_refl)|]. rewrite (Hsalt eq_refl). exact (conj eq_refl eq_refl). }
  intros x m [-> ->].
  apply mok_bind, mok_push; [lia|]. apply mok_bind, mok_get, mok_bind, mok_put. unfold gas_ok in Hg.
  assert (st_ok (set_return_data [] s)) as Hs1 by (apply st_ok_return_data; [done|unfold is_u64; cbn; lia]).
  apply mok_bind, mok_require; [done|done|unfold gas_ok; lia|done|]. intros mem g1 Hm Hrg Hg1.
  pose proof (range_size _ _ _ Hrg Hn) as Hsz. assert (st_ok (set_memory mem (set_return_data [] s))) as Hs2 by goods.
  apply mok_if; intros _; [by apply mok_fail|].
  assert (0 <= 6 * bool_word create2 + 2 * bool_word (EVMC_SHANGHAI <=? rev) <= 2 ^ 20) as Hwc by (by destruct create2).
  apply mok_bind, mok_charge; [by apply words_cost|unfold gas_ok; lia|done|]. intros Hge.
  pose proof (words_cost _ _ Hsz Hwc) as Hcost. set (g2 := g1 - _) in *.
  assert (0 <= g2 <= g) as Hg2 by (unfold g2; lia). clearbody g2.
  assert (∀ x g' s', is_u256 x → 0 <= g' <= g2 → st_ok s' →
    after l0 g (1 - create_required create2) (mkMachine (x :: l') g' s')) as Hend.
  { intros x g' s' Hx Hg' Hs'. apply after_intro; [by apply Forall_cons|cbn [length]; lia|lia|done]. }
  assert (after l0 g (1 - create_required create2) (mkMachine (0 :: l') g2 (set_memory mem (set_return_data [] s)))) as Hlight.
  { apply Hend; [done|lia|done]. }
  apply mok_if; intros Hdep; [by apply mok_ret|]. apply Z.leb_gt in Hdep.
  apply mok_bind. eapply (mok_mono _ _ _ (λ _ m, m = mkMachine (0 :: l') g2 (set_memory mem (set_return_data [] s)))).
  2: { apply mok_if; intros _; [apply mok_bind, mok_get_balance; intros b _; by apply mok_ret|by apply mok_ret]. }
  intros poor m ->. apply mok_if; intros _; [by apply mok_ret|].
  apply mok_bind, mok_get_gas. change (EVMC_TANGERINE_WHISTLE <=? rev) with true. cbv iota.
  pose proof (all_but_64th g2 ltac:(lia)) as H64. set (msg_gas := g2 - Z.quot g2 64) in *. clearbody msg_gas.
  apply mok_bind, mok_read_opt; [done..|]. intros input Hin.
  change (mkMsg _ _ _ _ _ _ _ _ _ _) with (create_message create2 input v salt msg_gas).
  apply (mok_do_create _ _ (create_message create2 input v salt msg_gas));
    [done| |unfold gas_ok; lia|cbn; lia|done|done].
  apply create_message_ok; [done|unfold gas_ok; lia|done].
Qed.
End calls.

(** *** The message and the transaction *)
Lemma address_ok : instr_ok C 0 1 (address msg).
Proof. apply push_ok, be_load_addr. apply Hmsg. Qed.
Lemma caller_ok : instr_ok C 0 1 (caller msg).
Proof. apply push_ok, be_load_addr. apply Hmsg. Qed.
Lemma callvalue_ok : instr_ok C 0 1 (callvalue msg).
Proof. apply push_ok, be_load_word. apply Hmsg. Qed.
Lemma returndatasize_ok : instr_ok C 0 1 returndatasize.
Proof. apply (push_of_ok C get (λ s, u64 (Z.of_nat (length (return_data s))))). intros Q S l g s Hs HQ. apply HQ; [apply u64_word|done]. Qed.

(** *** Jumps

    In legacy code an instruction is at a boundary, and so is every position
    that it goes on to. *)
Section jumps.
Context (original_code : bytes) (an : CodeAnalysis) (Han : an = analyze_legacy original_code).
Context (Hcode : Z.of_nat (length original_code) < 2 ^ 64).
Definition at_boundary (p : Z) : Prop := ∃ n, p = Z.of_nat n ∧ boundary original_code n.

Lemma length_pad_code : Z.of_nat (length (code_mem an)) = Z.of_nat (length original_code) + 33.
Proof. rewrite Han. cbn [code_mem analyze_legacy]. unfold pad_code. rewrite length_app, length_replicate. lia. Qed.
Lemma code_mem_at n : (n < length original_code)%nat → code_mem an !! n = original_code !! n.
Proof. intros Hn. rewrite Han. cbn [code_mem analyze_legacy]. unfold pad_code. by rewrite lookup_app_l. Qed.
Lemma at_boundary_next n b : boundary original_code n → original_code !! n = Some b → push_size b = 0%nat →
  at_boundary (Z.of_nat n + 1).
Proof.
  intros Hn Hb Hp. exists (n + 1 + push_size b)%nat. split; [lia|]. by constructor.
Qed.
Lemma jump_impl_ok Q g0 dst l g s : is_u256 dst → st_ok s → (∀ p, at_boundary p → Q p (mkMachine l g s)) →
  mok C Q (stopped g0) (jump_impl an dst) (mkMachine l g s).
Proof.
  intros Hd Hs HQ. unfold jump_impl. apply mok_if; intros E; [by apply mok_fail|].
  apply orb_false_iff in E as [E1%Z.leb_gt E2%negb_false_iff]. apply mok_ret, HQ. unfold is_u256 in Hd.
  rewrite Han in E1, E2. cbn [jumpdest_map analyze_legacy] in *.
  unfold analyze_jumpdests in E1. rewrite length_jumpdests_from in E1.
  rewrite limb0_small in * by (unfold is_u256; lia). exists (Z.to_nat dst). split; [lia|].
  apply (jumpdests_lem original_code). rewrite nth_lookup in E2.
  destruct (analyze_jumpdests original_code !! Z.to_nat dst) as [[]|]; done.
Qed.
Lemma jump_instr_ok pos : jump_ok C at_boundary 1 (-1) (jump an pos).
Proof.
  start. item_as d Hd HF. apply mok_bind, mok_pop, jump_impl_ok; [done..|]. intros p Hp. split; [done|].
  unfold gas_ok in Hg. finish_after.
Qed.
Lemma jumpi_ok n b : boundary original_code n → original_code !! n = Some b → push_size b = 0%nat →
  jump_ok C at_boundary 2 (-2) (jumpi an (Z.of_nat n)).
Proof.
  intros Hn Hb Hp. start. item_as d Hd HF. item_as c Hc' HF. apply mok_bind, mok_pop, mok_bind, mok_pop. unfold gas_ok in Hg.
  apply mok_if; intros _; [apply jump_impl_ok; [done..|]; intros p Hp'|apply mok_ret];
    (split; [first [done|by eapply at_boundary_next]|finish_after]).
Qed.
Lemma pc_ok n b : boundary original_code n → original_code !! n = Some b → push_size b = 0%nat →
  jump_ok C at_boundary 0 1 (pc (Z.of_nat n)).
Proof.
  intros Hn Hb Hp. start. apply mok_bind, mok_push; [lia|]. apply mok_ret. unfold gas_ok in Hg.
  split; [by eapply at_boundary_next|finish_after].
Qed.
Lemma readable_push n len k : (n < length original_code)%nat → 0 <= len → len + k <= 33 → 0 <= k → readable an (Z.of_nat n + 1) (len + k).
Proof.
  intros Hn Hlen Hk Hk0. pose proof length_pad_code as Hl. assert (code_base an = 0) as E by (by rewrite Han).
  unfold readable. rewrite E. lia.
Qed.
Lemma push_data_word pos len : 0 <= len <= 32 → is_u256 (push_data an pos len).
Proof.
  intros Hlen. unfold push_data. pose proof (be_load_range (slice (code_mem an) (code_base an + pos + 1) len)) as Hr.
  assert (length (slice (code_mem an) (code_base an + pos + 1) len) <= 32)%nat by (unfold slice; rewrite length_take; lia).
  assert (256 ^ Z.of_nat (length (slice (code_mem an) (code_base an + pos + 1) len)) <= 256 ^ 32) by (apply Z.pow_le_mono_r; lia).
  unfold is_u256. change (2 ^ 256) with (256 ^ 32). lia.
Qed.
Lemma push_instr_ok n b : boundary original_code n → original_code !! n = Some b → (1 <= push_size b)%nat →
  jump_ok C at_boundary 0 1 (push_ an (Z.of_nat (push_size b)) (Z.of_nat n)).
Proof.
  intros Hn Hb Hp. start. pose proof (push_size_bound b). pose proof (lookup_lt_Some _ _ _ Hb). unfold gas_ok in Hg.
  unfold mok. rewrite push_eq; [|lia|lia|apply readable_push; lia|intros _; apply (readable_push n 0 8); lia].
  split; [exists (n + 1 + push_size b)%nat; split; [lia|by constructor]|].
  pose proof (push_data_word (Z.of_nat n) (Z.of_nat (push_size b)) ltac:(lia)). finish_after.
Qed.
End jumps.
End instructions_ok.
