(* ===== verification/EvmLoop.v ===== *)
(** * The interpreter ends, within its gas and its bounds

    For legacy code without the instructions of the EOF, in the revision that
    the program runs: every turn of the loop is defined, the stack, the memory
    and the gas stay within their bounds, each turn uses gas or advances, and
    the result gives back at most the gas of the message. *)
From Stdlib Require Import ZArith Strings.Byte Strings.String Lia.
From stdpp Require Import base tactics option numbers list.
From S2P Require Import Prelude Words Evmc EvmTraits EvmAnalysis EvmState EvmInstructions EvmBaseline EvmLogic EvmJumps EvmSpec EvmSafety.

Local Open Scope Z_scope.

(** ** The code *)

(** Instructions that need an EOF container, or whose data the jump destination
    analysis does not skip. *)
Definition eof_ops : list Z := [OP_RJUMP; OP_RJUMPI; OP_RJUMPV; OP_CALLF; OP_RETF; OP_DUPN; OP_SWAPN].
Definition call_ops : list Z := [OP_CREATE; OP_CALL; OP_CALLCODE; OP_DELEGATECALL; OP_CREATE2; OP_STATICCALL].
Definition is_one_of (ops : list Z) (op : Z) : bool := existsb (Z.eqb op) ops.
(** [copy], [calls]: whether EXTCODECOPY, and calls and creations, may occur. *)
Definition op_allowed (copy calls : bool) (op : Z) : bool :=
  negb (is_one_of eof_ops op) && (copy || negb (op =? OP_EXTCODECOPY)) && (calls || negb (is_one_of call_ops op)).
Definition code_allowed (copy calls : bool) (code : bytes) : bool :=
  negb (is_eof_container code) && forallb (λ '(_, b), op_allowed copy calls (byte_to_Z b)) (instructions code).

(** ** The tables *)
Definition all_ops : list Z := seqZ 0 256.
Lemma all_ops_lem (f : Z → bool) op : forallb f all_ops = true → 0 <= op < 256 → f op = true.
Proof. intros H Hop. rewrite forallb_forall in H. apply H, list_elem_of_In, elem_of_seqZ. lia. Qed.
Definition heights (op : Z) : Z * Z := (stack_height_required (traits_at op), stack_height_change (traits_at op)).
Definition legacy_costs : list Z := get_baseline_cost_table EVMC_MAX_REVISION 0.
Definition cost_of (op : Z) : Z := if has_const_gas_cost op then gas_costs_at EVMC_FRONTIER op else cost_at legacy_costs op.
Definition is_jump_op (op : Z) : bool := between op OP_PUSH1 OP_PUSH32 || is_one_of [OP_JUMP; OP_JUMPI; OP_PC] op.
Lemma change_bound op : 0 <= op < 256 → stack_height_change (traits_at op) <= 1.
Proof. intros H. apply Z.leb_le. apply (all_ops_lem (λ op, stack_height_change (traits_at op) <=? 1) op); [vm_compute; done|done]. Qed.
Lemma cost_bound op : 0 <= op < 256 → cost_of op < 2 ^ 62.
Proof. intros H. apply Z.ltb_lt. apply (all_ops_lem (λ op, cost_of op <? 2 ^ 62) op); [vm_compute; done|done]. Qed.
(** Only instructions that go on to the next position are free. *)
Lemma jump_cost op : 0 <= op < 256 → is_jump_op op = true → 1 <= cost_of op.
Proof.
  intros H Hj. apply Z.leb_le. pose proof (all_ops_lem (λ op, negb (is_jump_op op) || (1 <=? cost_of op)) op) as A.
  cbv beta in A. rewrite Hj in A. apply A; [vm_compute; done|done].
Qed.
Lemma range_heights first n (f : Z → Z * Z) op :
  forallb (λ op, bool_decide (heights op = f op)) (seqZ first n) = true → first <= op < first + n → heights op = f op.
Proof.
  intros H Hop. rewrite forallb_forall in H. specialize (H op). rewrite bool_decide_eq_true in H.
  apply H, list_elem_of_In, elem_of_seqZ. lia.
Qed.
Lemma dup_heights op : OP_DUP1 <= op <= OP_DUP16 → heights op = (op - OP_DUP1 + 1, 1).
Proof. intros H. apply (range_heights OP_DUP1 16 (λ op, (op - OP_DUP1 + 1, 1))); [vm_compute; done|unfold OP_DUP1, OP_DUP16 in *; lia]. Qed.
Lemma swap_heights op : OP_SWAP1 <= op <= OP_SWAP16 → heights op = (op - OP_SWAP1 + 2, 0).
Proof. intros H. apply (range_heights OP_SWAP1 16 (λ op, (op - OP_SWAP1 + 2, 0))); [vm_compute; done|unfold OP_SWAP1, OP_SWAP16 in *; lia]. Qed.
Lemma log_heights op : OP_LOG0 <= op <= OP_LOG4 → heights op = (op - OP_LOG0 + 2, - (op - OP_LOG0) - 2).
Proof. intros H. apply (range_heights OP_LOG0 5 (λ op, (op - OP_LOG0 + 2, - (op - OP_LOG0) - 2))); [vm_compute; done|unfold OP_LOG0, OP_LOG4 in *; lia]. Qed.
Lemma push_heights op : OP_PUSH1 <= op <= OP_PUSH32 → heights op = (0, 1).
Proof. intros H. apply (range_heights OP_PUSH1 32 (λ _, (0, 1))); [vm_compute; done|unfold OP_PUSH1, OP_PUSH32 in *; lia]. Qed.

(** ** Instructions by opcode *)
Lemma sdiv_range x y : is_u256 x → is_u256 y → is_u256 (if negb (y =? 0) then (sdivrem x y).1 else 0).
Proof. intros. destruct (Z.eqb_spec y 0); [done|]. by apply sdivrem_range. Qed.
Lemma smod_range x y : is_u256 x → is_u256 y → is_u256 (if negb (y =? 0) then (sdivrem x y).2 else 0).
Proof. intros. destruct (Z.eqb_spec y 0); [done|]. by apply sdivrem_range. Qed.
Lemma mod_word z m : is_u256 m → is_u256 (if negb (m =? 0) then z mod m else 0).
Proof.
  intros Hm. destruct (Z.eqb_spec m 0); [done|]. cbn. unfold is_u256 in *. pose proof (Z.mod_pos_bound z m). lia.
Qed.
Lemma addmod_word x y m : is_u256 x → is_u256 y → is_u256 m → is_u256 (if negb (m =? 0) then addmod x y m else 0).
Proof. intros Hx Hy Hm. pose proof (mod_word (x + y) m Hm). destruct (Z.eqb_spec m 0); [done|]. cbn in *. by rewrite addmod_spec. Qed.
Lemma mulmod_word x y m : is_u256 m → is_u256 (if negb (m =? 0) then mulmod x y m else 0).
Proof. intros Hm. pose proof (mod_word (x * y) m Hm). destruct (Z.eqb_spec m 0); [done|]. cbn in *. by rewrite mulmod_spec. Qed.
Create HintDb evm discriminated.
#[export] Hint Constants Opaque : evm.
#[export] Hint Resolve u256_range u64_word div_range mod_range sdiv_range smod_range addmod_word mulmod_word signextend_range
  bool_word_ok land_range lor_range lxor_range byte_range ushl_range ushr_range sar_range unot_range is_u256_0
  be_load_word be_load_addr : evm.
#[export] Hint Resolve stop_ok noop_ok pop_ok msize_ok gas_instr_ok push_ok keccak256_ok mload_ok mstore_ok mstore8_ok
  copy_ok returndatacopy_ok balance_ok extcodesize_ok extcodehash_ok selfbalance_ok blockhash_ok calldataload_ok
  sload_ok sstore_ok return_ok selfdestruct_ok address_ok caller_ok callvalue_ok returndatasize_ok exp_ok : evm.

Section table.
Context (copy calls : bool) (msg : evmc_message) (code : bytes).
Context (Hmsg : msg_ok msg) (Hcode : Z.of_nat (length code) < 2 ^ 62).
Abbreviation C := (vm_contract (copy = true) (calls = true) (depth msg)).
Abbreviation an := (analyze_legacy code).
Abbreviation rev := EVMC_MAX_REVISION.

Definition fits (op : Z) (i : Impl) : Prop :=
  match i with
  | INext c => instr_ok C (heights op).1 (heights op).2 c
  | IJump c => is_jump_op op = true ∧ ∀ n b, boundary code n → code !! n = Some b → byte_to_Z b = op →
      jump_ok C (at_boundary code) (heights op).1 (heights op).2 (c (Z.of_nat n))
  end.
Lemma fits_next op req chg c : heights op = (req, chg) → instr_ok C req chg c → fits op (INext c).
Proof. unfold fits. by intros ->. Qed.
Lemma fits_jump op req chg c : heights op = (req, chg) → is_jump_op op = true →
  (∀ n b, boundary code n → code !! n = Some b → byte_to_Z b = op → jump_ok C (at_boundary code) req chg (c (Z.of_nat n))) →
  fits op (IJump c).
Proof. unfold fits. by intros ->. Qed.
Lemma push_size_0 b op : byte_to_Z b = op → between op OP_PUSH1 OP_PUSH32 = false → push_size b = 0%nat.
Proof. intros <- H. unfold push_size, between in *. by rewrite H. Qed.
Lemma Hcalls : calls = true → ∀ m, depth m = depth msg + 1 → msg_ok m → may_call C m.
Proof. done. Qed.


(** The lemma for an instruction whose next position is the next byte. *)
Ltac fit :=
  intros _; refine (fits_next _ _ _ _ _ _); [vm_compute; reflexivity|];
  unfold add, mul, sub, div, sdiv, mod_, smod, addmod_, mulmod_, signextend, lt, gt, slt_, sgt, eq, iszero, and_, or_, xor_,
    not_, byte_, shl, shr, sar, origin, gasprice, basefee, coinbase, timestamp, number, prevrandao, gaslimit, chainid,
    calldatasize, codesize, calldatacopy, codecopy, push0;
  lazymatch goal with
  | |- instr_ok _ _ _ (binary _) => apply binary_ok; intros x y Hx Hy; cbn beta
  | |- instr_ok _ 1 0 (pop ≫= λ x, push _) => apply unary_ok; intros x Hx
  | |- instr_ok _ 3 (-2) (pop ≫= _) => apply ternary_ok; intros x y z Hx Hy Hz
  | |- instr_ok _ _ _ (get_tx_context ≫= _) => apply tx_ok; intros c (?&?&?&?&?&?&?&?&?)
  | |- _ => idtac
  end; eauto with evm.
Lemma op_allowed_not op : op_allowed copy calls op = true → is_one_of eof_ops op = false ∧ (is_one_of call_ops op = true → calls = true) ∧ (op = OP_EXTCODECOPY → copy = true).
Proof.
  unfold op_allowed. rewrite !andb_true_iff, negb_true_iff, !orb_true_iff, negb_true_iff. intros [[H1 H2] H3].
  split; [done|]. split; [intros E; rewrite E in H3; by destruct H3|]. intros ->. by destruct H2.
Qed.
Lemma call_fits op k : is_one_of call_ops k = true → heights k = (call_required op, 1 - call_required op) →
  op_allowed copy calls k = true → fits k (INext (call_impl msg rev op)).
Proof.
  intros Hk Hh (_ & Hc & _)%op_allowed_not. eapply fits_next; [exact Hh|].
  apply call_ok; [done|intros m Hd Hm; exact (conj (Hc Hk) (conj Hd Hm))|done].
Qed.
Lemma create_fits create2 k : is_one_of call_ops k = true → heights k = (create_required create2, 1 - create_required create2) →
  op_allowed copy calls k = true → fits k (INext (create_impl msg rev create2)).
Proof.
  intros Hk Hh (_ & Hc & _)%op_allowed_not. eapply fits_next; [exact Hh|].
  apply create_ok; [done|intros m Hd Hm; exact (conj (Hc Hk) (conj Hd Hm))|done].
Qed.
Ltac fit_call := first [apply call_fits | apply create_fits]; vm_compute; reflexivity.
Ltac fit_jump lem :=
  intros _; refine (fits_jump _ _ _ _ _ _ _); [vm_compute; reflexivity|vm_compute; reflexivity|];
  intros n b Hn Hb Hop; eapply lem; first [reflexivity|done|by eapply push_size_0].

Lemma simple_impls_fit : Forall (λ '(op, i), op_allowed copy calls op = true → fits op i) (simple_impls msg rev code an).
Proof.
  assert (Z.of_nat (length code) < 2 ^ 64) as Hcode' by lia.
  assert (Z.of_nat (length (input_data msg)) < 2 ^ 64) as Hinput by apply Hmsg.
  unfold simple_impls.
  repeat (apply Forall_cons; split); [..|by apply Forall_nil].
  all: lazymatch goal with
  | |- _ → fits _ (INext (call_impl _ _ _)) => fit_call
  | |- _ → fits _ (INext (create_impl _ _ _)) => fit_call
  | |- _ → fits _ (INext (extcodecopy _)) =>
      intros (_ & _ & Hx)%op_allowed_not; refine (fits_next _ _ _ _ _ _); [vm_compute; reflexivity|]; by apply extcodecopy_ok, Hx
  | |- _ → fits _ (INext _) => fit
  | |- _ → fits _ (IJump (jump _)) => fit_jump jump_instr_ok
  | |- _ → fits _ (IJump (jumpi _)) => fit_jump jumpi_ok
  | |- _ → fits _ (IJump pc) => fit_jump pc_ok
  | |- _ => intros (H & _ & _)%op_allowed_not; vm_compute in H; done
  end.
Qed.

Lemma find_impl_In op l i : find_impl op l = Some i → (op, i) ∈ l.
Proof.
  induction l as [|[o j] l IH]; cbn; [done|]. destruct (Z.eqb_spec o op) as [->|]; [intros [= ->]; by left|].
  intros H. right. by apply IH.
Qed.
Lemma between_spec op a b : between op a b = true ↔ a <= op <= b.
Proof. unfold between. by rewrite andb_true_iff, !Z.leb_le. Qed.
Lemma impl_fits op i : 0 <= op < 256 → op_allowed copy calls op = true → impl msg rev code an op = Some i → fits op i.
Proof.
  intros Hop Hal. unfold impl. repeat case_match; rewrite ?between_spec in *; [intros [= <-]..|].
  - apply (fits_jump _ _ _ _ (push_heights op ltac:(done))); [unfold is_jump_op; by rewrite (proj2 (between_spec _ _ _))|].
    intros n b Hn Hb Hbo. assert (op - OP_PUSH1 + 1 = Z.of_nat (push_size b)) as ->.
    { unfold push_size. rewrite Hbo. fold (between op OP_PUSH1 OP_PUSH32). rewrite (proj2 (between_spec _ _ _)) by done. lia. }
    eapply push_instr_ok; [done..|]. unfold push_size. rewrite Hbo. fold (between op OP_PUSH1 OP_PUSH32).
    rewrite (proj2 (between_spec _ _ _)) by done. lia.
  - apply (fits_next _ _ _ _ (dup_heights op ltac:(done))). rewrite <-(Z2Nat.id (op - OP_DUP1 + 1)) at 1 by lia. apply dup_ok. lia.
  - apply (fits_next _ _ _ _ (swap_heights op ltac:(done))).
    replace (op - OP_SWAP1 + 2) with (Z.of_nat (Z.to_nat (op - OP_SWAP1 + 1)) + 1) by lia. apply swap_ok. lia.
  - apply (fits_next _ _ _ _ (log_heights op ltac:(done))).
    replace (op - OP_LOG0 + 2) with (2 + Z.of_nat (Z.to_nat (op - OP_LOG0))) by lia.
    replace (- (op - OP_LOG0) - 2) with (- 2 - Z.of_nat (Z.to_nat (op - OP_LOG0))) by lia. by apply log_ok.
  - intros Hin%find_impl_In. pose proof simple_impls_fit as Hf. rewrite Forall_forall in Hf. by apply (Hf _ Hin).
Qed.
(** What follows the data of an instruction that is not a push. *)
Lemma next_not_push op c : impl msg rev code an op = Some (INext c) → between op OP_PUSH1 OP_PUSH32 = false.
Proof. unfold impl. by destruct (between op OP_PUSH1 OP_PUSH32). Qed.

(** ** One turn of the loop *)
Lemma mok_check {A} (Q : A → Machine → Prop) g0 op k l g s :
  0 <= op < 256 → Z.of_nat (length l) <= stack_limit → gas_ok g → st_ok s →
  (0 <= cost_of op <= g → (heights op).1 <= Z.of_nat (length l) → Z.of_nat (length l) + (heights op).2 <= stack_limit →
   mok C Q (stopped g0) (k tt) (mkMachine l (g - cost_of op) s)) →
  mok C Q (stopped g0) (check_requirements legacy_costs op ≫= k) (mkMachine l g s).
Proof.
  intros Hop Hl Hg Hs Hk. unfold check_requirements. fold (cost_of op). pose proof (cost_bound op Hop).
  pose proof (change_bound op Hop) as Hch. unfold heights in Hk. cbn [fst snd] in Hk.
  apply mok_bind, mok_if; intros E1; [by apply mok_fail|]. apply Z.ltb_ge in E1.
  apply mok_bind, mok_get_stack. cbv zeta. apply mok_if; intros E2; [by apply mok_fail|].
  apply mok_if; intros E3; [by apply mok_fail|].
  apply mok_charge; [lia|done..|]. intros Hge. apply Hk; [lia|..].
  - apply andb_false_iff in E3 as [?%Z.ltb_ge|?%Z.leb_gt]; lia.
  - apply andb_false_iff in E2 as [?%Z.ltb_ge|?%Z.eqb_neq]; lia.
Qed.
Lemma mok_stopped {A} (Q : A → Machine → Prop) g1 g2 c m : g1 <= g2 → mok C Q (stopped g1) c m → mok C Q (stopped g2) c m.
Proof. intros Hg. apply prog_ok_mono. intros [a m'|st m']; [done|]. by apply stopped_mono. Qed.

Definition machine_ok (g0 : Z) (m : Machine) : Prop :=
  Forall is_u256 (stack m) ∧ Z.of_nat (length (stack m)) <= stack_limit ∧ 0 <= mgas m <= g0 ∧ st_ok (state m).
Definition code_length : Z := Z.of_nat (length (code_mem an)).
(** Falls at every turn. *)
Definition measure (p : Z) (m : Machine) : Z := mgas m * (code_length + 1) + (code_length - p).
Lemma at_boundary_range p : at_boundary code p → 0 <= p < code_length.
Proof.
  intros (n & -> & Hn). apply reach_bound in Hn. unfold code_length. cbn [code_mem analyze_legacy]. unfold pad_code.
  rewrite length_app, length_replicate. lia.
Qed.
Lemma after_machine_ok l g chg m g0 : after l g chg m → Z.of_nat (length l) + chg <= stack_limit → g <= g0 → machine_ok g0 m.
Proof.
  intros (H1 & H2 & H3 & H4) Hl Hg. split; [done|]. split; [lia|]. split; [lia|done].
Qed.

Context (Hallowed : code_allowed copy calls code = true).

Lemma allowed_at n b : boundary code n → code !! n = Some b → op_allowed copy calls (byte_to_Z b) = true.
Proof.
  intros Hn Hb. unfold code_allowed in Hallowed. apply andb_true_iff in Hallowed as [_ H].
  rewrite forallb_forall in H. apply (H (n, b)), list_elem_of_In. by apply instructions_lem.
Qed.
Definition advances (g0 p : Z) (m : Machine) (p' : Z) (m' : Machine) : Prop :=
  at_boundary code p' ∧ machine_ok g0 m' ∧ measure p' m' < measure p m.
Lemma advances_next g0 p l g s cost m' :
  at_boundary code p → at_boundary code (p + 1) → 0 <= cost → machine_ok (g - cost) m' → g <= g0 →
  advances g0 p (mkMachine l g s) (p + 1) m'.
Proof.
  intros Hp Hp' Hc (H1 & H2 & H3 & H4) Hg. apply at_boundary_range in Hp. split; [done|].
  split; [split; [done|]; split; [done|]; split; [lia|done]|]. unfold measure. cbn [mgas]. nia.
Qed.
Lemma advances_jump g0 p l g s cost p' m' :
  at_boundary code p → at_boundary code p' → 1 <= cost → machine_ok (g - cost) m' → g <= g0 →
  advances g0 p (mkMachine l g s) p' m'.
Proof.
  intros Hp Hp' Hc (H1 & H2 & H3 & H4) Hg. pose proof (at_boundary_range _ Hp). pose proof (at_boundary_range _ Hp').
  split; [done|]. split; [split; [done|]; split; [done|]; split; [lia|done]|]. unfold measure. cbn [mgas]. nia.
Qed.
Lemma mok_code_at Q S p b m : code_mem an !! Z.to_nat p = Some b → 0 <= p → Q (byte_to_Z b) m →
  mok C Q S (code_at an p) m.
Proof.
  intros Hb Hp HQ. unfold code_at, at_byte. cbn [code_base analyze_legacy]. rewrite Z.add_0_l.
  destruct (Z.leb_spec 0 p); [|lia]. eapply mok_opt; [by rewrite Hb|done].
Qed.
Lemma invoke_ok g0 n b i l g s :
  boundary code n → code !! n = Some b → impl msg rev code an (byte_to_Z b) = Some i →
  machine_ok g0 (mkMachine l g s) → g0 <= int64_max →
  mok C (advances g0 (Z.of_nat n) (mkMachine l g s)) (stopped g0) (invoke legacy_costs (byte_to_Z b) i (Z.of_nat n)) (mkMachine l g s).
Proof.
  intros Hn Hb Hi (Hl & Hlen & Hg & Hs) Hg0. cbn [stack mgas state] in *.
  assert (at_boundary code (Z.of_nat n)) as Hp by (by exists n).
  pose proof (byte_to_Z_range b) as Hop. pose proof (impl_fits _ i Hop (allowed_at n b Hn Hb) Hi) as Hfit.
  apply (mok_stopped _ g); [lia|]. unfold invoke. apply mok_check; [exact Hop|done|unfold gas_ok; lia|done|].
  intros Hcost Hreq Hroom. apply (mok_stopped _ (g - cost_of (byte_to_Z b))); [lia|].
  assert (gas_ok (g - cost_of (byte_to_Z b))) as Hgas by (unfold gas_ok; lia).
  destruct i as [c|c].
  - apply mok_bind. eapply mok_mono; [|by apply (Hfit l _ s)]. intros u m' Hm'. apply mok_ret.
    eapply advances_next; [done| |apply Hcost|by apply (after_machine_ok _ _ _ _ _ Hm' Hroom), Z.le_refl|lia].
    eapply at_boundary_next; [done..|]. eapply push_size_0; [done|]. by eapply next_not_push.
  - destruct Hfit as [Hj Hfit]. pose proof (jump_cost _ Hop Hj).
    eapply mok_mono; [|by apply (Hfit n b Hn Hb eq_refl l _ s)]. intros p' m' [Hp' Hm'].
    eapply advances_jump; [done|done|eassumption|by apply (after_machine_ok _ _ _ _ _ Hm' Hroom), Z.le_refl|lia].
Qed.
Lemma turn_ok g0 p m : at_boundary code p → machine_ok g0 m → g0 <= int64_max →
  mok C (advances g0 p m) (stopped g0) (turn msg rev code an legacy_costs p) m.
Proof.
  intros Hp Hm Hg0. destruct m as [l g s]. pose proof (at_boundary_range p Hp) as Hr. pose proof Hm as (_ & Hl & Hg & Hs).
  cbn [stack mgas state] in *. destruct Hp as (n & -> & Hn). unfold turn.
  destruct (code !! n) as [b|] eqn:Hb.
  - pose proof (lookup_lt_Some _ _ _ Hb). apply mok_bind. eapply mok_code_at; [rewrite Nat2Z.id; by rewrite (code_mem_at code)|lia|].
    destruct (impl msg rev code an (byte_to_Z b)) as [i|] eqn:Hi; [by apply invoke_ok|by apply mok_fail].
  - apply lookup_ge_None in Hb. apply mok_bind. apply (mok_code_at _ _ _ x00); [|lia|].
    + rewrite Nat2Z.id. cbn [code_mem analyze_legacy]. unfold pad_code. rewrite lookup_app_r by lia.
      unfold code_length in Hr. cbn [code_mem analyze_legacy] in Hr. unfold pad_code in Hr.
      rewrite length_app, length_replicate in Hr. apply lookup_replicate_2. lia.
    + change (impl msg rev code an (byte_to_Z x00)) with (Some (INext (stop_impl EVMC_SUCCESS))). cbv iota. unfold invoke.
      apply mok_check; [done|done|unfold gas_ok; lia|done|]. intros Hcost _ _. change (cost_of (byte_to_Z x00)) with 0 in *.
      apply mok_bind, mok_stop. destruct Hs as ([_ Hmem] & _ & _ & Hrf & Ho). split; [done|]. split; [done|]. split; [by left|].
      intros _. cbn. lia.
Qed.
Lemma iterate_ok n : ∀ g0 p m, at_boundary code p → machine_ok g0 m → g0 <= int64_max →
  mok C (λ p' m', at_boundary code p' ∧ machine_ok g0 m' ∧ measure p' m' + Z.pos n <= measure p m) (stopped g0)
    (iterate msg rev code an legacy_costs n p) m.
Proof.
  induction n as [n IH|n IH|]; intros g0 p m Hp Hm Hg0; cbn [iterate].
  - apply mok_bind. eapply mok_mono; [|by apply turn_ok]. intros p1 m1 (Hp1 & Hm1 & Hd1).
    apply mok_bind. eapply mok_mono; [|by apply IH]. intros p2 m2 (Hp2 & Hm2 & Hd2).
    eapply mok_mono; [|by apply IH]. intros p3 m3 (Hp3 & Hm3 & Hd3). split; [done|]. split; [done|lia].
  - apply mok_bind. eapply mok_mono; [|by apply IH]. intros p2 m2 (Hp2 & Hm2 & Hd2).
    eapply mok_mono; [|by apply IH]. intros p3 m3 (Hp3 & Hm3 & Hd3). split; [done|]. split; [done|lia].
  - eapply mok_mono; [|by apply turn_ok]. intros p1 m1 (Hp1 & Hm1 & Hd1). split; [done|]. split; [done|lia].
Qed.

(** ** The result *)
Lemma finish_ok status m : stopped (gas msg) status m → prog_ok C (honest msg) (finish status m).
Proof.
  intros (Hr & Hmem & Ho & Hg). unfold finish. cbv zeta. destruct Hmsg as (_ & [Hgas _] & _).
  assert (0 <= (if (status =? EVMC_SUCCESS) || (status =? EVMC_REVERT) then mgas m else 0) <= gas msg) as Hgl.
  { destruct (Z.eqb_spec status EVMC_SUCCESS), (Z.eqb_spec status EVMC_REVERT); cbn [orb]; auto; lia. }
  assert ((if status =? EVMC_SUCCESS then es_gas_refund (state m) else 0) = 0) as Hrf by (by destruct (_ =? _)).
  assert (∀ out, Z.of_nat (length out) <= 2 ^ 33 → prog_ok C (honest msg)
    (mret (evmc_make_result status (if (status =? EVMC_SUCCESS) || (status =? EVMC_REVERT) then mgas m else 0)
             (if status =? EVMC_SUCCESS then es_gas_refund (state m) else 0) out))) as Hres.
  { intros out Hout. split; [exact Hgl|]. split; [exact Hrf|]. split; [unfold is_u64; cbn; lia|done]. }
  destruct (Z.eqb_spec (output_size (state m)) 0) as [E|E]; cbn [negb]; [by apply Hres|].
  destruct Ho as [|Hb]; [done|]. rewrite Hb. apply Hres. unfold slice. rewrite length_take, length_drop. lia.
Qed.
Lemma first_machine_ok : machine_ok (gas msg) (mkMachine [] (gas msg) ExecutionState_ctor).
Proof.
  destruct Hmsg as (_ & [Hgas _] & _). split; [by apply Forall_nil|]. split; [done|]. split; [cbn; lia|apply st_ok_ctor].
Qed.
Lemma analyze_allowed : analyze rev code = Some an.
Proof. unfold analyze, code_allowed in *. apply andb_true_iff in Hallowed as [H _]. by rewrite H, orb_true_r. Qed.
Lemma at_boundary_start : at_boundary code 0.
Proof. exists 0%nat. split; [done|constructor]. Qed.
Lemma evmweak_ok : prog_ok C (honest msg) (evmweak msg code).
Proof.
  pose proof Hmsg as (_ & [Hgas Hgas'] & _). unfold evmweak, execute. rewrite analyze_allowed. cbv zeta.
  change (get_baseline_cost_table rev (version (eof_header an))) with legacy_costs.
  eapply prog_ok_bind; [apply (iterate_ok (enough_fuel an) (gas msg) 0); [apply at_boundary_start|apply first_machine_ok|done]|].
  intros [p m|status m]; [|apply finish_ok].
  intros (Hp & (_ & _ & Hg & _) & Hd). exfalso. apply at_boundary_range in Hp. unfold measure, enough_fuel in Hd.
  fold code_length in Hd. cbn [mgas] in Hd.
  assert ((gas msg + 1) * (code_length + 1) <= (int64_max + 1) * (code_length + 1)) by (apply Z.mul_le_mono_nonneg_r; unfold code_length; lia).
  change (int64_max + 1) with (2 ^ 63) in *. rewrite Z2Pos.id in Hd by (unfold code_length; lia). nia.
Qed.
End table.

(** C11: an EVM run is safe and ends.  For every well-formed message and every
    legacy code of less than 2^62 bytes without EOF instructions, the
    interpreter, asking a host within the contract - it answers with values of
    the right sizes, and its calls give back at most the gas they got and refund
    nothing -, makes only requests within the contract, never leaves the stack, the memory, the
    code or the range of its integers, ends within [enough_fuel] turns, and
    gives a result with at most the gas of the message, no refund and an output
    that fits its length type.  (Both conditions are needed:
    [retf_transaction_undefined] and [call_of_nobody_overflows] in EvmTx.) *)
Theorem evmweak_safe copy calls msg code :
  msg_ok msg → Z.of_nat (length code) < 2 ^ 62 → code_allowed copy calls code = true →
  prog_ok (vm_contract (copy = true) (calls = true) (depth msg)) (honest msg) (evmweak msg code).
Proof. apply evmweak_ok. Qed.

(** C13: the machine stays well formed, under the conditions of [evmweak_safe]: a
    well-formed message, legacy code of less than 2^62 bytes without EOF
    instructions, and a host within the contract.  However many turns the loop
    makes, nothing undefined happens; if it has not stopped then it is at an
    instruction boundary of the code, the stack holds at most 1024 words of 256
    bits, the memory is a whole number of words and at most 8 GiB, the gas is
    between zero and that of the message, and the sum that proves termination has
    fallen by a unit per turn; if it has stopped then the output lies in the
    memory. *)
Theorem iterate_well_formed copy calls msg code n :
  msg_ok msg → Z.of_nat (length code) < 2 ^ 62 → code_allowed copy calls code = true →
  mok (vm_contract (copy = true) (calls = true) (depth msg))
    (λ p m, at_boundary code p ∧ machine_ok (gas msg) m
            ∧ measure code p m + Z.pos n <= measure code 0 (mkMachine [] (gas msg) ExecutionState_ctor))
    (stopped (gas msg))
    (iterate msg EVMC_MAX_REVISION code (analyze_legacy code) (get_baseline_cost_table EVMC_MAX_REVISION 0) n 0)
    (mkMachine [] (gas msg) ExecutionState_ctor).
Proof.
  intros Hmsg Hcode Hal. apply iterate_ok; [done|done|done|apply at_boundary_start|by apply first_machine_ok|apply Hmsg].
Qed.

(** A contract that returns the sum of two words of its input:
    [PUSH1 32 CALLDATALOAD PUSH0 CALLDATALOAD ADD PUSH0 MSTORE PUSH1 32 PUSH0 RETURN]. *)
Definition sum_code : bytes := [x60; x20; x35; x5f; x35; x01; x5f; x52; x60; x20; x5f; xf3].
Definition sum_message : evmc_message :=
  mkMsg EVMC_CALL 0 0 100000 zero20 zero20 (be_store 32 3 ++ be_store 32 4) zero32 zero32 zero20.
Example sum_runs : evmweak sum_message sum_code = VmDone (evmc_make_result EVMC_SUCCESS 99973 0 (be_store 32 7)).
Proof. vm_compute. reflexivity. Qed.
Lemma sum_message_ok : msg_ok sum_message.
Proof. repeat split; by vm_compute. Qed.
Lemma sum_allowed : code_allowed false false sum_code = true.
Proof. by vm_compute. Qed.
Lemma evmweak_safe_witness :
  prog_ok (vm_contract (false = true) (false = true) 0) (honest sum_message) (evmweak sum_message sum_code).
Proof. apply (evmweak_safe false false sum_message sum_code); [apply sum_message_ok|vm_compute; reflexivity|apply sum_allowed]. Defined.
Lemma iterate_well_formed_witness :
  mok (vm_contract (false = true) (false = true) 0)
    (λ p m, at_boundary sum_code p ∧ machine_ok 100000 m
            ∧ measure sum_code p m + 4 <= measure sum_code 0 (mkMachine [] 100000 ExecutionState_ctor))
    (stopped 100000)
    (iterate sum_message EVMC_MAX_REVISION sum_code (analyze_legacy sum_code) (get_baseline_cost_table EVMC_MAX_REVISION 0) 4 0)
    (mkMachine [] 100000 ExecutionState_ctor).
Proof. apply (iterate_well_formed false false sum_message sum_code 4); [apply sum_message_ok|vm_compute; reflexivity|apply sum_allowed]. Defined.
