(* ===== verification/EvmSteady.v ===== *)
(** * What instructions leave alone

    No instruction but CALLF and RETF touches the call stack, and none but DUPN
    and SWAPN stops with a failure that validation is there to exclude: an
    undefined instruction or a stack underflow.  [steady c0 c]: from a call
    stack [c0], whatever the host answers, [c] ends with [c0], or stops with
    another status.  Then the instructions by their kind: those that go on to the
    next byte, and those that jump. *)
From Stdlib Require Import ZArith Strings.Byte Strings.String Lia.
From stdpp Require Import base tactics option numbers list sets.
From S2P Require Import Prelude Words Evmc EvmTraits EvmAnalysis EvmState EvmInstructions EvmBaseline EvmLogic EvmSafety EvmLoop.

Local Open Scope Z_scope.

(** [Q] holds of every result, whatever the answers are. *)
Fixpoint prog_all {A} (Q : A → Prop) (p : VmProg A) : Prop :=
  match p with
  | VmDone a => Q a
  | VmUB _ => True
  | VmAccountExists a k => ∀ x, prog_all Q (k x)
  | VmGetStorage a key k => ∀ x, prog_all Q (k x)
  | VmSetStorage a key v k => ∀ x, prog_all Q (k x)
  | VmGetBalance a k => ∀ x, prog_all Q (k x)
  | VmGetCodeSize a k => ∀ x, prog_all Q (k x)
  | VmGetCodeHash a k => ∀ x, prog_all Q (k x)
  | VmCopyCode a o n k => ∀ x, prog_all Q (k x)
  | VmSelfdestruct a b k => ∀ x, prog_all Q (k x)
  | VmCall msg k => ∀ x, prog_all Q (k x)
  | VmGetTxContext k => ∀ x, prog_all Q (k x)
  | VmGetBlockHash n k => ∀ x, prog_all Q (k x)
  | VmEmitLog a d t k => prog_all Q k
  | VmAccessAccount a k => ∀ x, prog_all Q (k x)
  | VmAccessStorage a key k => ∀ x, prog_all Q (k x)
  end.
Lemma prog_all_bind {A B} (Q : A → Prop) (R : B → Prop) p (f : A → VmProg B) :
  prog_all Q p → (∀ a, Q a → prog_all R (f a)) → prog_all R (p ≫= f).
Proof. intros Hp Hf. revert Hp. induction p; cbn; naive_solver. Qed.
Lemma prog_ok_all {A} C (P Q : A → Prop) p : prog_ok C P p → prog_all Q p → prog_ok C (λ a, P a ∧ Q a) p.
Proof. induction p; cbn; naive_solver. Qed.

(** Failures that validated code does not run into. *)
Definition quiet (status : Z) : Prop := status ≠ EVMC_UNDEFINED_INSTRUCTION ∧ status ≠ EVMC_STACK_UNDERFLOW.
Definition steady {A} (c0 : list Z) (c : M A) : Prop :=
  ∀ m, call_stack (state m) = c0 →
    prog_all (λ r, match r with Go _ m' => call_stack (state m') = c0 | Stop status _ => quiet status end) (c m).

Section rules.
Context (c0 : list Z).
Lemma steady_bind {A B} (c : M A) (k : A → M B) : steady c0 c → (∀ a, steady c0 (k a)) → steady c0 (c ≫= k).
Proof.
  intros Hc Hk m Hm. eapply prog_all_bind; [by apply Hc|]. intros [a m'|s m'] Hr; [by apply Hk|exact Hr].
Qed.
(** The state that is got has the call stack. *)
Lemma steady_get {B} (k : ExecutionState → M B) : (∀ s, call_stack s = c0 → steady c0 (k s)) → steady c0 (get ≫= k).
Proof. intros Hk m Hm. by apply (Hk (state m) Hm m). Qed.
Lemma steady_put s : call_stack s = c0 → steady c0 (put s).
Proof. by intros Hs m _. Qed.
Lemma steady_ret {A} (a : A) : steady c0 (mret a).
Proof. by intros m Hm. Qed.
Lemma steady_stop {A} status : quiet status → steady c0 (stop (A:=A) status).
Proof. by intros Hq m Hm. Qed.
Lemma steady_ub {A} why : steady c0 (ub (A:=A) why).
Proof. by intros m Hm. Qed.
Lemma steady_get_gas : steady c0 get_gas.
Proof. by intros m Hm. Qed.
Lemma steady_set_gas g : steady c0 (set_gas g).
Proof. by intros m Hm. Qed.
Lemma steady_get_stack : steady c0 get_stack.
Proof. by intros m Hm. Qed.
Lemma steady_set_stack l : steady c0 (set_stack l).
Proof. by intros m Hm. Qed.
Lemma steady_when b c : steady c0 c → steady c0 (when b c).
Proof. intros H. unfold when. by destruct b; [|apply steady_ret]. Qed.
Lemma steady_require c : steady c0 c → steady c0 (require c).
Proof.
  intros H. unfold require. apply steady_bind; [done|]. intros b. destruct b; [apply steady_ret|by apply steady_stop].
Qed.
End rules.
Create HintDb steady discriminated.
#[export] Hint Resolve steady_ret steady_ub steady_get_gas steady_set_gas steady_get_stack steady_set_stack : steady.
Ltac steady :=
  cbv zeta;
  repeat first
    [ solve [auto with steady]
    | solve [apply steady_stop; split; done]
    | solve [apply steady_put; done]
    | apply steady_get; intros ? ?
    | apply steady_when
    | apply steady_require
    | apply steady_bind; [|intros ?]
    | case_match ].

Section primitives.
Context (c0 : list Z).
Lemma steady_pop : steady c0 pop.
Proof. unfold pop. steady. Qed.
Lemma steady_push x : steady c0 (push x).
Proof. unfold push. steady. Qed.
Lemma steady_opt {A} (o : option A) why : steady c0 (opt o why).
Proof. destruct o; cbn [opt]; steady. Qed.
#[local] Hint Resolve steady_pop steady_push steady_opt : steady.
Lemma steady_item i : steady c0 (item i).
Proof. unfold item. steady. Qed.
Lemma steady_set_item i x : steady c0 (set_item i x).
Proof. unfold set_item. steady. Qed.
Lemma steady_pops n : steady c0 (pops n).
Proof. induction n as [|n IH]; cbn [pops]; steady. Qed.
Lemma steady_signed z : steady c0 (signed z).
Proof. unfold signed. steady. Qed.
#[local] Hint Resolve steady_item steady_set_item steady_pops steady_signed : steady.
Lemma steady_charge cost : steady c0 (charge cost).
Proof. unfold charge. steady. Qed.
Lemma steady_mem_size : steady c0 mem_size.
Proof. unfold mem_size. steady. Qed.
Lemma steady_mem_read o n : steady c0 (mem_read o n).
Proof. unfold mem_read. steady. Qed.
Lemma steady_mem_write o d : steady c0 (mem_write o d).
Proof. unfold mem_write. steady. Qed.
Lemma steady_grow n : steady c0 (grow_memory n).
Proof. unfold grow_memory, when. steady. Qed.
#[local] Hint Resolve steady_charge steady_mem_size steady_mem_read steady_mem_write steady_grow : steady.
Lemma steady_check64 o s : steady c0 (check_memory64 o s).
Proof. unfold check_memory64, when. steady. Qed.
#[local] Hint Resolve steady_check64 : steady.
Lemma steady_check o s : steady c0 (check_memory o s).
Proof. unfold check_memory. steady. Qed.
#[local] Hint Resolve steady_check : steady.
Lemma steady_tx : steady c0 get_tx_context.
Proof.
  unfold get_tx_context, when. apply steady_get; intros s Hs. apply steady_bind; [|intros _; steady]. case_match; [|steady].
  apply steady_bind; [by intros m Hm x|]. intros c. by apply steady_put.
Qed.
Lemma steady_account_exists a : steady c0 (host_account_exists a).
Proof. by intros m Hm x. Qed.
Lemma steady_get_storage a k : steady c0 (host_get_storage a k).
Proof. by intros m Hm x. Qed.
Lemma steady_set_storage a k v : steady c0 (host_set_storage a k v).
Proof. by intros m Hm x. Qed.
Lemma steady_get_balance a : steady c0 (host_get_balance a).
Proof. by intros m Hm x. Qed.
Lemma steady_get_code_size a : steady c0 (host_get_code_size a).
Proof. by intros m Hm x. Qed.
Lemma steady_get_code_hash a : steady c0 (host_get_code_hash a).
Proof. by intros m Hm x. Qed.
Lemma steady_copy_code a o n : steady c0 (host_copy_code a o n).
Proof. by intros m Hm x. Qed.
Lemma steady_host_selfdestruct a b : steady c0 (host_selfdestruct a b).
Proof. by intros m Hm x. Qed.
Lemma steady_host_call msg : steady c0 (host_call msg).
Proof. by intros m Hm x. Qed.
Lemma steady_get_block_hash n : steady c0 (host_get_block_hash n).
Proof. by intros m Hm x. Qed.
Lemma steady_access_account a : steady c0 (host_access_account a).
Proof. by intros m Hm x. Qed.
Lemma steady_access_storage a k : steady c0 (host_access_storage a k).
Proof. by intros m Hm x. Qed.
Lemma steady_emit_log a d t : steady c0 (host_emit_log a d t).
Proof. by intros m Hm. Qed.
Lemma steady_code_at an p : steady c0 (code_at an p).
Proof. unfold code_at. steady. Qed.
Lemma steady_code_bytes an p n : steady c0 (code_bytes an p n).
Proof. unfold code_bytes. steady. Qed.
End primitives.
#[export] Hint Resolve steady_pop steady_push steady_opt steady_item steady_set_item steady_pops steady_signed
  steady_charge steady_mem_size steady_mem_read steady_mem_write steady_grow steady_check64 steady_check
  steady_tx steady_code_at steady_code_bytes steady_account_exists steady_get_storage steady_set_storage steady_get_balance
  steady_get_code_size steady_get_code_hash steady_copy_code steady_host_selfdestruct steady_host_call steady_get_block_hash
  steady_access_account steady_access_storage steady_emit_log steady_when steady_require : steady.

(** ** The instructions *)
Section instructions.
Context (c0 : list Z) (msg : evmc_message) (rev : Z) (code : bytes) (an : CodeAnalysis).

Lemma steady_binary f : steady c0 (binary f).
Proof. unfold binary. steady. Qed.
Lemma steady_dup N : steady c0 (dup N).
Proof. unfold dup. steady. Qed.
Lemma steady_swap N : steady c0 (swap N).
Proof. unfold swap. steady. Qed.
Lemma steady_cold a c : steady c0 (cold_account_cost rev a c).
Proof. unfold cold_account_cost. steady. Qed.
Lemma steady_cold_storage k : steady c0 (cold_storage msg rev k).
Proof. unfold cold_storage. steady. Qed.
Lemma steady_refund r : steady c0 (add_refund r).
Proof. unfold add_refund. steady. Qed.
Lemma steady_copy d : steady c0 (copy_to_memory d).
Proof. unfold copy_to_memory. steady. Qed.
Lemma steady_jump_impl d : steady c0 (jump_impl an d).
Proof. unfold jump_impl. steady. Qed.
Lemma steady_read_int16 p : steady c0 (read_int16 an p).
Proof. unfold read_int16. steady. Qed.
Lemma steady_full_words n data r : steady c0 (load_full_words an n data r).
Proof. revert data r. induction n as [|n IH]; intros; cbn [load_full_words]; steady. Qed.
Lemma steady_partial len pos : steady c0 (load_partial_push_data an len pos).
Proof. unfold load_partial_push_data. steady. Qed.
#[local] Hint Resolve steady_binary steady_dup steady_swap steady_cold steady_cold_storage steady_refund steady_copy steady_jump_impl
  steady_read_int16 steady_full_words steady_partial : steady.
Lemma steady_push_ len pos : steady c0 (push_ an len pos).
Proof. unfold push_. steady. Qed.
Lemma steady_log N : steady c0 (log msg N).
Proof. unfold log. steady. Qed.
Lemma steady_call op : steady c0 (call_impl msg rev op).
Proof. unfold call_impl. steady. Qed.
Lemma steady_create c : steady c0 (create_impl msg rev c).
Proof. unfold create_impl. steady. Qed.
#[local] Hint Resolve steady_push_ steady_log steady_call steady_create : steady.

Definition steady_impl (i : Impl) : Prop :=
  match i with INext c => steady c0 c | IJump c => ∀ pos, steady c0 (c pos) end.
(** Instructions that change the call stack, or look at the height of the stack themselves. *)
Definition unsteady_ops : list Z := [OP_CALLF; OP_RETF; OP_DUPN; OP_SWAPN].
Lemma simple_impls_steady : Forall (λ '(op, i), op ∉ unsteady_ops → steady_impl i) (simple_impls msg rev code an).
Proof.
  unfold simple_impls. repeat (apply Forall_cons; split); [..|by apply Forall_nil].
  all: try (solve [intros Hn; exfalso; apply Hn; unfold unsteady_ops; rewrite !elem_of_cons; tauto]).
  all: intros _; cbn [steady_impl]; lazymatch goal with |- ∀ _, steady _ _ => intros pos | |- _ => idtac end.
  all: unfold stop_impl, add, mul, sub, div, sdiv, mod_, smod, addmod_, mulmod_, signextend, lt, gt, slt_, sgt, eq, iszero, and_, or_, xor_,
    not_, byte_, shl, shr, sar, origin, gasprice, basefee, coinbase, timestamp, number, prevrandao, gaslimit, chainid,
    calldatasize, codesize, calldatacopy, codecopy, push0, noop, pop_, exp, keccak256_, address, balance, caller, callvalue, calldataload,
    extcodesize, extcodecopy, returndatasize, returndatacopy, extcodehash, blockhash, selfbalance, mload, mstore, mstore8, sload, sstore,
    jump, jumpi, pc, msize, gas_, rjump, rjumpi, rjumpv, return_impl, selfdestruct.
  all: steady.
Qed.
End instructions.

(** ** The tables of costs *)
Lemma eof_costs : get_baseline_cost_table EVMC_MAX_REVISION 1 = legacy_costs.
Proof. vm_compute. reflexivity. Qed.
Definition has_cost (op : Z) : bool := negb (cost_at legacy_costs op =? undefined).
Lemma all_ops_imp (f g : Z → bool) op : forallb (λ op, negb (f op) || g op) all_ops = true → 0 <= op < 256 → f op = true → g op = true.
Proof. intros H Hop Hf. pose proof (all_ops_lem (λ op, negb (f op) || g op) op H Hop) as A. cbv beta in A. by rewrite Hf in A. Qed.
Lemma has_cost_of op : 0 <= op < 256 → has_cost op = true → 0 <= cost_of op.
Proof. intros Hop H. apply Z.leb_le. by apply (all_ops_imp has_cost (λ op, 0 <=? cost_of op)); [vm_compute; reflexivity|..]. Qed.

(** [c] never goes on. *)
Definition ends {A} (c : M A) : Prop := ∀ m, prog_all (λ r, match r with Go _ _ => False | Stop _ _ => True end) (c m).
Lemma prog_all_true {A} (Q : A → Prop) (p : VmProg A) : (∀ a, Q a) → prog_all Q p.
Proof. intros HQ. induction p; cbn; auto. Qed.
Lemma ends_bind {A B} (c : M A) (k : A → M B) : (∀ a, ends (k a)) → ends (c ≫= k).
Proof. intros Hk m. apply (prog_all_bind (λ _, True)); [by apply prog_all_true|]. intros [a m'|s m'] _; [apply Hk|exact I]. Qed.
Lemma ends_stop {A} status : ends (stop (A:=A) status).
Proof. by intros m. Qed.
Lemma mok_all {A} C (Q : A → Machine → Prop) S (R : Step A → Prop) (c : M A) m :
  mok C Q S c m → prog_all R (c m) → mok C (λ a m', Q a m' ∧ R (Go a m')) (λ s m', S s m' ∧ R (Stop s m')) c m.
Proof.
  intros H1 H2. eapply prog_ok_mono; [|exact (prog_ok_all _ _ _ _ H1 H2)]. by intros [a m'|s m'] [? ?].
Qed.

(** ** The instructions by their kind *)
Section instructions.
Context (msg : evmc_message) (rev : Z) (code : bytes).
Definition jump_impls (an : CodeAnalysis) : list (Z * (Z → M Z)) :=
  [(OP_JUMP, jump an); (OP_JUMPI, jumpi an); (OP_PC, pc); (OP_RJUMP, rjump an); (OP_RJUMPI, rjumpi an); (OP_RJUMPV, rjumpv an);
   (OP_CALLF, callf an); (OP_RETF, retf); (OP_DUPN, dupn an); (OP_SWAPN, swapn an)].
(** An instruction that goes on to the next byte: it has no immediate, and ends
    if it is terminating. *)
Definition plain (op : Z) : bool := negb (is_one_of eof_ops op) && (immediate_size (traits_at op) =? 0) && negb (op =? OP_RETF).
Definition kind_ok (an : CodeAnalysis) (x : Z * Impl) : Prop :=
  match x.2 with
  | INext c => plain x.1 = true ∧ (is_terminating (traits_at x.1) = true → ends c)
  | IJump c => (x.1, c) ∈ jump_impls an
  end.
Lemma simple_kinds an : Forall (kind_ok an) (simple_impls msg rev code an).
Proof.
  unfold simple_impls. repeat (apply Forall_cons; split); [..|by apply Forall_nil].
  all: unfold kind_ok; cbn [fst snd].
  all: first [split; [vm_compute; reflexivity|]|unfold jump_impls; rewrite !elem_of_cons; by auto 20].
  all: first [solve [intros E; vm_compute in E; done]|intros _].
  all: unfold stop_impl, return_impl, selfdestruct.
  all: repeat first [apply ends_stop | apply ends_bind; intros ? | case_match].
Qed.
End instructions.

Section kinds.
Context (msg : evmc_message) (rev : Z) (code : bytes).
Definition plain_on (op : Z) : bool := plain op && negb (is_terminating (traits_at op)).
Lemma plain_range first n op : forallb plain_on (seqZ first n) = true → first <= op < first + n →
  plain op = true ∧ is_terminating (traits_at op) = false.
Proof.
  intros H Hop. rewrite forallb_forall in H. specialize (H op). unfold plain_on in H. rewrite andb_true_iff, negb_true_iff in H.
  apply H, list_elem_of_In, elem_of_seqZ. lia.
Qed.
Lemma kind_plain_on an op c : plain op = true ∧ is_terminating (traits_at op) = false → kind_ok an (op, INext c).
Proof. intros [H1 H2]. split; [done|]. cbn [fst]. by rewrite H2. Qed.
Lemma impl_kind an op i : impl msg rev code an op = Some i →
  OP_PUSH1 <= op <= OP_PUSH32 ∧ i = IJump (push_ an (op - OP_PUSH1 + 1)) ∨ kind_ok an (op, i).
Proof.
  unfold impl. repeat case_match; rewrite ?between_spec in *; [intros [= <-]..|].
  - by left.
  - right. apply kind_plain_on, (plain_range OP_DUP1 16); [vm_compute; reflexivity|unfold OP_DUP1, OP_DUP16 in *; lia].
  - right. apply kind_plain_on, (plain_range OP_SWAP1 16); [vm_compute; reflexivity|unfold OP_SWAP1, OP_SWAP16 in *; lia].
  - right. apply kind_plain_on, (plain_range OP_LOG0 5); [vm_compute; reflexivity|unfold OP_LOG0, OP_LOG4 in *; lia].
  - intros Hin%find_impl_In. right. pose proof (simple_kinds msg rev code an) as Hf. rewrite Forall_forall in Hf. by apply (Hf _ Hin).
Qed.
(** Such an instruction does not look at the analysis. *)
Lemma find_next l l' op c : Forall2 (λ x y : Z * Impl, x.1 = y.1 ∧ ∀ c, x.2 = INext c → y.2 = INext c) l l' →
  find_impl op l = Some (INext c) → find_impl op l' = Some (INext c).
Proof.
  induction 1 as [|[o i] [o' i'] l l' [E Hi] _ IH]; cbn in *; [done|]. subst o'. destruct (o =? op); [|done].
  intros [= ->]. f_equal. by apply Hi.
Qed.
Lemma simple_next an an' : Forall2 (λ x y : Z * Impl, x.1 = y.1 ∧ ∀ c, x.2 = INext c → y.2 = INext c)
  (simple_impls msg rev code an) (simple_impls msg rev code an').
Proof. unfold simple_impls. repeat (apply Forall2_cons; split); [..|by apply Forall2_nil]. all: split; [reflexivity|]; cbn; by intros c [= <-]. Qed.
Lemma impl_next_an an an' op c : impl msg rev code an op = Some (INext c) → impl msg rev code an' op = Some (INext c).
Proof. unfold impl. repeat case_match; [done..|]. apply find_next, simple_next. Qed.
Lemma impl_next_steady c0 an op c : impl msg rev code an op = Some (INext c) → steady c0 c.
Proof.
  intros Hi. pose proof (impl_kind _ _ _ Hi) as [(_ & [=])|[Hp _]]. cbn in Hp. unfold plain in Hp.
  rewrite !andb_true_iff, !negb_true_iff in Hp. destruct Hp as [[Hp _] _]. unfold impl in Hi. revert Hi.
  repeat case_match; [done|by intros [= <-]; auto using steady_dup, steady_swap, steady_log..|].
  intros Hin%find_impl_In. pose proof (simple_impls_steady c0 msg rev code an) as Hf. rewrite Forall_forall in Hf.
  apply (Hf _ Hin). intros Hu. assert (is_one_of eof_ops op = true); [|congruence].
  unfold is_one_of. apply existsb_exists. exists op. split; [|apply Z.eqb_refl].
  unfold unsteady_ops, eof_ops in *. apply list_elem_of_In. set_solver.
Qed.
(** Every instruction that has a cost is implemented. *)
Lemma find_impl_none op l : find_impl op l = None → op ∉ l.*1.
Proof.
  induction l as [|[o i] l IH]; cbn; [set_solver|]. destruct (Z.eqb_spec o op); [done|]. intros H. apply not_elem_of_cons. auto.
Qed.
Definition implemented (op : Z) : bool :=
  between op OP_PUSH1 OP_PUSH32 || between op OP_DUP1 OP_DUP16 || between op OP_SWAP1 OP_SWAP16 || between op OP_LOG0 OP_LOG4
  || is_one_of (simple_impls sum_message 0 [] (analyze_legacy [])).*1 op.
Lemma impl_exists an op : 0 <= op < 256 → has_cost op = true → ∃ i, impl msg rev code an op = Some i.
Proof.
  intros Hop Hc. assert (implemented op = true) as Hi.
  { apply (all_ops_imp has_cost implemented); [vm_compute; reflexivity|done..]. }
  destruct (impl msg rev code an op) as [i|] eqn:E; [by exists i|exfalso]. unfold implemented in Hi. revert E Hi. unfold impl.
  destruct (between op OP_PUSH1 OP_PUSH32), (between op OP_DUP1 OP_DUP16), (between op OP_SWAP1 OP_SWAP16), (between op OP_LOG0 OP_LOG4); try done.
  intros Hn%find_impl_none. cbn [orb]. unfold is_one_of. intros (o & Ho%list_elem_of_In & ->%Z.eqb_eq)%existsb_exists.
  apply Hn. exact Ho.
Qed.
End kinds.
