(* ===== verification/EvmEofRun.v ===== *)
(** * A valid container runs

    What the validation of EOF containers is for: the interpreter
    (pkgs/evmweak/baseline.cpp) runs a container that [validate_eof] accepts
    without checking anything of it again.  It stays at instructions of the code
    sections, at the heights of the stack that the validation found, with the
    call stack holding places to go on at.  What the interpreter needs and the
    validation does not check is [runnable]; the examples at the end show what
    happens without it. *)
From Stdlib Require Import ZArith Strings.Byte Strings.String Lia.
From stdpp Require Import base tactics option numbers list relations.
From S2P Require Import Prelude Words Evmc EvmTraits EvmAnalysis EvmState EvmInstructions EvmBaseline.
From S2P Require Import EvmLogic EvmJumps EvmSpec EvmSafety EvmLoop EvmSteady EvmEof EvmEofCode EvmEofContainer.

Local Open Scope Z_scope.

(** ** The sections and the machine *)

(** What may occur in the section with number [i]: EXTCODECOPY, calls and
    creations, and DUPN and SWAPN as the flags say; no RETF in the first. *)
Definition eof_op_allowed (copy calls deep : bool) (i : nat) (op : Z) : bool :=
  (copy || negb (op =? OP_EXTCODECOPY)) && (calls || negb (is_one_of call_ops op))
  && (deep || negb (is_one_of [OP_DUPN; OP_SWAPN] op)) && negb (bool_decide (i = 0%nat) && (op =? OP_RETF)).

Section run.
Context (copy calls deep : bool) (msg : evmc_message) (container : bytes) (h : EOF1Header) (size : Z).
Context (Hmsg : msg_ok msg) (Hsize : Z.of_nat (length container) < 2 ^ 27).
Context (Hvalid : valid_container EVMC_MAX_REVISION container h) (Hdata : 2 <= data_size h).
Context (Hops : ∀ i code p, get_code container h i = Some code → starts code p → (p < length code)%nat →
  eof_op_allowed copy calls deep i (op code p) = true).
Abbreviation C := (vm_contract (copy = true) (calls = true) (depth msg)).
Abbreviation rev := EVMC_MAX_REVISION.
Definition offset (i : nat) : Z := default 0 (code_offsets h !! i).
Definition eof_analysis : CodeAnalysis := mkCodeAnalysis container (offset 0) size [] h.
Abbreviation an := eof_analysis.

Lemma section_size i code : get_code container h i = Some code → ∃ c, code_sizes h !! i = Some c.
Proof. unfold get_code. destruct (code_offsets h !! i), (code_sizes h !! i) as [c|]; try done. by exists c. Qed.
Lemma section_place i code : get_code container h i = Some code →
  code_offsets h !! i = Some (offset i) ∧ 0 <= offset i ∧ code = take (length code) (drop (Z.to_nat (offset i)) container)
  ∧ offset i + Z.of_nat (length code) + data_size h <= Z.of_nat (length container) ∧ (0 < length code)%nat.
Proof.
  intros Hg. destruct (section_size i code Hg) as [c Hc]. destruct Hvalid as [Hd _]. pose proof Hd as ([_ _ _ _ Hcs _ _ _ _ _ [Hn _]] & _).
  destruct (get_code_spec container h i c Hd Hc) as (o & code' & Ho & Hg' & Hcode & _ & [Ho0 _] & Hle & Hlen & Hc0).
  rewrite Hg in Hg'. injection Hg' as <-.
  unfold offset. rewrite Ho. cbn [default from_option id]. split; [done|]. split; [done|]. split; [|lia].
  rewrite Hcode at 1. f_equal. lia.
Qed.
Lemma section_byte i code q : get_code container h i = Some code → (q < length code)%nat →
  at_byte container (offset i + Z.of_nat q) = Some (op code q).
Proof.
  intros Hg Hq. destruct (section_place i code Hg) as (_ & Ho & Hcode & Hle & _). unfold at_byte, op.
  destruct (Z.leb_spec 0 (offset i + Z.of_nat q)); [|lia].
  destruct (lookup_lt_is_Some_2 code q Hq) as [b Hb]. rewrite (nth_lookup_Some _ _ _ _ Hb). rewrite Hcode in Hb.
  rewrite lookup_take_lt in Hb by done. rewrite lookup_drop in Hb.
  replace (Z.to_nat (offset i + Z.of_nat q)) with (Z.to_nat (offset i) + q)%nat by lia. by rewrite Hb.
Qed.
Lemma section_valid i code : get_code container h i = Some code →
  whole code rev ∧ jumps_ok code ∧ ∃ H, heights_ok code (types h) i H.
Proof.
  intros Hg. destruct Hvalid as ((Hly & _ & Hty & _) & _ & Hv). destruct (section_size i code Hg) as [c Hc%lookup_lt_Some].
  destruct (lookup_lt_is_Some_2 (types h) i) as [t Ht]; [by rewrite (read_types_length _ _ _ _ Hty)|].
  destruct (Hv i code t Hg Ht) as (Hw & Hj & H & HH & _). split; [done|]. split; [done|]. by exists H.
Qed.
Lemma callee_code i t : types h !! i = Some t → ∃ code, get_code container h i = Some code.
Proof.
  destruct Hvalid as (Hd & _ & _). pose proof Hd as (_ & _ & Hty & _). intros Ht%lookup_lt_Some. rewrite (read_types_length _ _ _ _ Hty) in Ht.
  destruct (lookup_lt_is_Some_2 (code_sizes h) i Ht) as [c Hc].
  destruct (get_code_spec container h i c Hd Hc) as (_ & code & _ & Hg & _). by exists code.
Qed.

(** [pos], as the interpreter counts, is at the instruction [p] of the section
    [i], where the stack of this call has [H p] items. *)
Record place (i : nat) (code : bytes) (H : nat → Z) (p : nat) (pos : Z) : Prop := mkPlace {
  pl_code : get_code container h i = Some code;
  pl_heights : heights_ok code (types h) i H;
  pl_starts : starts code p;
  pl_inside : (p < length code)%nat;
  pl_pos : pos = offset i - offset 0 + Z.of_nat p
}.
(** A call of the function [i] whose stack starts at the height [b], with the
    places to go on at when it and its callers return. *)
Inductive running : nat → Z → list Z → Prop :=
  | running_first : running 0 0 []
  | running_called i b z cs j code H q b' t :
      place j code H q z → 0 <= b' → types h !! i = Some t → b + outputs t = b' + H q → running j b' cs →
      running i b (z :: cs).
Definition at_height (i : nat) (b height pos : Z) : Prop :=
  0 <= b ∧ ∃ code H p, place i code H p pos ∧ height = b + H p.
Definition runs_at (g0 pos : Z) (m : Machine) : Prop :=
  machine_ok g0 m ∧ ∃ i b, running i b (call_stack (state m)) ∧ at_height i b (Z.of_nat (length (stack m))) pos.
Definition eof_measure (pos : Z) (m : Machine) : Z :=
  mgas m * (Z.of_nat (length container) + 1) + (Z.of_nat (length container) - (offset 0 + pos)).

Lemma runs_range g0 pos m : runs_at g0 pos m → 0 <= offset 0 + pos < Z.of_nat (length container).
Proof.
  intros (_ & i & b & _ & _ & code & H & p & [Hg _ _ Hl ->] & _). destruct (section_place i code Hg) as (_ & ? & _ & ? & _). lia.
Qed.
Lemma runs_first g : 0 <= g → runs_at g 0 (mkMachine [] g ExecutionState_ctor).
Proof.
  intros Hg. split; [split; [by apply Forall_nil|split; [done|split; [cbn; lia|apply st_ok_ctor]]]|].
  exists 0%nat, 0. split; [constructor|]. split; [done|]. destruct Hvalid as (_ & [(t & Ht & Hi & _) _] & _).
  assert (types h !! 0%nat = Some t) as Ht0 by (destruct (types h); [done|by injection Ht as ->]).
  destruct (callee_code 0 t Ht0) as [code Hc]. destruct (section_valid 0 code Hc) as (_ & _ & H & HH).
  destruct (section_place 0 code Hc) as (_ & _ & _ & _ & Hpos). exists code, H, 0%nat.
  split; [split; [done..|apply starts_0|done|lia]|]. destruct HH as [(t' & Ht' & ->) _]. cbn. rewrite Ht0 in Ht'. injection Ht' as <-. lia.
Qed.

(** What a run may not end with: DUPN and SWAPN look at the height themselves. *)
Definition quiet_end (status : Z) : Prop :=
  status ≠ EVMC_UNDEFINED_INSTRUCTION ∧ (deep = false → status ≠ EVMC_STACK_UNDERFLOW).
Definition ended (g0 status : Z) (m : Machine) : Prop := stopped g0 status m ∧ quiet_end status.
Lemma quiet_ended status : quiet status → quiet_end status.
Proof. intros [H1 H2]. by split. Qed.
Lemma mok_ended {A} (Q : A → Machine → Prop) g0 status l g s :
  fails status → quiet_end status → st_ok s → mok C Q (ended g0) (stop status) (mkMachine l g s).
Proof. intros Hf Hq Hs. apply mok_stop. split; [by apply stopped_fails|done]. Qed.
Lemma mok_check_eof g0 op l g s :
  0 <= op < 256 → has_cost op = true → Z.of_nat (length l) <= stack_limit → gas_ok g → st_ok s →
  (heights op).1 <= Z.of_nat (length l) →
  mok C (λ _ m, m = mkMachine l (g - cost_of op) s ∧ 0 <= cost_of op <= g ∧ Z.of_nat (length l) + (heights op).2 <= stack_limit)
    (ended g0) (check_requirements legacy_costs op) (mkMachine l g s).
Proof.
  intros Hop Hc Hl Hg Hs Hreq. unfold check_requirements. fold (cost_of op). pose proof (cost_bound op Hop). pose proof (change_bound op Hop) as Hch.
  pose proof (has_cost_of op Hop Hc). unfold heights in Hreq. cbn [fst] in Hreq.
  apply mok_if; intros E1; [apply Z.ltb_lt in E1; lia|]. apply mok_bind, mok_get_stack. cbv zeta.
  apply mok_if; intros E2; [by apply mok_ended; [|split|]|].
  apply mok_if; intros E3.
  { apply andb_true_iff in E3 as [E3%Z.ltb_lt E4%Z.leb_le]. lia. }
  assert (Z.of_nat (length l) + (heights op).2 <= stack_limit).
  { apply andb_false_iff in E2 as [?%Z.ltb_ge|?%Z.eqb_neq]; unfold heights; cbn [snd]; lia. }
  eapply prog_ok_mono; [|apply (mok_all C (λ _ m, m = mkMachine l (g - cost_of op) s ∧ cost_of op <= g) (stopped g0)
    (λ r, match r with Go _ m' => call_stack (state m') = call_stack s | Stop st _ => quiet st end))].
  - intros [u m|st m]; [by intros [[-> ?] _]|]. intros [??]. split; [done|by apply quiet_ended].
  - apply mok_charge; [lia|done..|]. done.
  - by apply steady_charge.
Qed.

Section step.
Context (g0 : Z) (i : nat) (code : bytes) (H : nat → Z) (p : nat) (pos b : Z) (cs : list Z).
Context (Hplace : place i code H p pos) (Hb : 0 <= b) (Hrun : running i b cs).
Abbreviation o := (op code p).

Lemma good_here : good_at code rev p.
Proof. destruct (section_valid i code (pl_code _ _ _ _ _ Hplace)) as (Hw & _). by apply Hw; apply Hplace. Qed.
Lemma allowed_here : eof_op_allowed copy calls deep i o = true.
Proof. by apply Hops; apply Hplace. Qed.
Lemma cost_here : has_cost o = true.
Proof. destruct good_here as [Hc _]. unfold has_cost. rewrite <-eof_costs. by destruct (Z.eqb_spec (cost_at (get_baseline_cost_table rev 1) o) undefined). Qed.
Lemma height_here : height_at code (types h) i H p.
Proof. destruct (pl_heights _ _ _ _ _ Hplace) as [_ HH]. by apply HH; apply Hplace. Qed.
(** Where the control goes, the heights are as they should be. *)
Lemma next_place n : n ∈ nexts code p → place i code H (Z.to_nat n) (offset i - offset 0 + n) ∧ 0 <= n.
Proof.
  intros Hn. destruct Hplace as [Hg HH Hp Hl _]. destruct (section_valid i code Hg) as (_ & Hj & _).
  destruct height_here as (req & chg & _ & _ & Hnext & _). destruct (Hnext n Hn) as [Hlt _].
  assert (0 <= n ∧ starts code (Z.to_nat n)) as [H0 Hs].
  { unfold nexts in Hn. apply elem_of_app in Hn as [Hn|Hn].
    - destruct (falls_through code p); [|by apply not_elem_of_nil in Hn]. apply list_elem_of_singleton in Hn as ->.
      split; [lia|]. rewrite Nat2Z.id. by apply starts_behind.
    - destruct (Hj p Hp Hl n Hn) as [[??] Hs]. done. }
  split; [|done]. split; [done..|lia|lia].
Qed.
Lemma runs_next req chg n l g s : effect code (types h) p = Some (req, chg) → n ∈ nexts code p →
  Z.of_nat (length l) = b + H p + chg → call_stack s = cs → machine_ok g0 (mkMachine l g s) →
  runs_at g0 (offset i - offset 0 + n) (mkMachine l g s).
Proof.
  intros He Hn Hl Hcs Hm. split; [done|]. exists i, b. cbn [state stack]. rewrite Hcs. split; [done|]. split; [done|].
  exists code, H, (Z.to_nat n). split; [by apply next_place|].
  destruct height_here as (req' & chg' & He' & _ & Hnext & _). rewrite He in He'. injection He' as <- <-.
  destruct (Hnext n Hn) as [_ ->]. lia.
Qed.
Lemma effect_here : o ≠ OP_CALLF → effect code (types h) p = Some (heights o).
Proof. intros Hne. unfold effect. by destruct (Z.eqb_spec o OP_CALLF). Qed.
Lemma required_here : o ≠ OP_CALLF → (heights o).1 <= H p.
Proof.
  intros Hne. destruct height_here as (req & chg & He & Hr & _). rewrite effect_here in He by done. by destruct (heights o); simplify_eq.
Qed.
Lemma falls_here : falls_through code p = true → Z.of_nat (behind code p) ∈ nexts code p ∧ (behind code p < length code)%nat.
Proof.
  intros Hf. assert (Z.of_nat (behind code p) ∈ nexts code p) as Hn by (unfold nexts; rewrite Hf; set_solver).
  split; [done|]. destruct height_here as (? & ? & _ & _ & Hnext & _). destruct (Hnext _ Hn). lia.
Qed.

Lemma pos_here : pos = offset i - offset 0 + Z.of_nat p.
Proof. by destruct Hplace. Qed.
Definition goes (g pos' : Z) (m : Machine) : Prop := runs_at g0 pos' m ∧ mgas m <= g.
(** How the instruction at [p] is met: its requirements hold and [g] is left. *)
Record met (l : list Z) (g : Z) (s : ExecutionState) : Prop := mkMet {
  met_words : Forall is_u256 l;
  met_height : Z.of_nat (length l) = b + H p;
  met_limit : Z.of_nat (length l) <= stack_limit;
  met_room : Z.of_nat (length l) + (heights o).2 <= stack_limit;
  met_gas : gas_ok g;
  met_less : g <= g0;
  met_state : st_ok s;
  met_calls : call_stack s = cs
}.
Lemma met_required l g s : met l g s → o ≠ OP_CALLF → (heights o).1 <= Z.of_nat (length l).
Proof. intros Hm Hne%required_here. destruct Hm as [_ -> _ _ _ _ _ _]. lia. Qed.
(** Going on at [n] with the height that the table says. *)
Lemma goes_to l g s n z l' g' s' : met l g s → o ≠ OP_CALLF → n ∈ nexts code p → z = pos - Z.of_nat p + n →
  Forall is_u256 l' → Z.of_nat (length l') = Z.of_nat (length l) + (heights o).2 → 0 <= g' <= g → st_ok s' → call_stack s' = cs →
  goes g z (mkMachine l' g' s').
Proof.
  intros [Hw Hh Hl Hr Hg Hg0 Hs Hcs] Hne Hn -> H1 H2 H3 H4 Hcs'. split; [|cbn; lia].
  pose proof (effect_here Hne) as He. destruct (heights o) as [req chg] eqn:E. cbn [snd] in *.
  replace (pos - Z.of_nat p + n) with (offset i - offset 0 + n) by (rewrite pos_here; lia).
  eapply runs_next; [exact He|done|lia|done|]. split; [done|]. split; [cbn; lia|]. split; [cbn; lia|done].
Qed.
(** The same behind the instruction and its immediate of [k] bytes. *)
Lemma goes_behind k l g s z l' g' s' : met l g s → imm code p = k → is_terminating (traits_at o) = false → o ≠ OP_CALLF → o ≠ OP_RJUMP →
  z = pos + 1 + Z.of_nat k →
  Forall is_u256 l' → Z.of_nat (length l') = Z.of_nat (length l) + (heights o).2 → 0 <= g' <= g → st_ok s' → call_stack s' = cs →
  goes g z (mkMachine l' g' s').
Proof.
  intros Hm Hk Ht Hne Hne' ->. assert (falls_through code p = true) as [Hn _]%falls_here.
  { unfold falls_through. rewrite Ht. by rewrite (proj2 (Z.eqb_neq _ _) Hne'). }
  eapply goes_to; [exact Hm|done|exact Hn|unfold behind; rewrite Hk; lia].
Qed.
Lemma plain_facts : plain o = true → o ≠ OP_CALLF ∧ is_rjumpv code p = false ∧ imm code p = 0%nat ∧ op_allowed copy calls o = true
  ∧ falls_through code p = negb (is_terminating (traits_at o)).
Proof.
  unfold plain. rewrite !andb_true_iff, !negb_true_iff, Z.eqb_eq. intros [[He Hi] _].
  assert (∀ k, k ∈ eof_ops → o ≠ k) as Hne.
  { intros k Hk E. rewrite E in He. assert (is_one_of eof_ops k = true); [|congruence].
    apply existsb_exists. exists k. split; [by apply list_elem_of_In|apply Z.eqb_refl]. }
  assert (is_rjumpv code p = false) as Hv by (apply Z.eqb_neq, Hne; unfold eof_ops; set_solver).
  split; [apply Hne; unfold eof_ops; set_solver|]. split; [done|]. split; [unfold imm; by rewrite Hv, Hi|]. split.
  - pose proof allowed_here as Ha. unfold eof_op_allowed in Ha. rewrite !andb_true_iff in Ha. destruct Ha as [[[H1 H2] _] _].
    unfold op_allowed. by rewrite He, H1, H2.
  - unfold falls_through. rewrite (proj2 (Z.eqb_neq _ OP_RJUMP)) by (apply Hne; unfold eof_ops; set_solver). by rewrite andb_true_r.
Qed.
Lemma plain_step c l g s : impl msg rev container an o = Some (INext c) → met l g s →
  mok C (λ _, goes g (pos + 1)) (ended g0) c (mkMachine l g s).
Proof.
  intros Hi Hmet. destruct (impl_kind _ _ _ _ _ _ Hi) as [(_ & [=])|[Hp He]]. cbn [fst snd] in *.
  destruct (plain_facts Hp) as (Hne & _ & Him & Hal & Hf). pose proof (met_required _ _ _ Hmet Hne) as Hreq.
  pose proof (impl_next_an _ _ _ _ (analyze_legacy container) _ _ Hi) as Hi'.
  assert (Z.of_nat (length container) < 2 ^ 62) as Hlen by lia.
  pose proof (impl_fits copy calls msg container Hmsg Hlen o _ (op_range code p) Hal Hi') as Hfit. cbn [fits] in Hfit.
  pose proof Hmet as [Hw Hh Hl Hr Hg Hg0 Hs Hcs].
  specialize (Hfit l g s Hw (conj Hreq Hl) Hr Hg Hs).
  pose proof (impl_next_steady _ _ _ (call_stack s) _ _ _ Hi (mkMachine l g s) eq_refl) as Hst.
  pose proof (mok_all _ _ _ _ _ _ Hfit Hst) as Hok. destruct (is_terminating (traits_at o)) eqn:Et.
  - pose proof (mok_all _ _ _ _ _ _ Hok (He eq_refl (mkMachine l g s))) as Hok'.
    eapply prog_ok_mono; [|exact Hok']. intros [u m|st m]; [by intros [_ []]|]. intros [[? ?] _].
    split; [eapply stopped_mono; [|done]; done|by apply quiet_ended].
  - eapply prog_ok_mono; [|exact Hok]. intros [u [l' g' s']|st m]; intros [Ha Hc].
    + destruct Ha as (H1 & H2 & H3 & H4). apply (goes_behind 0 l g s); [done|done|done|done| |lia|done..|].
      * intros E. unfold plain in Hp. by rewrite E in Hp.
      * cbn in Hc. congruence.
    + split; [eapply stopped_mono; [|done]; done|by apply quiet_ended].
Qed.

(** *** Jumps *)
Lemma mok_code_at_section Q S q z m : z = offset i - offset 0 + Z.of_nat q → (q < length code)%nat → Q (op code q) m → mok C Q S (code_at an z) m.
Proof.
  intros -> Hq HQ. unfold code_at, eof_analysis. cbn [code_mem code_base].
  replace (offset 0 + (offset i - offset 0 + Z.of_nat q)) with (offset i + Z.of_nat q) by lia.
  by rewrite (section_byte i code q (pl_code _ _ _ _ _ Hplace) Hq).
Qed.
Lemma read_uint16_section q : (S q < length code)%nat →
  read_uint16_be container (offset i + Z.of_nat q) = Some (Z.lor (Z.shiftl (op code q) 8) (op code (S q))).
Proof.
  intros Hq. pose proof (pl_code _ _ _ _ _ Hplace) as Hg. unfold read_uint16_be. rewrite (section_byte i code q Hg) by lia.
  replace (offset i + Z.of_nat q + 1) with (offset i + Z.of_nat (S q)) by lia. by rewrite (section_byte i code (S q) Hg) by lia.
Qed.
Lemma mok_int16_section Q S q z m : z = offset i - offset 0 + Z.of_nat q → (Datatypes.S q < length code)%nat → Q (read_rel code q) m →
  mok C Q S (read_int16 an z) m.
Proof.
  intros -> Hq HQ. unfold read_int16, eof_analysis. cbn [code_mem code_base].
  replace (offset 0 + (offset i - offset 0 + Z.of_nat q)) with (offset i + Z.of_nat q) by lia.
  unfold read_int16_be. by rewrite read_uint16_section.
Qed.
Lemma mok_uint16_section Q S q z m : z = offset i - offset 0 + Z.of_nat q → (Datatypes.S q < length code)%nat →
  Q (Z.lor (Z.shiftl (op code q) 8) (op code (Datatypes.S q))) m → mok C Q S (read_uint16 an z) m.
Proof.
  intros -> Hq HQ. unfold read_uint16, eof_analysis. cbn [code_mem code_base].
  replace (offset 0 + (offset i - offset 0 + Z.of_nat q)) with (offset i + Z.of_nat q) by lia. by rewrite read_uint16_section.
Qed.
Lemma behind_inside : (behind code p <= length code)%nat.
Proof. by destruct good_here as (_ & _ & Hb'). Qed.
Definition jumps_on (c : Z → M Z) : Prop := ∀ l g s, met l g s → mok C (goes g) (ended g0) (c pos) (mkMachine l g s).

Lemma imm_of k n : o = k → k ≠ OP_RJUMPV → immediate_size (traits_at k) = Z.of_nat n → imm code p = n.
Proof. intros E Hne Hi. unfold imm, is_rjumpv. rewrite E. rewrite (proj2 (Z.eqb_neq _ _) Hne), Hi. lia. Qed.

Lemma push_facts k : OP_PUSH1 <= k <= OP_PUSH32 →
  immediate_size (traits_at k) = k - OP_PUSH1 + 1 ∧ is_terminating (traits_at k) = false.
Proof.
  intros Hk. assert (Forall (λ k, immediate_size (traits_at k) = k - OP_PUSH1 + 1 ∧ is_terminating (traits_at k) = false) (seqZ OP_PUSH1 32)) as HF
    by (apply (bool_decide_unpack _); by vm_compute).
  rewrite Forall_forall in HF. apply HF, elem_of_seqZ. unfold OP_PUSH1, OP_PUSH32 in *. lia.
Qed.
Lemma push_step : OP_PUSH1 <= o <= OP_PUSH32 → jumps_on (push_ an (o - OP_PUSH1 + 1)).
Proof.
  intros Ho l g s Hmet. destruct (push_facts o Ho) as [Hi Ht]. pose proof (push_heights o Ho) as Hh.
  pose proof Hmet as [Hw _ Hl Hr Hg _ Hs Hcs]. rewrite Hh in Hr. cbn [snd] in Hr.
  assert (o ≠ OP_CALLF ∧ o ≠ OP_RJUMP ∧ o ≠ OP_RJUMPV) as (Hn1 & Hn2 & Hn3) by (unfold OP_PUSH1, OP_PUSH32, OP_CALLF, OP_RJUMP, OP_RJUMPV in *; lia).
  set (len := o - OP_PUSH1 + 1) in *. assert (1 <= len <= 32) as Hlen by (unfold len, OP_PUSH1, OP_PUSH32 in *; lia).
  assert (imm code p = Z.to_nat len) as Him by (apply (imm_of o); [done|done|lia]).
  assert (behind code p < length code)%nat as Hin.
  { apply falls_here. unfold falls_through. rewrite Ht. by rewrite (proj2 (Z.eqb_neq _ _) Hn2). }
  unfold behind in Hin. rewrite Him in Hin.
  destruct (section_place i code (pl_code _ _ _ _ _ Hplace)) as (_ & Hoff & _ & Hle & _).
  unfold mok. rewrite push_eq; [|done|lia|unfold readable, eof_analysis; cbn [code_mem code_base]; rewrite pos_here; lia..].
  unfold gas_ok in Hg. apply (goes_behind _ l g s _ _ _ _ Hmet Him); [done|done|done|lia| |rewrite Hh; cbn [length snd]; lia|lia|done..].
  apply Forall_cons. split; [apply (push_data_word []); lia|done].
Qed.
Lemma heights_of k : o = k → k ≠ OP_CALLF → heights o = heights k ∧ o ≠ OP_CALLF.
Proof. by intros ->. Qed.
Lemma met_nonneg l g s : met l g s → 0 <= g.
Proof. intros []. unfold gas_ok in *. lia. Qed.
(** A stack of at least [n] items. *)
Lemma met_split l g s n : met l g s → o ≠ OP_CALLF → (heights o).1 = Z.of_nat n → ∃ xs l', l = xs ++ l' ∧ length xs = n ∧ Forall is_u256 xs ∧ Forall is_u256 l'.
Proof.
  intros Hm Hne Hn. pose proof (met_required _ _ _ Hm Hne). pose proof (met_words _ _ _ Hm) as Hw.
  exists (take n l), (drop n l). rewrite take_drop. split; [done|]. split; [rewrite length_take; lia|].
  split; [by apply Forall_take|by apply Forall_drop].
Qed.

Lemma jump_step : o = OP_JUMP → jumps_on (jump an).
Proof.
  intros E l g s Hm. destruct (heights_of _ E ltac:(done)) as [Hh Hne]. change (heights OP_JUMP) with (1, -1) in Hh.
  destruct (met_split l g s 1 Hm Hne) as (xs & l' & -> & Hx & Hxs & _); [by rewrite Hh|]. destruct xs as [|x [|]]; try done.
  apply Forall_cons in Hxs as [Hxs _]. apply mok_bind, mok_pop. unfold jump_impl, eof_analysis. cbn [jumpdest_map length].
  destruct (Z.leb_spec (Z.of_nat 0) x); [|unfold is_u256 in Hxs; lia]. cbn [orb]. apply mok_ended; [done|by split|apply Hm].
Qed.
Lemma jumpi_step : o = OP_JUMPI → jumps_on (jumpi an).
Proof.
  intros E l g s Hm. destruct (heights_of _ E ltac:(done)) as [Hh Hne]. change (heights OP_JUMPI) with (2, -2) in Hh.
  destruct (met_split l g s 2 Hm Hne) as (xs & l' & -> & Hx & Hxs & Hl'); [by rewrite Hh|]. destruct xs as [|x [|y [|]]]; try done.
  apply Forall_cons in Hxs as [Hxs _]. apply mok_bind, mok_pop, mok_bind, mok_pop, mok_if; intros _.
  - unfold jump_impl, eof_analysis. cbn [jumpdest_map length].
    destruct (Z.leb_spec (Z.of_nat 0) x); [|unfold is_u256 in Hxs; lia]. cbn [orb]. apply mok_ended; [done|by split|apply Hm].
  - apply mok_ret. pose proof (met_nonneg _ _ _ Hm).
    apply (goes_behind 0 _ _ _ _ _ _ _ Hm); [by apply (imm_of OP_JUMPI)|by rewrite E|done|by rewrite E|lia|done
      |rewrite Hh; cbn [length app snd]; lia|lia|apply Hm..].
Qed.
Lemma pc_step : o = OP_PC → jumps_on pc.
Proof.
  intros E l g s Hm. destruct (heights_of _ E ltac:(done)) as [Hh Hne]. change (heights OP_PC) with (0, 1) in Hh.
  pose proof Hm as [Hw _ _ Hr Hg _ Hs _]. rewrite Hh in Hr. cbn [snd] in Hr. apply mok_bind, mok_push; [lia|]. apply mok_ret.
  unfold gas_ok in Hg. apply (goes_behind 0 _ _ _ _ _ _ _ Hm); [by apply (imm_of OP_PC)|by rewrite E|done|by rewrite E|lia|
    |rewrite Hh; cbn [length snd]; lia|lia|apply Hm..].
  apply Forall_cons. split; [apply u64_word|done].
Qed.
Lemma rel_target : is_rel_jump code p = true → Z.of_nat p + 3 + read_rel code (S p) ∈ nexts code p ∧ (p + 2 < length code)%nat.
Proof.
  intros Hr. destruct (rel_jump_imm code p Hr) as (Hi & _ & _). pose proof behind_inside as Hb'. unfold behind in Hb'. rewrite Hi in Hb'.
  split; [|lia]. unfold nexts, targets. rewrite Hr. apply elem_of_app. right. apply list_elem_of_singleton. unfold behind. rewrite Hi. lia.
Qed.
Lemma rjump_taken l g s l' : met l g s → is_rel_jump code p = true → o ≠ OP_CALLF → Forall is_u256 l' →
  Z.of_nat (length l') = Z.of_nat (length l) + (heights o).2 → mok C (goes g) (ended g0) (rjump an pos) (mkMachine l' g s).
Proof.
  intros Hm Hr Hne Hw' Hl'. destruct (rel_target Hr) as [Hn Hin]. pose proof (met_nonneg _ _ _ Hm).
  apply mok_bind. apply (mok_int16_section _ _ (S p)); [rewrite pos_here; lia|lia|]. apply mok_ret.
  eapply goes_to; [exact Hm|done|exact Hn|lia|done|done|lia|apply Hm..].
Qed.
Lemma rjump_step : o = OP_RJUMP → jumps_on (rjump an).
Proof.
  intros E l g s Hm. destruct (heights_of _ E ltac:(done)) as [Hh Hne]. change (heights OP_RJUMP) with (0, 0) in Hh.
  eapply rjump_taken; [exact Hm|unfold is_rel_jump; by rewrite E|done|apply Hm|rewrite Hh; cbn; lia].
Qed.
Lemma rjumpi_step : o = OP_RJUMPI → jumps_on (rjumpi an).
Proof.
  intros E l g s Hm. destruct (heights_of _ E ltac:(done)) as [Hh Hne]. change (heights OP_RJUMPI) with (1, -1) in Hh.
  pose proof (met_nonneg _ _ _ Hm).
  destruct (met_split l g s 1 Hm Hne) as (xs & l' & -> & Hx & Hxs & Hl'); [by rewrite Hh|]. destruct xs as [|x [|]]; try done.
  apply mok_bind, mok_pop, mok_if; intros _.
  - eapply rjump_taken; [exact Hm|unfold is_rel_jump; by rewrite E|done|done|rewrite Hh; cbn [length app snd]; lia].
  - apply mok_ret. apply (goes_behind 2 _ _ _ _ _ _ _ Hm); [by apply (imm_of OP_RJUMPI)|by rewrite E|done|by rewrite E|lia|done
      |rewrite Hh; cbn [length app snd]; lia|lia|apply Hm..].
Qed.
Lemma rjumpv_step : o = OP_RJUMPV → jumps_on (rjumpv an).
Proof.
  intros E l g s Hm. destruct (heights_of _ E ltac:(done)) as [Hh Hne]. change (heights OP_RJUMPV) with (1, -1) in Hh.
  pose proof (met_nonneg _ _ _ Hm). assert (is_rjumpv code p = true) as Hv by (unfold is_rjumpv; by rewrite E).
  destruct good_here as (_ & Hc & Hbl). destruct (Hc Hv) as [Hlt Hcount]. pose proof (op_range code (S p)).
  assert (imm code p = S (2 * Z.to_nat (op code (S p)))) as Him by (unfold imm; by rewrite Hv).
  destruct (met_split l g s 1 Hm Hne) as (xs & l' & -> & Hx & Hxs & Hl'); [by rewrite Hh|]. destruct xs as [|x [|]]; try done.
  apply Forall_cons in Hxs as [Hxs _]. apply mok_bind, mok_pop, mok_bind.
  apply (mok_code_at_section _ _ (S p)); [rewrite pos_here; lia|lia|]. cbv zeta.
  apply mok_if; intros Hcase.
  - apply mok_ret. apply (goes_behind _ _ _ _ _ _ _ _ Hm Him); [by rewrite E|done|by rewrite E|lia|done
      |rewrite Hh; cbn [length app snd]; lia|lia|apply Hm..].
  - apply Z.leb_gt in Hcase. unfold is_u256 in Hxs. assert (wrapu 16 x = x) as -> by (unfold wrapu; apply Z.mod_small; lia).
    unfold behind in Hbl. rewrite Him in Hbl.
    apply mok_bind. apply (mok_int16_section _ _ (p + 2 + 2 * Z.to_nat x)); [rewrite pos_here; lia|lia|]. apply mok_ret.
    set (rel := read_rel code (p + 2 + 2 * Z.to_nat x)).
    apply (goes_to _ _ _ (Z.of_nat (behind code p) + rel) _ _ _ _ Hm); [done| |unfold behind; rewrite Him; lia|done
      |rewrite Hh; cbn [length app snd]; lia|lia|apply Hm..].
    unfold nexts, targets. destruct (rjumpv_imm code p Hv) as [_ ->]. rewrite Hv. apply elem_of_app. right.
    unfold table. apply list_elem_of_fmap. exists (Z.to_nat x). split; [done|]. apply elem_of_seq. lia.
Qed.

(** *** Calls, and items deep in the stack *)
Lemma callf_step : o = OP_CALLF → jumps_on (callf an).
Proof.
  intros E l g s Hm. pose proof (met_nonneg _ _ _ Hm). pose proof (callf_imm code p E) as Him. pose proof behind_inside as Hbl.
  unfold behind in Hbl. rewrite Him in Hbl.
  destruct height_here as (req & chg & He & Hreq & Hnext & _).
  assert (falls_through code p = true) as [Hn Hbi]%falls_here by (unfold falls_through; by rewrite E).
  destruct (Hnext _ Hn) as [_ Hh']. destruct (next_place _ Hn) as [Hret _]. rewrite Nat2Z.id in *.
  unfold effect in He. rewrite E, Z.eqb_refl in He. destruct (types h !! callee code p) as [t|] eqn:Et; [|done].
  cbn [mbind option_bind] in He. injection He as <- <-.
  destruct (callee_code _ _ Et) as [code' Hc']. destruct (section_place _ _ Hc') as (Ho' & Ho0' & _ & _ & Hpos').
  destruct (section_valid _ _ Hc') as (_ & _ & H' & HH'). destruct HH' as [(t' & Et' & H0') HH']. rewrite Et in Et'. injection Et' as <-.
  assert (head (code_offsets h) = Some (offset 0)) as Hhead.
  { unfold offset. destruct (code_offsets h); [done|reflexivity]. }
  unfold callf. apply mok_bind. apply (mok_uint16_section _ _ (S p)); [rewrite pos_here; lia|lia|].
  fold (callee code p). cbv zeta. cbn [eof_header eof_analysis].
  apply mok_bind, mok_get_stack. rewrite Et, Ho', Hhead. cbn [opt]. apply mok_bind, mok_ret.
  apply mok_if; intros _; [apply mok_ended; [done|by split|apply Hm]|].
  apply mok_bind, mok_get. apply mok_if; intros _; [apply mok_ended; [done|by split|apply Hm]|].
  apply mok_bind, mok_put, mok_bind, mok_ret, mok_bind, mok_ret, mok_ret. split; [|cbn; lia].
  destruct Hm as [Hw Hh Hl Hr Hg Hg0 Hs Hcs]. split; [split; [done|split; [cbn; lia|split; [cbn; lia|done]]]|].
  exists (callee code p), (b + H p - inputs t). cbn [state stack call_stack]. split.
  - change (call_stack (set_call_stack ?x s)) with x. rewrite Hcs. eapply (running_called _ _ _ _ i code H (behind code p) b t); [|done|done|lia|done].
    destruct Hret as [R1 R2 R3 R4 R5]. split; [done..|]. unfold behind. rewrite Him, pos_here. lia.
  - split; [lia|]. exists code', H', 0%nat. split; [|lia]. split; [done|split; [by exists t|done]|apply starts_0|done|lia].
Qed.
Lemma retf_step : o = OP_RETF → jumps_on retf.
Proof.
  intros E l g s Hm. destruct (heights_of _ E ltac:(done)) as [Hh Hne]. change (heights OP_RETF) with (0, 0) in Hh.
  pose proof allowed_here as Ha. unfold eof_op_allowed in Ha. rewrite E, !andb_true_iff in Ha. destruct Ha as [_ Ha].
  destruct height_here as (req & chg & He & _ & _ & Hout). rewrite effect_here, Hh in He by done. injection He as <- <-.
  destruct (Hout E) as (t & Et & Eo). pose proof (met_nonneg _ _ _ Hm). destruct Hm as [Hw Hh' Hl Hr Hg Hg0 Hs Hcs].
  unfold retf. apply mok_bind, mok_get. rewrite Hcs. destruct Hrun as [|i b z cs j code' H' q b' t' Hp' Hb' Et' Eh Hrun'].
  { by rewrite bool_decide_true, Z.eqb_refl in Ha. }
  apply mok_bind, mok_put, mok_ret. rewrite Et in Et'. injection Et' as <-. split; [|cbn; lia].
  split; [split; [done|split; [cbn; lia|split; [cbn; lia|done]]]|].
  exists j, b'. split; [done|]. split; [done|]. exists code', H', q. cbn [stack]. split; [done|lia].
Qed.
Lemma quiet_deep : is_one_of [OP_DUPN; OP_SWAPN] o = true → quiet_end EVMC_STACK_UNDERFLOW.
Proof.
  intros Hd. split; [done|]. intros E. pose proof allowed_here as Ha. unfold eof_op_allowed in Ha.
  rewrite E, Hd, !andb_true_iff in Ha. by destruct Ha as [[_ ?] _].
Qed.
Lemma dupn_step : o = OP_DUPN → jumps_on (dupn an).
Proof.
  intros E l g s Hm. destruct (heights_of _ E ltac:(done)) as [Hh Hne]. change (heights OP_DUPN) with (0, 1) in Hh.
  pose proof (met_nonneg _ _ _ Hm). assert (imm code p = 1%nat) as Him by (by apply (imm_of OP_DUPN)).
  pose proof behind_inside as Hbl. unfold behind in Hbl. rewrite Him in Hbl. pose proof (op_range code (S p)).
  pose proof (met_room _ _ _ Hm) as Hr. rewrite Hh in Hr. cbn [snd] in Hr.
  apply mok_bind, (mok_code_at_section _ _ (S p)); [rewrite pos_here; lia|lia|]. cbv zeta.
  apply mok_bind, mok_get_stack, mok_if; intros Hlt.
  { apply mok_ended; [done|apply quiet_deep; by rewrite E|apply Hm]. }
  apply Z.ltb_ge in Hlt. destruct (lookup_lt_is_Some_2 l (Z.to_nat (op code (S p) + 1 - 1))) as [x Hx]; [lia|].
  apply mok_bind. eapply mok_item; [exact Hx|]. apply mok_bind, mok_push; [lia|]. apply mok_ret.
  apply (goes_behind 1 _ _ _ _ _ _ _ Hm Him); [by rewrite E|done|by rewrite E|lia| |rewrite Hh; cbn [length snd]; lia|lia|apply Hm..].
  apply Forall_cons. split; [|apply Hm]. exact (Forall_lookup_1 _ _ _ _ (met_words _ _ _ Hm) Hx).
Qed.
Lemma swapn_step : o = OP_SWAPN → jumps_on (swapn an).
Proof.
  intros E l g s Hm. destruct (heights_of _ E ltac:(done)) as [Hh Hne]. change (heights OP_SWAPN) with (0, 0) in Hh.
  pose proof (met_nonneg _ _ _ Hm). assert (imm code p = 1%nat) as Him by (by apply (imm_of OP_SWAPN)).
  pose proof behind_inside as Hbl. unfold behind in Hbl. rewrite Him in Hbl. pose proof (op_range code (S p)).
  apply mok_bind, (mok_code_at_section _ _ (S p)); [rewrite pos_here; lia|lia|]. cbv zeta.
  apply mok_bind, mok_get_stack, mok_if; intros Hle.
  { apply mok_ended; [done|apply quiet_deep; by rewrite E|apply Hm]. }
  apply Z.leb_gt in Hle. set (N := Z.to_nat (op code (S p) + 1)). assert (1 <= N)%nat as HN by lia.
  pose proof (swap_ok C N HN l g s (met_words _ _ _ Hm) ltac:(split; [lia|apply Hm]) ltac:(rewrite Z.add_0_r; apply Hm) (met_gas _ _ _ Hm) (met_state _ _ _ Hm)) as Hsw.
  apply mok_bind. eapply prog_ok_mono; [|exact (mok_all _ _ _ _ _ _ Hsw (steady_swap (call_stack s) N (mkMachine l g s) eq_refl))].
  intros [u [l' g' s']|st m]; intros [Ha Hc].
  - destruct Ha as (A1 & A2 & A3 & A4). apply mok_ret. cbn in Hc.
    apply (goes_behind 1 _ _ _ _ _ _ _ Hm Him); [by rewrite E|done|by rewrite E|lia|done|rewrite Hh; done|done..|]. rewrite Hc. apply Hm.
  - split; [eapply stopped_mono; [|done]; apply Hm|by apply quiet_ended].
Qed.
(** Every instruction that jumps. *)
Lemma jump_impl_step c : impl msg rev container an o = Some (IJump c) → jumps_on c.
Proof.
  intros Hi. destruct (impl_kind _ _ _ _ _ _ Hi) as [(Ho & [= ->])|Hk]; [by apply push_step|].
  unfold kind_ok in Hk. cbn [fst snd] in Hk. unfold jump_impls in Hk. rewrite !elem_of_cons, elem_of_nil in Hk.
  destruct_or! Hk; try done; injection Hk as E ->.
  - by apply jump_step.
  - by apply jumpi_step.
  - by apply pc_step.
  - by apply rjump_step.
  - by apply rjumpi_step.
  - by apply rjumpv_step.
  - by apply callf_step.
  - by apply retf_step.
  - by apply dupn_step.
  - by apply swapn_step.
Qed.
End step.

(** ** The loop *)
Definition eof_advances (g0 pos : Z) (m : Machine) (pos' : Z) (m' : Machine) : Prop :=
  runs_at g0 pos' m' ∧ eof_measure pos' m' < eof_measure pos m.
(** Only instructions that go on to the next position are free. *)
Lemma jump_impl_cost op c : 0 <= op < 256 → impl msg rev container an op = Some (IJump c) → 1 <= cost_of op.
Proof.
  intros Hop Hi. assert (between op OP_PUSH1 OP_PUSH32 || is_one_of (jump_impls an).*1 op = true) as Hj.
  { destruct (impl_kind _ _ _ _ _ _ Hi) as [(Ho & _)|Hk]; [by rewrite (proj2 (between_spec _ _ _) Ho)|].
    apply orb_true_iff. right. apply existsb_exists. exists op. split; [|apply Z.eqb_refl]. apply list_elem_of_In.
    apply list_elem_of_fmap. exists (op, c). by split. }
  apply Z.leb_le. apply (all_ops_imp (λ op, between op OP_PUSH1 OP_PUSH32 || is_one_of (jump_impls an).*1 op) (λ op, 1 <=? cost_of op)); [|done..].
  vm_compute. reflexivity.
Qed.
Lemma eof_turn g0 pos m : runs_at g0 pos m → g0 <= int64_max →
  mok C (eof_advances g0 pos m) (ended g0) (turn msg rev container an legacy_costs pos) m.
Proof.
  intros Hat Hg0. pose proof (runs_range _ _ _ Hat) as Hpos. destruct m as [l g s]. destruct Hat as [(Hw & Hlim & Hg & Hs) (i & b & Hrun & Hb & code & H & p & Hpl & Hh)].
  cbn [stack mgas state] in *. pose proof (op_range code p) as Hop. pose proof (cost_here _ _ _ _ _ Hpl) as Hcost.
  destruct (impl_exists msg rev container an (op code p) Hop Hcost) as [ins Hi].
  unfold turn. apply mok_bind. eapply mok_code_at_section; [exact Hpl|apply Hpl|apply Hpl|]. rewrite Hi.
  assert ((heights (op code p)).1 <= Z.of_nat (length l)) as Hreq.
  { destruct (decide (op code p = OP_CALLF)) as [E|E]; [rewrite E; change (0 <= Z.of_nat (length l)); lia|].
    pose proof (required_here _ _ _ _ _ Hpl E). lia. }
  unfold invoke. apply mok_bind. eapply mok_mono; [|apply mok_check_eof; [done|done|done|unfold gas_ok; lia|done|done]].
  intros _ m (-> & Hc & Hroom).
  assert (met g0 code H p b (call_stack s) l (g - cost_of (op code p)) s) as Hmet by (split; first [done|lia|unfold gas_ok; lia]).
  assert (∀ pos' m', goes g0 (g - cost_of (op code p)) pos' m' → 1 <= cost_of (op code p) ∨ pos' = pos + 1 →
    eof_advances g0 pos (mkMachine l g s) pos' m') as Hadv.
  { intros pos' m' [Hr Hle] Hor. split; [done|]. pose proof (runs_range _ _ _ Hr). unfold eof_measure. cbn [mgas]. nia. }
  destruct ins as [c|c].
  - apply mok_bind. eapply mok_mono; [|by eapply plain_step]. intros u m' Hm'. apply mok_ret, Hadv; [done|by right].
  - pose proof (jump_impl_cost _ c Hop Hi). eapply mok_mono; [|by eapply jump_impl_step]. intros pos' m' Hm'. apply Hadv; [done|by left].
Qed.
Lemma eof_iterate n : ∀ g0 pos m, runs_at g0 pos m → g0 <= int64_max →
  mok C (λ pos' m', runs_at g0 pos' m' ∧ eof_measure pos' m' + Z.pos n <= eof_measure pos m) (ended g0)
    (iterate msg rev container an legacy_costs n pos) m.
Proof.
  induction n as [n IH|n IH|]; intros g0 p m Hm Hg0; cbn [iterate].
  - apply mok_bind. eapply mok_mono; [|by apply eof_turn]. intros p1 m1 (Hm1 & Hd1).
    apply mok_bind. eapply mok_mono; [|by apply IH]. intros p2 m2 (Hm2 & Hd2).
    eapply mok_mono; [|by apply IH]. intros p3 m3 (Hm3 & Hd3). split; [done|lia].
  - apply mok_bind. eapply mok_mono; [|by apply IH]. intros p2 m2 (Hm2 & Hd2).
    eapply mok_mono; [|by apply IH]. intros p3 m3 (Hm3 & Hd3). split; [done|lia].
  - eapply mok_mono; [|by apply eof_turn]. intros p1 m1 (Hm1 & Hd1). split; [done|lia].
Qed.

(** ** The run *)
Lemma finish_status status m : prog_all (λ r, status_code r = status) (finish status m).
Proof. unfold finish. cbv zeta. repeat case_match; done. Qed.
Lemma finish_quiet status m : ended (gas msg) status m →
  prog_ok C (λ r, honest msg r ∧ quiet_end (status_code r)) (finish status m).
Proof.
  intros [Hst Hq]. eapply prog_ok_mono; [|exact (prog_ok_all _ _ _ _ (finish_ok copy calls msg container Hmsg status m Hst) (finish_status status m))].
  by intros r [? ->].
Qed.
Context (Hversion : version h = 1) (Han : analyze rev container = Some an).
Lemma evmweak_container : prog_ok C (λ r, honest msg r ∧ quiet_end (status_code r)) (evmweak msg container).
Proof.
  pose proof Hmsg as (_ & [Hgas Hgas'] & _). unfold evmweak, execute. rewrite Han. cbv zeta. cbn [eof_header eof_analysis].
  rewrite Hversion, eof_costs.
  eapply prog_ok_bind; [apply (eof_iterate (enough_fuel an) (gas msg) 0); [by apply runs_first|done]|].
  intros [p m|status m]; [|apply finish_quiet].
  intros [Hat Hd]. exfalso. pose proof (runs_range _ _ _ Hat). destruct Hat as [(_ & _ & Hg & _) _].
  unfold eof_measure, enough_fuel in Hd. cbn [code_mem eof_analysis mgas] in Hd. pose proof (runs_range _ _ _ (runs_first (gas msg) Hgas)).
  assert ((gas msg + 1) * (Z.of_nat (length container) + 1) <= (int64_max + 1) * (Z.of_nat (length container) + 1)) by (apply Z.mul_le_mono_nonneg_r; lia).
  change (int64_max + 1) with (2 ^ 63) in *. rewrite Z2Pos.id in Hd by lia. nia.
Qed.
End run.

Lemma analyze_container container h : describes container h → is_eof_container container = true →
  ∃ size, analyze EVMC_MAX_REVISION container = Some (eof_analysis container h size).
Proof.
  intros Hd He. unfold analyze. rewrite He. cbn [negb orb]. change (EVMC_MAX_REVISION <? EVMC_CANCUN) with false. cbn [orb].
  unfold analyze_eof1. rewrite (read_header_lem _ _ Hd). cbn [mbind option_bind]. pose proof Hd as ([_ _ _ _ _ _ _ _ _ _ [Hn _]] & _ & _ & Ho).
  pose proof (length_offsets _ _ _ Ho) as Hlo.
  destruct (lookup_lt_is_Some_2 (code_sizes h) 0) as [c Hc]; [lia|].
  destruct (get_code_spec container h 0 c Hd Hc) as (o & code & Ho0 & _ & _ & _ & _ & Hle & _ & Hpos).
  assert (offset h 0 = o) as E0 by (unfold offset; by rewrite Ho0).
  destruct (code_offsets h) as [|o0 os] eqn:E; [cbn in Hlo; lia|]. cbn [head mbind option_bind].
  assert (∃ x, last (o0 :: os) = Some x) as [x ->].
  { destruct (last (o0 :: os)) eqn:El; [by eexists|]. apply last_None in El. done. }
  assert (∃ y, last (code_sizes h) = Some y) as [y ->].
  { destruct (last (code_sizes h)) eqn:El; [by eexists|]. apply last_None in El. rewrite El in Hn. cbn in Hn. lia. }
  cbn [mbind option_bind]. injection Ho0 as ->. destruct (Z.ltb_spec (Z.of_nat (length container)) o) as [Hlt|_].
  - exfalso. destruct Hd as ([_ _ _ _ _ _ _ _ _ _ [_ Hd]] & _). lia.
  - eexists. unfold eof_analysis. rewrite E0. reflexivity.
Qed.

(** ** Containers that can be run *)

(** The opcodes of a code, from the instruction at [p] on. *)
Fixpoint opcodes_from (n : nat) (code : bytes) (p : nat) : list Z :=
  match n with
  | O => []
  | S n => if (length code <=? p)%nat then [] else op code p :: opcodes_from n code (behind code p)
  end.
Definition opcodes (code : bytes) : list Z := opcodes_from (length code) code 0.
Lemma opcodes_lem code p : starts code p → (p < length code)%nat → op code p ∈ opcodes code.
Proof.
  assert (∀ n q, rtc (falls code) q p → (p < length code)%nat → (length code <= q + n)%nat → op code p ∈ opcodes_from n code q) as H.
  { induction n as [|n IH]; intros q Hq Hl Hn; [apply falls_le in Hq; lia|]. cbn [opcodes_from].
    pose proof (falls_le _ _ _ Hq). destruct (Nat.leb_spec (length code) q); [lia|].
    apply rtc_inv in Hq as [->|(q' & [_ ->] & Hq)]; [by left|]. right. apply IH; [done|done|]. unfold behind. lia. }
  intros Hs Hl. by apply H.
Qed.
(** What the interpreter needs and the validation does not check: no RETF in
    the first section, and at least two bytes of data, as a push of five or six
    bytes reads eight; and what the flags exclude. *)
Definition runnable (copy calls deep : bool) (container : bytes) (h : EOF1Header) : bool :=
  (2 <=? data_size h)
  && forallb (λ i, match get_code container h i with
                   | Some code => forallb (eof_op_allowed copy calls deep i) (opcodes code) | None => true end)
       (seq 0 (length (code_sizes h))).
Lemma runnable_ops copy calls deep container h i code p : runnable copy calls deep container h = true →
  get_code container h i = Some code → starts code p → (p < length code)%nat → eof_op_allowed copy calls deep i (op code p) = true.
Proof.
  unfold runnable. rewrite !andb_true_iff, forallb_forall. intros [_ H] Hc Hs Hl. destruct (section_size container h i code Hc) as [c Hsz%lookup_lt_Some].
  specialize (H i). rewrite Hc, forallb_forall in H. apply H; [|by apply list_elem_of_In, opcodes_lem].
  apply list_elem_of_In, elem_of_seq. lia.
Qed.
Lemma version_one container h : get_eof_version container = 1 → describes container h → version h = 1.
Proof.
  intros Hv (_ & H2 & _). unfold get_eof_version in Hv. destruct (_ <=? _); [|done].
  destruct container as [|x [|y [|z l]]]; try done. cbn in H2. injection H2 as <-. by repeat case_bool_decide.
Qed.

(** C17: What is validated runs.  A container that [validate_eof] accepts, which
    ends in two bytes of data and has no RETF in its first section, is run by the
    interpreter without any further check.  For every well-formed message and
    every host within the contract - answers of the right sizes, calls that give
    back at most the gas they got and refund nothing - only requests within the contract are made,
    nothing undefined happens - no read outside the container, no access below
    the stack of values or of calls -, and the run ends within its fuel with an
    honest result, never for an undefined instruction.  Nor does it end for a
    stack underflow if there is no DUPN and SWAPN, which look at the height
    themselves and may ([dupn_underflow]).  Without the flags [copy] and [calls]
    there is no EXTCODECOPY, no call and no creation in the code, and none is
    asked for. *)
Theorem validated_container_runs copy calls deep msg container h :
  msg_ok msg → validate_eof EVMC_MAX_REVISION container = Some success → read_valid_eof1_header container = Some h →
  runnable copy calls deep container h = true →
  prog_ok (vm_contract (copy = true) (calls = true) (depth msg))
    (λ r, honest msg r ∧ status_code r ≠ EVMC_UNDEFINED_INSTRUCTION ∧ (deep = false → status_code r ≠ EVMC_STACK_UNDERFLOW))
    (evmweak msg container).
Proof.
  intros Hmsg (He & Hv & _ & h' & Hvalid)%validated_container Hh Hrun. pose proof Hvalid as [Hd _].
  rewrite (read_header_lem _ _ Hd) in Hh. injection Hh as ->. destruct (analyze_container _ _ Hd He) as [size Ha].
  pose proof Hrun as Hb. unfold runnable in Hb. rewrite andb_true_iff, Z.leb_le in Hb. destruct Hb as [Hdata _]. pose proof (describes_size _ _ Hd) as Hsz.
  eapply evmweak_container; [done|done|done|done| |by eapply version_one|exact Ha].
  intros i code p. by apply runnable_ops.
Qed.

(** ** Examples *)
Definition make_container (types : list (Z * Z * Z)) (codes : list bytes) (data : bytes) : bytes :=
  [xef; x00; x01; x01] ++ be_store 2 (4 * Z.of_nat (length types)) ++ [x02] ++ be_store 2 (Z.of_nat (length codes))
  ++ concat ((λ c, be_store 2 (Z.of_nat (length c))) <$> codes) ++ [x03] ++ be_store 2 (Z.of_nat (length data)) ++ [x00]
  ++ concat ((λ '(i, o, m), be_store 1 i ++ be_store 1 o ++ be_store 2 m) <$> types) ++ concat codes ++ data.
Definition accepted (container : bytes) : bool :=
  match validate_eof EVMC_PRAGUE container with Some success => true | _ => false end.
Definition ends_with (p : VmProg Result) : option Z := match p with VmDone r => Some (status_code r) | _ => None end.
(** [PUSH1 3 PUSH1 4 CALLF 1 PUSH0 MSTORE PUSH1 32 PUSH0 RETURN], and a function
    [ADD RETF] of two items. *)
Definition calling_container : bytes :=
  make_container [(0, 0, 2); (2, 1, 2)]
    [[x60; x03; x60; x04; xb0; x00; x01; x5f; x52; x60; x20; x5f; xf3]; [x01; xb1]] [x00; x00].
Definition calling_header : EOF1Header := default EOF1Header_default (read_valid_eof1_header calling_container).
Example calling_runs : evmweak sum_message calling_container = VmDone (evmc_make_result EVMC_SUCCESS 99970 0 (be_store 32 7)).
Proof. vm_compute. reflexivity. Qed.
Lemma calling_facts : validate_eof EVMC_MAX_REVISION calling_container = Some success
  ∧ read_valid_eof1_header calling_container = Some calling_header ∧ runnable false false false calling_container calling_header = true.
Proof. vm_compute. done. Qed.
Lemma validated_container_runs_witness :
  prog_ok (vm_contract (false = true) (false = true) 0)
    (λ r, honest sum_message r ∧ status_code r ≠ EVMC_UNDEFINED_INSTRUCTION ∧ (false = false → status_code r ≠ EVMC_STACK_UNDERFLOW))
    (evmweak sum_message calling_container).
Proof. apply (validated_container_runs false false false sum_message calling_container calling_header); [apply sum_message_ok|apply calling_facts..]. Defined.

(** The conditions are needed.  A first section that only returns is valid. *)
Lemma first_section_retf_undefined :
  let c := make_container [(0, 0, 0)] [[xb1]] [x00; x00] in
  accepted c = true ∧ evmweak sum_message c = VmUB "call_stack.back()".
Proof. vm_compute. done. Qed.
(** So is a push of five bytes before a last STOP, of which eight are read. *)
Lemma short_data_undefined :
  let c := make_container [(0, 0, 1)] [[x64; x01; x02; x03; x04; x05; x00]] in
  accepted (c [x00]) = true ∧ evmweak sum_message (c [x00]) = VmUB "code"
  ∧ ∃ r, evmweak sum_message (c [x00; x00]) = VmDone r.
Proof. vm_compute. split; [done|]. split; [done|]. by eexists. Qed.
(** The table of EOF instructions still has those that were meant to be removed
    with it, but for Cancun. *)
Lemma eof_keeps_dynamic_jumps :
  (λ op, (cost_at (get_baseline_cost_table EVMC_CANCUN 1) op, cost_at (get_baseline_cost_table EVMC_PRAGUE 1) op))
    <$> [OP_JUMP; OP_JUMPI; OP_PC; OP_CALLCODE; OP_SELFDESTRUCT]
  = [(-1, 8); (-1, 10); (-1, 2); (-1, 100); (-1, 5000)]
  ∧ let c := make_container [(0, 0, 1)] [[x5f; x56; x00]] [x00; x00] in
    validate_eof EVMC_CANCUN c = Some undefined_instruction ∧ accepted c = true
    ∧ ends_with (evmweak sum_message c) = Some EVMC_BAD_JUMP_DESTINATION.
Proof. vm_compute. done. Qed.
(** DUPN is not checked against the height of the stack. *)
Lemma dupn_underflow :
  let c := make_container [(0, 0, 1)] [[xb5; x07; x00]] [x00; x00] in
  accepted c = true ∧ ends_with (evmweak sum_message c) = Some EVMC_STACK_UNDERFLOW.
Proof. vm_compute. done. Qed.
