(* ===== verification/EvmHost.v ===== *)
(** * The EVM executor

    include/evmExecutor.hpp: the host [WeakEvmHost] that a virtual machine
    talks to, the executor of messages [EvmweakMsgExecutor] (create and call
    contracts, recursively), and [EvmExecutor], which turns a transaction into
    a message and the host into a journal.

    The virtual machine is an argument here: from a message and a code it
    computes a tree of requests to the host ([VmProg] of Evmc), with a result at
    each leaf.  The program's is [evmweak] (EvmBaseline); EvmTx puts them
    together.  The code that a message runs is a value; in the program it is a
    view into the account, which a creation at the same address - the zero
    address, after a selfdestruct there - would replace while it runs. *)
From Stdlib Require Import ZArith Strings.Byte Strings.String Strings.Ascii Lia.
From stdpp Require Import base tactics strings gmap option numbers list sorting.
From S2P Require Import Prelude Text Hex Keccak Core Codec CoreJson PostExec Storage Exec Consensus Evmc.

Local Open Scope Z_scope.

(** ** The host *)
Record WeakEvmHost := mkHost {
  accounts : gmap bytes Acn;
  deadAcn : gset bytes;
  create_nonce : Z      (* the static variable of handleCreate *)
}.
Definition set_accounts (v : gmap bytes Acn) (h : WeakEvmHost) : WeakEvmHost :=
  mkHost v (deadAcn h) (create_nonce h).
Abbreviation host := (stM WeakEvmHost).

Section host.
(** [readOnlyWorldState->getAcn]. *)
Context (getAcn : bytes → outcome (option Acn)).

Definition tryAddAcnFromWorldState (a : bytes) (fatal : bool) : host bool :=
  v ← lift (getAcn a);
  match v with
  | Some acn => modify (λ h, set_accounts (<[a := acn]> (accounts h)) h) ≫= λ _, mret true
  | None => if fatal then lift (UB "exit(1)") else mret false
  end.

Definition account_exists (a : bytes) : host bool :=
  dead ← gets deadAcn; acns ← gets accounts;
  if bool_decide (a ∈ dead) then mret false
  else
    match acns !! a with
    | Some _ => mret true
    | None => v ← lift (getAcn a); mret (bool_decide (is_Some v))
    end.

Definition stored (acn : Acn) (key : bytes) : bytes := default zero32 (acn_storage acn !! key).
Definition get_storage (a key : bytes) : host bytes :=
  noexceptM (
    e ← account_exists a;
    if negb e then mret zero32
    else
      acns ← gets accounts;
      match acns !! a with
      | None => v ← lift (getAcn a); acn ← lift (value v); mret (stored acn key)
      | Some acn => mret (stored acn key)
      end).

Definition with_storage (acn : Acn) (key v : bytes) : Acn :=
  mkAcn (acn_nonce acn) (acn_code acn) (<[key := v]> (acn_storage acn)) (acn_disk_storage acn).
Definition set_storage (a key v : bytes) : host evmc_storage_status :=
  acns ← gets accounts;
  (match acns !! a with
   | None => tryAddAcnFromWorldState a false ≫= λ _, mret tt
   | Some _ => mret tt
   end) ≫= λ _,
  modify (λ h, set_accounts (<[a := with_storage (default Acn_default (accounts h !! a)) key v]> (accounts h)) h)
  ≫= λ _,
  mret (if is_zero32 v then EVMC_STORAGE_DELETED else EVMC_STORAGE_MODIFIED).

Definition get_balance (a : bytes) : host bytes := mret zero32.

(** [accounts.at(a)] throws when the account is only in the world. *)
Definition copy_code (a : bytes) (code_offset buffer_size : Z) : host bytes :=
  noexceptM (
    e ← account_exists a;
    if negb e then mret []
    else
      acns ← gets accounts;
      match acns !! a with
      | None => lift (Throw (out_of_range "unordered_map::at"))
      | Some acn =>
          let size := Z.of_nat (length (acn_code acn)) in
          if size <=? code_offset then mret []
          else mret (take (Z.to_nat (Z.min buffer_size (size - code_offset)))
                       (drop (Z.to_nat code_offset) (acn_code acn)))
      end).

Definition selfdestruct (addr beneficiary : bytes) : host bool :=
  modify (λ h, mkHost (accounts h) ({[addr]} ∪ deadAcn h) (create_nonce h)) ≫= λ _, mret true.

Definition get_code_size (a : bytes) : host Z :=
  acns ← gets accounts;
  mret (match acns !! a with None => 0 | Some acn => u64 (Z.of_nat (length (acn_code acn))) end).
Definition get_code_hash (a : bytes) : host bytes :=
  acns ← gets accounts;
  mret (match acns !! a with None => zero32 | Some acn => codehash acn end).
Definition get_block_hash (n : Z) : host bytes := mret zero32.
Definition get_tx_context : host evmc_tx_context := mret (mkTxContext zero32 zero20 zero20 0 0 0 zero32 zero32 zero32).
Definition access_account (a : bytes) : host evmc_access_status := mret EVMC_ACCESS_COLD.
Definition access_storage (a key : bytes) : host evmc_access_status := mret EVMC_ACCESS_COLD.

(** [vm.execute]: the requests of the machine, answered in order. *)
Section run.
Context (call : evmc_message → host Result).
Fixpoint run_prog {A} (p : VmProg A) : host A :=
  match p with
  | VmDone a => mret a
  | VmUB why => lift (UB why)
  | VmAccountExists a k => b ← account_exists a; run_prog (k b)
  | VmGetStorage a key k => v ← get_storage a key; run_prog (k v)
  | VmSetStorage a key v k => s ← set_storage a key v; run_prog (k s)
  | VmGetBalance a k => v ← get_balance a; run_prog (k v)
  | VmGetCodeSize a k => v ← get_code_size a; run_prog (k v)
  | VmGetCodeHash a k => v ← get_code_hash a; run_prog (k v)
  | VmCopyCode a o n k => v ← copy_code a o n; run_prog (k v)
  | VmSelfdestruct a b k => v ← selfdestruct a b; run_prog (k v)
  | VmCall msg k => r ← call msg; run_prog (k r)
  | VmGetBlockHash n k => v ← get_block_hash n; run_prog (k v)
  | VmGetTxContext k => c ← get_tx_context; run_prog (k c)
  | VmEmitLog _ _ _ k => run_prog k
  | VmAccessAccount a k => s ← access_account a; run_prog (k s)
  | VmAccessStorage a key k => s ← access_storage a key; run_prog (k s)
  end.
End run.

(** ** [EvmweakMsgExecutor] *)
Section executor.
(** The virtual machine, on a message and a code. *)
Context (vm : evmc_message → bytes → VmProg Result).

Definition failure : Result := mkResult EVMC_FAILURE int64_max 0 [] zero20.
Definition handleCreate (call : evmc_message → host Result) (msg : evmc_message) : host Result :=
  e ← account_exists (recipient msg);
  if (e : bool) then mret failure
  else
    r ← run_prog call (vm msg (input_data msg));
    if negb (status_code r =? EVMC_SUCCESS) then mret r
    else
      modify (λ h, mkHost (<[recipient msg := mkAcn (create_nonce h) (output r) ∅ []]> (accounts h))
                     (deadAcn h) (u64 (create_nonce h + 1))) ≫= λ _,
      mret r.
Definition handleCall (call : evmc_message → host Result) (msg : evmc_message) : host Result :=
  let a := code_address msg in
  e ← account_exists a;
  if negb e then mret failure
  else
    acns ← gets accounts;
    (match acns !! a with
     | None => tryAddAcnFromWorldState a true ≫= λ _, mret tt
     | Some _ => mret tt
     end) ≫= λ _,
    acns ← gets accounts;
    match acns !! a with
    | None => lift (Throw (out_of_range "unordered_map::at"))
    | Some acn => run_prog call (vm msg (acn_code acn))
    end.

(** [execMsg] and [WeakEvmHost::call], which call each other; [fuel] bounds the nesting. *)
Fixpoint execMsg (fuel : nat) (msg : evmc_message) : host Result :=
  match fuel with
  | O => lift (UB "stack overflow")
  | S fuel => noexceptM (if is_create (kind msg) then handleCreate (execMsg fuel) msg
                         else handleCall (execMsg fuel) msg)
  end.

(** ** [EvmExecutor] *)
Definition txToEvmcMsg (t : Tx) : evmc_message :=
  let a := if is_zero_address (tx_to t) then getContractDeployAddress t else tx_to t in
  mkMsg (if is_zero_address (tx_to t) then EVMC_CREATE else EVMC_CALL) 0 0 int64_max a (tx_from t)
    (tx_data t) zero32 zero32 a.

Section journal.
Context `{WireFormats}.
(** The order of an [unordered_map] is not specified; here the order of [map_to_list]. *)
Definition getStateChanges (h : WeakEvmHost) : list StateChange :=
  omap (λ '(addr, acn), if bool_decide (addr ∈ deadAcn h) then None
                        else Some (mkStateChange false (addressToString addr) (Acn_toString acn)))
    (map_to_list (accounts h))
  ++ ((λ a, mkStateChange true (addressToString a) "") <$> elements (deadAcn h)).

(** [executeTx], and the static variable after it. *)
Definition executeTx (fuel : nat) (nonce : Z) (t : Tx) : outcome (option (list StateChange * bytes) * Z) :=
  match execMsg fuel (txToEvmcMsg t) (mkHost ∅ ∅ nonce) with
  | (h, Ret r) =>
      Ret (if negb (status_code r =? EVMC_SUCCESS) then None
           else Some (getStateChanges h, output r), create_nonce h)
  | (_, Throw _) => UB "std::terminate"
  | (_, UB y) => UB y
  end.
End journal.
End executor.
End host.

(** ** Lemmas *)

(** Accounts that survive being stored. *)
Definition Acn_ok (acn : Acn) : Prop := Acn_wf acn ∧ Forall (λ s, utf8 s = true) (acn_disk_storage acn).
Definition host_ok (h : WeakEvmHost) : Prop :=
  map_Forall (λ _ acn, Acn_ok acn) (accounts h) ∧ is_u64 (create_nonce h).
(** A world that answers, with such accounts. *)
Definition world_ok (getAcn : bytes → outcome (option Acn)) : Prop :=
  ∀ a, ∃ o, getAcn a = Ret o ∧ ∀ acn, o = Some acn → Acn_ok acn.

(** What a well-behaved machine keeps to: calls one deeper and at most 1024
    deep, no EXTCODECOPY ([copy_code] may end the process), nothing undefined.
    [evmweak] keeps to it for some code only, and EvmTx does not use [vm_ok]. *)
Definition host_contract (d : Z) : Contract := {|
  may_copy := False;
  may_call msg := depth msg = d + 1 ∧ d + 1 <= 1024;
  call_promise _ _ := True
|}.
Definition vm_ok (vm : evmc_message → bytes → VmProg Result) : Prop :=
  ∀ msg code, prog_ok (host_contract (depth msg)) (λ _, True) (vm msg code).

(** [m] ends in a good host, with a value in [Q]. *)
Definition sound_at {A} (Q : A → Prop) (m : host A) : Prop :=
  ∀ h, host_ok h → ∃ h' a, m h = (h', Ret a) ∧ host_ok h' ∧ Q a.
Abbreviation sound := (sound_at (λ _, True)).
Lemma sound_ret {A} (Q : A → Prop) (a : A) : Q a → sound_at Q (mret a).
Proof. intros HQ h Hh. by exists h, a. Qed.
Lemma sound_gets {A} (f : WeakEvmHost → A) : sound (gets f).
Proof. intros h Hh. by exists h, (f h). Qed.
Lemma sound_bind {A B} (Q : A → Prop) (R : B → Prop) (m : host A) (k : A → host B) :
  sound_at Q m → (∀ a, Q a → sound_at R (k a)) → sound_at R (m ≫= k).
Proof.
  intros Hm Hk h Hh. destruct (Hm h Hh) as (h1 & a & E1 & H1 & Ha). unfold mbind, stM_bind. rewrite E1. by apply Hk.
Qed.
Lemma sound_noexcept {A} (Q : A → Prop) (m : host A) : sound_at Q m → sound_at Q (noexceptM m).
Proof. intros Hm h Hh. destruct (Hm h Hh) as (h1 & a & E1 & H1 & Ha). unfold noexceptM. rewrite E1. by exists h1, a. Qed.
Lemma sound_modify f : (∀ h, host_ok h → host_ok (f h)) → sound (modify f).
Proof. intros Hf h Hh. exists (f h), tt. split; [done|]. split; [by apply Hf|done]. Qed.

Lemma Acn_default_ok : Acn_ok Acn_default.
Proof. split; [|constructor]. split; [done|]. apply map_Forall_empty. Qed.
Lemma host_ok_insert a acn h : host_ok h → Acn_ok acn → host_ok (set_accounts (<[a := acn]> (accounts h)) h).
Proof. intros [Ha Hn] Hacn. split; [|done]. by apply map_Forall_insert_2. Qed.

Section sound.
Context (g : bytes → outcome (option Acn)) (Hg : world_ok g).

Lemma account_exists_eq a h :
  ∃ o, g a = Ret o ∧ account_exists g a h
    = (h, Ret (negb (bool_decide (a ∈ deadAcn h)) && (bool_decide (is_Some (accounts h !! a) ∨ is_Some o)))).
Proof.
  destruct (Hg a) as (o & Eo & _). exists o. split; [done|]. unfold account_exists, gets, mbind, stM_bind.
  destruct (bool_decide (a ∈ deadAcn h)); [done|]. cbn [negb andb]. destruct (accounts h !! a) eqn:Ea.
  - rewrite bool_decide_true; [done|]. left. by eexists.
  - unfold lift. rewrite Eo. unfold mret, stM_ret. f_equal. f_equal. apply bool_decide_ext.
    split; [by right|]. by intros [[? [=]]|].
Qed.
Lemma sound_exists a : sound (account_exists g a).
Proof. intros h Hh. destruct (account_exists_eq a h) as (o & _ & ->). eauto. Qed.
Lemma sound_tryAdd a : sound (tryAddAcnFromWorldState g a false).
Proof.
  intros h Hh. destruct (Hg a) as (o & Eo & Ho). unfold tryAddAcnFromWorldState, lift, mbind, stM_bind.
  rewrite Eo. destruct o as [acn|]; cbn; eauto. eexists _, _. split; [done|]. split; [|done].
  apply host_ok_insert; [done|]. by apply Ho.
Qed.
Lemma stored_word acn key : Acn_ok acn → length (stored acn key) = 32%nat.
Proof.
  intros [[_ Hs] _]. unfold stored. destruct (acn_storage acn !! key) as [v|] eqn:E; [|done]. by apply (Hs key v).
Qed.
Lemma sound_get a key : sound_at (λ v, length v = 32%nat) (get_storage g a key).
Proof.
  apply sound_noexcept. intros h Hh. destruct (account_exists_eq a h) as (o & Eo & Ee).
  unfold mbind at 1, stM_bind at 1. rewrite Ee. destruct (negb _ && _) eqn:Eb; cbn; [|by eexists _, _].
  apply andb_true_iff in Eb as [_ Eb%bool_decide_eq_true]. unfold mbind, stM_bind, gets.
  destruct (accounts h !! a) as [acn|] eqn:Ea; cbn.
  { eexists _, _. split; [done|]. split; [done|]. apply stored_word. by apply (proj1 Hh a). }
  destruct (Hg a) as (o' & Eo' & Ho'). unfold lift. rewrite Eo.
  destruct Eb as [[? [=]]|[acn ->]]. cbn. eexists _, _. split; [done|]. split; [done|].
  apply stored_word, Ho'. congruence.
Qed.
Lemma sound_set a key v : length key = 32%nat → length v = 32%nat → sound (set_storage g a key v).
Proof.
  intros Hk Hv. eapply sound_bind; [apply sound_gets|]. intros acns _. eapply (sound_bind (λ _, True)).
  { destruct (acns !! a); [by apply sound_ret|]. eapply sound_bind; [apply sound_tryAdd|].
    intros _ _. by apply sound_ret. }
  intros _ _. eapply sound_bind; [|intros _ _; by apply sound_ret]. apply sound_modify. intros h Hh.
  apply host_ok_insert; [done|].
  assert (Acn_ok (default Acn_default (accounts h !! a))) as [[Hn Hs] Hd].
  { destruct (accounts h !! a) as [acn|] eqn:Ea; [|apply Acn_default_ok]. by apply (proj1 Hh a). }
  split; [|done]. split; [done|]. cbn. by apply map_Forall_insert_2.
Qed.
Lemma sound_selfdestruct a b : sound (selfdestruct a b).
Proof. eapply sound_bind; [|intros; by apply sound_ret]. by apply sound_modify. Qed.
Lemma sound_code_size a : sound_at is_u64 (get_code_size a).
Proof.
  eapply sound_bind; [apply sound_gets|]. intros acns _. apply sound_ret.
  destruct (acns !! a); [apply u64_range|done].
Qed.
Lemma sound_code_hash a : sound_at (λ v, length v = 32%nat) (get_code_hash a).
Proof.
  eapply sound_bind; [apply sound_gets|]. intros acns _. apply sound_ret.
  destruct (acns !! a); [apply length_keccak256|done].
Qed.

(** A program that keeps a contract, run with [call]s that keep it too. *)
Lemma sound_run {A} C (Q : A → Prop) call p :
  (may_copy C → False) → (∀ msg, may_call C msg → sound_at (call_promise C msg) (call msg)) →
  prog_ok C Q p → sound_at Q (run_prog g call p).
Proof.
  intros Hcopy Hcall. induction p; cbn [prog_ok run_prog]; intros Hp.
  - by apply sound_ret.
  - done.
  - eapply sound_bind; [apply sound_exists|auto].
  - destruct Hp. eapply sound_bind; [apply sound_get|auto].
  - destruct Hp as (? & ? & ?). eapply sound_bind; [by apply sound_set|auto].
  - eapply sound_bind; [by apply (sound_ret (λ v, length v = 32%nat))|auto].
  - eapply sound_bind; [apply sound_code_size|auto].
  - eapply sound_bind; [apply sound_code_hash|auto].
  - by destruct Hp.
  - eapply sound_bind; [apply sound_selfdestruct|auto].
  - destruct Hp. eapply sound_bind; [by apply Hcall|auto].
  - eapply sound_bind; [by apply (sound_ret tx_context_ok)|auto].
  - eapply sound_bind; [by apply (sound_ret (λ v, length v = 32%nat))|auto].
  - auto.
  - eapply sound_bind; [by apply (sound_ret (λ _, True))|auto].
  - eapply sound_bind; [by apply (sound_ret (λ _, True))|auto].
Qed.

Section messages.
Context (vm : evmc_message → bytes → VmProg Result).

Lemma sound_create C (Q : Result → Prop) call msg :
  (may_copy C → False) → (∀ m, may_call C m → sound_at (call_promise C m) (call m)) →
  prog_ok C Q (vm msg (input_data msg)) → Q failure → sound_at Q (handleCreate g vm call msg).
Proof.
  intros Hcopy Hcall Hvm Hf. eapply sound_bind; [apply sound_exists|]. intros [|] _; [by apply sound_ret|].
  eapply sound_bind; [by eapply sound_run|]. intros r Hr. destruct (negb _); [by apply sound_ret|].
  eapply sound_bind; [|intros _ _; by apply sound_ret]. apply sound_modify. intros h [Ha Hn]. split.
  - apply map_Forall_insert_2; [|done]. split; [|constructor]. split; [done|]. apply map_Forall_empty.
  - apply u64_range.
Qed.

(** The account whose code is called: held by the host, or fetched from the world. *)
Lemma fetch_code a h :
  host_ok h → a ∉ deadAcn h → (∀ o, g a = Ret o → is_Some (accounts h !! a) ∨ is_Some o) →
  ∃ h1 acn, host_ok h1 ∧ accounts h1 !! a = Some acn
    ∧ (∀ o, g a = Ret o → accounts h !! a = Some acn ∨ o = Some acn)
    ∧ (match accounts h !! a with
       | Some _ => mret tt
       | None => tryAddAcnFromWorldState g a true ≫= λ _, mret tt
       end) h = (h1, Ret tt).
Proof.
  intros Hh Hd He. destruct (Hg a) as (o & Eo & Ho).
  destruct (accounts h !! a) as [acn|] eqn:Ea.
  { exists h, acn. split_and!; [done|done|by left|done]. }
  destruct (He o Eo) as [[? [=]]|[acn ->]].
  exists (set_accounts (<[a := acn]> (accounts h)) h), acn. split_and!.
  - apply host_ok_insert; [done|]. by apply Ho.
  - apply lookup_insert_eq.
  - intros o. rewrite Eo. intros [= <-]. by right.
  - unfold tryAddAcnFromWorldState, mbind, stM_bind, lift. by rewrite Eo.
Qed.
Lemma handleCall_ends C (Q : Result → Prop) call msg h :
  (may_copy C → False) → (∀ m, may_call C m → sound_at (call_promise C m) (call m)) → host_ok h →
  (∀ acn, accounts h !! code_address msg = Some acn ∨ g (code_address msg) = Ret (Some acn) → prog_ok C Q (vm msg (acn_code acn))) →
  Q failure → ∃ h' r, handleCall g vm call msg h = (h', Ret r) ∧ host_ok h' ∧ Q r.
Proof.
  intros Hcopy Hcall Hh Hvm Hf. unfold handleCall. unfold mbind at 1, stM_bind at 1.
  destruct (account_exists_eq (code_address msg) h) as (o & Eo & ->).
  destruct (negb (bool_decide _) && _) eqn:Eb; cbn [negb]; [|by eexists _, _].
  apply andb_true_iff in Eb as [Ed%negb_true_iff%bool_decide_eq_false Eb%bool_decide_eq_true].
  destruct (fetch_code (code_address msg) h Hh Ed) as (h1 & acn & Hh1 & Hacn & Hfrom & E1).
  { intros o'. rewrite Eo. by intros [= <-]. }
  erewrite bind_eq by done. erewrite bind_eq by exact E1. erewrite bind_eq by done. rewrite Hacn.
  eapply sound_run; [done|done| |done]. apply Hvm. destruct (Hfrom o Eo) as [?| ->]; [by left|by right].
Qed.
Lemma sound_handleCall C (Q : Result → Prop) call msg :
  (may_copy C → False) → (∀ m, may_call C m → sound_at (call_promise C m) (call m)) →
  (∀ acn, prog_ok C Q (vm msg (acn_code acn))) → Q failure → sound_at Q (handleCall g vm call msg).
Proof. intros Hcopy Hcall Hvm Hf h Hh. by eapply handleCall_ends. Qed.

(** Calls nest to depth 1024 at most, so that 1025 levels are enough. *)
Lemma sound_execMsg fuel msg :
  vm_ok vm → 0 <= depth msg → 1025 - depth msg <= Z.of_nat fuel → depth msg <= 1024 →
  sound (execMsg g vm fuel msg).
Proof.
  intros Hvm. revert msg. induction fuel as [|fuel IH]; intros msg H0 Hf Hd; [lia|]. cbn [execMsg].
  apply sound_noexcept.
  assert (∀ m, may_call (host_contract (depth msg)) m → sound (execMsg g vm fuel m)) as Hc.
  { intros m [Hm Hl]. apply IH; lia. }
  destruct (is_create (kind msg)); 
    [apply (sound_create (host_contract (depth msg)))|apply (sound_handleCall (host_contract (depth msg)))]; auto.
Qed.
End messages.
End sound.

(** *** The journal *)
Section journal_lemmas.
Context `{WireFormats}.

Lemma apply_journal_app m j j' : apply_journal m (j ++ j') = apply_journal (apply_journal m j) j'.
Proof. apply foldl_app. Qed.
(** The entries of accounts. *)
Definition set_entry (dead : gset bytes) (x : bytes * Acn) : option StateChange :=
  if bool_decide (x.1 ∈ dead) then None
  else Some (mkStateChange false (addressToString x.1) (Acn_toString x.2)).
Lemma apply_sets dead l m a :
  NoDup l.*1 →
  apply_journal m (omap (set_entry dead) l) !! addressToString a
  = match (list_to_map l : gmap bytes Acn) !! a with
    | Some acn => if bool_decide (a ∈ dead) then m !! addressToString a else Some (Acn_toString acn)
    | None => m !! addressToString a
    end.
Proof.
  revert m. induction l as [|[b acn] l IH]; intros m Hnd; [done|]. cbn in Hnd.
  apply NoDup_cons in Hnd as [Hb Hnd]. cbn [omap list_omap]. unfold set_entry at 1. cbn [fst snd list_to_map foldr].
  cbn [list_to_map foldr].
  assert ((list_to_map l : gmap bytes Acn) !! b = None) as Hlb by (by apply not_elem_of_list_to_map_1).
  change (list_to_map ((b, acn) :: l)) with (<[b := acn]> (list_to_map l : gmap bytes Acn)).
  destruct (decide (b = a)) as [->|Hba].
  - rewrite lookup_insert_eq. destruct (bool_decide (a ∈ dead)) eqn:Ed.
    + rewrite IH, Hlb by done. done.
    + change (apply_journal m (?c :: ?j)) with (apply_journal (apply_change m c) j).
      rewrite IH, Hlb by done. unfold apply_change. cbn. by rewrite lookup_insert_eq.
  - rewrite lookup_insert_ne by done. destruct (bool_decide (b ∈ dead)) eqn:Ed; [by apply IH|].
    change (apply_journal m (?c :: ?j)) with (apply_journal (apply_change m c) j).
    rewrite IH by done. unfold apply_change. cbn. unfold addressToString.
    rewrite lookup_insert_ne by (intros ?%(inj hex); done). done.
Qed.
Lemma apply_dels l m a :
  apply_journal m ((λ a, mkStateChange true (addressToString a) "") <$> l) !! addressToString a
  = if bool_decide (a ∈ l) then None else m !! addressToString a.
Proof.
  revert m. induction l as [|b l IH]; intros m; [done|].
  change (apply_journal m (_ <$> b :: l)) with
    (apply_journal (delete (addressToString b) m) ((λ a, mkStateChange true (addressToString a) "") <$> l)).
  rewrite IH. unfold addressToString. destruct (decide (b = a)) as [->|Hba].
  - rewrite lookup_delete_eq. rewrite (bool_decide_true (a ∈ a :: l)) by left. by destruct (bool_decide _).
  - rewrite lookup_delete_ne by (intros ?%(inj hex); done).
    rewrite (bool_decide_ext (a ∈ b :: l) (a ∈ l)); [done|]. rewrite elem_of_cons. naive_solver.
Qed.

(** What the host holds, over what the world holds. *)
Definition view (h : WeakEvmHost) (a : bytes) (o : option Acn) : option Acn :=
  if bool_decide (a ∈ deadAcn h) then None
  else match accounts h !! a with Some acn => Some acn | None => o end.

Lemma journal_lookup h m a :
  apply_journal m (getStateChanges h) !! addressToString a
  = if bool_decide (a ∈ deadAcn h) then None
    else match accounts h !! a with Some acn => Some (Acn_toString acn) | None => m !! addressToString a end.
Proof.
  unfold getStateChanges. rewrite apply_journal_app, apply_dels.
  rewrite (bool_decide_ext (a ∈ elements (deadAcn h)) (a ∈ deadAcn h)) by apply elem_of_elements.
  destruct (bool_decide (a ∈ deadAcn h)) eqn:Ed; [done|].
  rewrite (list_omap_ext _ (set_entry (deadAcn h)) _ (map_to_list (accounts h))) by (apply Forall_Forall2_diag, Forall_true; by intros []).
  rewrite apply_sets, list_to_map_to_list, Ed by apply NoDup_fst_map_to_list. done.
Qed.

(** The journal of a good host writes its view. *)
Lemma journal_writes_view {W} `{IWorldLaws W} (w : W) h :
  host_ok h → world_ok (getAcn w) →
  ∃ w', applyJournalStateDB (getStateChanges h) w = Ret (true, w') ∧ chain_view w' = chain_view w
    ∧ (∀ a o, getAcn w a = Ret o → getAcn w' a = Ret (view h a o)) ∧ world_ok (getAcn w').
Proof.
  intros [Ha _] Hw. destruct (apply_state (getStateChanges h) w) as (w' & E1 & Hc & Hs). exists w'.
  assert (∀ a o, getAcn w a = Ret o → getAcn w' a = Ret (view h a o)) as Hv.
  { intros a o Ho. unfold getAcn in *. rewrite get_state in Ho |- *. rewrite Hs, journal_lookup. unfold view.
    destruct (bool_decide _); [done|]. destruct (accounts h !! a) as [acn|] eqn:Ea; [|done].
    rewrite Acn_fromString_toString; [done|apply (Ha a acn Ea)..]. }
  split_and!; [done..|]. intros a. destruct (Hw a) as (o & Ho & Hok). exists (view h a o). split; [by apply Hv|].
  unfold view. intros acn. destruct (bool_decide _); [done|]. destruct (accounts h !! a) as [acn'|] eqn:Ea; [|by apply Hok].
  intros [= <-]. by apply (Ha a).
Qed.
End journal_lemmas.

(** ** The EVM as the executor of transactions

    [nonce_of] stands for the static variable: what it is when a transaction is
    executed.  Nodes that execute the same transactions in the same order agree
    on it. *)
Definition evm_executor `{WireFormats} (vm : evmc_message → bytes → VmProg Result) (nonce_of : Tx → Z) : TxExecutable :=
  λ g t, fst <$> executeTx g vm 1025 (nonce_of t) t.

(** A database whose accounts can be read and have words of 32 bytes. *)
Definition accounts_ok `{WireFormats} (m : gmap string string) : Prop :=
  ∀ a v, m !! addressToString a = Some v → ∃ o, noexcept (Acn_fromString v) = Ret o ∧ ∀ acn, o = Some acn → Acn_ok acn.

Section executor_laws.
Context `{WireFormats} {W} `{IWorldLaws W}.
Lemma accounts_ok_world (w : W) : accounts_ok (state_view w) → world_ok (getAcn w).
Proof.
  intros Hm a. unfold getAcn. rewrite get_state. destruct (state_view w !! addressToString a) as [v|] eqn:E.
  - by apply (Hm a v).
  - exists None. by split.
Qed.
Lemma accounts_ok_journal m h : accounts_ok m → host_ok h → accounts_ok (apply_journal m (getStateChanges h)).
Proof.
  intros Hm [Hh _] a v. rewrite journal_lookup. destruct (bool_decide _); [done|].
  destruct (accounts h !! a) as [acn|] eqn:Ea; [|apply Hm]. intros [= <-]. exists (Some acn).
  rewrite Acn_fromString_toString by apply (Hh a acn Ea). split; [done|]. intros ? [= <-]. by apply (Hh a).
Qed.
Lemma evm_executor_spec vm nonce_of (w : W) t :
  vm_ok vm → is_u64 (nonce_of t) → accounts_ok (state_view w) →
  ∃ h r, host_ok h ∧ evm_executor vm nonce_of (getAcn w) t
    = Ret (if status_code r =? EVMC_SUCCESS then Some (getStateChanges h, output r) else None).
Proof.
  intros Hvm Hn Hw%accounts_ok_world.
  destruct (sound_execMsg (getAcn w) Hw vm 1025 (txToEvmcMsg t) Hvm ltac:(done) ltac:(cbn; lia) ltac:(done)
              (mkHost ∅ ∅ (nonce_of t))) as (h & r & Hx & Hh & _).
  { split; [apply map_Forall_empty|done]. }
  exists h, r. split; [done|]. unfold evm_executor, executeTx. rewrite Hx. by destruct (_ =? _).
Qed.
End executor_laws.

(** With a machine that is well behaved on every code, the EVM executor keeps the
    contract of the block executor. *)
Definition evm_executor_laws `{WireFormats} {W} `{IWorldLaws W} vm nonce_of (Hvm : vm_ok vm)
    (Hn : ∀ t, is_u64 (nonce_of t)) : TxExecutorLaws (W:=W) (evm_executor vm nonce_of).
Proof.
  refine {| state_ok := accounts_ok |}.
  - intros w t Hw. destruct (evm_executor_spec vm nonce_of w t Hvm (Hn t) Hw) as (h & r & _ & ->). eauto.
  - intros w t j b m Hw Hx Hm. destruct (evm_executor_spec vm nonce_of w t Hvm (Hn t) Hw) as (h & r & Hh & Hx').
    rewrite Hx' in Hx. destruct (_ =? _); [|done]. injection Hx as <- _. by apply accounts_ok_journal.
Defined.

(** ** A small machine, and what the host does with it

    On creation the constructor writes a storage cell and returns the code that
    was given as data; code [01] writes a cell and reverts; code [02] calls the
    account of code [01] and succeeds whatever it answers. *)
Definition cell : bytes := replicate 31 x00 ++ [x01].
Definition inner_address : bytes := makeAddress 5.
Definition call_to (a : bytes) (msg : evmc_message) : evmc_message :=
  mkMsg EVMC_CALL 0 (depth msg + 1) (gas msg) a (recipient msg) [] zero32 zero32 a.
Definition vm_example (msg : evmc_message) (code : bytes) : VmProg Result :=
  if is_create (kind msg) then
    VmSetStorage (recipient msg) cell cell (λ _, VmDone (evmc_make_result EVMC_SUCCESS 0 0 (input_data msg)))
  else if bool_decide (code = [x01]) then
    VmSetStorage (recipient msg) cell cell (λ _, VmDone (evmc_make_result EVMC_REVERT 0 0 []))
  else if bool_decide (depth msg + 1 <= 1024) then
    VmCall (call_to inner_address msg) (λ _, VmDone (evmc_make_result EVMC_SUCCESS 0 0 []))
  else VmDone failure.
Lemma vm_example_ok : vm_ok vm_example.
Proof.
  intros msg code. unfold vm_example. destruct (is_create _); [done|].
  destruct (bool_decide (code = _)); [done|].
  destruct (bool_decide (depth msg + 1 <= 1024)) eqn:Ed; [|done]. by apply bool_decide_eq_true in Ed.
Qed.

Definition create_tx : Tx := mkTx "" [] [] Type_evm (makeAddress 1) (makeAddress 0) [x02] 7 1717141105.
Definition call_tx : Tx := mkTx "" [] [] Type_evm (makeAddress 1) (makeAddress 6) [] 8 1717141105.
Lemma empty_world_ok : world_ok (getAcn (H:=ToyWire.toy_wire) InRam.empty_storage).
Proof. intros a. by exists None. Qed.

(** *** What creation keeps: the code and the static nonce, not the storage
    that the constructor wrote. *)
Lemma constructor_storage_lost g vm call msg h h' r :
  handleCreate g vm call msg h = (h', Ret r) → status_code r = EVMC_SUCCESS →
  ∃ nonce, accounts h' !! recipient msg = Some (mkAcn nonce (output r) ∅ []).
Proof.
  unfold handleCreate, mbind, stM_bind. destruct (account_exists g _ h) as [h1 [[|]| |]]; intros Hc Hs.
  { unfold mret, stM_ret in Hc. by simplify_eq/=. } 2-3: done.
  destruct (run_prog _ _ _ h1) as [h2 [r2| |]]; [|done..].
  destruct (status_code r2 =? EVMC_SUCCESS) eqn:Es; unfold mret, stM_ret, modify in Hc; simplify_eq/=.
  2: { by rewrite Hs in Es. }
  exists (create_nonce h2). by rewrite lookup_insert_eq.
Qed.
Lemma constructor_storage_lost_example :
  let g := λ _, Ret None in
  let '(h, r) := execMsg g vm_example 2 (txToEvmcMsg create_tx) (mkHost ∅ ∅ 0) in
  r = Ret (evmc_make_result EVMC_SUCCESS 0 0 [x02])
  ∧ (acn_storage <$> accounts h !! getContractDeployAddress create_tx) = Some ∅.
Proof. split; vm_compute; reflexivity. Qed.

(** *** An inner call that reverts keeps its changes. *)
Definition two_contracts (a : bytes) : outcome (option Acn) :=
  Ret (if bool_decide (a = inner_address) then Some (mkAcn 0 [x01] ∅ [])
       else if bool_decide (a = makeAddress 6) then Some (mkAcn 1 [x02] ∅ []) else None).
Lemma inner_revert_kept :
  let '(h, r) := execMsg two_contracts vm_example 3 (txToEvmcMsg call_tx) (mkHost ∅ ∅ 0) in
  status_code <$> r = Ret EVMC_SUCCESS
  ∧ (acn_storage <$> accounts h !! inner_address) = Some {[cell := cell]}.
Proof.
  assert (∀ x : WeakEvmHost * outcome Result,
    match x.2 with Ret r => status_code r =? EVMC_SUCCESS | _ => false end
    && bool_decide ((acn_storage <$> accounts x.1 !! inner_address) = Some {[cell := cell]}) = true →
    let '(h, r) := x in status_code <$> r = Ret EVMC_SUCCESS ∧ (acn_storage <$> accounts h !! inner_address) = Some {[cell := cell]}) as Hx.
  { intros [h [r| |]]; cbn [fst snd]; [|done..]. rewrite andb_true_iff, bool_decide_eq_true, Z.eqb_eq. intros [Hr ?]. cbn. by rewrite Hr. }
  apply Hx. vm_compute. reflexivity.
Qed.

(** *** Code of accounts that are only in the world: no size, and copying ends the process. *)
Lemma world_code_has_no_size (g : bytes → outcome (option Acn)) a acn h :
  g a = Ret (Some acn) → accounts h !! a = None → get_code_size a h = (h, Ret 0).
Proof. intros _ Ha. unfold get_code_size, mbind, stM_bind, gets. by rewrite Ha. Qed.
Lemma world_code_copy_terminates g a acn o n h :
  g a = Ret (Some acn) → a ∉ deadAcn h → accounts h !! a = None →
  copy_code g a o n h = (h, UB "std::terminate").
Proof.
  intros Hg Hd Ha. unfold copy_code, noexceptM. rewrite (bind_eq _ _ h h true).
  - cbn [negb]. erewrite bind_eq by done. rewrite Ha. done.
  - unfold account_exists, mbind, stM_bind, gets, lift. rewrite bool_decide_false, Ha, Hg by done. reflexivity.
Qed.

(** *** The nonce of a new account counts the creations of the process: a replica
    that was restarted stores another account. *)
Lemma create_nonce_differs :
  let g := λ _, Ret None in
  executeTx (H:=ToyWire.toy_wire) g vm_example 2 0 create_tx ≠ executeTx (H:=ToyWire.toy_wire) g vm_example 2 1 create_tx.
Proof. vm_compute. discriminate. Qed.
