(* ===== verification/EvmAsks.v ===== *)
(** * What the interpreter asks the host

    For any code at all - containers, undefined instructions, nested calls, and
    whatever the host answers: storage is written with keys and values of 32
    bytes, and a call is one deeper than the message and at most 1024 deep
    ([evmweak_asks]).  Nothing is said about how a run ends; where the program's
    behaviour is undefined, the run has no further requests. *)
From Stdlib Require Import ZArith Strings.Byte Strings.String Lia.
From stdpp Require Import base tactics option numbers list.
From S2P Require Import Prelude Words Evmc EvmTraits EvmAnalysis EvmState EvmInstructions EvmBaseline EvmLogic EvmSafety EvmLoop.

Local Open Scope Z_scope.

(** The requests of a message of depth [d]. *)
Fixpoint prog_asks {A} (d : Z) (p : VmProg A) : Prop :=
  match p with
  | VmDone _ => True
  | VmUB _ => True
  | VmAccountExists a k => ∀ x, prog_asks d (k x)
  | VmGetStorage a key k => ∀ x, prog_asks d (k x)
  | VmSetStorage a key v k => length key = 32%nat ∧ length v = 32%nat ∧ ∀ x, prog_asks d (k x)
  | VmGetBalance a k => ∀ x, prog_asks d (k x)
  | VmGetCodeSize a k => ∀ x, prog_asks d (k x)
  | VmGetCodeHash a k => ∀ x, prog_asks d (k x)
  | VmCopyCode a o n k => ∀ x, prog_asks d (k x)
  | VmSelfdestruct a b k => ∀ x, prog_asks d (k x)
  | VmCall msg k => depth msg = d + 1 ∧ d + 1 <= 1024 ∧ ∀ x, prog_asks d (k x)
  | VmGetTxContext k => ∀ x, prog_asks d (k x)
  | VmGetBlockHash n k => ∀ x, prog_asks d (k x)
  | VmEmitLog a data t k => prog_asks d k
  | VmAccessAccount a k => ∀ x, prog_asks d (k x)
  | VmAccessStorage a key k => ∀ x, prog_asks d (k x)
  end.
Lemma prog_asks_bind {A B} d (p : VmProg A) (f : A → VmProg B) :
  prog_asks d p → (∀ a, prog_asks d (f a)) → prog_asks d (p ≫= f).
Proof. intros Hp Hf. revert Hp. induction p; cbn; naive_solver. Qed.
Definition asks {A} (d : Z) (c : M A) : Prop := ∀ m, prog_asks d (c m).

Section rules.
Context (d : Z).
Lemma asks_bind {A B} (c : M A) (k : A → M B) : asks d c → (∀ a, asks d (k a)) → asks d (c ≫= k).
Proof. intros Hc Hk m. apply prog_asks_bind; [apply Hc|]. intros [a m'|s m']; [apply Hk|exact I]. Qed.
Lemma asks_ret {A} (a : A) : asks d (mret a).
Proof. done. Qed.
Lemma asks_stop {A} status : asks d (stop (A:=A) status).
Proof. done. Qed.
Lemma asks_ub {A} why : asks d (ub (A:=A) why).
Proof. done. Qed.
Lemma asks_get : asks d get.
Proof. done. Qed.
Lemma asks_put s : asks d (put s).
Proof. done. Qed.
Lemma asks_get_gas : asks d get_gas.
Proof. done. Qed.
Lemma asks_set_gas g : asks d (set_gas g).
Proof. done. Qed.
Lemma asks_get_stack : asks d get_stack.
Proof. done. Qed.
Lemma asks_set_stack l : asks d (set_stack l).
Proof. done. Qed.
End rules.
Create HintDb asks discriminated.
#[export] Hint Resolve asks_ret asks_stop asks_ub asks_get asks_put asks_get_gas asks_set_gas asks_get_stack asks_set_stack : asks.
Ltac asks :=
  cbv zeta; unfold when, require;
  repeat first
    [ solve [auto with asks]
    | apply asks_bind; [|intros ?]
    | case_match ].

Section primitives.
Context (d : Z).
Lemma asks_pop : asks d pop.
Proof. unfold pop. asks. Qed.
Lemma asks_push x : asks d (push x).
Proof. unfold push. asks. Qed.
Lemma asks_opt {A} (o : option A) why : asks d (opt o why).
Proof. destruct o; cbn [opt]; asks. Qed.
#[local] Hint Resolve asks_pop asks_push asks_opt : asks.
Lemma asks_item i : asks d (item i).
Proof. unfold item. asks. Qed.
Lemma asks_set_item i x : asks d (set_item i x).
Proof. unfold set_item. asks. Qed.
Lemma asks_pops n : asks d (pops n).
Proof. induction n as [|n IH]; cbn [pops]; asks. Qed.
Lemma asks_signed z : asks d (signed z).
Proof. unfold signed. asks. Qed.
#[local] Hint Resolve asks_item asks_set_item asks_pops asks_signed : asks.
Lemma asks_charge cost : asks d (charge cost).
Proof. unfold charge. asks. Qed.
Lemma asks_mem_size : asks d mem_size.
Proof. unfold mem_size. asks. Qed.
Lemma asks_mem_read o n : asks d (mem_read o n).
Proof. unfold mem_read. asks. Qed.
Lemma asks_mem_write o b : asks d (mem_write o b).
Proof. unfold mem_write. asks. Qed.
Lemma asks_grow n : asks d (grow_memory n).
Proof. unfold grow_memory. asks. Qed.
#[local] Hint Resolve asks_charge asks_mem_size asks_mem_read asks_mem_write asks_grow : asks.
Lemma asks_check64 o s : asks d (check_memory64 o s).
Proof. unfold check_memory64. asks. Qed.
#[local] Hint Resolve asks_check64 : asks.
Lemma asks_check o s : asks d (check_memory o s).
Proof. unfold check_memory. asks. Qed.
Lemma asks_account_exists a : asks d (host_account_exists a).
Proof. by intros m x. Qed.
Lemma asks_get_storage a k : asks d (host_get_storage a k).
Proof. by intros m x. Qed.
Lemma asks_set_storage a k v : length k = 32%nat → length v = 32%nat → asks d (host_set_storage a k v).
Proof. intros Hk Hv m. split; [done|]. split; [done|]. by intros x. Qed.
Lemma asks_get_balance a : asks d (host_get_balance a).
Proof. by intros m x. Qed.
Lemma asks_get_code_size a : asks d (host_get_code_size a).
Proof. by intros m x. Qed.
Lemma asks_get_code_hash a : asks d (host_get_code_hash a).
Proof. by intros m x. Qed.
Lemma asks_copy_code a o n : asks d (host_copy_code a o n).
Proof. by intros m x. Qed.
Lemma asks_host_selfdestruct a b : asks d (host_selfdestruct a b).
Proof. by intros m x. Qed.
Lemma asks_host_call msg : depth msg = d + 1 → d + 1 <= 1024 → asks d (host_call msg).
Proof. intros Hm Hd m. split; [done|]. split; [done|]. by intros x. Qed.
Lemma asks_get_block_hash n : asks d (host_get_block_hash n).
Proof. by intros m x. Qed.
Lemma asks_access_account a : asks d (host_access_account a).
Proof. by intros m x. Qed.
Lemma asks_access_storage a k : asks d (host_access_storage a k).
Proof. by intros m x. Qed.
Lemma asks_emit_log a b t : asks d (host_emit_log a b t).
Proof. by intros m. Qed.
Lemma asks_tx : asks d get_tx_context.
Proof. unfold get_tx_context. asks. by intros m x. Qed.
Lemma asks_code_at an p : asks d (code_at an p).
Proof. unfold code_at. asks. Qed.
Lemma asks_code_bytes an p n : asks d (code_bytes an p n).
Proof. unfold code_bytes. asks. Qed.
End primitives.
#[export] Hint Resolve asks_pop asks_push asks_opt asks_item asks_set_item asks_pops asks_signed asks_charge asks_mem_size
  asks_mem_read asks_mem_write asks_grow asks_check64 asks_check asks_account_exists asks_get_storage asks_get_balance
  asks_get_code_size asks_get_code_hash asks_copy_code asks_host_selfdestruct asks_get_block_hash asks_access_account
  asks_access_storage asks_emit_log asks_tx asks_code_at asks_code_bytes : asks.

(** ** The instructions *)
Section instructions.
Context (msg : evmc_message) (rev : Z) (code : bytes) (an : CodeAnalysis).
Abbreviation d := (depth msg).

Lemma asks_binary f : asks d (binary f).
Proof. unfold binary. asks. Qed.
Lemma asks_dup N : asks d (dup N).
Proof. unfold dup. asks. Qed.
Lemma asks_swap N : asks d (swap N).
Proof. unfold swap. asks. Qed.
Lemma asks_cold a c : asks d (cold_account_cost rev a c).
Proof. unfold cold_account_cost. asks. Qed.
Lemma asks_cold_storage k : asks d (cold_storage msg rev k).
Proof. unfold cold_storage. asks. Qed.
Lemma asks_refund r : asks d (add_refund r).
Proof. unfold add_refund. asks. Qed.
Lemma asks_copy b : asks d (copy_to_memory b).
Proof. unfold copy_to_memory. asks. Qed.
Lemma asks_jump_impl dst : asks d (jump_impl an dst).
Proof. unfold jump_impl. asks. Qed.
Lemma asks_read_int16 p : asks d (read_int16 an p).
Proof. unfold read_int16. asks. Qed.
Lemma asks_read_uint16 p : asks d (read_uint16 an p).
Proof. unfold read_uint16. asks. Qed.
Lemma asks_full_words n data r : asks d (load_full_words an n data r).
Proof. revert data r. induction n as [|n IH]; intros; cbn [load_full_words]; asks. Qed.
Lemma asks_partial len pos : asks d (load_partial_push_data an len pos).
Proof. unfold load_partial_push_data. asks. Qed.
#[local] Hint Resolve asks_binary asks_dup asks_swap asks_cold asks_cold_storage asks_refund asks_copy asks_jump_impl
  asks_read_int16 asks_read_uint16 asks_full_words asks_partial : asks.
Lemma asks_push_ len pos : asks d (push_ an len pos).
Proof. unfold push_. asks. Qed.
Lemma asks_log N : asks d (log msg N).
Proof. unfold log. asks. Qed.
Lemma asks_sstore : asks d (sstore msg rev).
Proof. unfold sstore. asks. apply asks_set_storage; apply length_be_store. Qed.
Lemma asks_call op : asks d (call_impl msg rev op).
Proof. unfold call_impl. asks. all: apply asks_host_call; [done|lia]. Qed.
Lemma asks_create c : asks d (create_impl msg rev c).
Proof. unfold create_impl. asks. all: apply asks_host_call; [done|lia]. Qed.
#[local] Hint Resolve asks_push_ asks_log asks_sstore asks_call asks_create : asks.

Definition asks_impl (i : Impl) : Prop :=
  match i with INext c => asks d c | IJump c => ∀ pos, asks d (c pos) end.
Lemma simple_impls_asks : Forall (λ '(_, i), asks_impl i) (simple_impls msg rev code an).
Proof.
  unfold simple_impls. repeat (apply Forall_cons; split); [..|by apply Forall_nil].
  all: cbn [asks_impl]; lazymatch goal with |- ∀ _, asks _ _ => intros pos | |- _ => idtac end.
  all: unfold stop_impl, add, mul, sub, div, sdiv, mod_, smod, addmod_, mulmod_, signextend, lt, gt, slt_, sgt, eq, iszero, and_, or_, xor_,
    not_, byte_, shl, shr, sar, origin, gasprice, basefee, coinbase, timestamp, number, prevrandao, gaslimit, chainid,
    calldatasize, codesize, calldatacopy, codecopy, push0, noop, pop_, exp, keccak256_, address, balance, caller, callvalue, calldataload,
    extcodesize, extcodecopy, returndatasize, returndatacopy, extcodehash, blockhash, selfbalance, mload, mstore, mstore8, sload,
    jump, jumpi, pc, msize, gas_, rjump, rjumpi, rjumpv, callf, retf, dupn, swapn, return_impl, selfdestruct.
  all: asks.
Qed.
Lemma impl_asks op i : impl msg rev code an op = Some i → asks_impl i.
Proof.
  unfold impl. repeat case_match; [intros [= <-]; cbn [asks_impl]; auto with asks..|].
  intros Hin%find_impl_In. pose proof simple_impls_asks as Hf. rewrite Forall_forall in Hf. exact (Hf _ Hin).
Qed.

(** ** The loop *)
Context (costs : list Z).
Lemma asks_turn pos : asks d (turn msg rev code an costs pos).
Proof.
  unfold turn. apply asks_bind; [auto with asks|]. intros op. destruct (impl msg rev code an op) as [i|] eqn:Ei; [|apply asks_stop].
  apply impl_asks in Ei. unfold invoke. apply asks_bind; [unfold check_requirements; asks|]. intros _.
  destruct i as [c|c]; cbn in Ei; [|by apply Ei]. apply asks_bind; [done|]. intros _. apply asks_ret.
Qed.
Lemma asks_iterate n pos : asks d (iterate msg rev code an costs n pos).
Proof.
  revert pos. induction n as [n IH|n IH|]; intros pos; cbn [iterate]; [|by apply asks_bind|apply asks_turn].
  apply asks_bind; [apply asks_turn|]. intros q. by apply asks_bind.
Qed.
End instructions.

Theorem evmweak_asks msg code : prog_asks (depth msg) (evmweak msg code).
Proof.
  unfold evmweak, execute. case_match; [|done]. cbv zeta. apply prog_asks_bind; [apply asks_iterate|].
  intros [p m|status m]; [done|]. unfold finish. by repeat case_match.
Qed.
