(* ===== verification/EvmTx.v ===== *)
(** * Transactions on the EVM of the program

    The host (EvmHost) with the interpreter (EvmBaseline) as its machine, as
    [EvmExecutor] in evmExecutor.hpp makes it with [evmc_create_evmweak]:
    transactions that create or call a contract whose code makes no calls and
    no EXTCODECOPY are executed to the end; what holds of any run, with nested
    calls and any code; examples run by computation; and what happens with the
    calls that the host refuses. *)
From Stdlib Require Import ZArith Strings.Byte Strings.String Lia.
From stdpp Require Import base gmap strings list option.
From S2P Require Import Prelude Hex Core CoreJson PostExec Storage Exec Consensus Words Evmc EvmTraits EvmAnalysis EvmState EvmInstructions EvmBaseline EvmLogic EvmJumps EvmSpec EvmSafety EvmLoop EvmHost EvmAsks.

Local Open Scope Z_scope.

(** Code that the host can run without further assumptions. *)
Definition runs_alone (code : bytes) : Prop :=
  code_allowed false false code = true ∧ Z.of_nat (length code) < 2 ^ 62.
(** The code that a message runs. *)
Definition code_of_msg (g : bytes → outcome (option Acn)) (msg : evmc_message) (code : bytes) : Prop :=
  if is_create (kind msg) then code = input_data msg
  else ∃ acn, g (code_address msg) = Ret (Some acn) ∧ code = acn_code acn.
(** What the executor gives back: the answer of the machine, or the refusal of the host. *)
Definition result_ok (msg : evmc_message) (r : Result) : Prop := honest msg r ∨ r = failure.

Abbreviation alone := (vm_contract False False).
Lemma evmweak_alone msg code : msg_ok msg → runs_alone code → prog_ok (alone (depth msg)) (result_ok msg) (evmweak msg code).
Proof.
  intros Hm [Ha Hl]. eapply prog_ok_mono; [by left|].
  apply (prog_ok_contract (vm_contract (false = true) (false = true) (depth msg))); [done|by intros m [? _]|done|].
  by apply evmweak_ok.
Qed.
Lemma alone_ends g msg fuel nonce :
  world_ok g → msg_ok msg → is_u64 nonce → (1 <= fuel)%nat → (∀ code, code_of_msg g msg code → runs_alone code) →
  ∃ h r, execMsg g evmweak fuel msg (mkHost ∅ ∅ nonce) = (h, Ret r) ∧ host_ok h ∧ result_ok msg r.
Proof.
  intros Hg Hm Hn Hf Hcode. destruct fuel as [|fuel]; [lia|]. cbn [execMsg]. unfold code_of_msg in Hcode.
  assert (host_ok (mkHost ∅ ∅ nonce)) as Hh by (split; [apply map_Forall_empty|done]).
  set (run := if is_create (kind msg) then handleCreate g evmweak (execMsg g evmweak fuel) msg else handleCall g evmweak (execMsg g evmweak fuel) msg).
  enough (∃ h r, run (mkHost ∅ ∅ nonce) = (h, Ret r) ∧ host_ok h ∧ result_ok msg r) as (h & r & E & H).
  { exists h, r. unfold noexceptM. rewrite E. done. }
  unfold run. destruct (is_create (kind msg)).
  - apply (sound_create g Hg evmweak (alone (depth msg))); [by intros []|by intros m [[] _]| |by right|done].
    apply evmweak_alone; [done|by apply Hcode].
  - apply (handleCall_ends g Hg evmweak (alone (depth msg))); [by intros []|by intros m [[] _]|done| |by right].
    intros acn [H|Hacn]; [cbn [accounts] in H; by rewrite lookup_empty in H|]. apply evmweak_alone; [done|]. apply Hcode. by exists acn.
Qed.
Lemma txToEvmcMsg_ok (t : Tx) : Tx_wf t → is_u64 (Z.of_nat (length (tx_data t))) → msg_ok (txToEvmcMsg t).
Proof.
  intros (Hf & Ht & _) Hd. unfold msg_ok, txToEvmcMsg. cbn [depth gas recipient sender msg_value input_data].
  split; [lia|]. split; [done|]. split; [|done].
  destruct (is_zero_address (tx_to t)); [apply length_makeAddress|done].
Qed.

(** C12: a transaction with code that makes no calls is executed to its end by
    the interpreter itself: if its data (for a creation) or the code of the
    called account (for a call) is legacy code without EOF instructions, calls
    and EXTCODECOPY, then [executeTx] returns; the machine's result gives back at
    most the gas of the message and refunds nothing; the transaction fails
    without a journal exactly when the status is not success; and otherwise the
    journal writes what the host holds into the world, which stays well formed. *)
Theorem evmweak_executes `{WireFormats} {W} `{IWorldLaws W} (w : W) nonce (t : Tx) :
  Tx_wf t → is_u64 (Z.of_nat (length (tx_data t))) → world_ok (getAcn w) → is_u64 nonce →
  (∀ code, code_of_msg (getAcn w) (txToEvmcMsg t) code → runs_alone code) →
  ∃ h r, result_ok (txToEvmcMsg t) r
    ∧ executeTx (getAcn w) evmweak 1025 nonce t
      = Ret (if status_code r =? EVMC_SUCCESS then Some (getStateChanges h, output r) else None, EvmHost.create_nonce h)
    ∧ ∃ w', applyJournalStateDB (getStateChanges h) w = Ret (true, w') ∧ chain_view w' = chain_view w
        ∧ (∀ a o, getAcn w a = Ret o → getAcn w' a = Ret (view h a o)) ∧ world_ok (getAcn w').
Proof.
  intros Ht Hd Hw Hn Hcode.
  destruct (alone_ends (getAcn w) (txToEvmcMsg t) 1025 nonce Hw (txToEvmcMsg_ok t Ht Hd) Hn ltac:(lia) Hcode)
    as (h & r & Hx & Hh & Hr).
  exists h, r. split; [done|]. split; [unfold executeTx; rewrite Hx; by destruct (_ =? _)|].
  by apply journal_writes_view.
Qed.

(** ** Whatever the code is

    The host under any machine that asks as the interpreter does: what it does
    with a good host leaves a good host, also where it ends the process, and
    no nesting is deeper than 1025. *)
Definition stays {A} (m : host A) : Prop := ∀ h, host_ok h → host_ok (m h).1.
Lemma stays_bind {A B} (m : host A) (k : A → host B) : stays m → (∀ a, stays (k a)) → stays (m ≫= k).
Proof.
  intros Hm Hk h Hh. specialize (Hm h Hh). unfold mbind, stM_bind. destruct (m h) as [h' [a| |]]; [|done..]. by apply Hk.
Qed.
Lemma stays_ret {A} (a : A) : stays (mret a).
Proof. by intros h Hh. Qed.
Lemma stays_gets {A} (f : WeakEvmHost → A) : stays (gets f).
Proof. by intros h Hh. Qed.
Lemma stays_lift {A} (o : outcome A) : stays (lift o).
Proof. by intros h Hh. Qed.
Lemma stays_sound {A} (Q : A → Prop) (m : host A) : sound_at Q m → stays m.
Proof. intros Hm h Hh. by destruct (Hm h Hh) as (h' & a & -> & ? & _). Qed.
Lemma stays_noexcept {A} (m : host A) : stays m → stays (noexceptM m).
Proof. intros Hm h Hh. specialize (Hm h Hh). unfold noexceptM. by destruct (m h) as [h' []]. Qed.

Section any_code.
Context (g : bytes → outcome (option Acn)) (Hg : world_ok g) (vm : evmc_message → bytes → VmProg Result).
Context (Hvm : ∀ msg code, prog_asks (depth msg) (vm msg code)).

Lemma stays_fetch a (o : option Acn) fatal : stays (match o with Some _ => mret tt | None => tryAddAcnFromWorldState g a fatal ≫= λ _, mret tt end).
Proof.
  destruct o; [apply stays_ret|]. apply stays_bind; [|intros ?; apply stays_ret]. intros h Hh.
  destruct (Hg a) as (o & Eo & Ho). unfold tryAddAcnFromWorldState, lift, mbind, stM_bind. rewrite Eo.
  destruct o as [acn|]; [|by destruct fatal]. apply host_ok_insert; [done|]. by apply Ho.
Qed.
Lemma stays_copy_code a o n : stays (copy_code g a o n).
Proof.
  apply stays_noexcept, stays_bind; [eapply stays_sound, sound_exists, Hg|]. intros [|]; [|apply stays_ret]. apply stays_bind; [apply stays_gets|].
  intros acns. destruct (acns !! a); [cbv zeta; case_match; apply stays_ret|apply stays_lift].
Qed.
Lemma stays_run {A} d call (p : VmProg A) :
  (∀ m, depth m = d + 1 → d + 1 <= 1024 → stays (call m)) → prog_asks d p → stays (run_prog g call p).
Proof.
  intros Hcall. induction p; cbn [prog_asks run_prog]; intros Hp; try (apply stays_bind; [|naive_solver]).
  - apply stays_ret.
  - apply stays_lift.
  - eapply stays_sound, sound_exists, Hg.
  - eapply stays_sound, sound_get, Hg.
  - destruct Hp as (? & ? & _). by eapply stays_sound, sound_set.
  - apply stays_ret.
  - eapply stays_sound, sound_code_size.
  - eapply stays_sound, sound_code_hash.
  - apply stays_copy_code.
  - eapply stays_sound, sound_selfdestruct.
  - destruct Hp as (? & ? & _). by apply Hcall.
  - apply stays_ret.
  - apply stays_ret.
  - by apply IHp.
  - apply stays_ret.
  - apply stays_ret.
Qed.
Lemma stays_execMsg fuel msg : stays (execMsg g vm fuel msg).
Proof.
  revert msg. induction fuel as [|fuel IH]; intros msg; cbn [execMsg]; [apply stays_lift|]. apply stays_noexcept.
  assert (∀ code, stays (run_prog g (execMsg g vm fuel) (vm msg code))) as Hrun by (intros code; eapply stays_run; [by intros m _ _|apply Hvm]).
  destruct (is_create (kind msg)).
  - apply stays_bind; [eapply stays_sound, sound_exists, Hg|]. intros [|]; [apply stays_ret|]. apply stays_bind; [done|]. intros r.
    destruct (negb _); [apply stays_ret|]. apply stays_bind; [|intros _; apply stays_ret]. intros h [Ha Hn]. split; [|apply u64_range].
    apply map_Forall_insert_2; [|done]. split; [|constructor]. split; [done|]. apply map_Forall_empty.
  - apply stays_bind; [eapply stays_sound, sound_exists, Hg|]. intros [|]; [|apply stays_ret]. cbn [negb].
    apply stays_bind; [apply stays_gets|]. intros acns. apply stays_bind; [apply stays_fetch|]. intros _. apply stays_bind; [apply stays_gets|].
    intros acns'. destruct (acns' !! code_address msg); [done|apply stays_lift].
Qed.

(** More levels than a message can need make no difference. *)
Lemma run_same {A} d call call' (p : VmProg A) h :
  (∀ m h, depth m = d + 1 → d + 1 <= 1024 → call m h = call' m h) → prog_asks d p → run_prog g call p h = run_prog g call' p h.
Proof.
  intros Hcall. revert h.
  assert (∀ B (m m' : host B) (k k' : B → host A) h, m h = m' h → (∀ b h, k b h = k' b h) → (m ≫= k) h = (m' ≫= k') h) as Hbind.
  { intros B m m' k k' h Hm Hk. unfold mbind, stM_bind. rewrite Hm. by destruct (m' h) as [h' []]. }
  induction p; cbn [prog_asks run_prog]; intros h Hp; try done; try (apply Hbind; naive_solver). by apply IHp.
Qed.
Lemma execMsg_levels fuel fuel' msg h : 0 <= depth msg <= 1024 → 1025 - depth msg <= Z.of_nat fuel → 1025 - depth msg <= Z.of_nat fuel' →
  execMsg g vm fuel msg h = execMsg g vm fuel' msg h.
Proof.
  revert fuel' msg h. induction fuel as [|fuel IH]; intros [|fuel'] msg h Hd Hf Hf'; [done|lia..|]. cbn [execMsg].
  assert (∀ code h, run_prog g (execMsg g vm fuel) (vm msg code) h = run_prog g (execMsg g vm fuel') (vm msg code) h) as Hrun.
  { intros code h'. eapply run_same; [|apply Hvm]. intros m h'' Hm Hl. apply IH; lia. }
  unfold noexceptM. enough ((if is_create (kind msg) then handleCreate g vm (execMsg g vm fuel) msg else handleCall g vm (execMsg g vm fuel) msg) h
    = (if is_create (kind msg) then handleCreate g vm (execMsg g vm fuel') msg else handleCall g vm (execMsg g vm fuel') msg) h) as -> by done.
  destruct (is_create (kind msg)); unfold handleCreate, handleCall, mbind, stM_bind.
  - destruct (account_exists g _ h) as [h1 [[|]| |]]; try done. by rewrite Hrun.
  - destruct (account_exists g _ h) as [h1 [[|]| |]]; try done. cbn [negb]. unfold gets.
    match goal with |- context [match ?m h1 with (_, _) => _ end] => destruct (m h1) as [h2 [[]| |]]; try done end.
    destruct (accounts h2 !! _); [by rewrite Hrun|done].
Qed.
End any_code.

(** C27: The EVM executor with the interpreter of the program, for any transaction
    on a world of well-formed accounts: nested calls and creations, EXTCODECOPY,
    EOF code, undefined instructions.  Calls nest to 1025 levels at most, so that
    more levels change no run.  A run either does something undefined (or makes
    more than 2^63 turns in one message), or returns; then the transaction fails without a journal exactly when the status
    of the machine is not success; otherwise its journal, applied to the world,
    gives every address what the host holds at the end, and leaves the rest of
    the database as it is and a world of well-formed accounts. *)
Theorem evm_executes `{WireFormats} {W} `{IWorldLaws W} (w : W) nonce (t : Tx) :
  world_ok (getAcn w) → is_u64 nonce →
  (∀ fuel, (1025 <= fuel)%nat → executeTx (getAcn w) evmweak fuel nonce t = executeTx (getAcn w) evmweak 1025 nonce t)
  ∧ match execMsg (getAcn w) evmweak 1025 (txToEvmcMsg t) (mkHost ∅ ∅ nonce) with
    | (h, Ret r) =>
        executeTx (getAcn w) evmweak 1025 nonce t
          = Ret (if status_code r =? EVMC_SUCCESS then Some (getStateChanges h, output r) else None, EvmHost.create_nonce h)
        ∧ is_u64 (EvmHost.create_nonce h)
        ∧ ∃ w', applyJournalStateDB (getStateChanges h) w = Ret (true, w') ∧ chain_view w' = chain_view w
            ∧ (∀ a o, getAcn w a = Ret o → getAcn w' a = Ret (view h a o)) ∧ world_ok (getAcn w')
    | (_, _) => ∃ why, executeTx (getAcn w) evmweak 1025 nonce t = UB why
    end.
Proof.
  intros Hw Hn. split.
  { intros fuel Hf. unfold executeTx. by rewrite (execMsg_levels (getAcn w) evmweak evmweak_asks fuel 1025) by (cbn; lia). }
  assert (host_ok (mkHost ∅ ∅ nonce)) as Hh by (split; [apply map_Forall_empty|done]).
  pose proof (stays_execMsg (getAcn w) Hw evmweak evmweak_asks 1025 (txToEvmcMsg t) _ Hh) as Hk. unfold executeTx.
  destruct (execMsg (getAcn w) evmweak 1025 _ _) as [h [r|e|why]]; cbn [fst] in Hk; [|by eexists..].
  split; [by destruct (_ =? _)|]. split; [apply Hk|]. by apply journal_writes_view.
Qed.

(** ** A contract, deployed and used

    With input it stores a word, without it returns what is stored:
    [CALLDATASIZE PUSH1 12 JUMPI PUSH0 SLOAD PUSH0 MSTORE PUSH1 32 PUSH0 RETURN
     JUMPDEST PUSH0 CALLDATALOAD PUSH0 SSTORE STOP]; the creation code copies it:
    [PUSH1 18 DUP1 PUSH1 9 PUSH0 CODECOPY PUSH0 RETURN]. *)
Definition cell_code : bytes :=
  [x36; x60; x0c; x57; x5f; x54; x5f; x52; x60; x20; x5f; xf3; x5b; x5f; x35; x5f; x55; x00].
Definition deploy_code : bytes := [x60; x12; x80; x60; x09; x5f; x39; x5f; xf3] ++ cell_code.
Definition deploy_tx : Tx := mkTx "" [] [] Type_evm (makeAddress 1) (makeAddress 0) deploy_code 7 1717141105.
Definition cell_address : bytes := getContractDeployAddress deploy_tx.
Definition store_tx : Tx := mkTx "" [] [] Type_evm (makeAddress 1) cell_address (be_store 32 42) 8 1717141105.
Definition load_tx : Tx := mkTx "" [] [] Type_evm (makeAddress 1) cell_address [] 9 1717141105.

(** Transactions one after another, each on the world that the one before left. *)
Fixpoint run_txs (txs : list Tx) (w : InRam.InRamWorldStorage) : option (list bytes) :=
  match txs with
  | [] => Some []
  | t :: txs =>
      match executeTx (H:=ToyWire.toy_wire) (getAcn (H:=ToyWire.toy_wire) w) evmweak 1025 0 t with
      | Ret (Some (j, out), _) =>
          match InRam.InRam_applyJournalStateDB j w with Ret (true, w') => cons out <$> run_txs txs w' | _ => None end
      | _ => None
      end
  end.
Lemma deploy_set_get : run_txs [deploy_tx; store_tx; load_tx] InRam.empty_storage = Some [cell_code; []; be_store 32 42].
Proof. vm_compute. reflexivity. Qed.

Lemma deploy_tx_wf : Tx_wf deploy_tx.
Proof. repeat split; by vm_compute. Qed.
Lemma deploy_runs_alone : runs_alone deploy_code.
Proof. split; by vm_compute. Qed.
Lemma evmweak_executes_witness :
  ∃ h r, result_ok (txToEvmcMsg deploy_tx) r
    ∧ executeTx (H:=ToyWire.toy_wire) (getAcn (H:=ToyWire.toy_wire) InRam.empty_storage) evmweak 1025 0 deploy_tx
      = Ret (if status_code r =? EVMC_SUCCESS then Some (getStateChanges (H:=ToyWire.toy_wire) h, output r) else None, EvmHost.create_nonce h).
Proof.
  destruct (evmweak_executes (H:=ToyWire.toy_wire) InRam.empty_storage 0 deploy_tx deploy_tx_wf ltac:(vm_compute; split; congruence) empty_world_ok
              ltac:(done)) as (h & r & H1 & H2 & _).
  - intros code Hc. change (code = deploy_code) in Hc. rewrite Hc. exact deploy_runs_alone.
  - exists h, r. split; [exact H1|exact H2].
Defined.

(** Code that creates and calls: [PUSH0 PUSH0 PUSH0 CREATE] makes an account
    without code at the zero address, [PUSH1 32 PUSH0 PUSH0 PUSH0 EXTCODECOPY]
    copies that code, [PUSH0 PUSH0 PUSH0 PUSH0 PUSH0 PUSH0 GAS CALL] calls it, and
    [PUSH0 MSTORE PUSH1 32 PUSH0 RETURN] returns that the call succeeded. *)
Definition nesting_tx : Tx :=
  mkTx "" [] [] Type_evm (makeAddress 1) (makeAddress 0)
    [x5f; x5f; x5f; xf0; x60; x20; x5f; x5f; x5f; x3c; x5f; x5f; x5f; x5f; x5f; x5f; x5a; xf1; x5f; x52; x60; x20; x5f; xf3] 7 1717141105.
Abbreviation nesting_run :=
  (execMsg (getAcn (H:=ToyWire.toy_wire) InRam.empty_storage) evmweak 1025 (txToEvmcMsg nesting_tx) (mkHost ∅ ∅ 0)).
Lemma nesting_runs :
  match nesting_run with
  | (h, Ret r) => status_code r = EVMC_SUCCESS ∧ output r = be_store 32 1 ∧ size (accounts h) = 2%nat
      ∧ (acn_code <$> accounts h !! zero20) = Some [] ∧ EvmHost.create_nonce h = 2
  | _ => False
  end.
Proof. vm_compute. repeat split. Qed.
Lemma evm_executes_witness :
  (∀ fuel, (1025 <= fuel)%nat → executeTx (H:=ToyWire.toy_wire) (getAcn (H:=ToyWire.toy_wire) InRam.empty_storage) evmweak fuel 0 nesting_tx
     = executeTx (H:=ToyWire.toy_wire) (getAcn (H:=ToyWire.toy_wire) InRam.empty_storage) evmweak 1025 0 nesting_tx)
  ∧ ∃ h r w', nesting_run = (h, Ret r) ∧ output r = be_store 32 1
    ∧ executeTx (H:=ToyWire.toy_wire) (getAcn (H:=ToyWire.toy_wire) InRam.empty_storage) evmweak 1025 0 nesting_tx
      = Ret (Some (getStateChanges (H:=ToyWire.toy_wire) h, output r), EvmHost.create_nonce h)
    ∧ applyJournalStateDB (getStateChanges (H:=ToyWire.toy_wire) h) InRam.empty_storage = Ret (true, w').
Proof.
  destruct (evm_executes (H:=ToyWire.toy_wire) InRam.empty_storage 0 nesting_tx empty_world_ok ltac:(done)) as [H1 H2].
  split; [exact H1|]. revert H2. pose proof nesting_runs as Hr. revert Hr. destruct nesting_run as [h [r| |]]; [|by intros []..].
  intros (Hs & Ho & _) (Hx & _ & w' & Hj & _). exists h, r, w'. rewrite Hs in Hx. split; [reflexivity|]. split; [exact Ho|]. split; [exact Hx|exact Hj].
Defined.

(** ** What the host and the interpreter do not agree on *)

Definition run_message (g : bytes → outcome (option Acn)) (msg : evmc_message) : WeakEvmHost * outcome Result :=
  execMsg g evmweak 1025 msg (mkHost ∅ ∅ 0).
(** A world with one contract, at [makeAddress 6]. *)
Definition one_contract (code : bytes) (a : bytes) : outcome (option Acn) :=
  Ret (if bool_decide (a = makeAddress 6) then Some (mkAcn 1 code ∅ []) else None).
Definition call_6 : evmc_message := txToEvmcMsg (mkTx "" [] [] Type_evm (makeAddress 1) (makeAddress 6) [] 8 1717141105).
Definition create_with (code : bytes) : Tx := mkTx "" [] [] Type_evm (makeAddress 1) (makeAddress 0) code 7 1717141105.

(** A refused message is answered with [int64_max] gas left ([failure]).  The
    interpreter adds what it believes was not used to its own gas, beyond the
    range of [int64_t]: a contract that calls an address without an account
    ([PUSH0 PUSH0 PUSH0 PUSH0 PUSH0 PUSH1 9 GAS CALL]). *)
Lemma call_of_nobody_overflows :
  (run_message (one_contract [x5f; x5f; x5f; x5f; x5f; x60; x09; x5a; xf1]) call_6).2 = UB "signed integer overflow".
Proof. vm_compute. reflexivity. Qed.

(** A creation by a contract has no address of its own: the message goes to the
    zero address, and the word that CREATE leaves is zero, as for a failure
    ([PUSH0 PUSH0 PUSH0 CREATE PUSH0 MSTORE PUSH1 32 PUSH0 RETURN]). *)
Lemma inner_creation_address :
  let '(h, r) := run_message (one_contract [x5f; x5f; x5f; xf0; x5f; x52; x60; x20; x5f; xf3]) call_6 in
  (λ r, (status_code r, output r)) <$> r = Ret (EVMC_SUCCESS, zero32)
  ∧ (acn_code <$> accounts h !! zero20) = Some [].
Proof. vm_compute. split; reflexivity. Qed.

(** The instructions of the EOF are taken out of the legacy table of Cancun only,
    and the host runs Prague: RETF without a call pops an empty stack. *)
Lemma eof_instructions_in_legacy_code :
  (λ op, (cost_at (get_baseline_cost_table EVMC_CANCUN 0) op, cost_at (get_baseline_cost_table EVMC_PRAGUE 0) op))
    <$> [OP_RJUMP; OP_RJUMPI; OP_RJUMPV; OP_CALLF; OP_RETF]
  = [(-1, 2); (-1, 4); (-1, 4); (-1, 5); (-1, 3)].
Proof. vm_compute. reflexivity. Qed.
Lemma retf_transaction_undefined :
  executeTx (H:=ToyWire.toy_wire) (λ _, Ret None) evmweak 1025 0 (create_with [byte_of_Z OP_RETF]) = UB "call_stack.back()".
Proof. vm_compute. reflexivity. Qed.
(** Nothing validates a container: the two bytes that mark one are read past their end. *)
Lemma bare_container_undefined :
  executeTx (H:=ToyWire.toy_wire) (λ _, Ret None) evmweak 1025 0 (create_with [xef; x00]) = UB "EOF container".
Proof. vm_compute. reflexivity. Qed.
(** The storage costs have no entry for Prague: a store costs its cold access, 2100,
    where in Cancun a new cell costs 22100. *)
Lemma sstore_free_in_prague :
  sstore_costs EVMC_PRAGUE EVMC_STORAGE_ADDED = (0, 0) ∧ sstore_costs EVMC_CANCUN EVMC_STORAGE_ADDED = (20000, 0).
Proof. split; vm_compute; reflexivity. Qed.
