(* ===== verification/Div2.v ===== *)
(** * Data and python transactions

    include/div2Executor.hpp: [Div2Executor], which looks at the type of a
    transaction, and [PyTxExecutor], which verifies, deploys and invokes
    contracts written in python.  The python interpreter is a parameter: from
    the files of the working directory and the seconds it may run, it gives
    exit code, output and files, or throws when it cannot be started.  The
    working directory is emptied before each use, so that it is local to it. *)
From Stdlib Require Import ZArith Strings.Byte Strings.String Strings.Ascii Lia.
From stdpp Require Import base tactics strings gmap option numbers list.
From S2P Require Import Prelude Text Hex Keccak Core Codec CoreJson PostExec Storage Exec.

Local Open Scope Z_scope.

(** ** What the code uses of strings and JSON *)

(** [boost::replace_all(s, pat, rep)]; [skip] characters belong to a match. *)
Fixpoint replace_go (pat rep : string) (skip : nat) (s : string) : string :=
  match s with
  | EmptyString => ""
  | String c s' =>
      match skip with
      | S k => replace_go pat rep k s'
      | O => if String.prefix pat s then rep +:+ replace_go pat rep (String.length pat - 1) s'
             else String c (replace_go pat rep 0 s')
      end
  end.
Definition replace_all (s pat rep : string) : string := replace_go pat rep 0 s.

(** [operator==] of [json::value]: numbers by value, objects whatever their order. *)
Fixpoint json_eqb (v w : json) {struct v} : bool :=
  match v, w with
  | JNull, JNull => true
  | JBool a, JBool b => Bool.eqb a b
  | JInt a, JInt b | JInt a, JUint b | JUint a, JInt b | JUint a, JUint b => a =? b
  | JDouble m e, JDouble m' e' => m * 2 ^ (e - Z.min e e') =? m' * 2 ^ (e' - Z.min e e')
  | JString a, JString b => String.eqb a b
  | JArray l, JArray l' =>
      (fix go l l' := match l, l' with
                      | [], [] => true | x :: l, y :: l' => json_eqb x y && go l l' | _, _ => false end) l l'
  | JObject o, JObject o' =>
      Nat.eqb (length o) (length o')
      && (fix go o := match o with
                      | [] => true
                      | (k, x) :: o => match obj_find k o' with Some y => json_eqb x y | None => false end && go o
                      end) o
  | _, _ => false
  end.

(** [o.erase(it)]: the last entry takes the place. *)
Definition obj_erase (o : jobject) (k : string) : jobject :=
  match last o with
  | None => []
  | Some z => if String.eqb z.1 k then removelast o
              else (λ kv, if String.eqb kv.1 k then z else kv) <$> removelast o
  end.
(** [o[k]]: null when it is not there. *)
Definition obj_get (o : jobject) (k : string) : json := default JNull (obj_find k o).

(** [weak::contains(json::array, string)]. *)
Fixpoint array_contains (a : list json) (s : string) : outcome bool :=
  match a with
  | [] => Ret false
  | v :: a => x ← as_string v; if String.eqb x s then Ret true else array_contains a s
  end.

Definition quit (msg : string) : jobject := [("quit", JString msg)].

(** ** Arguments of a method *)

(** The loop over [required_args]: what is left of the arguments, or the answer. *)
Fixpoint use_args (required : list json) (unused : jobject) : outcome (jobject + jobject) :=
  match required with
  | [] => Ret (inr unused)
  | a :: required =>
      s ← as_string a;
      if String.prefix "_" s then use_args required unused
      else
        match obj_find s unused with
        | None => Ret (inl (quit ("Required argument not found: `" +:+ s +:+ "`")))
        | Some _ => use_args required (obj_erase unused s)
        end
  end.

Section json.
Context `{WireFormats}.

Definition checkAndPrepareArgs (invoke abi : jobject) : outcome jobject :=
  noexcept (
    match obj_find "method" invoke with
    | None => Ret (quit "Malformed invoke json: `method` not found in the invoke object")
    | Some m =>
        m ← as_string m;
        let method := c_str m in
        match obj_find method abi with
        | None => Ret (quit ("Method not found in abi: " +:+ method))
        | Some r =>
            required_args ← as_array r;
            let check args :=
              u ← use_args required_args args;
              match u with
              | inl q => Ret q
              | inr [] => Ret args
              | inr unused => Ret (quit ("Excess arguments provided: " +:+ json_serialize (JObject unused)))
              end in
            match obj_find "args" invoke with
            | None => check []
            | Some (JObject args) => check args
            | Some _ => Ret (quit "Malformed invoke json: `args` should be an object")
            end
        end
    end).

Definition addTxContextToArgsMaybe (required_args : list json) (args : jobject) (t : Tx) : outcome jobject :=
  noexcept (
    b ← array_contains required_args "_tx_context";
    Ret (if (b : bool) then
           obj_set args "_tx_context"
             (JObject [("to", JString (addressToString (tx_to t))); ("from", JString (addressToString (tx_from t)));
                       ("timestamp", JInt (tx_timestamp t)); ("hash", JString (hashToString (Tx_hash t)))])
         else args)).

Definition makePyTxCode (py_code s method : string) : string :=
  py_code +:+ String (ascii_of_nat 10) (String (ascii_of_nat 10) "") +:+ replace_all s "METHOD" method.

(** ** Running python *)
Abbreviation Files := (gmap string string).
Context (python : Files → Z → outcome (Z * string * Files)).
Context (PY_VERIFIER_CONTENT PY_INVOKE_TEMPLATE : string).
(** [e.what()]. *)
Context (what : exn → string).

Definition exec_py (py_code_content : string) (timeout_s : Z) (wd : Files) : outcome (Z * string * Files) :=
  python (<["hi-tmp.py" := py_code_content]> wd) timeout_s.
Definition readAllText (wd : Files) (p : string) : string := default "" (wd !! p).

Definition verifyPyContract (py_code : string) : outcome (option string) :=
  '(exit_code, output, wd) ← exec_py PY_VERIFIER_CONTENT 5 {["hi.py" := py_code]};
  if negb (exit_code =? 0) || bool_decide (wd !! "verifier-result.json" = None) then Ret None
  else Ret (Some (readAllText wd "verifier-result.json")).

Definition invokePyMethod (invoke : jobject) (py_code : string) (abi : jobject) (t : Tx) (storage : json)
    : outcome jobject :=
  noexcept (catch_all (
    args ← checkAndPrepareArgs invoke abi;
    if obj_contains args "quit" then Ret args
    else
      m ← as_string (obj_get invoke "method");
      let method := c_str m in
      required_args ← as_array (obj_get abi method);
      args ← addTxContextToArgsMaybe required_args args t;
      s ← array_contains required_args "_storage";
      let args := if (s : bool) then obj_set args "_storage" storage else args in
      let wd := {["args.json" := json_serialize (JObject args)]} in
      '(exit_code, output, wd) ← exec_py (makePyTxCode py_code PY_INVOKE_TEMPLATE method) 3 wd;
      if negb (exit_code =? 0) then
        Ret (quit ("Python-vm exited with non-zero exit code: " +:+ to_string_int exit_code
                   +:+ "Output: " +:+ output))
      else
        (* as_object is called before the error code is looked at *)
        result ← as_object (default JNull (json_parse (readAllText wd "result.json")));
        let r := [("result", obj_get result "result")] in
        let r := match obj_find "storage" result with
                 | Some s => if json_eqb s storage then r else r ++ [("storage", s)]
                 | None => r
                 end in
        Ret (r ++ [("log", JString output)]))
    (λ e, Ret (quit (what e)))).

(** ** Contracts *)

(** Failure is a default account and an empty result. *)
Definition deployPyContract (t : Tx) : outcome (Acn * bytes) :=
  let py_code := str (tx_data t) in
  abi ← verifyPyContract py_code;
  match abi with
  | None => Ret (Acn_default, [])
  | Some abi =>
      abi_json ← or_throw (json_parse abi) (json_error "syntax error") ≫= as_object;
      let a disk := mkAcn (tx_nonce t) (tx_data t) ∅ disk in
      if obj_contains abi_json "init" then
        r ← invokePyMethod [("method", JString "init")] py_code abi_json t (JObject []);
        if obj_contains r "quit" then Ret (Acn_default, [])
        else
          match obj_find "storage" r with
          | Some s => Ret (a [abi; json_serialize s], unstr (json_serialize (JObject (obj_erase r "storage"))))
          | None => Ret (a [abi; "{}"], unstr (json_serialize (JObject r)))
          end
      else Ret (a [abi; "{}"], [])
  end.

Definition invokePyContract (a : Acn) (invoke : jobject) (t : Tx) : outcome (option Acn * bytes) :=
  match acn_disk_storage a with
  | disk0 :: disk1 :: disk =>
      match json_parse disk0 with
      | Some (JObject abi) =>
          m ← obj_at invoke "method" ≫= as_string;
          if negb (obj_contains abi m) then Ret (None, [])
          else
            match json_parse disk1 with
            | None => Ret (None, [])
            | Some storage =>
                r ← invokePyMethod invoke (str (acn_code a)) abi t storage;
                if obj_contains r "quit" then
                  _ ← as_string (obj_get r "quit"); Ret (None, [])
                else
                  match obj_find "storage" r with
                  | Some s =>
                      Ret (Some (mkAcn (acn_nonce a) (acn_code a) (acn_storage a) (disk0 :: json_serialize s :: disk)),
                           unstr (json_serialize (JObject (obj_erase r "storage"))))
                  | None => Ret (None, unstr (json_serialize (JObject r)))
                  end
            end
      | _ => Ret (None, [])
      end
  | _ => Ret (None, [])
  end.

Definition executePyTx : TxExecutable := λ getAcn t,
  noexcept (
    if is_zero_address (tx_to t) then
      '(a, res) ← deployPyContract t;
      Ret (Some ([mkStateChange false (addressToString (getContractDeployAddress t)) (Acn_toString a)], res))
    else
      match json_parse (str (tx_data t)) with
      | Some (JObject invoke) =>
          match obj_find "method" invoke with
          | Some (JString _) =>
              ao ← getAcn (tx_to t);
              match ao with
              | None => Ret None
              | Some a =>
                  '(ao1, res) ← invokePyContract a invoke t;
                  match ao1 with
                  | None => Ret (Some ([], res))
                  | Some a1 =>
                      Ret (Some ([mkStateChange false (addressToString (tx_to t)) (Acn_toString a1)], res))
                  end
              end
          | _ => Ret None
          end
      | _ => Ret None
      end).

(** ** [Div2Executor] *)
Definition executeDataTx : TxExecutable := λ getAcn t, Ret (Some ([], [])).
(** [WITH_PYTHON] and the executor of EVM transactions. *)
Definition Div2_executeTx (WITH_PYTHON : bool) (evm : TxExecutable) : TxExecutable := λ getAcn t,
  match tx_type t with
  | Type_data => executeDataTx getAcn t
  | Type_python => if WITH_PYTHON then executePyTx getAcn t else Ret None
  | Type_evm => evm getAcn t
  end.
End json.

(** Without python the dispatcher keeps the contract of the block executor that
    its EVM executor keeps. *)
Definition Div2_laws `{WireFormats} {W} `{IWorldLaws W} python verifier template what evm
    {TL : TxExecutorLaws (W:=W) evm} :
  TxExecutorLaws (W:=W) (Div2_executeTx python verifier template what false evm).
Proof.
  refine {| state_ok := state_ok evm |}.
  - intros w t Hw. unfold Div2_executeTx, executeDataTx. destruct (tx_type t); [by apply executeTx_total|eauto..].
  - intros w t j b m Hw Hx Hm. unfold Div2_executeTx, executeDataTx in Hx.
    destruct (tx_type t); [by eapply executeTx_keeps|by injection Hx as <- _|done].
Defined.

(** ** [ExoticTxExecutorBase::wait_for_and_terminate]

    [running i]: the answer of the [i]-th call of [c.running()].  The loop of
    [timeout_s * 1000] milliseconds. *)
Fixpoint wait_loop (running : nat → bool) (calls fuel : nat) : bool :=
  match fuel with
  | O => true
  | S fuel => if running calls then wait_loop running (S calls) fuel else false
  end.
Definition wait_for_and_terminate (running : nat → bool) (timeout_s : Z) : bool :=
  if negb (running 0%nat) || (timeout_s <=? 0) then false
  else wait_loop running 1 (Z.to_nat (timeout_s * 1000)).

(** ** Lemmas *)
Abbreviation keys := (λ o : jobject, o.*1).

Lemma obj_find_elem k (o : jobject) : is_Some (obj_find k o) ↔ k ∈ keys o.
Proof.
  induction o as [|[k' v] o IH]; cbn; [split; [by intros [? ?]|by intros ?%elem_of_nil]|].
  rewrite elem_of_cons. destruct (String.eqb_spec k' k) as [->|Hne]; [naive_solver|]. rewrite IH. naive_solver.
Qed.
(** Erasing a key that is there leaves the other entries, in another order. *)
Lemma obj_erase_perm (o : jobject) k :
  NoDup (keys o) → k ∈ keys o → obj_erase o k ≡ₚ filter (λ kv, kv.1 ≠ k) o.
Proof.
  intros Hnd Hk. destruct o as [|z l _] using rev_ind; [by apply elem_of_nil in Hk|].
  unfold obj_erase. rewrite last_snoc, removelast_last. rewrite fmap_app in *. cbn in Hnd, Hk.
  apply NoDup_app in Hnd as (Hl & Hz & _). rewrite filter_app.
  assert (∀ l : jobject, k ∉ keys l → filter (λ kv, kv.1 ≠ k) l = l
    ∧ ((λ kv, if String.eqb kv.1 k then z else kv) <$> l) = l) as Hfresh.
  { clear. induction l as [|[k' v] l IH]; [done|]. rewrite fmap_cons, not_elem_of_cons. intros [Hne Hl].
    destruct (IH Hl) as [E1 E2]. rewrite filter_cons_True by (cbn in *; congruence). rewrite E1.
    rewrite fmap_cons, E2. cbn. by rewrite (proj2 (String.eqb_neq k' k)) by (cbn in *; congruence). }
  destruct (String.eqb_spec z.1 k) as [Hzk|Hzk].
  - rewrite (filter_cons_False _ z) by (intros Hx; done). rewrite app_nil_r.
    rewrite (proj1 (Hfresh l ltac:(intros Hin; apply (Hz k Hin); rewrite Hzk; by left))). done.
  - rewrite (filter_cons_True _ z) by done. cbn [filter list_filter].
    apply elem_of_app in Hk as [Hk|Hk]; [|apply list_elem_of_singleton in Hk; congruence].
    apply list_elem_of_fmap in Hk as ([k' v] & Hkk & Hin). cbn in Hkk. subst k'.
    apply list_elem_of_split in Hin as (l1 & l2 & ->). rewrite fmap_app in Hl. cbn in Hl.
    apply NoDup_app in Hl as (_ & H1 & [H2 _]%NoDup_cons).
    destruct (Hfresh l1) as [E1 E2]; [intros Hx; by apply (H1 k Hx); left|]. destruct (Hfresh l2 H2) as [E3 E4].
    rewrite fmap_app, fmap_cons, filter_app. cbn [fst]. rewrite String.eqb_refl, E2, E4.
    rewrite filter_cons_False by (intros Hx; done). rewrite E1, E3. rewrite <-app_assoc.
    apply Permutation_app_head. apply Permutation_cons_append.
Qed.

Lemma filter_everything {A} (P : A → Prop) `{!∀ x, Decision (P x)} (l : list A) :
  (∀ x, x ∈ l → P x) → filter P l = l.
Proof.
  induction l as [|x l IH]; intros Hl; [done|]. rewrite filter_cons_True by (apply Hl; left).
  rewrite IH; [done|]. intros y Hy. apply Hl. by right.
Qed.

(** Parameters whose name starts with an underscore are given by the chain. *)
Definition positional (s : string) : Prop := String.prefix "_" s = false.
#[global] Instance positional_dec s : Decision (positional s).
Proof. unfold positional. apply _. Defined.

Lemma use_args_spec required unused :
  NoDup required → NoDup (keys unused) →
  (∃ u, use_args (JString <$> required) unused = Ret (inr u)
     ∧ (∀ s, s ∈ required → positional s → s ∈ keys unused)
     ∧ u ≡ₚ filter (λ kv, ¬ (kv.1 ∈ required ∧ positional kv.1)) unused)
  ∨ ∃ msg s, use_args (JString <$> required) unused = Ret (inl (quit msg))
     ∧ s ∈ required ∧ positional s ∧ s ∉ keys unused.
Proof.
  intros Hr. revert unused. induction Hr as [|s required Hs Hr IH]; intros unused Hu.
  { left. exists unused. split_and!; [done|by intros ? ?%elem_of_nil|]. rewrite filter_everything; [done|].
    intros kv _ [?%elem_of_nil _]. done. }
  rewrite fmap_cons. cbn [use_args]. change (as_string (JString s)) with (Ret s). cbn [mbind outcome_bind].
  destruct (String.prefix "_" s) eqn:Ep.
  - destruct (IH unused Hu) as [(u & E1 & E2 & E3)|(msg & s' & E1 & E2 & E3)].
    + left. exists u. split_and!; [done| |].
      * intros s' [->|Hs']%elem_of_cons Hp; [by unfold positional in Hp; congruence|by apply E2].
      * rewrite E3. apply reflexive_eq, list_filter_iff. intros kv. rewrite elem_of_cons. unfold positional.
        split; intros Hn [Ha Hb]; apply Hn; (split; [|done]); [|by right]. destruct Ha; [congruence|done].
    + right. exists msg, s'. split_and!; [done|by right|apply E3..].
  - destruct (obj_find s unused) as [v|] eqn:Ef.
    2: { right. eexists _, s. split_and!; [done|by left|done|]. intros [? ?]%obj_find_elem. congruence. }
    assert (s ∈ keys unused) as Hsu by (apply obj_find_elem; by exists v).
    pose proof (obj_erase_perm unused s Hu Hsu) as Hperm.
    assert (∀ k, k ∈ keys (obj_erase unused s) ↔ k ∈ keys unused ∧ k ≠ s) as Hkeys.
    { intros k. rewrite Hperm. rewrite !list_elem_of_fmap. split.
      - intros (kv & -> & [Hne Hin]%list_elem_of_filter). split; [by exists kv|done].
      - intros [(kv & -> & Hin) Hne]. exists kv. split; [done|]. by apply list_elem_of_filter. }
    assert (NoDup (keys (obj_erase unused s))) as Hnd.
    { rewrite Hperm. eapply sublist_NoDup; [exact Hu|]. apply sublist_fmap, sublist_filter. }
    destruct (IH _ Hnd) as [(u & E1 & E2 & E3)|(msg & s' & E1 & E2 & E3 & E4)].
    + left. exists u. split_and!; [done| |].
      * intros s' [->|Hs']%elem_of_cons Hp; [done|]. by apply Hkeys, E2.
      * rewrite E3, Hperm, list_filter_filter. apply reflexive_eq, list_filter_iff. intros kv.
        rewrite elem_of_cons. unfold positional. split.
        -- intros [Hn Hne] [[?|?] ?]; [done|by apply Hn].
        -- intros Hn. split; [intros [? ?]; apply Hn; auto|]. intros Hks. apply Hn. rewrite Hks. auto.
    + right. exists msg, s'. split_and!; [done|by right|done|]. intros Hin. apply E4, Hkeys.
      split; [done|]. intros ->. done.
Qed.

Lemma use_args_exact `{WireFormats} required args :
  NoDup required → NoDup (keys args) →
  let r := u ← use_args (JString <$> required) args;
           match u with
           | inl q => Ret q
           | inr [] => Ret args
           | inr unused => Ret (quit ("Excess arguments provided: " +:+ json_serialize (JObject unused)))
           end in
  (∀ k, k ∈ keys args ↔ k ∈ required ∧ positional k) ∧ r = Ret args
  ∨ ¬ (∀ k, k ∈ keys args ↔ k ∈ required ∧ positional k) ∧ ∃ msg, r = Ret (quit msg).
Proof.
  intros Hr Ha r. destruct (use_args_spec required args Hr Ha) as [(u & E1 & E2 & E3)|(msg & s & E1 & E2 & E3 & E4)];
    unfold r; rewrite E1; cbn [mbind outcome_bind].
  - destruct u as [|kv u].
    + left. split; [|done]. intros k. split; [|intros [? ?]; by apply E2].
      intros (kv & -> & Hin)%list_elem_of_fmap. apply Permutation_nil_l in E3.
      destruct (decide (kv.1 ∈ required ∧ positional kv.1)) as [|Hno]; [done|].
      assert (kv ∈ filter (λ kv, ¬ (kv.1 ∈ required ∧ positional kv.1)) args) as Hx by (by apply list_elem_of_filter).
      rewrite <-E3 in Hx. by apply elem_of_nil in Hx.
    + right. split; [|by eexists]. intros Hk.
      assert (kv ∈ filter (λ kv, ¬ (kv.1 ∈ required ∧ positional kv.1)) args) as [Hno Hin]%list_elem_of_filter
        by (rewrite <-E3; left).
      apply Hno, Hk, list_elem_of_fmap. by exists kv.
  - right. split; [|by eexists]. intros Hk. apply E4, Hk. done.
Qed.

(** C35: Arguments.  For a method of a contract with parameters [required], an
    invocation is accepted exactly when its arguments are the parameters that
    do not start with an underscore, no more and no less; they are then passed
    on as they came; otherwise the answer is a message under "quit". *)
Theorem checkAndPrepareArgs_spec `{WireFormats} (invoke abi : jobject) m required args :
  obj_find "method" invoke = Some (JString m) → obj_find (c_str m) abi = Some (JArray (JString <$> required)) →
  NoDup required → obj_find "args" invoke = Some (JObject args) → NoDup (keys args) →
  (∀ k, k ∈ keys args ↔ k ∈ required ∧ positional k) ∧ checkAndPrepareArgs invoke abi = Ret args
  ∨ ¬ (∀ k, k ∈ keys args ↔ k ∈ required ∧ positional k) ∧ ∃ msg, checkAndPrepareArgs invoke abi = Ret (quit msg).
Proof.
  intros Hm Hr Hnd Ha Hna. unfold checkAndPrepareArgs. rewrite Hm. cbn [as_string mbind outcome_bind].
  rewrite Hr. cbn [as_array mbind outcome_bind]. rewrite Ha.
  destruct (use_args_exact required args Hnd Hna) as [[Hk E1]|[Hk [msg E1]]]; cbn [mbind outcome_bind] in E1;
    rewrite E1; [by left|right]. split; [done|]. by exists msg.
Qed.

(** *** Examples *)
Lemma checkAndPrepareArgs_spec_witness :
  let args := [("b", JInt 2); ("a", JInt 1)] in
  let invoke := [("method", JString "f"); ("args", JObject args)] in
  let abi := [("f", JArray (JString <$> ["a"; "_storage"; "b"]))] in
  checkAndPrepareArgs (H:=ToyWire.toy_wire) invoke abi = Ret args
  ∨ ∃ msg, checkAndPrepareArgs (H:=ToyWire.toy_wire) invoke abi = Ret (quit msg).
Proof.
  intros args invoke abi.
  assert (NoDup ["a"; "_storage"; "b"]) as Hr by (apply (bool_decide_unpack _); vm_compute; done).
  assert (NoDup (keys args)) as Ha by (apply (bool_decide_unpack _); vm_compute; done).
  destruct (checkAndPrepareArgs_spec (H:=ToyWire.toy_wire) invoke abi "f" ["a"; "_storage"; "b"] args
              eq_refl eq_refl Hr eq_refl Ha) as [[_ E1]|[_ E1]]; [left; exact E1|right; exact E1].
Defined.
Example args_accepted :
  checkAndPrepareArgs (H:=ToyWire.toy_wire) [("method", JString "f"); ("args", JObject [("b", JInt 2); ("a", JInt 1)])]
    [("f", JArray (JString <$> ["a"; "_storage"; "b"]))] = Ret [("b", JInt 2); ("a", JInt 1)].
Proof. reflexivity. Qed.

Section effects.
Context `{WireFormats} (python : gmap string string → Z → outcome (Z * string * gmap string string)).
Context (verifier template : string) (what : exn → string).

(** A python transaction writes at most the account that it deploys or calls. *)
Lemma python_own_account getAcn t j res :
  executePyTx python verifier template what getAcn t = Ret (Some (j, res)) →
  Forall (λ c, sc_del c = false ∧ sc_k c = addressToString (if is_zero_address (tx_to t) then getContractDeployAddress t
                                                            else tx_to t)) j.
Proof.
  unfold executePyTx, noexcept. destruct (is_zero_address (tx_to t)).
  - destruct (deployPyContract _ _ _ _ t) as [[a r]| |]; cbn; [|done..]. intros [= <- <-]. by repeat constructor.
  - destruct (json_parse _) as [[]|]; try done. destruct (obj_find "method" o) as [[]|]; try done.
    destruct (getAcn (tx_to t)) as [[a|]| |]; cbn; try done.
    destruct (invokePyContract _ _ _ a o t) as [[[a1|] r]| |]; cbn; try done; intros [= <- <-]; by repeat constructor.
Qed.
(** A contract that the verifier refuses is deployed as an empty account, with success. *)
Lemma refused_contract_deployed getAcn t :
  is_zero_address (tx_to t) = true → verifyPyContract python verifier (str (tx_data t)) = Ret None →
  executePyTx python verifier template what getAcn t
  = Ret (Some ([mkStateChange false (addressToString (getContractDeployAddress t)) (Acn_toString Acn_default)], [])).
Proof. intros Hz Hv. unfold executePyTx, deployPyContract. by rewrite Hz, Hv. Qed.
End effects.

(** A parameter named "quit" that is given a number ends the process of every node. *)
Section quit.
#[local] Existing Instance ToyWire.toy_wire.
Definition quit_abi : jobject := [("f", JArray [JString "quit"])].
Definition quit_invoke : jobject := [("method", JString "f"); ("args", JObject [("quit", JInt 1)])].
Definition quit_acn : Acn := mkAcn 0 [] ∅ [json_serialize (JObject quit_abi); json_serialize (JObject [])].
Definition quit_tx : Tx :=
  mkTx "" [] [] Type_python (makeAddress 1) (makeAddress 6) (unstr (json_serialize (JObject quit_invoke))) 8 0.
Lemma quit_argument_terminates python verifier template what :
  executePyTx python verifier template what (λ _, Ret (Some quit_acn)) quit_tx = UB "std::terminate".
Proof. vm_compute. reflexivity. Qed.
End quit.

(** A child that still runs at every look is terminated after [timeout_s] seconds; one that ended is not. *)
Lemma wait_loop_spec running calls fuel :
  wait_loop running calls fuel = true ↔ ∀ i, (calls <= i < calls + fuel)%nat → running i = true.
Proof.
  revert calls. induction fuel as [|fuel IH]; intros calls; cbn.
  { split; [intros _ i Hi; lia|done]. }
  destruct (running calls) eqn:Er.
  - rewrite IH. split; intros Hr i Hi.
    + destruct (decide (i = calls)) as [->|]; [done|]. apply Hr. lia.
    + apply Hr. lia.
  - split; [done|]. intros Hr. rewrite Hr in Er by lia. done.
Qed.
Lemma wait_for_and_terminate_spec running timeout_s :
  0 < timeout_s →
  wait_for_and_terminate running timeout_s = true
  ↔ ∀ i, (i <= Z.to_nat (timeout_s * 1000))%nat → running i = true.
Proof.
  intros Ht. unfold wait_for_and_terminate. rewrite (proj2 (Z.leb_gt _ _)), orb_false_r by done.
  destruct (running 0%nat) eqn:E0; cbn [negb].
  - rewrite wait_loop_spec. split; intros Hr i Hi.
    + destruct i as [|i]; [done|]. apply Hr. lia.
    + apply Hr. lia.
  - split; [done|]. intros Hr. rewrite Hr in E0 by lia. done.
Qed.
