(* ===== verification/Replicas.v ===== *)
(** * Replicas

    [ExecutorForCnsss] and [LightExecutorForCnsss] behind the interface
    [IForConsensusExecutable] of the consensus: both keep its contract, what
    the primary leaves of a command does to a replica what the command did to
    the primary.  With it, followers of a Raft primary are states that the
    primary went through. *)
From Stdlib Require Import ZArith Strings.Byte Strings.String Strings.Ascii Lia.
From stdpp Require Import base tactics strings gmap option numbers list.
From S2P Require Import Prelude Text Hex Keccak Core Net Codec CoreJson PostExec Storage Mempool Exec Chain.
From S2P Require Import ExeForCnsss Consensus Raft RaftCluster RaftElection RaftReplication.

Local Open Scope Z_scope.

(** ** [ExecutorForCnsss] behind [IForConsensusExecutable] *)
Section executor.
Context `{WireFormats} {W} `{IWorldLaws W} {P} `{IPoolLaws P}.
Implicit Types n m : ExeForCnsss.Node P W.
Implicit Types p q : P.

(** [q] has what is pending in [p], and perhaps transactions that the node of [p]
    took out for a block that it could not convert. *)
Definition pool_replica p q : Prop :=
  pool_inv p ∧ pool_inv q ∧ known q = known p ∧ ∃ extra, pending q ≡ₚ pending p ++ extra.
Definition node_replica n m : Prop :=
  nd_world m = nd_world n ∧ pool_replica (nd_pool n) (nd_pool m).

Lemma pool_replica_refl p : pool_inv p → pool_replica p p.
Proof. intros Hp. split_and!; [done..|]. exists []. by rewrite app_nil_r. Qed.

Lemma add_loop_replica txs p q r p' :
  Forall Tx_wf txs → pool_replica p q → add_loop txs p = (r, p') →
  ∃ q', add_loop r q = (r, q') ∧ pool_replica p' q'.
Proof.
  intros Hw. revert p q r p'. induction Hw as [|t txs Ht Hw IH]; intros p q r p' Hpq; cbn [add_loop].
  { intros [= <- <-]. by exists q. }
  pose proof Hpq as (Hp & Hq & Ek & extra & Hx).
  pose proof (addTx_spec p t Hp Ht) as HA. destruct (addTx t p) as [ok p1].
  destruct HA as (Hp1 & Ek1 & Hok). destruct (add_loop txs p1) as [l p2] eqn:E2. intros [= <- <-].
  destruct ok; destruct Hok as [Hh Hpend].
  - cbn [add_loop]. pose proof (addTx_spec q t Hq Ht) as HB. destruct (addTx t q) as [ok q1].
    destruct HB as (Hq1 & Ekq & Hokq). destruct ok; destruct Hokq as [Hhq Hpq1]; [|by rewrite Ek in Hhq].
    destruct (IH p1 q1 l p2) as (q' & -> & HR); [|done|by exists q'].
    split_and!; [done|done|by rewrite Ekq, Ek1, Ek|]. exists extra. rewrite Hpq1, Hpend, Hx. done.
  - apply (IH p1 q l p2); [|done]. split_and!; [done|done| |].
    + rewrite Ek1, Ek. set_solver.
    + exists extra. by rewrite Hpend.
Qed.

Lemma toBlk_replica b p q :
  Forall (λ h, length h = 32%nat) (bfc_txhs b) → pool_replica p q →
  match toBlk b p with
  | (Some blk, p') => ∃ q', toBlk b q = (Some blk, q') ∧ pool_replica p' q'
  | (None, p') => pool_replica p' q
  end.
Proof.
  intros Hl (Hp & Hq & Ek & extra & Hx). unfold toBlk.
  pose proof (toBlk_loop_spec (bfc_txhs b) p Hp Hl) as HT.
  destruct (toBlk_loop (bfc_txhs b) p) as [[ts|] p']; destruct HT as (Hp' & Ek' & popped & HP & Hr); cbn.
  - destruct Hr as [-> Hts].
    destruct (toBlk_loop_pending popped (pending p' ++ extra) q Hq) as (q' & EL & HQ).
    { by rewrite Hx, HP, (assoc_L (++)). }
    pose proof (toBlk_loop_spec (bfc_txhs b) q Hq Hl) as HU. rewrite Hts in EL. rewrite EL in HU |- *.
    destruct HU as (Hq' & Ekq & _). exists q'. split; [done|]. split_and!; [done|done|congruence|by exists extra].
  - split_and!; [done|done|congruence|]. exists (popped ++ extra). rewrite Hx, HP, (assoc_L (++)).
    by rewrite (Permutation_app_comm popped).
Qed.

Context (executeTx : TxExecutable) {TL : TxExecutorLaws (W:=W) executeTx}.
Context (txVerifier : option (Tx → outcome bool)) (Hv : ∀ f t, txVerifier = Some f → ∃ r, f t = Ret r).

Lemma EXECUTE_BLK_replica cmd n m r cmd' n' :
  node_good executeTx n → node_replica n m → handle_EXECUTE_BLK executeTx txVerifier cmd n = Ret (r, cmd', n') →
  r = "OK" ∧ cmd' = cmd ∧ (∃ m', handle_EXECUTE_BLK executeTx txVerifier cmd m = Ret ("OK", cmd, m') ∧ node_replica n' m')
  ∨ r ≠ "OK" ∧ cmd' = "" ∧ node_replica n' m.
Proof.
  intros Hok [Ew Hpq]. unfold handle_EXECUTE_BLK.
  destruct (BlkForConsensus_fromString (cmd_arg cmd)) as [[b|]| |] eqn:Eb; cbn; try done.
  2: { intros [= <- <- <-]. by right. }
  pose proof (BlkForConsensus_fromString_wf _ _ Eb) as [_ Hl].
  pose proof (toBlk_replica b _ _ Hl Hpq) as HT.
  destruct (toBlk b (nd_pool n)) as [[blk|] p']; [|intros [= <- <- <-]; by right].
  destruct HT as (q' & -> & HR). rewrite Ew.
  destruct (execute_Blk_spec executeTx txVerifier Hv blk (nd_world n) Hok) as (eb & w' & _ & -> & _). cbn.
  intros [= <- <- <-]. left. split_and!; [done..|]. by exists (ExeForCnsss.mkNode q' w').
Qed.

Lemma ADD_TXS_replica arg n m r cmd' n' :
  node_replica n m → handle_ADD_TXS (String "t" arg) n = Ret (r, cmd', n') →
  r = "OK" ∧ (∃ arg' m', cmd' = String "t" arg' ∧ handle_ADD_TXS cmd' m = Ret ("OK", cmd', m') ∧ node_replica n' m')
  ∨ r ≠ "OK" ∧ cmd' = "" ∧ node_replica n' m.
Proof.
  intros [Ew Hpq]. unfold handle_ADD_TXS at 1. cbn [cmd_arg].
  destruct (parse_to_array arg) as [txs| |] eqn:Ep; [|intros [= <- <- <-]; by right|done].
  pose proof (parse_to_array_wire _ _ Ep) as Hwire.
  assert (Forall Tx_wf txs) as Hw by (eapply Forall_impl; [exact Hwire|]; by intros ? []).
  pose proof (add_loop_spec txs (nd_pool n) (proj1 Hpq) Hw) as HS.
  destruct (add_loop txs (nd_pool n)) as [l p'] eqn:Ea. destruct HS as (_ & _ & _ & Hs & _).
  destruct (add_loop_replica _ _ _ _ _ Hw Hpq Ea) as (q' & Eq & HR).
  destruct l as [|t l]; cbn [noexcept].
  { cbn in Eq. intros [= <- <- <-]. injection Eq as <-. by right. }
  assert (parse_to_array (serialize_from_array (t :: l)) = Ret (t :: l)) as Er
    by (apply serialize_wire; by eapply Forall_sublist).
  destruct (length (t :: l) <? length txs)%nat eqn:El; intros [= <- <- <-]; left; (split; [done|]).
  - eexists _, (ExeForCnsss.mkNode q' (nd_world n)). split; [reflexivity|]. split; [|by split].
    unfold handle_ADD_TXS. cbn [cmd_arg]. rewrite Er, Eq, Nat.ltb_irrefl. cbn. by rewrite <-Ew.
  - assert (t :: l = txs) as <-.
    { apply sublist_full; [done|]. by apply Nat.ltb_ge in El. }
    eexists _, (ExeForCnsss.mkNode q' (nd_world n)). split; [reflexivity|]. split; [|by split].
    unfold handle_ADD_TXS. cbn [cmd_arg]. rewrite Ep, Eq, Nat.ltb_irrefl. cbn. by rewrite <-Ew.
Qed.

Lemma execute_replica cmd n m r cmd' n' :
  node_good executeTx n → node_replica n m → ExeForCnsss.execute executeTx txVerifier cmd n = Ret (r, cmd', n') →
  ∃ r' m', ExeForCnsss.execute executeTx txVerifier cmd' m = Ret (r', cmd', m') ∧ node_replica n' m'
    ∧ (r = "OK" → r' = "OK").
Proof.
  intros Hok HR. destruct cmd as [|c arg]; cbn [ExeForCnsss.execute].
  { intros [= <- <- <-]. by exists "", m. }
  destruct (Ascii.eqb c "b") eqn:Ecb.
  - intros Hx. destruct (EXECUTE_BLK_replica _ _ _ _ _ _ Hok HR Hx) as [(-> & -> & m' & Hm & HR')|(Hr & -> & HR')].
    + exists "OK", m'. cbn. by rewrite Ecb.
    + by exists "", m.
  - destruct (Ascii.eqb c "t") eqn:Ect.
    + apply Ascii.eqb_eq in Ect as ->. intros Hx.
      destruct (ADD_TXS_replica _ _ _ _ _ _ HR Hx) as [(-> & arg' & m' & -> & Hm & HR')|(Hr & -> & HR')].
      * by exists "OK", m'.
      * by exists "", m.
    + intros [= <- <- <-]. by exists "", m.
Qed.

Lemma execute_total cmd n : node_good executeTx n → ∃ r cmd' n', ExeForCnsss.execute executeTx txVerifier cmd n = Ret (r, cmd', n').
Proof.
  intros Hok. destruct cmd as [|c arg]; cbn [ExeForCnsss.execute]; [eauto|]. destruct (Ascii.eqb c "b").
  - destruct (handle_EXECUTE_BLK_answers executeTx txVerifier Hv (String c arg) n Hok) as (? & ? & ? & ? & _). eauto.
  - destruct (Ascii.eqb c "t"); [|unfold clear_cmd_and_complain; eauto].
    destruct (handle_ADD_TXS_answers (String c arg) n) as (? & ? & ? & ? & _). eauto.
Qed.
End executor.

(** ** [LightExecutorForCnsss] behind [IForConsensusExecutable] *)
Section light.
Context `{WireFormats} {W} `{IWorldLaws W}.
Context (executeTx : TxExecutable) {TL : TxExecutorLaws (W:=W) executeTx}.
Context (txVerifier : option (Tx → outcome bool)) (Hv : ∀ f t, txVerifier = Some f → ∃ r, f t = Ret r).
Implicit Types l m : LightNode W Mempool.

Definition light_replica l m : Prop :=
  is_u64 (ln_next_blk_number l) ∧ length (ln_previous_hash l) = 32%nat
  ∧ ln_world m = ln_world l ∧ ln_optimization_level m = ln_optimization_level l
  ∧ (ln_optimization_level l < 2 → ln_pool m = ln_pool l).

Lemma light_wash_same l m txs :
  light_replica l m → (light_wash txs m).1 = (light_wash txs l).1
    ∧ (ln_optimization_level l < 2 → (light_wash txs m).2 = (light_wash txs l).2).
Proof.
  intros (_ & _ & _ & Eo & Ep). unfold light_wash. rewrite Eo.
  destruct (Z.ltb_spec (ln_optimization_level l) 2); [by rewrite Ep|]. split; [done|lia].
Qed.

Lemma light_EXECUTE_BLK_replica cmd l m r cmd' l' :
  light_good executeTx l → light_replica l m → light_EXECUTE_BLK executeTx txVerifier cmd l = Ret (r, cmd', l') →
  cmd' = cmd ∧ (∃ m', light_EXECUTE_BLK executeTx txVerifier cmd m = Ret (r, cmd, m') ∧ light_replica l' m')
  ∨ cmd' = "" ∧ light_replica l' m.
Proof.
  intros Hok HR. pose proof HR as (Hn & Hh & Ew & Eo & Ep). unfold light_EXECUTE_BLK.
  destruct (Blk_fromString (cmd_arg cmd)) as [[b|]| |]; cbn; try done.
  2: { intros [= <- <- <-]. by right. }
  destruct (light_wash_same l m (blk_txs b) HR) as [E1 E2].
  destruct (light_wash (blk_txs b) l) as [txs p], (light_wash (blk_txs b) m) as [txs' p']. cbn in E1, E2. subst txs'.
  destruct (execute_Blk_spec executeTx txVerifier Hv (mkBlk (blk_header b) txs) (ln_world l) Hok)
    as (eb & w' & _ & Ex & _). rewrite Ew, Ex. cbn. intros [= <- <- <-]. left. split; [done|].
  eexists. split; [done|]. by split_and!.
Qed.

Lemma light_ADD_TXS_fails cmd l r cmd' l' :
  light_good executeTx l →
  light_ADD_TXS executeTx txVerifier cmd l = Ret (r, cmd', l') → r = "OK" ∨ cmd' = "" ∧ l' = l.
Proof.
  intros Hok. unfold light_ADD_TXS. destruct (parse_to_array (cmd_arg cmd)) as [[|t txs]| |]; cbn; try (by intros [= <- <- <-]; right).
  unfold seal_Blk_and_update_cmd. destruct (light_wash (t :: txs) l) as [txs' p].
  destruct (execute_Blk_spec executeTx txVerifier Hv
    (mkBlk (mkBlkHeader (ln_next_blk_number l) (ln_previous_hash l)) txs') (ln_world l) Hok) as (eb & w' & _ & -> & _).
  cbn. intros [= <- _ _]. by left.
Qed.

Lemma light_EXECUTE_BLK_level cmd l r cmd' l' :
  light_good executeTx l →
  light_EXECUTE_BLK executeTx txVerifier cmd l = Ret (r, cmd', l') →
  ln_optimization_level l' = ln_optimization_level l.
Proof.
  intros Hok. unfold light_EXECUTE_BLK. destruct (Blk_fromString (cmd_arg cmd)) as [[b|]| |]; cbn; try done; [|by intros [= _ _ <-]].
  destruct (light_wash (blk_txs b) l) as [txs p].
  destruct (execute_Blk_spec executeTx txVerifier Hv (mkBlk (blk_header b) txs) (ln_world l) Hok)
    as (eb & w' & _ & -> & _). by intros [= _ _ <-].
Qed.

Lemma light_execute_replica cmd l m r cmd' l' :
  light_good executeTx l → light_replica l m → light_execute executeTx txVerifier cmd l = Ret (r, cmd', l') →
  ∃ r' m', light_execute executeTx txVerifier cmd' m = Ret (r', cmd', m') ∧ light_replica l' m'.
Proof.
  intros Hok HR. destruct cmd as [|c arg]; cbn [light_execute].
  { intros [= <- <- <-]. by exists "", m. }
  destruct (Ascii.eqb c "b") eqn:Ecb.
  - intros Hx. destruct (light_EXECUTE_BLK_replica _ _ _ _ _ _ Hok HR Hx) as [(-> & m' & Hm & HR')|(-> & HR')].
    + exists r, m'. cbn. by rewrite Ecb.
    + by exists "", m.
  - destruct (Ascii.eqb c "t") eqn:Ect.
    + intros Hx. destruct (light_ADD_TXS_fails _ _ _ _ _ Hok Hx) as [->|[-> ->]]; [|by exists "", m].
      pose proof HR as (Hn & Hh & Ew & Eo & Ep).
      destruct (light_replica_lem executeTx txVerifier _ _ l l' m Hn Hh Hx Ew Eo Ep) as (m' & Hm & Ew' & Ep').
      exists "OK", m'. split; [done|].
      apply light_ADD_TXS_inv in Hx as (txs & p & w & _ & _ & _ & -> & ->).
      split_and!; cbn in *; [apply u64_range|by apply length_serial_hash|done| |done].
      apply light_EXECUTE_BLK_level in Hm as ->; [done|]. unfold light_good. by rewrite Ew.
    + intros [= <- <- <-]. by exists "", m.
Qed.

Lemma light_execute_total cmd l : light_good executeTx l → ∃ r cmd' l', light_execute executeTx txVerifier cmd l = Ret (r, cmd', l').
Proof.
  intros Hok. destruct cmd as [|c arg]; cbn [light_execute]; [eauto|]. destruct (Ascii.eqb c "b").
  - unfold light_EXECUTE_BLK. destruct (Blk_fromString_total (cmd_arg (String c arg))) as [[b|] ->]; cbn; [|eauto].
    destruct (light_wash (blk_txs b) l) as [txs p].
    destruct (execute_Blk_spec executeTx txVerifier Hv (mkBlk (blk_header b) txs) (ln_world l) Hok)
      as (eb & w' & _ & -> & _). cbn. eauto.
  - destruct (Ascii.eqb c "t"); [|unfold clear_cmd_and_complain; eauto]. unfold light_ADD_TXS.
    assert (no_ub (parse_to_array (cmd_arg (String c arg)))) as Hu
      by (apply no_ub_mapO; intros x; apply Tx_fromPb_no_ub).
    destruct (parse_to_array (cmd_arg (String c arg))) as [[|t txs]| |]; cbn; [eauto| |eauto|done].
    unfold seal_Blk_and_update_cmd. destruct (light_wash (t :: txs) l) as [txs' p].
    destruct (execute_Blk_spec executeTx txVerifier Hv
      (mkBlk (mkBlkHeader (ln_next_blk_number l) (ln_previous_hash l)) txs') (ln_world l) Hok) as (eb & w' & _ & -> & _).
    cbn. eauto.
Qed.
End light.

(** The nodes whose state the executor takes, with the contract that the
    consensus algorithms ask for. *)
Section good.
Context `{WireFormats} {W} `{IWorldLaws W} {P} `{IPoolLaws P} (executeTx : TxExecutable).
Context {TL : TxExecutorLaws (W:=W) executeTx} (txVerifier : option (Tx → outcome bool)).
Context (Hv : ∀ f t, txVerifier = Some f → ∃ r, f t = Ret r).
Definition GoodNode : Type := { n : ExeForCnsss.Node P W | node_good executeTx n }.

Definition good_execute (cmd : string) (e : GoodNode) : outcome (string * string * GoodNode) :=
  match ExeForCnsss.execute executeTx txVerifier cmd (`e) as o
        return ExeForCnsss.execute executeTx txVerifier cmd (`e) = o → outcome (string * string * GoodNode) with
  | Ret (r, cmd', n') => λ Hx, Ret (r, cmd', n' ↾ execute_ok executeTx txVerifier Hv _ _ _ _ _ (proj2_sig e) Hx)
  | Throw m => λ _, Throw m
  | UB why => λ _, UB why
  end eq_refl.

Lemma good_execute_proj cmd e r cmd' e' :
  good_execute cmd e = Ret (r, cmd', e') → ExeForCnsss.execute executeTx txVerifier cmd (`e) = Ret (r, cmd', `e').
Proof.
  unfold good_execute. generalize (execute_ok executeTx txVerifier Hv cmd (`e)).
  destruct (ExeForCnsss.execute executeTx txVerifier cmd (`e)) as [[[r0 c0] n0]| |]; try done.
  by intros ? [= <- <- <-].
Qed.
Lemma good_execute_lift cmd e r cmd' n' :
  ExeForCnsss.execute executeTx txVerifier cmd (`e) = Ret (r, cmd', n') →
  ∃ e', good_execute cmd e = Ret (r, cmd', e') ∧ `e' = n'.
Proof.
  unfold good_execute. generalize (execute_ok executeTx txVerifier Hv cmd (`e)).
  destruct (ExeForCnsss.execute executeTx txVerifier cmd (`e)) as [[[r0 c0] n0]| |]; try done.
  intros Hk [= <- <- <-]. by eexists.
Qed.

Definition GoodNode_executable : IForConsensusExecutable GoodNode := {| cnsss_execute := good_execute |}.
Lemma GoodNode_total : IForConsensusExecutableLaws GoodNode (H:=GoodNode_executable).
Proof.
  split. intros cmd e. destruct (execute_total executeTx txVerifier Hv cmd _ (proj2_sig e)) as (r & cmd' & n' & Hx).
  destruct (good_execute_lift _ _ _ _ _ Hx) as (e' & Hx' & _). by exists r, cmd', e'.
Qed.
Definition GoodNode_contract : IForConsensusExecutableContract GoodNode (H:=GoodNode_executable).
Proof.
  refine {| replica e f := node_replica (`e) (`f) |}. intros cmd e f r cmd' e' HR Hx.
  destruct (execute_replica executeTx txVerifier Hv _ _ _ _ _ _ (proj2_sig e) HR (good_execute_proj _ _ _ _ _ Hx))
    as (r' & m' & Hm & HR' & _).
  destruct (good_execute_lift _ _ _ _ _ Hm) as (f' & Hf & Ef). exists r', cmd', f'.
  split; [exact Hf|]. rewrite Ef. exact HR'.
Defined.
End good.

(** ** Theorems *)

(** C25: The contract of the executors.  A replica has the world of the primary
    and has seen the same transactions; what the primary leaves of a command -
    the refused transactions dropped, a failed command emptied, a request turned
    into a sealed block by the light executor - is taken by the replica as it
    stands and keeps it a replica. *)
Theorem executors_keep_contract `{WireFormats} {W} `{IWorldLaws W} {P} `{IPoolLaws P} executeTx
    {TL : TxExecutorLaws (W:=W) executeTx} txVerifier :
  (∀ f t, txVerifier = Some f → ∃ r, f t = Ret r) →
  (∀ cmd (n m : ExeForCnsss.Node P W) r cmd' n', node_good executeTx n → node_replica n m →
     ExeForCnsss.execute executeTx txVerifier cmd n = Ret (r, cmd', n') →
     ∃ r' m', ExeForCnsss.execute executeTx txVerifier cmd' m = Ret (r', cmd', m') ∧ node_replica n' m'
       ∧ (r = "OK" → r' = "OK"))
  ∧ (∀ cmd (l m : LightNode W Mempool) r cmd' l', light_good executeTx l → light_replica l m →
     light_execute executeTx txVerifier cmd l = Ret (r, cmd', l') →
     ∃ r' m', light_execute executeTx txVerifier cmd' m = Ret (r', cmd', m') ∧ light_replica l' m').
Proof.
  intros Hv. split; intros cmd n m r cmd' n' Hok HR Hx;
    [by eapply execute_replica|by eapply light_execute_replica].
Qed.

Lemma executors_keep_contract_witness :
  ∃ r cmd' n' r' m',
    ExeForCnsss.execute (H:=ToyWire.toy_wire) total_executor None (add_cmd [tx_example; tx_example']) node_example
      = Ret (r, cmd', n')
    ∧ ExeForCnsss.execute (H:=ToyWire.toy_wire) total_executor None cmd' node_example = Ret (r', cmd', m')
    ∧ node_replica n' m'.
Proof.
  destruct (execute_total (H:=ToyWire.toy_wire) total_executor None no_verifier_total
    (add_cmd [tx_example; tx_example']) node_example (total_node_good _)) as (r & cmd' & n' & Hx).
  destruct (executors_keep_contract (H:=ToyWire.toy_wire) (P:=Mempool) (W:=InRam.InRamWorldStorage) total_executor None)
    as [HC _].
  - apply no_verifier_total.
  - destruct (HC (add_cmd [tx_example; tx_example']) node_example node_example r cmd' n') as (r' & m' & Hm & HR & _).
    + apply total_node_good.
    + split; [reflexivity|]. apply pool_replica_refl, pool_example_inv.
    + exact Hx.
    + exists r, cmd', n', r', m'. exact (conj Hx (conj Hm HR)).
Defined.

(** C24: Replicas under Raft.  All nodes follow one primary, no patience ends, the
    network loses nothing and keeps the order between two nodes, and the executor
    keeps its contract.  Then a follower that started as a replica of the primary is a
    replica of a state that the primary went through; the primary has since
    executed exactly the commands that are on their way to the follower. *)
Theorem raft_replicas_agree {E} {IX : IForConsensusExecutable E} {IXL : IForConsensusExecutableLaws E}
    {IXC : IForConsensusExecutableContract E} (NO_CONFIG : bool) (eps : list string) (p : string) c0 c ls
    s (p0 p1 n0 n : Raft E) :
  settled eps p c0 → steps NO_CONFIG ls c0 c → Forall orderly ls →
  nodes c0 !! p = Some p0 → nodes c !! p = Some p1 → nodes c0 !! s = Some n0 → nodes c !! s = Some n → s ≠ p →
  replica (Raft.exe p0) (Raft.exe n0) →
  ∃ seen rest log e,
    RaftReplication.commands ls ≡ₚ (seen ++ rest) ++ forwarded p (flight c)
    ∧ run_cmds seen (Raft.exe p0) = Ret (log, e) ∧ run_cmds rest e = Ret (broadcast p s (flight c), Raft.exe p1)
    ∧ replica e (Raft.exe n).
Proof.
  intros Hc Hst Ho Hp0 Hp1 Hn0 Hn Hs HR.
  destruct (rep_steps NO_CONFIG eps p c0 c ls Hc Hst Ho) as (orders & log & [_ _ _ Hperm Hprim Hsubs]).
  destruct (Hsubs s n0 n Hs Hn0 Hn) as (replayed & cs & -> & Hr).
  pose proof (Hprim p0 p1 Hp0 Hp1) as Hrun.
  destruct (run_cmds_split _ _ _ _ _ Hrun) as (seen & rest & e & -> & H1 & H2).
  destruct (replica_run _ _ _ _ _ HR H1) as (cs' & f & Hf & HR'). rewrite Hr in Hf. injection Hf as _ <-.
  by exists seen, rest, replayed, e.
Qed.

Lemma raft_replicas_agree_witness :
  ∃ (c0 c : Cluster Executable) ls p0 p1 n0 n seen rest log e,
    steps false ls c0 c ∧ nodes c0 !! "A" = Some p0 ∧ nodes c !! "A" = Some p1
    ∧ nodes c0 !! "C" = Some n0 ∧ nodes c !! "C" = Some n
    ∧ ["x"; "y"] ≡ₚ (seen ++ rest) ++ [] ∧ run_cmds seen (Raft.exe p0) = Ret (log, e) ∧ replica e (Raft.exe n).
Proof.
  destruct replication_run as (c0 & ls & c & Hc & Hst & Ho & Hcmds & Hfl & (p0 & p1 & Hp0 & Hp1 & Ep) & (n0 & n & Hn0 & Hn & En & _)).
  destruct (raft_replicas_agree false three "A" c0 c ls "C" p0 p1 n0 n) as (seen & rest & log & e & H1 & H2 & _ & H4).
  - exact Hc.
  - exact Hst.
  - exact Ho.
  - exact Hp0.
  - exact Hp1.
  - exact Hn0.
  - exact Hn.
  - discriminate.
  - exact (eq_trans En (eq_sym Ep)).
  - rewrite Hcmds, Hfl in H1. exists c0, c, ls, p0, p1, n0, n, seen, rest, log, e.
    exact (conj Hst (conj Hp0 (conj Hp1 (conj Hn0 (conj Hn (conj H1 (conj H2 H4))))))).
Defined.
