(* ===== verification/System.v ===== *)
(** * Whole nodes

    cnsss/cnsssBlkChainAsstn.hpp connects RPC and sealer to the consensus, and
    init/init.hpp gives every node a pool, an executor, a sealer and a
    consensus.  Here a group of such nodes under listen-to-one: nodes join,
    clients give transactions to any member, the loops of the sealers turn. *)
From Stdlib Require Import ZArith Strings.Byte Strings.String Strings.Ascii Lia.
From stdpp Require Import base tactics strings gmap option numbers list.
From S2P Require Import Prelude Text Hex Keccak Core Net Codec CoreJson PostExec Storage Mempool Exec Chain.
From S2P Require Import ExeForCnsss Consensus Rbft Raft ListenToOne Replicas.

Local Open Scope Z_scope.

(** ** cnsssBlkChainAsstn.hpp *)

(** The consensus as the block chain sees it, in the state [S]. *)
Class ICnsssPrimaryBased (S : Type) := {
  cnsss_is_primary : stM S bool;
  cnsss_handle_execute : string → string → stM S (option string)
}.
Definition Raft_cnsss {E} `{IForConsensusExecutable E} (NO_CONFIG : bool) : ICnsssPrimaryBased (Raft E) := {|
  cnsss_is_primary := gets Raft.is_primary;
  cnsss_handle_execute endpoint data := r ← Raft.handle_execute NO_CONFIG endpoint data; mret (Some r)
|}.
Definition Rbft_cnsss {M E} `{IForConsensusExecutable E} : ICnsssPrimaryBased (Rbft.Rbft (M:=M) (E:=E)) := {|
  cnsss_is_primary := Rbft.is_primary;
  cnsss_handle_execute endpoint data := r ← Rbft.handle_execute endpoint data; mret (Some r)
|}.
Definition ListenToOne_cnsss {E} `{IForConsensusExecutable E} {codec : PbCodec PbYouAreInTicket} (depth : nat) (self : string)
    : ICnsssPrimaryBased (gmap string (ListenToOne.Node E)) := {|
  cnsss_is_primary := ListenToOne.is_primary self;
  cnsss_handle_execute := ListenToOne.handle_execute depth self
|}.

Section asstn.
Context {S : Type} `{ICnsssPrimaryBased S} `{WireFormats}.
Definition addTxs (txs : list Tx) : stM S bool :=
  r ← cnsss_handle_execute "CLIENT" (String "t" (serialize_from_array txs)); mret (bool_decide (is_Some r)).
Definition postBlk (b : BlkForConsensus) : stM S bool :=
  r ← cnsss_handle_execute "SEALER" (String "b" (BlkForConsensus_toString b)); mret (bool_decide (is_Some r)).
Definition isPrimary : stM S bool := cnsss_is_primary.
Definition info : string := json_serialize (JObject [("consensus_status", JString "Okay")]).

(** One turn of the loop of [Sealer::run]; [getPool] is the pool of the node. *)
Definition Sealer_turn {P} `{IPool P} (getPool : stM S P) (s : Sealer) : stM S Sealer :=
  b ← isPrimary;
  if (b : bool) then
    p ← getPool;
    match check_and_seal_maybe s p with
    | (None, s) => mret s
    | (Some b, s) => postBlk b ≫= λ _, mret s
    end
  else mret s.
End asstn.

(** ** A group of whole nodes: listen-to-one, executors, pools, sealers *)
Inductive sys_op := SJoin (s : string) (remember_cmds : bool) | SAddTxs (s : string) (txs : list Tx) | SSeal (s : string).
Definition members (ops : list sys_op) : list string :=
  omap (λ o, match o with SJoin s _ => Some s | _ => None end) ops.

Section group.
Context `{WireFormats} {W} `{IWorldLaws W} {P} `{IPoolLaws P} {codec : PbCodec PbYouAreInTicket}.
Context (executeTx : TxExecutable) {TL : TxExecutorLaws (W:=W) executeTx} (txVerifier : option (Tx → outcome bool)).
Context (Hv : ∀ f t, txVerifier = Some f → ∃ r, f t = Ret r).
Abbreviation E := (GoodNode (P:=P) (W:=W) executeTx).
Abbreviation World := (gmap string (ListenToOne.Node E)).
#[local] Instance E_executable : IForConsensusExecutable E := GoodNode_executable executeTx txVerifier Hv.
#[local] Instance E_total : IForConsensusExecutableLaws E := GoodNode_total executeTx txVerifier Hv.
#[local] Instance E_contract : IForConsensusExecutableContract E := GoodNode_contract executeTx txVerifier Hv.
(** The executor behind the consensus of a node. *)
Definition exe_of (n : ListenToOne.Node E) : ExeForCnsss.Node P W := proj1_sig (ListenToOne.exe n).
(** The endpoint of the primary; executor and sealer of a node that starts. *)
Context (p : string) (e0 : string → E) (s0 : string → Sealer) (depth : nat).

(** Executor and sealer of a node share the pool. *)
Definition getPool (s : string) : stM World P := this s (λ n, nd_pool (exe_of n)).

Definition sys_step (o : sys_op) (sealers : gmap string Sealer) : stM World (gmap string Sealer) :=
  match o with
  | SJoin s b => ListenToOne.create depth s (e0 s) p b ≫= λ _, mret (<[s := s0 s]> sealers)
  | SAddTxs s txs => addTxs (H:=ListenToOne_cnsss depth s) txs ≫= λ _, mret sealers
  | SSeal s =>
      match sealers !! s with
      | None => mret sealers
      | Some sl => sl ← Sealer_turn (H:=ListenToOne_cnsss depth s) (getPool s) sl; mret (<[s := sl]> sealers)
      end
  end.
Fixpoint sys_run (ops : list sys_op) (sealers : gmap string Sealer) : stM World (gmap string Sealer) :=
  match ops with
  | [] => mret sealers
  | o :: ops => sealers ← sys_step o sealers; sys_run ops sealers
  end.
(** The primary starts, then the rest happens. *)
Definition sys_start (ops : list sys_op) : World * outcome (gmap string Sealer) :=
  (ListenToOne.create depth p (e0 p) "" true ≫= λ _, sys_run ops {[p := s0 p]}) ∅.

(** Nodes join once; transactions are given to members. *)
Fixpoint sys_valid (ms : list string) (ops : list sys_op) : Prop :=
  match ops with
  | [] => True
  | SJoin s _ :: ops => s ≠ p ∧ (s ∉ ms) ∧ sys_valid (ms ++ [s]) ops
  | SAddTxs s _ :: ops => (s = p ∨ s ∈ ms) ∧ sys_valid ms ops
  | SSeal _ :: ops => sys_valid ms ops
  end.

(** Every transaction the pool has seen is pending or on the chain. *)
Definition accounted (c : list ExecBlk) (n : ExeForCnsss.Node P W) : Prop :=
  ∀ h, h ∈ known (nd_pool n) → (h ∈ Tx_hash <$> pending (nd_pool n)) ∨ h ∈ Tx_hash <$> chain_txs c.
Definition given (ops : list sys_op) : list Tx :=
  mjoin (omap (λ o, match o with SAddTxs _ txs => Some txs | _ => None end) ops).

Record SInv (ms : list string) (c : list ExecBlk) (txs : list Tx) (w : World) (sealers : gmap string Sealer) : Prop := {
  s_group : ∃ orders log, LInv p e0 ms orders log w;
  s_primary : ∃ np, w !! p = Some np ∧ node_inv c (exe_of np)
    ∧ (txVerifier = None → accounted c (exe_of np))
    ∧ (∀ t, t ∈ txs → Tx_hash t ∈ known (nd_pool (exe_of np)));
  s_sealer : ∃ sl, sealers !! p = Some sl ∧ next_blk_number sl = Z.of_nat (length c)
    ∧ length (previous_hash sl) = 32%nat;
  s_sealers : ∀ s sl, sealers !! s = Some sl → s = p ∨ s ∈ ms ∧ sl = s0 s;
  s_members : ∀ s, s ∈ ms → is_Some (sealers !! s)
}.

(** A command, given to any member, is executed by the primary. *)
Lemma group_command k s q d ms orders log (w : World) np :
  depth = S (S k) → LInv p e0 ms orders log w → s = p ∨ s ∈ ms → q ≠ p → w !! p = Some np →
  ∃ w' a np' r d' orders' log', ListenToOne.handle_execute depth s q d w = (w', Ret (Some a))
    ∧ LInv p e0 ms orders' log' w' ∧ w' !! p = Some np'
    ∧ ExeForCnsss.execute executeTx txVerifier d (exe_of np) = Ret (r, d', exe_of np').
Proof.
  intros Hk HI Hs Hq Hnp. destruct (LInv_command p e0 k s q d _ _ _ _ HI Hs Hq) as (w' & a & log' & Hx & HI').
  rewrite <-Hk in Hx.
  pose proof (l_primary _ _ _ _ _ _ HI) as (np0 & Hnp0 & _ & _ & _ & _ & _ & Hrun).
  pose proof (l_primary _ _ _ _ _ _ HI') as (np' & Hnp' & _ & _ & _ & _ & _ & Hrun').
  rewrite Hnp in Hnp0. injection Hnp0 as <-.
  destruct (run_cmds_snoc_inv _ _ _ _ _ _ _ Hrun Hrun') as (r & d' & Hd).
  exists w', a, np', r, d', (orders ++ [d]), log'. do 3 (split; [done|]). exact (good_execute_proj _ _ _ _ _ _ _ _ Hd).
Qed.

Lemma ADD_TXS_accounted c arg n r cmd' n' :
  pool_inv (nd_pool n) → handle_ADD_TXS (String "t" arg) n = Ret (r, cmd', n') →
  (accounted c n → accounted c n') ∧ (∀ h, h ∈ known (nd_pool n) → h ∈ known (nd_pool n'))
  ∧ (∀ txs t, parse_to_array arg = Ret txs → t ∈ txs → Tx_hash t ∈ known (nd_pool n')).
Proof.
  intros Hp. unfold handle_ADD_TXS. cbn [cmd_arg].
  destruct (parse_to_array arg) as [txs| |] eqn:Ep; [|intros [= _ _ <-]; split_and!; auto; by intros ? ? [=]|done].
  pose proof (parse_to_array_wire _ _ Ep) as Hwire.
  assert (Forall Tx_wf txs) as Hw by (eapply Forall_impl; [exact Hwire|]; by intros ? []).
  pose proof (add_loop_spec txs (nd_pool n) Hp Hw) as HS. pose proof (add_loop_complete txs (nd_pool n) Hp Hw) as HC.
  destruct (add_loop txs (nd_pool n)) as [l q]. destruct HS as (_ & HP & Ek & _ & _). cbn in HC.
  intros Hx. assert (n' = ExeForCnsss.mkNode q (nd_world n)) as -> by (destruct l; cbn in Hx; by injection Hx).
  unfold accounted. cbn [nd_pool]. rewrite Ek. split_and!.
  - intros HA h [Hh|(t & -> & Ht)%elem_of_list_to_set%list_elem_of_fmap]%elem_of_union;
      rewrite HP, fmap_app, elem_of_app; [destruct (HA h Hh); tauto|].
    destruct (HC t Ht) as [Hk|Hr]; [destruct (HA _ Hk); tauto|tauto].
  - set_solver.
  - intros txs' t [= <-] Ht. apply elem_of_union_r, elem_of_list_to_set. by apply list_elem_of_fmap_2.
Qed.

Lemma EXECUTE_BLK_known cmd n r cmd' n' :
  node_good executeTx n → pool_inv (nd_pool n) → handle_EXECUTE_BLK executeTx txVerifier cmd n = Ret (r, cmd', n') →
  known (nd_pool n') = known (nd_pool n).
Proof.
  intros Hok Hp. unfold handle_EXECUTE_BLK.
  destruct (BlkForConsensus_fromString (cmd_arg cmd)) as [[b|]| |] eqn:Eb; cbn; try done; [|by intros [= _ _ <-]].
  pose proof (BlkForConsensus_fromString_wf _ _ Eb) as [_ Hl].
  pose proof (toBlk_loop_spec (bfc_txhs b) (nd_pool n) Hp Hl) as HT. unfold toBlk.
  destruct (toBlk_loop (bfc_txhs b) (nd_pool n)) as [[ts|] q]; destruct HT as (_ & Ek & _); cbn; [|by intros [= _ _ <-]].
  destruct (execute_Blk_spec executeTx txVerifier Hv (mkBlk (bfc_header b) ts) (nd_world n) Hok) as (? & w' & _ & -> & _).
  by intros [= _ _ <-].
Qed.

Lemma SInv_join k s b ms c txs (w : World) sealers :
  depth = S (S k) → p ≠ "" → s ≠ p → s ∉ ms → SInv ms c txs w sealers →
  ∃ w' sealers', sys_step (SJoin s b) sealers w = (w', Ret sealers') ∧ SInv (ms ++ [s]) c txs w' sealers'.
Proof.
  intros Hk Hp Hs Hm [(orders & log & HI) (np & Hnp & Hprim) (sl & Hsl & Hseal) Hdom Hmem].
  destruct (LInv_join p e0 (S k) s b _ _ _ _ HI Hs Hm Hp) as (w' & Hc & HI'). rewrite <-Hk in Hc.
  exists w', (<[s := s0 s]> sealers). split; [cbn [sys_step]; by erewrite bind_eq by exact Hc|]. constructor.
  - by exists orders, log.
  - pose proof (l_primary _ _ _ _ _ _ HI) as (np0 & Hnp0 & _ & _ & _ & _ & _ & Hrun).
    pose proof (l_primary _ _ _ _ _ _ HI') as (np' & Hnp' & _ & _ & _ & _ & _ & Hrun').
    rewrite Hnp in Hnp0. injection Hnp0 as <-. exists np'. split; [done|].
    rewrite Hrun in Hrun'. injection Hrun' as Hrun'. unfold exe_of. by rewrite <-Hrun'.
  - exists sl. by rewrite lookup_insert_ne.
  - intros s' sl'. rewrite lookup_insert_Some. intros [[<- <-]|[_ Hs']]; [right; set_solver|].
    destruct (Hdom s' sl' Hs') as [|[? ?]]; [by left|right; set_solver].
  - intros s' [Hs' | ->%list_elem_of_singleton]%elem_of_app; rewrite lookup_insert_is_Some'; [right; auto|by left].
Qed.

Lemma SInv_add k s new ms c txs (w : World) sealers :
  depth = S (S k) → p ≠ "CLIENT" → s = p ∨ s ∈ ms → Forall wire_tx new → SInv ms c txs w sealers →
  ∃ w' sealers', sys_step (SAddTxs s new) sealers w = (w', Ret sealers') ∧ SInv ms c (txs ++ new) w' sealers'.
Proof.
  intros Hk Hp Hs Hw [(orders & log & HI) (np & Hnp & Hni & Hacc & Hknown) Hseal Hdom Hmem].
  destruct (group_command k s "CLIENT" (String "t" (serialize_from_array new)) _ _ _ _ np Hk HI Hs ltac:(done) Hnp)
    as (w' & a & np' & r & d' & orders' & log' & Hx & HI' & Hnp' & Hex).
  exists w', sealers. split.
  { cbn [sys_step]. unfold addTxs. cbn [cnsss_handle_execute ListenToOne_cnsss].
    erewrite bind_eq; [done|]. by erewrite bind_eq by exact Hx. }
  change (handle_ADD_TXS (String "t" (serialize_from_array new)) (exe_of np) = Ret (r, d', exe_of np')) in Hex.
  destruct (ADD_TXS_accounted c _ _ _ _ _ (ni_pool _ _ Hni) Hex) as (HA & HK & HN).
  constructor; [by exists orders', log'| |done|done|done].
  exists np'. split_and!; [done|by eapply handle_ADD_TXS_inv|auto|].
  intros t [Ht|Ht]%elem_of_app; [by apply HK, Hknown|]. apply (HN new); [by apply serialize_wire|done].
Qed.

Lemma SInv_seal k s ms c txs (w : World) sealers :
  depth = S (S k) → p ≠ "SEALER" → Z.of_nat (length c) + 1 < 2 ^ 64 → SInv ms c txs w sealers →
  ∃ w' sealers' c', sys_step (SSeal s) sealers w = (w', Ret sealers') ∧ SInv ms (c ++ c') txs w' sealers'
    ∧ (length c' <= 1)%nat.
Proof.
  intros Hk Hp Hlen HS. pose proof HS as [(orders & log & HI) (np & Hnp & Hni & Hacc & Hknown) (sl & Hsl & Hn & Hh) Hdom Hmem].
  assert (∀ x, (w, Ret x) = (w, Ret x) → SInv ms c txs w x →
    ∃ w' sealers' c', (w, Ret x) = (w', Ret sealers') ∧ SInv ms (c ++ c') txs w' sealers' ∧ (length c' <= 1)%nat) as Hstay.
  { intros x _ Hx. exists w, x, []. rewrite app_nil_r. cbn. auto with lia. }
  cbn [sys_step]. destruct (sealers !! s) as [sls|] eqn:Es; [|by apply Hstay].
  assert (SInv ms c txs w (<[s := sls]> sealers)) as Hsame by (by rewrite insert_id).
  unfold Sealer_turn, isPrimary. cbn [cnsss_is_primary ListenToOne_cnsss]. unfold ListenToOne.is_primary, getPool.
  destruct (Hdom s sls Es) as [->|[Hs _]].
  2: { destruct (l_subs _ _ _ _ _ _ HI s Hs) as (n & cs & Hns & (Hme & _) & _).
       erewrite bind_eq; [by apply Hstay|]. erewrite bind_eq by (by apply this_eq). by rewrite Hme. }
  pose proof (l_primary _ _ _ _ _ _ HI) as (np0 & Hnp0 & Hme & _).
  rewrite Hnp in Hnp0. injection Hnp0 as <-. rewrite Hsl in Es. injection Es as <-.
  destruct (check_and_seal_maybe sl (nd_pool (exe_of np))) as [[b|] sl'] eqn:Ec.
  2: { assert (sl' = sl) as -> by (unfold check_and_seal_maybe in Ec; destruct (getTxHashesForSeal _); [by injection Ec|done]).
       erewrite bind_eq; [by apply Hstay|]. erewrite bind_eq by (by apply this_eq). rewrite Hme.
       erewrite bind_eq by (by apply this_eq). by rewrite Ec. }
  destruct (sealed_block_lem executeTx txVerifier c (exe_of np) sl b sl' Hv (proj2_sig _) Hni Hn ltac:(lia) Hh Ec)
    as (ts & rest & eb & n' & Epend & _ & Hex & Hni' & Hrest & _ & _ & Hnone).
  destruct (group_command k p "SEALER" (String "b" (BlkForConsensus_toString b)) _ _ _ _ np Hk HI ltac:(by left)
    ltac:(done) Hnp) as (w' & a & np' & r & d' & orders' & log' & Hx & HI' & Hnp' & Hex').
  rewrite Hex in Hex'. injection Hex' as <- <- ->.
  exists w', (<[p := sl']> sealers), [eb]. split_and!; [|constructor|cbn; lia].
  - erewrite bind_eq; [done|]. erewrite bind_eq by (by apply this_eq). rewrite Hme.
    erewrite bind_eq by (by apply this_eq). cbn [ListenToOne.exe]. rewrite Ec.
    erewrite bind_eq; [done|]. unfold postBlk. cbn [cnsss_handle_execute ListenToOne_cnsss].
    by erewrite bind_eq by exact Hx.
  - by exists orders', log'.
  - exists np'. assert (known (nd_pool (exe_of np')) = known (nd_pool (exe_of np))) as Ek.
    { exact (EXECUTE_BLK_known _ _ _ _ _ (proj2_sig _) (ni_pool _ _ Hni) Hex). }
    split_and!; [done|done| |intros t Ht; rewrite Ek; by apply Hknown].
    intros Hno h Hh'. rewrite Ek in Hh'. destruct (Hnone Hno) as [Eb _]. rewrite chain_txs_snoc, Eb, Hrest.
    destruct (Hacc Hno h Hh') as [Hp'|Hc]; [|right; rewrite fmap_app; by apply elem_of_app; left].
    rewrite Epend, fmap_app in Hp'. apply elem_of_app in Hp' as [Hp'|Hp']; [|by left].
    right. rewrite fmap_app. apply elem_of_app. by right.
  - exists sl'. rewrite lookup_insert_eq. split; [done|].
    unfold check_and_seal_maybe in Ec. destruct (getTxHashesForSeal _); [done|]. injection Ec as <- <-. cbn.
    rewrite length_app, Hn. cbn. split; [rewrite u64_small; unfold is_u64; lia|]. exact (length_serial_hash _ (_ :: _) Hh).
  - intros s' sl2. rewrite lookup_insert_Some. intros [[<- _]|[_ Hs']]; [by left|by apply Hdom].
  - intros s' Hs'. rewrite lookup_insert_is_Some'. right. by apply Hmem.
Qed.

Lemma SInv_run k ops ms c txs (w : World) sealers :
  depth = S (S k) → p ∉ [""; "CLIENT"; "SEALER"] → Z.of_nat (length c + length ops) < 2 ^ 64 →
  sys_valid ms ops → Forall wire_tx (given ops) → SInv ms c txs w sealers →
  ∃ w' sealers' c', sys_run ops sealers w = (w', Ret sealers')
    ∧ SInv (ms ++ members ops) (c ++ c') (txs ++ given ops) w' sealers'.
Proof.
  intros Hk Hp. assert (p ≠ "" ∧ p ≠ "CLIENT" ∧ p ≠ "SEALER") as (Hp1 & Hp2 & Hp3) by set_solver. clear Hp.
  revert ms c txs w sealers. induction ops as [|o ops IH]; intros ms c txs w sealers Hlen Hval Hw HS.
  { exists w, sealers, []. cbn. rewrite !app_nil_r. by split. }
  cbn [length] in Hlen. cbn [sys_run].
  destruct o as [s b|s new|s]; cbn [sys_valid] in Hval.
  - destruct Hval as (Hs & Hm & Hval).
    destruct (SInv_join k s b _ _ _ _ _ Hk Hp1 Hs Hm HS) as (w1 & ss1 & Hx & HS1).
    destruct (IH _ c _ _ _ ltac:(lia) Hval Hw HS1) as (w' & ss' & c' & Hr & HS').
    exists w', ss', c'. split; [by erewrite bind_eq by exact Hx|]. by rewrite <-(assoc_L (++)) in HS'.
  - destruct Hval as (Hs & Hval). unfold given in Hw. cbn in Hw. apply Forall_app in Hw as [Hnew Hw].
    destruct (SInv_add k s new _ _ _ _ _ Hk Hp2 Hs Hnew HS) as (w1 & ss1 & Hx & HS1).
    destruct (IH _ c _ _ _ ltac:(lia) Hval Hw HS1) as (w' & ss' & c' & Hr & HS').
    exists w', ss', c'. split; [by erewrite bind_eq by exact Hx|]. by rewrite <-(assoc_L (++) txs) in HS'.
  - destruct (SInv_seal k s _ c _ _ _ Hk Hp3 ltac:(lia) HS) as (w1 & ss1 & c1 & Hx & HS1 & Hc1).
    destruct (IH _ (c ++ c1) _ _ _ ltac:(rewrite length_app; lia) Hval Hw HS1) as (w' & ss' & c' & Hr & HS').
    exists w', ss', (c1 ++ c'). split; [by erewrite bind_eq by exact Hx|]. by rewrite (assoc_L (++)).
Qed.

Lemma SInv_start k c0 :
  depth = S (S k) → node_inv c0 (proj1_sig (e0 p)) → (txVerifier = None → accounted c0 (proj1_sig (e0 p))) →
  next_blk_number (s0 p) = Z.of_nat (length c0) → length (previous_hash (s0 p)) = 32%nat →
  ∃ w, ListenToOne.create depth p (e0 p) "" true ∅ = (w, Ret tt) ∧ SInv [] c0 [] w {[p := s0 p]}.
Proof.
  intros Hk Hni Hacc Hn Hh. destruct (LInv_create p e0 (S k)) as (w & Hc & HI). exists w.
  split; [by rewrite Hk|].
  constructor.
  - by exists [], [].
  - pose proof (l_primary _ _ _ _ _ _ HI) as (np & Hnp & _ & _ & _ & _ & _ & Hrun). injection Hrun as Hrun.
    exists np. unfold exe_of. rewrite <-Hrun. split_and!; [done..|]. by intros t ?%elem_of_nil.
  - exists (s0 p). by rewrite lookup_singleton_eq.
  - intros s sl [-> _]%lookup_singleton_Some. by left.
  - by intros s ?%elem_of_nil.
Qed.

Lemma group_replicas ms orders log (w : World) np :
  (∀ s, node_replica (proj1_sig (e0 p)) (proj1_sig (e0 s))) → LInv p e0 ms orders log w → w !! p = Some np →
  ∀ s, s ∈ ms → ∃ n, w !! s = Some n ∧ node_replica (exe_of np) (exe_of n).
Proof.
  intros Hrep HI Hnp s Hs.
  pose proof (l_primary _ _ _ _ _ _ HI) as (np0 & Hnp0 & _ & _ & _ & _ & _ & Hrun).
  rewrite Hnp in Hnp0. injection Hnp0 as <-.
  destruct (l_subs _ _ _ _ _ _ HI s Hs) as (n & cs & Hn & _ & Hr). exists n. split; [done|].
  destruct (replica_run (IXC:=E_contract) _ _ _ _ _ (Hrep s) Hrun) as (cs' & f & Hf & HR). rewrite Hr in Hf. by injection Hf as _ <-.
Qed.
End group.
Arguments exe_of {_ _ _ _ _ executeTx _} n.

(** C1: A whole system.  Nodes with the same database start, join the primary,
    take transactions from clients, and the sealers turn: nothing throws; there
    is one chain, in which no transaction is executed twice; the database of
    the primary represents it and every member has the same database and has
    seen the same transactions; and without a verifier every transaction given
    to any member is on that chain or pending at the primary. *)
Theorem group_keeps_one_chain `{WireFormats} {W} `{IWorldLaws W} {P} `{IPoolLaws P}
    {codec : PbCodec PbYouAreInTicket} executeTx
    {TL : TxExecutorLaws (W:=W) executeTx} txVerifier (Hv : ∀ f t, txVerifier = Some f → ∃ r, f t = Ret r)
    p (e0 : string → GoodNode (P:=P) (W:=W) executeTx) s0 depth c0 ops :
  (2 <= depth)%nat → p ∉ [""; "CLIENT"; "SEALER"] → sys_valid p [] ops → Forall wire_tx (given ops) →
  node_inv c0 (proj1_sig (e0 p)) → (txVerifier = None → accounted c0 (proj1_sig (e0 p))) →
  (∀ s, node_replica (proj1_sig (e0 p)) (proj1_sig (e0 s))) →
  next_blk_number (s0 p) = Z.of_nat (length c0) → length (previous_hash (s0 p)) = 32%nat →
  Z.of_nat (length c0 + length ops) < 2 ^ 64 →
  ∃ w sealers c np, sys_start executeTx txVerifier Hv p e0 s0 depth ops = (w, Ret sealers)
    ∧ c0 `prefix_of` c ∧ NoDup (Tx_hash <$> chain_txs c)
    ∧ w !! p = Some np ∧ represents c (chain_view (nd_world (exe_of np)))
    ∧ (∀ s, s ∈ members ops → ∃ n, w !! s = Some n
         ∧ nd_world (exe_of n) = nd_world (exe_of np)
         ∧ known (nd_pool (exe_of n)) = known (nd_pool (exe_of np)))
    ∧ (txVerifier = None → ∀ t, t ∈ given ops →
         Tx_hash t ∈ Tx_hash <$> pending (nd_pool (exe_of np)) ∨ Tx_hash t ∈ Tx_hash <$> chain_txs c).
Proof.
  intros Hd Hp Hval Hw Hni Hacc Hrep Hn Hh Hlen. destruct depth as [|[|k]]; [lia..|].
  destruct (SInv_start executeTx txVerifier Hv p e0 s0 _ k c0 eq_refl Hni Hacc Hn Hh) as (w0 & Hc & HS0).
  destruct (SInv_run executeTx txVerifier Hv p e0 s0 _ k ops [] c0 [] w0 {[p := s0 p]} eq_refl Hp Hlen Hval Hw HS0)
    as (w & sealers & c' & Hr & [(orders & log & HI) (np & Hnp & Hni' & Hacc' & Hkn) _ _ _]).
  exists w, sealers, (c0 ++ c'), np. split; [unfold sys_start; by erewrite bind_eq by exact Hc|].
  split; [by exists c'|]. split; [apply (ni_chain _ _ Hni')|]. split; [done|]. split; [apply (ni_rep _ _ Hni')|]. split.
  - intros s Hs. destruct (group_replicas executeTx txVerifier Hv p e0 _ _ _ w np Hrep HI Hnp s Hs) as (n & ? & Ew & _ & _ & Ek & _).
    by exists n.
  - intros Hno t Ht. by apply (Hacc' Hno), Hkn.
Qed.

(** A sealer learns nothing of the blocks that its node executes: that of a member
    still has the number it started with, and would seal it again if the node
    became primary. *)
Lemma member_sealer_stale `{WireFormats} {W} `{IWorldLaws W} {P} `{IPoolLaws P}
    {codec : PbCodec PbYouAreInTicket} executeTx
    {TL : TxExecutorLaws (W:=W) executeTx} txVerifier (Hv : ∀ f t, txVerifier = Some f → ∃ r, f t = Ret r)
    p (e0 : string → GoodNode (P:=P) (W:=W) executeTx) s0 depth c0 ops :
  (2 <= depth)%nat → p ∉ [""; "CLIENT"; "SEALER"] → sys_valid p [] ops → Forall wire_tx (given ops) →
  node_inv c0 (proj1_sig (e0 p)) → (txVerifier = None → accounted c0 (proj1_sig (e0 p))) →
  next_blk_number (s0 p) = Z.of_nat (length c0) → length (previous_hash (s0 p)) = 32%nat →
  Z.of_nat (length c0 + length ops) < 2 ^ 64 →
  ∃ w sealers, sys_start executeTx txVerifier Hv p e0 s0 depth ops = (w, Ret sealers)
    ∧ ∀ s, s ∈ members ops → s ≠ p → sealers !! s = Some (s0 s).
Proof.
  intros Hd Hp Hval Hw Hni Hacc Hn Hh Hlen. destruct depth as [|[|k]]; [lia..|].
  destruct (SInv_start executeTx txVerifier Hv p e0 s0 _ k c0 eq_refl Hni Hacc Hn Hh) as (w0 & Hc & HS0).
  destruct (SInv_run executeTx txVerifier Hv p e0 s0 _ k ops [] c0 [] w0 {[p := s0 p]} eq_refl Hp Hlen Hval Hw HS0)
    as (w & sealers & c' & Hr & [_ _ _ Hse Hme]).
  exists w, sealers. split; [unfold sys_start; by erewrite bind_eq by exact Hc|].
  intros s Hs Hsp. destruct (Hme s Hs) as [sl Hsl]. by destruct (Hse s sl Hsl) as [|[_ ->]].
Qed.

(** Under Raft, before the first election: transactions are sent nowhere and
    reported as accepted. *)
Lemma raft_no_primary_loses `{WireFormats} {E} `{IForConsensusExecutable E} NO_CONFIG txs (n : Raft E) :
  Raft.primary n = "" → Raft.listened_endpoint n ≠ "" →
  addTxs (H:=Raft_cnsss NO_CONFIG) txs n
  = (Raft.sending [mkSend "" "/pleaseExecute" (String "t" (serialize_from_array txs))] n, Ret true).
Proof.
  intros Hp Hl. unfold addTxs. cbn [cnsss_handle_execute Raft_cnsss]. unfold Raft.handle_execute, Raft.is_primary.
  unfold mbind, stM_bind, gets. rewrite Hp, (proj2 (String.eqb_neq "" _)) by done.
  unfold Raft.handle_execute_for_sub, mbind, stM_bind, gets. rewrite Hp. done.
Qed.

(** *** Example: three nodes, two transactions, two blocks *)
Section example.
Import ToyListenToOne.
#[local] Existing Instance ToyWire.toy_wire.
#[local] Existing Instance toy_ticket.
Definition example_ops : list sys_op :=
  [SAddTxs "P" [tx_example]; SJoin "A" true; SSeal "P"; SAddTxs "A" [tx_example']; SSeal "A"; SSeal "P"; SJoin "B" false].
Definition example_sealer (s : string) : Sealer := mkSealer 0 (replicate 32 x00).
Definition empty_good : GoodNode (P:=Mempool) (W:=InRam.InRamWorldStorage) total_executor :=
  empty_node ↾ total_node_good empty_node.
Definition example_system : gmap string (ListenToOne.Node (GoodNode (P:=Mempool) (W:=InRam.InRamWorldStorage) total_executor)) *
    outcome (gmap string Sealer) :=
  sys_start total_executor None no_verifier_total "P" (λ _, empty_good) example_sealer 2 example_ops.
Definition last_number (s : string) : option string :=
  n ← example_system.1 !! s; chain_view (nd_world (exe_of n)) !! number_key.
(** All three store block 1 as the last one. *)
Lemma example_numbers : last_number <$> ["P"; "A"; "B"] = replicate 3 (Some "1").
Proof. vm_compute. reflexivity. Qed.

Lemma example_valid : sys_valid "P" [] example_ops.
Proof. repeat split; by (apply (bool_decide_unpack _); vm_compute; done). Qed.
Lemma empty_node_inv : node_inv [] empty_node.
Proof. apply node_inv_init; [apply empty_pool_inv|done|done]. Qed.
Lemma empty_node_replica : node_replica empty_node empty_node.
Proof. split; [done|]. apply pool_replica_refl, empty_pool_inv. Qed.
Lemma empty_node_accounted : accounted [] empty_node.
Proof. intros h Hh. by apply elem_of_empty in Hh. Qed.
Lemma example_wire : Forall wire_tx (given example_ops).
Proof. apply Forall_app. split; [apply wire_example|]. apply Forall_app. split; [apply wire_example'|constructor]. Qed.

Lemma group_keeps_one_chain_witness :
  ∃ w sealers c np, example_system = (w, Ret sealers) ∧ NoDup (Tx_hash <$> chain_txs c)
    ∧ w !! "P" = Some np ∧ represents c (chain_view (nd_world (exe_of np)))
    ∧ ∃ n, w !! "B" = Some n ∧ nd_world (exe_of n) = nd_world (exe_of np).
Proof.
  destruct (group_keeps_one_chain total_executor None no_verifier_total "P" (λ _, empty_good) example_sealer 2 [] example_ops)
    as (w & sealers & c & np & H1 & _ & H2 & H3 & H4 & H5 & _).
  - lia.
  - apply (bool_decide_unpack _). vm_compute. exact I.
  - apply example_valid.
  - apply example_wire.
  - apply empty_node_inv.
  - intros _. apply empty_node_accounted.
  - intros _. apply empty_node_replica.
  - reflexivity.
  - reflexivity.
  - vm_compute. reflexivity.
  - exists w, sealers, c, np. split; [exact H1|]. split; [exact H2|]. split; [exact H3|]. split; [exact H4|].
    destruct (H5 "B") as (n & Hn & Hw & _); [apply (bool_decide_unpack _); vm_compute; exact I|].
    exists n. exact (conj Hn Hw).
Defined.
End example.
